(** * Packet protocol and gamma codec of OpenTTD: a shallow embedding

    The development follows three source files:
    - [src/saveload/saveload_buffer.cpp]: the variable-length ("gamma")
      integers of the savegame buffers;
    - [src/network/core/packet.cpp]: the typed, bounds-checked packet buffer;
    - [src/network/core/tcp.cpp]: the per-client send and receive loops.

    Integers are modelled as [Z] with the wrap-around of their C++ type
    written out, bytes as [Z] in [0, 255], byte buffers as [list Z]. *)

From Stdlib Require Import ZArith List Lia Bool String.
From stdpp Require Import base list gmap.

Local Open Scope Z_scope.

(* ===================================================================== *)
(** * Outcomes of a call *)
(* ===================================================================== *)

(** The ways a call can fail to return.  [AssertionFailed] is a violated
    [assert]: the program aborts.  [SlErrorCorrupt] is the savegame loader's
    error for a broken stream (it does not return to its caller).
    [OutOfBounds] is an access outside the storage of a buffer and
    [NullDereference] a call through a null handler pointer: both are
    undefined behaviour in the source and are kept apart from normal
    returns.  [Diverges] is a loop that never leaves. *)
Inductive fault : Type :=
  | AssertionFailed
  | SlErrorCorrupt (msg : string)
  | OutOfBounds
  | NullDereference
  | Diverges.

Inductive result (A : Type) : Type :=
  | Ok (a : A)
  | Fault (f : fault).

Arguments Ok {A} a.
Arguments Fault {A} f.

Definition bind {A B : Type} (r : result A) (k : A -> result B) : result B :=
  match r with
  | Ok a => k a
  | Fault f => Fault f
  end.

Notation "'let*' x ':=' r 'in' k" := (bind r (fun x => k))
  (at level 10, x name, r at level 100, k at level 200).
Notation "'let*' ' pat ':=' r 'in' k" :=
  (bind r (fun x => match x with pat => k end))
  (at level 10, pat pattern, r at level 100, k at level 200).

(** [assert(c)] *)
Definition assert (c : bool) : result unit :=
  if c then Ok tt else Fault AssertionFailed.

(* ===================================================================== *)
(** * Machine integers and bit helpers *)
(* ===================================================================== *)

Module Bitmath.

(** Conversion to an unsigned type of [w] bits. *)
Definition wrap (w x : Z) : Z := x mod 2 ^ w.

Definition to_byte (x : Z) : Z := wrap 8 x.
Definition to_uint16 (x : Z) : Z := wrap 16 x.
Definition to_uint (x : Z) : Z := wrap 32 x.
Definition to_uint64 (x : Z) : Z := wrap 64 x.
(** [size_t] of the 64-bit targets. *)
Definition to_size_t (x : Z) : Z := wrap 64 x.

Definition UINT16_MAX : Z := 65535.

(** Modelled from the spec: [GB(x, s, n)] of core/bitmath_func.hpp, which is
    not among the sources.  It fetches [n] bits of [x] starting at bit [s];
    the packet code uses it to serialise integers "little-endian, one byte
    at a time". *)
Definition GB (x s n : Z) : Z := Z.land (Z.shiftr x s) (Z.shiftl 1 n - 1).

(** Modelled from the spec: [HasBit(x, y)] of core/bitmath_func.hpp, which is
    not among the sources.  It tests bit [y] of [x]; the gamma decoder uses
    it on the indicator bits of the first byte. *)
Definition HasBit (x y : Z) : bool := negb (Z.land x (Z.shiftl 1 y) =? 0).

End Bitmath.
Import Bitmath.

(* ===================================================================== *)
(** * saveload_buffer.cpp *)
(* ===================================================================== *)

Module Saveload.

(** The part of [LoadBuffer] the decoder touches.  [buf] is the unread
    part of the current chunk ([bufp] up to [bufe]); [reader] lists what the
    successive calls of [reader->Read] deliver, an exhausted list or an empty
    chunk being a read of 0 bytes; [read] counts the bytes fetched. *)
Record LoadBuffer : Type := mkLoadBuffer {
  read : Z;
  buf : list Z;
  reader : list (list Z)
}.

(** [LoadBuffer::FillBuffer] *)
Definition FillBuffer (lb : LoadBuffer) : result LoadBuffer :=
  let chunk := match reader lb with [] => [] | c :: _ => c end in
  let len := Z.of_nat (length chunk) in
  if len =? 0 then Fault (SlErrorCorrupt "Unexpected end of stream")
  else Ok {| read := to_size_t (read lb + len);
             buf := chunk;
             reader := tail (reader lb) |}.

(** Modelled from the spec: [LoadBuffer::ReadByte] of saveload_buffer.h, which
    is not among the sources.  The decoder must "read one byte" and "consume
    one more byte" from the stream: the buffer is refilled when the current
    chunk is used up, and the next byte is handed out. *)
Definition ReadByte (lb : LoadBuffer) : result (Z * LoadBuffer) :=
  let* lb := (match buf lb with [] => FillBuffer lb | _ :: _ => Ok lb end) in
  match buf lb with
  | [] => Fault OutOfBounds
  | b :: rest => Ok (b, {| read := read lb; buf := rest; reader := reader lb |})
  end.

(** [i = (i << 8) | this->ReadByte()] on a [uint]. *)
Definition shift_in_byte (i : Z) (lb : LoadBuffer) : result (Z * LoadBuffer) :=
  let* '(b, lb) := ReadByte lb in
  Ok (to_uint (Z.lor (Z.shiftl i 8) b), lb).

(** [i &= ~m] on a [uint]: the [int] mask is converted to [uint]. *)
Definition clear_mask (i m : Z) : Z := Z.land i (to_uint (Z.lnot m)).

(** [LoadBuffer::ReadGamma] *)
Definition ReadGamma (lb : LoadBuffer) : result (Z * LoadBuffer) :=
  let* '(i, lb) := ReadByte lb in
  if HasBit i 7 then
    let i := clear_mask i 0x80 in
    let* '(i, lb) :=
      (if HasBit i 6 then
         let i := clear_mask i 0x40 in
         let* '(i, lb) :=
           (if HasBit i 5 then
              let i := clear_mask i 0x20 in
              if HasBit i 4 then Fault (SlErrorCorrupt "Unsupported gamma")
              else shift_in_byte i lb
            else Ok (i, lb)) in
         shift_in_byte i lb
       else Ok (i, lb)) in
    shift_in_byte i lb
  else Ok (i, lb).

(** The dump of a [SaveDumper]: the bytes written so far, the chunks of
    [AllocBuffer] laid end to end. *)
Record SaveDumper : Type := mkSaveDumper {
  written : list Z
}.

(** Modelled from the spec: [SaveDumper::WriteByte] of saveload_buffer.h,
    which is not among the sources.  One byte is appended to the dump. *)
Definition WriteByte (d : SaveDumper) (b : Z) : result SaveDumper :=
  Ok {| written := written d ++ [b] |}.

(** [SaveDumper::WriteGamma] *)
Definition WriteGamma (d : SaveDumper) (i : Z) : result SaveDumper :=
  let* d :=
    (if i >=? Z.shiftl 1 7 then
       if i >=? Z.shiftl 1 14 then
         let* d :=
           (if i >=? Z.shiftl 1 21 then
              let* _ := assert (i <? Z.shiftl 1 28) in
              let* d := WriteByte d (to_byte (Z.lor 0xE0 (Z.shiftr i 24))) in
              WriteByte d (to_byte (Z.shiftr i 16))
            else WriteByte d (to_byte (Z.lor 0xC0 (Z.shiftr i 16)))) in
         WriteByte d (to_byte (Z.shiftr i 8))
       else WriteByte d (to_byte (Z.lor 0x80 (Z.shiftr i 8)))
     else Ok d) in
  WriteByte d (to_byte i).

(** The bytes still to be read from a [LoadBuffer]: the rest of the
    current chunk, then the chunks of the reader up to the first read that
    delivers nothing. *)
Fixpoint chunks_stream (cs : list (list Z)) : list Z :=
  match cs with
  | [] => []
  | [] :: _ => []
  | (b :: c) :: cs => (b :: c) ++ chunks_stream cs
  end.

Definition remaining (lb : LoadBuffer) : list Z :=
  buf lb ++ chunks_stream (reader lb).

End Saveload.

(* ===================================================================== *)
(** * network/core/packet.cpp *)
(* ===================================================================== *)

Module Net.

(** Modelled from the spec: the typedefs [PacketSize] and [PacketType] of
    packet.h, which is not among the sources.  The frame starts with a
    "uint16 little-endian total_length" and a "uint8 type": [PacketSize] is
    16 bits wide and [PacketType] 8. *)
Definition sizeof_PacketSize : Z := 2.
Definition sizeof_PacketType : Z := 1.
Definition to_PacketSize (x : Z) : Z := to_uint16 x.

(** Modelled from the spec: [NetworkSocketHandler] of core.h, which is not
    among the sources.  The packet only asks whether the connection "has
    already been marked closed" and, on a failed read, closes it: "mark the
    connection such that no further send/receive is attempted on it". *)
Record NetworkSocketHandler : Type := mkHandler {
  has_quit : bool
}.

(** Modelled from the spec: [NetworkSocketHandler::HasClientQuit] of core.h,
    not among the sources: whether the connection "has already been marked
    closed". *)
Definition HasClientQuit (h : NetworkSocketHandler) : bool := has_quit h.

(** Modelled from the spec: [NetworkSocketHandler::CloseConnection] of core.h,
    not among the sources: it must "mark the connection such that no further
    send/receive is attempted on it". *)
Definition CloseConnection (h : NetworkSocketHandler) : NetworkSocketHandler :=
  {| has_quit := true |}.

(** The socket handlers alive, by address.  A packet refers to its handler
    by address ([cs]); the handler is shared with the rest of the network
    code. *)
Abbreviation handlers := (gmap nat NetworkSocketHandler).

(** The members of [Packet].  [pos] is a [PacketSize] (the code casts to
    [PacketSize] what it adds to it), [buffer] the byte vector, [limit] a
    [size_t], [cs] the nullable pointer to the socket handler. *)
Record Packet : Type := mkPacket {
  pos : Z;
  buffer : list Z;
  limit : Z;
  cs : option nat
}.

Definition set_pos (p : Packet) (x : Z) : Packet :=
  {| pos := x; buffer := buffer p; limit := limit p; cs := cs p |}.

Definition set_buffer (p : Packet) (b : list Z) : Packet :=
  {| pos := pos p; buffer := b; limit := limit p; cs := cs p |}.

(** [this->cs->...]: the handler behind the pointer. *)
Definition deref (hs : handlers) (c : option nat) : result NetworkSocketHandler :=
  match c with
  | None => Fault NullDereference
  | Some a => match hs !! a with
              | Some h => Ok h
              | None => Fault NullDereference
              end
  end.

(** [v[i]] on a byte vector or array. *)
Definition load (v : list Z) (i : Z) : result Z :=
  if i <? 0 then Fault OutOfBounds
  else match v !! Z.to_nat i with
       | Some b => Ok b
       | None => Fault OutOfBounds
       end.

(** [v[i] = x] *)
Definition store (v : list Z) (i x : Z) : result (list Z) :=
  if (0 <=? i) && (i <? Z.of_nat (length v)) then Ok (<[Z.to_nat i := x]> v)
  else Fault OutOfBounds.

(** [Packet::Size] *)
Definition Size (p : Packet) : Z := Z.of_nat (length (buffer p)).

(** [buffer.resize(n)]: cut, or filled up with zero bytes. *)
Definition resize (v : list Z) (n : Z) : list Z :=
  take (Z.to_nat n) v ++ replicate (Z.to_nat n - length v) 0.

(** [Packet::CanWriteToPacket] *)
Definition CanWriteToPacket (p : Packet) (bytes_to_write : Z) : bool :=
  to_size_t (Size p + bytes_to_write) <? limit p.

(** ** Sending *)

(** [Packet::Send_uint8] *)
Definition Send_uint8 (p : Packet) (data : Z) : result Packet :=
  let* _ := assert (CanWriteToPacket p 1) in
  Ok (set_buffer p (buffer p ++ [data])).

(** [Packet::Send_bool] *)
Definition Send_bool (p : Packet) (data : bool) : result Packet :=
  Send_uint8 p (if data then 1 else 0).

(** [Packet::Send_uint16] *)
Definition Send_uint16 (p : Packet) (data : Z) : result Packet :=
  let* _ := assert (CanWriteToPacket p 2) in
  Ok (set_buffer p (buffer p ++ [to_byte (GB data 0 8);
                                 to_byte (GB data 8 8)])).

(** [Packet::Send_uint32] *)
Definition Send_uint32 (p : Packet) (data : Z) : result Packet :=
  let* _ := assert (CanWriteToPacket p 4) in
  Ok (set_buffer p (buffer p ++ [to_byte (GB data 0 8);
                                 to_byte (GB data 8 8);
                                 to_byte (GB data 16 8);
                                 to_byte (GB data 24 8)])).

(** [Packet::Send_uint64] *)
Definition Send_uint64 (p : Packet) (data : Z) : result Packet :=
  let* _ := assert (CanWriteToPacket p 8) in
  Ok (set_buffer p (buffer p ++ [to_byte (GB data 0 8);
                                 to_byte (GB data 8 8);
                                 to_byte (GB data 16 8);
                                 to_byte (GB data 24 8);
                                 to_byte (GB data 32 8);
                                 to_byte (GB data 40 8);
                                 to_byte (GB data 48 8);
                                 to_byte (GB data 56 8)])).

(** A C string is given by the characters its pointer leads to; the
    terminator follows the list.  A zero inside the list ends the string
    early, as it does in memory. *)
Fixpoint strlen (data : list Z) : Z :=
  match data with
  | [] => 0
  | c :: data => if c =? 0 then 0 else 1 + strlen data
  end.

(** The copying loop of [Send_string]: every character is appended, the
    terminator included, and the terminator ends the loop. *)
Fixpoint Send_string_loop (buffer data : list Z) : list Z :=
  match data with
  | [] => buffer ++ [0]
  | c :: data => if c =? 0 then buffer ++ [0]
                 else Send_string_loop (buffer ++ [c]) data
  end.

(** [Packet::Send_string] *)
Definition Send_string (p : Packet) (data : list Z) : result Packet :=
  let* _ := assert (CanWriteToPacket p (to_size_t (strlen data + 1))) in
  Ok (set_buffer p (Send_string_loop (buffer p) data)).

(** [Packet::Send_bytes]; the range [begin, end) is the list [data]. *)
Definition Send_bytes (p : Packet) (data : list Z) : result (Z * Packet) :=
  let amount := Z.min (Z.of_nat (length data)) (to_size_t (limit p - Size p)) in
  Ok (amount, set_buffer p (buffer p ++ take (Z.to_nat amount) data)).

(** [Packet::Send_binary]; [data] is the memory behind the pointer. *)
Definition Send_binary (p : Packet) (data : list Z) (size : Z) : result Packet :=
  let* _ := assert (CanWriteToPacket p size) in
  if size >? Z.of_nat (length data) then Fault OutOfBounds
  else Ok (set_buffer p (buffer p ++ take (Z.to_nat size) data)).

(** ** Construction and the frame header *)

(** [Packet::Packet(NetworkSocketHandler *cs, size_t limit,
    size_t initial_read_size)] *)
Definition Packet_for_socket (c : option nat) (limit initial_read_size : Z)
  : result Packet :=
  let* _ := assert (bool_decide (c <> None)) in
  Ok {| pos := 0; buffer := resize [] initial_read_size;
        limit := limit; cs := c |}.

(** [Packet::ResetState] *)
Definition ResetState (p : Packet) (type : Z) : result Packet :=
  let p := {| pos := pos p; buffer := []; limit := limit p; cs := None |} in
  let* p := Send_uint16 p 0 in
  Send_uint8 p type.

(** [Packet::Packet(PacketType type, size_t limit)] *)
Definition Packet_to_send (type limit : Z) : result Packet :=
  ResetState {| pos := 0; buffer := []; limit := limit; cs := None |} type.

(** [Packet::PrepareToSend] *)
Definition PrepareToSend (p : Packet) : result Packet :=
  let* _ := assert (bool_decide (cs p = None)) in
  let* b := store (buffer p) 0 (to_byte (GB (Size p) 0 8)) in
  let* b := store b 1 (to_byte (GB (Size p) 8 8)) in
  Ok {| pos := 0; buffer := b; limit := limit p; cs := cs p |}.

(** [Packet::HasPacketSizeData] *)
Definition HasPacketSizeData (p : Packet) : bool :=
  pos p >=? sizeof_PacketSize.

(** [Packet::ReadRawPacketSize] *)
Definition ReadRawPacketSize (p : Packet) : result Z :=
  let* b0 := load (buffer p) 0 in
  let* b1 := load (buffer p) 1 in
  Ok (to_size_t (b0 + Z.shiftl b1 8)).

(** [Packet::ParsePacketSize] *)
Definition ParsePacketSize (p : Packet) : result (bool * Packet) :=
  let* _ := assert (bool_decide (cs p <> None)) in
  let* b0 := load (buffer p) 0 in
  let size := b0 in
  let* b1 := load (buffer p) 1 in
  let size := to_size_t (size + Z.shiftl b1 8) in
  if (size <? sizeof_PacketSize + sizeof_PacketType) || (size >? limit p)
  then Ok (false, p)
  else Ok (true, {| pos := sizeof_PacketSize; buffer := resize (buffer p) size;
                    limit := limit p; cs := cs p |}).

(** [Packet::PrepareToRead] *)
Definition PrepareToRead (p : Packet) : Packet :=
  set_pos p sizeof_PacketSize.

(** [Packet::GetPacketType] *)
Definition GetPacketType (p : Packet) : result Z :=
  let* _ := assert (Size p >=? sizeof_PacketSize + sizeof_PacketType) in
  load (buffer p) sizeof_PacketSize.

(** [Packet::RemainingBytesToTransfer] *)
Definition RemainingBytesToTransfer (p : Packet) : Z :=
  to_size_t (Size p - pos p).

(** ** Receiving *)

(** [Packet::CanReadFromPacket] *)
Definition CanReadFromPacket (hs : handlers) (p : Packet)
           (bytes_to_read : Z) (close_connection : bool)
  : result (bool * handlers) :=
  let* h := deref hs (cs p) in
  if HasClientQuit h then Ok (false, hs)
  else if to_size_t (pos p + bytes_to_read) >? Size p then
    let hs := if close_connection
              then match cs p with
                   | Some a => <[a := CloseConnection h]> hs
                   | None => hs
                   end
              else hs in
    Ok (false, hs)
  else Ok (true, hs).

(** [this->buffer[this->pos++]] *)
Definition next_byte (p : Packet) : result (Z * Packet) :=
  let* b := load (buffer p) (pos p) in
  Ok (b, set_pos p (to_PacketSize (pos p + 1))).

(** [Packet::Recv_uint8] *)
Definition Recv_uint8 (hs : handlers) (p : Packet)
  : result (Z * handlers * Packet) :=
  let* '(ok, hs) := CanReadFromPacket hs p 1 true in
  if negb ok then Ok (0, hs, p)
  else
    let* '(b, p) := next_byte p in
    let n := to_byte b in
    Ok (n, hs, p).

(** [Packet::Recv_bool] *)
Definition Recv_bool (hs : handlers) (p : Packet)
  : result (bool * handlers * Packet) :=
  let* '(n, hs, p) := Recv_uint8 hs p in
  Ok (negb (n =? 0), hs, p).

(** [Packet::Recv_uint16] *)
Definition Recv_uint16 (hs : handlers) (p : Packet)
  : result (Z * handlers * Packet) :=
  let* '(ok, hs) := CanReadFromPacket hs p 2 true in
  if negb ok then Ok (0, hs, p)
  else
    let* '(b, p) := next_byte p in
    let n := to_uint16 b in
    let* '(b, p) := next_byte p in
    let n := to_uint16 (n + Z.shiftl (to_uint16 b) 8) in
    Ok (n, hs, p).

(** [Packet::Recv_uint32] *)
Definition Recv_uint32 (hs : handlers) (p : Packet)
  : result (Z * handlers * Packet) :=
  let* '(ok, hs) := CanReadFromPacket hs p 4 true in
  if negb ok then Ok (0, hs, p)
  else
    let* '(b, p) := next_byte p in
    let n := to_uint b in
    let* '(b, p) := next_byte p in
    let n := to_uint (n + to_uint (Z.shiftl (to_uint b) 8)) in
    let* '(b, p) := next_byte p in
    let n := to_uint (n + to_uint (Z.shiftl (to_uint b) 16)) in
    let* '(b, p) := next_byte p in
    let n := to_uint (n + to_uint (Z.shiftl (to_uint b) 24)) in
    Ok (n, hs, p).

(** [Packet::Recv_uint64] *)
Definition Recv_uint64 (hs : handlers) (p : Packet)
  : result (Z * handlers * Packet) :=
  let* '(ok, hs) := CanReadFromPacket hs p 8 true in
  if negb ok then Ok (0, hs, p)
  else
    let* '(b, p) := next_byte p in
    let n := to_uint64 b in
    let* '(b, p) := next_byte p in
    let n := to_uint64 (n + to_uint64 (Z.shiftl (to_uint64 b) 8)) in
    let* '(b, p) := next_byte p in
    let n := to_uint64 (n + to_uint64 (Z.shiftl (to_uint64 b) 16)) in
    let* '(b, p) := next_byte p in
    let n := to_uint64 (n + to_uint64 (Z.shiftl (to_uint64 b) 24)) in
    let* '(b, p) := next_byte p in
    let n := to_uint64 (n + to_uint64 (Z.shiftl (to_uint64 b) 32)) in
    let* '(b, p) := next_byte p in
    let n := to_uint64 (n + to_uint64 (Z.shiftl (to_uint64 b) 40)) in
    let* '(b, p) := next_byte p in
    let n := to_uint64 (n + to_uint64 (Z.shiftl (to_uint64 b) 48)) in
    let* '(b, p) := next_byte p in
    let n := to_uint64 (n + to_uint64 (Z.shiftl (to_uint64 b) 56)) in
    Ok (n, hs, p).

(** [Packet::Recv_binary(char *buffer, size_t size)]; [dest] is the
    caller's array. *)
Definition Recv_binary (hs : handlers) (p : Packet) (dest : list Z) (size : Z)
  : result (list Z * handlers * Packet) :=
  let* '(ok, hs) := CanReadFromPacket hs p size true in
  if negb ok then Ok (dest, hs, p)
  else if (size >? Z.of_nat (length dest))
          || (pos p + size >? Size p) then Fault OutOfBounds
  else
    let src := take (Z.to_nat size) (drop (Z.to_nat (pos p)) (buffer p)) in
    Ok (src ++ drop (Z.to_nat size) dest, hs,
        set_pos p (to_PacketSize (pos p + to_PacketSize size))).

(** [Packet::Recv_binary(std::string &buffer, size_t size)]; [out] is the
    caller's string. *)
Definition Recv_binary_string (hs : handlers) (p : Packet) (out : list Z) (size : Z)
  : result (list Z * handlers * Packet) :=
  let* '(ok, hs) := CanReadFromPacket hs p size true in
  if negb ok then Ok (out, hs, p)
  else if pos p + size >? Size p then Fault OutOfBounds
  else
    Ok (take (Z.to_nat size) (drop (Z.to_nat (pos p)) (buffer p)), hs,
        set_pos p (to_PacketSize (pos p + to_PacketSize size))).

(** *** Strings *)

(** The state of the loops of [Recv_string]: the local variables [size] and
    [pos], the offset of the write pointer [buffer] from the start [bufp]
    of the destination, and the destination array. *)
Record copy_state : Type := mkCopy {
  c_size : Z;
  c_pos : Z;
  c_off : Z;
  c_dest : list Z
}.

(** The first loop of [Recv_string]: the three conditions in their order,
    with the decrement of [size], the write through the destination pointer
    and the two increments.  Every turn that goes on has written one more
    element of the destination, so [S (length dest)] turns are enough. *)
Fixpoint Recv_string_copy (fuel : nat) (p : Packet) (s : copy_state)
  : result copy_state :=
  match fuel with
  | O => Fault Diverges
  | S fuel =>
      let size := to_size_t (c_size s - 1) in
      if negb (size >? 0) then
        Ok {| c_size := size; c_pos := c_pos s; c_off := c_off s;
              c_dest := c_dest s |}
      else if negb (c_pos s <? Size p) then
        Ok {| c_size := size; c_pos := c_pos s; c_off := c_off s;
              c_dest := c_dest s |}
      else
        let* c := load (buffer p) (c_pos s) in
        let* dest := store (c_dest s) (c_off s) c in
        let s' := {| c_size := size; c_pos := to_PacketSize (c_pos s + 1);
                     c_off := c_off s + 1; c_dest := dest |} in
        if negb (c =? 0) then Recv_string_copy fuel p s' else Ok s'
  end.

(** The second loop of [Recv_string], which skips to the terminator.  [pos]
    is a [PacketSize]: when the loop has gone through [min (Size, 2^16)]
    positions without leaving, it never leaves. *)
Fixpoint Recv_string_skip (fuel : nat) (p : Packet) (pos : Z) : result Z :=
  match fuel with
  | O => Fault Diverges
  | S fuel =>
      if negb (pos <? Size p) then Ok pos
      else
        let* c := load (buffer p) pos in
        if negb (c =? 0) then Recv_string_skip fuel p (to_PacketSize (pos + 1))
        else Ok pos
  end.

Definition skip_fuel (p : Packet) : nat :=
  S (Z.to_nat (Z.min (Size p) (2 ^ 16))).

(** Modelled from the spec: [ttd_strnlen] of string_func.h, which is not
    among the sources.  It counts the bytes before the first NUL, at most
    [maxlen] of them ("reads bytes until a NUL or buffer end"); [str] is the
    memory from the pointer to the end of the storage, and a read behind it
    is out of bounds. *)
Fixpoint ttd_strnlen (str : list Z) (maxlen : Z) : result Z :=
  match str with
  | [] => if maxlen >? 0 then Fault OutOfBounds else Ok 0
  | c :: str =>
      if negb (maxlen >? 0) then Ok 0
      else if c =? 0 then Ok 0
      else let* n := ttd_strnlen str (maxlen - 1) in Ok (n + 1)
  end.

Section Validation.

(** The string sanitiser of string.cpp is not among the sources.
    [str_validate settings s] stands for the text it leaves of the text
    [s]; what is proved below holds for every such function. *)
Variable str_validate : Z -> list Z -> list Z.

(** [str_validate(bufp, last, settings)]: the NUL-terminated text in the
    first [last + 1] elements of the array is replaced by its sanitised
    form, NUL-terminated. *)
Definition str_validate_in_place (dest : list Z) (last settings : Z) : list Z :=
  let s := take (Z.to_nat (strlen (take (Z.to_nat (last + 1)) dest))) dest in
  let s' := str_validate settings s in
  s' ++ 0 :: drop (S (length s')) dest.

(** [Packet::Recv_string(char *buffer, size_t size,
    StringValidationSettings settings)]; [dest] is the caller's array. *)
Definition Recv_string (hs : handlers) (p : Packet)
           (dest : list Z) (size settings : Z)
  : result (list Z * handlers * Packet) :=
  let last := size - 1 in
  let* h := deref hs (cs p) in
  if HasClientQuit h then Ok (dest, hs, p)
  else
    let* s := Recv_string_copy (S (length dest)) p
                {| c_size := size; c_pos := pos p; c_off := 0;
                   c_dest := dest |} in
    let* s :=
      (if (c_size s =? 0) || (c_pos s =? Size p) then
         let* dest := store (c_dest s) (c_off s) 0 in
         let* pos := Recv_string_skip (skip_fuel p) p (c_pos s) in
         Ok {| c_size := c_size s; c_pos := to_PacketSize (pos + 1);
               c_off := c_off s; c_dest := dest |}
       else Ok s) in
    let p := set_pos p (c_pos s) in
    Ok (str_validate_in_place (c_dest s) last settings, hs, p).

(** [Packet::Recv_string(std::string &buffer,
    StringValidationSettings settings)]; [out] is the caller's string. *)
Definition Recv_string_std (hs : handlers) (p : Packet)
           (out : list Z) (settings : Z)
  : result (list Z * handlers * Packet) :=
  let* h := deref hs (cs p) in
  if HasClientQuit h then Ok (out, hs, p)
  else
    let src := drop (Z.to_nat (pos p)) (buffer p) in
    let* length := ttd_strnlen src (to_size_t (Size p - pos p - 1)) in
    let out := take (Z.to_nat length) src in
    let p := set_pos p (to_PacketSize (pos p + to_uint (to_uint length + 1))) in
    Ok (str_validate settings out, hs, p).

End Validation.

End Net.

(* ===================================================================== *)
(** * network/core/tcp.cpp *)
(* ===================================================================== *)

Module Tcp.

(** tcp.cpp works on the members of a packet directly: the byte array
    [buffer], the frame length [size] and the cursor [pos], both of type
    [PacketSize]; the packets of a queue are chained through [next], which
    the model renders as the order of a list. *)
Record Packet : Type := mkPacket {
  buffer : list Z;
  size : Z;
  pos : Z
}.

(** What the operating system does on a call of [send] or [recv].  A
    socket carries the script of its future: one entry is used up per call
    (a [recv] that takes only a part of the bytes at hand leaves the rest for
    the next call); a socket without entries left would block. *)
Inductive send_event : Type :=
  | SendWouldBlock
  | SendError (err : Z)
  | SendAccept (n : Z).

Inductive recv_event : Type :=
  | RecvWouldBlock
  | RecvError (err : Z)
  | RecvClosed
  | RecvData (bytes : list Z).

(** [wire] collects the bytes the socket has accepted for sending, in
    order. *)
Record Network : Type := mkNetwork {
  wire : list Z;
  send_script : list send_event;
  recv_script : list recv_event;
  closed : bool
}.

(** [EWOULDBLOCK] of the system headers; only its being different from the
    other errors matters. *)
Definition EWOULDBLOCK : Z := 11.

(** [send(sock, data, len, 0)] with [GET_LAST_ERROR()]: the result, the
    error and the network afterwards.  The system takes at most [len]
    bytes. *)
Definition send (net : Network) (data : list Z) (len : Z) : Z * Z * Network :=
  match send_script net with
  | [] => (-1, EWOULDBLOCK, net)
  | ev :: script =>
      let net := {| wire := wire net; send_script := script;
                    recv_script := recv_script net; closed := closed net |} in
      match ev with
      | SendWouldBlock => (-1, EWOULDBLOCK, net)
      | SendError err => (-1, err, net)
      | SendAccept n =>
          let res := Z.max 0 (Z.min n len) in
          (res, 0,
           {| wire := wire net ++ take (Z.to_nat res) data;
              send_script := send_script net;
              recv_script := recv_script net; closed := closed net |})
      end
  end.

(** [recv(sock, dest, len, 0)] with [GET_LAST_ERROR()]: the result, the
    error, the bytes delivered and the network afterwards. *)
Definition recv (net : Network) (len : Z) : Z * Z * list Z * Network :=
  let with_script script :=
    {| wire := wire net; send_script := send_script net;
       recv_script := script; closed := closed net |} in
  match recv_script net with
  | [] => (-1, EWOULDBLOCK, [], net)
  | RecvWouldBlock :: script => (-1, EWOULDBLOCK, [], with_script script)
  | RecvError err :: script => (-1, err, [], with_script script)
  | RecvClosed :: script => (0, 0, [], with_script script)
  | RecvData bytes :: script =>
      let got := take (Z.to_nat len) bytes in
      let left := drop (Z.to_nat len) bytes in
      (Z.of_nat (length got), 0, got,
       with_script (match left with
                    | [] => script
                    | _ :: _ => RecvData left :: script
                    end))
  end.

(** [NetworkRecvStatus], as far as tcp.cpp names it. *)
Inductive NetworkRecvStatus : Type :=
  | NETWORK_RECV_STATUS_OKAY
  | NETWORK_RECV_STATUS_CONN_LOST.

(** The members of [NetworkClientSocket] that tcp.cpp touches.
    [sock = None] is [INVALID_SOCKET]. *)
Record NetworkClientSocket : Type := mkClient {
  sock : option nat;
  client_id : Z;
  status : Z;
  writable : bool;
  has_quit : bool;
  packet_queue : list Packet;
  packet_recv : option Packet;
  command_queue : list Z
}.

(** The constants of network_type.h and tcp.h the destructor stores; the
    headers are not among the sources and the values play no part. *)
Definition INVALID_CLIENT_ID : Z := 0.
Definition STATUS_INACTIVE : Z := 0.

(** The values of [_switch_mode] that matter here. *)
Inductive SwitchMode : Type := SM_NONE | SM_MENU.

(** The globals [CloseConnection] reads and writes. *)
Record Globals : Type := mkGlobals {
  _network_server : bool;
  _networking : bool;
  _switch_mode : SwitchMode;
  _switch_mode_errorstr : option string
}.

Record World : Type := mkWorld {
  client : NetworkClientSocket;
  globals : Globals;
  net : Network
}.

Definition set_client (w : World) (c : NetworkClientSocket) : World :=
  {| client := c; globals := globals w; net := net w |}.

Definition set_queue (c : NetworkClientSocket) (q : list Packet)
  : NetworkClientSocket :=
  {| sock := sock c; client_id := client_id c; status := status c;
     writable := writable c; has_quit := has_quit c;
     packet_queue := q; packet_recv := packet_recv c;
     command_queue := command_queue c |}.

Definition set_recv (c : NetworkClientSocket) (p : option Packet)
  : NetworkClientSocket :=
  {| sock := sock c; client_id := client_id c; status := status c;
     writable := writable c; has_quit := has_quit c;
     packet_queue := packet_queue c; packet_recv := p;
     command_queue := command_queue c |}.

(** [NetworkClientSocket::~NetworkClientSocket] *)
Definition destroy (w : World) : World :=
  let n := net w in
  {| client := {| sock := None; client_id := INVALID_CLIENT_ID;
                  status := STATUS_INACTIVE; writable := false;
                  has_quit := true; packet_queue := [];
                  packet_recv := None; command_queue := [] |};
     globals := globals w;
     net := {| wire := wire n; send_script := send_script n;
               recv_script := recv_script n;
               closed := match sock (client w) with
                         | Some _ => true
                         | None => closed n
                         end |} |}.

(** Modelled from the spec: [NetworkCloseClient] of network.cpp, which is not
    among the sources.  "A hosting peer that loses a client simply removes
    that client's connection state", and the closing must "release all
    queued outgoing buffers and any partially received buffer" and "mark the
    connection such that no further send/receive is attempted on it": the
    client socket is destroyed. *)
Definition NetworkCloseClient (w : World) : World := destroy w.

(** [NetworkClientSocket::CloseConnection] *)
Definition CloseConnection (w : World) : NetworkRecvStatus * World :=
  let g := globals w in
  if negb (_network_server g) && _networking g then
    (NETWORK_RECV_STATUS_CONN_LOST,
     {| client := client w;
        globals := {| _network_server := _network_server g;
                      _networking := false;
                      _switch_mode := SM_MENU;
                      _switch_mode_errorstr :=
                        Some "STR_NETWORK_ERR_LOSTCONNECTION"%string |};
        net := net w |})
  else (NETWORK_RECV_STATUS_OKAY, NetworkCloseClient w).

(** Modelled from the spec: [NetworkSocketHandler::IsConnected] of core.h,
    which is not among the sources: the connection has a socket, no
    "send/receive is attempted" on a closed one. *)
Definition IsConnected (c : NetworkClientSocket) : bool :=
  bool_decide (sock c <> None).

(** [Packet::PrepareToSend] of packet.cpp, on the members tcp.cpp uses:
    the size goes into the first two bytes and the cursor to the start. *)
Definition PrepareToSend (p : Packet) : result Packet :=
  let* b := Net.store (buffer p) 0 (to_byte (GB (size p) 0 8)) in
  let* b := Net.store b 1 (to_byte (GB (size p) 8 8)) in
  Ok {| buffer := b; size := size p; pos := 0 |}.

(** [NetworkClientSocket::Send_Packet] *)
Definition Send_Packet (w : World) (packet : Packet) : result World :=
  let* packet := PrepareToSend packet in
  Ok (set_client w (set_queue (client w) (packet_queue (client w) ++ [packet]))).

(** The loop of [Send_Packets] over the queue.  It hands back the queue
    that is left and the way out: [true] for the calls of [CloseConnection]
    (the function then returns [false]), [false] for the returns of
    [true]. *)
Fixpoint Send_Packets_loop (queue : list Packet) (n : Network)
  : bool * list Packet * Network :=
  match queue with
  | [] => (false, [], n)
  | p :: next =>
      let '(res, err, n) :=
        send n (take (Z.to_nat (size p - pos p)) (drop (Z.to_nat (pos p)) (buffer p)))
             (size p - pos p) in
      if res =? -1 then
        if negb (err =? EWOULDBLOCK) then (true, p :: next, n)
        else (false, p :: next, n)
      else if res =? 0 then (true, p :: next, n)
      else
        let p := {| buffer := buffer p; size := size p;
                    pos := Net.to_PacketSize (pos p + res) |} in
        if pos p =? size p then Send_Packets_loop next n
        else (false, p :: next, n)
  end.

(** [NetworkClientSocket::Send_Packets] *)
Definition Send_Packets (w : World) : bool * World :=
  if negb (writable (client w)) then (false, w)
  else if negb (IsConnected (client w)) then (false, w)
  else
    let '(close, queue, n) :=
      Send_Packets_loop (packet_queue (client w)) (net w) in
    let w := {| client := set_queue (client w) queue;
                globals := globals w; net := n |} in
    if close then (false, snd (CloseConnection w)) else (true, w).

(** [NetworkClientSocket::IsPacketQueueEmpty] *)
Definition IsPacketQueueEmpty (c : NetworkClientSocket) : bool :=
  match packet_queue c with [] => true | _ :: _ => false end.

(** ** Receiving *)

(** How a receiving loop of [Recv_Packet] ends: the bytes are there
    ([Filled]), the function returns [NULL] because the socket would block
    ([Yield]), or it closes the connection and returns [NULL] ([Close]).
    [Overrun] is a [recv] that writes behind the end of the array of the
    packet: undefined behaviour in the source.
    [Stalled] marks the end of the model's iteration bound; the bound is the
    number of bytes missing and every turn of the loop brings at least one
    byte, so it is not reached. *)
Inductive loop_exit : Type := Filled | Yield | Close | Overrun | Stalled.

(** The bytes of [got] written into the array from offset [at] on; a write
    that passes the end of the array is out of bounds. *)
Definition write_at (v : list Z) (at_ : Z) (got : list Z) : result (list Z) :=
  if (Z.to_nat at_ + length got <=? length v)%nat
  then Ok (take (Z.to_nat at_) v ++ got ++ drop (Z.to_nat at_ + length got) v)
  else Fault OutOfBounds.

(** [while (p->pos < bound) { res = recv(...); ... p->pos += res; }]: the
    two loops of [Recv_Packet] differ in the bound only. *)
Fixpoint recv_loop (fuel : nat) (bound : Z) (p : Packet) (n : Network)
  : loop_exit * Packet * Network :=
  if negb (pos p <? bound) then (Filled, p, n)
  else
    match fuel with
    | O => (Stalled, p, n)
    | S fuel =>
        let '(res, err, got, n) := recv n (bound - pos p) in
        if res =? -1 then
          if negb (err =? EWOULDBLOCK) then (Close, p, n) else (Yield, p, n)
        else if res =? 0 then (Close, p, n)
        else
          match write_at (buffer p) (pos p) got with
          | Fault _ => (Overrun, p, n)
          | Ok b =>
              recv_loop fuel bound
                        {| buffer := b;
                           size := size p;
                           pos := Net.to_PacketSize (pos p + res) |} n
          end
    end.

(** [Packet::ReadRawPacketSize] of packet.cpp, on the members tcp.cpp uses:
    tcp.cpp calls it for its effect and reads [p->size] afterwards, so the
    length decoded from the first two bytes is stored in [size]. *)
Definition ReadRawPacketSize (p : Packet) : result Packet :=
  let* b0 := Net.load (buffer p) 0 in
  let* b1 := Net.load (buffer p) 1 in
  Ok {| buffer := buffer p;
        size := Net.to_PacketSize (b0 + Z.shiftl b1 8);
        pos := pos p |}.

(** [Packet::PrepareToRead] of packet.cpp, on the members tcp.cpp uses. *)
Definition PrepareToRead (p : Packet) : Packet :=
  {| buffer := buffer p; size := size p; pos := Net.sizeof_PacketSize |}.

Section Receive.

(** [SEND_MTU] of config.h, which is not among the sources: the size
    of the byte array of a packet and the largest frame accepted. *)
Variable SEND_MTU : Z.

(** Modelled from the spec: the constructor [Packet(this)] tcp.cpp calls,
    which is not among the sources.  An incoming packet is "created with a
    small fixed capacity for incoming use", nothing read and no length
    known yet. *)
Definition new_Packet : Packet :=
  {| buffer := replicate (Z.to_nat SEND_MTU) 0; size := 0; pos := 0 |}.

(** What [Recv_Packet] does once a loop has ended otherwise than
    [Filled]. *)
Definition Recv_Packet_leave (w : World) (exit : loop_exit)
           (p : Packet) (n : Network)
  : option Packet * NetworkRecvStatus * World :=
  let w := {| client := set_recv (client w) (Some p);
              globals := globals w; net := n |} in
  match exit with
  | Close => let '(st, w) := CloseConnection w in (None, st, w)
  | _ => (None, NETWORK_RECV_STATUS_OKAY, w)
  end.

(** [NetworkClientSocket::Recv_Packet]: the packet delivered (or [None]
    for [NULL]), the status and the world afterwards. *)
Definition Recv_Packet (w : World)
  : result (option Packet * NetworkRecvStatus * World) :=
  if negb (IsConnected (client w)) then
    Ok (None, NETWORK_RECV_STATUS_OKAY, w)
  else
    let p := match packet_recv (client w) with
             | Some p => p
             | None => new_Packet
             end in
    (* Read packet size *)
    let* '(exit, p, n) :=
      (if pos p <? Net.sizeof_PacketSize then
         match recv_loop (Z.to_nat Net.sizeof_PacketSize)
                         Net.sizeof_PacketSize p (net w) with
         | (Filled, p, n) =>
             let* p := ReadRawPacketSize p in
             if size p >? SEND_MTU then Ok (Close, p, n)
             else Ok (Filled, p, n)
         | (Overrun, _, _) => Fault OutOfBounds
         | other => Ok other
         end
       else Ok (Filled, p, net w)) in
    match exit with
    | Filled =>
        (* Read rest of packet *)
        match recv_loop (Z.to_nat (size p)) (size p) p n with
        | (Filled, p, n) =>
            Ok (Some (PrepareToRead p), NETWORK_RECV_STATUS_OKAY,
                {| client := set_recv (client w) None;
                   globals := globals w; net := n |})
        | (Overrun, _, _) => Fault OutOfBounds
        | (exit, p, n) => Ok (Recv_Packet_leave w exit p n)
        end
    | _ => Ok (Recv_Packet_leave w exit p n)
    end.

End Receive.

End Tcp.

(* ===================================================================== *)
(** * saveload_buffer.cpp: the blocks of a dump *)
(* ===================================================================== *)

Module Dump.

(** What [Flush] asks of the [SaveFilter] it is given, call by call:
    [writer->Write(block, n)] with the [n] bytes it is handed, and
    [writer->Finish()]. *)
Inductive filter_call : Type :=
  | FilterWrite (bytes : list Z)
  | FilterFinish.

(** The members of [SaveDumper] that [AllocBuffer] and [Flush] touch: the
    blocks allocated so far, in order, and the write pointer [buf] and the
    end [bufe] of the block being filled, as offsets into the last block. *)
Record SaveDumper : Type := mkSaveDumper {
  blocks : list (list Z);
  buf : Z;
  bufe : Z
}.

Section Chunks.

(** [MEMORY_CHUNK_SIZE] of saveload_buffer.h, which is not among the
    sources: the number of bytes of one block. *)
Variable MEMORY_CHUNK_SIZE : Z.

(** [SaveDumper::AllocBuffer]; [CallocT] hands out a zeroed block. *)
Definition AllocBuffer (d : SaveDumper) : SaveDumper :=
  {| blocks := blocks d ++ [replicate (Z.to_nat MEMORY_CHUNK_SIZE) 0];
     buf := 0;
     bufe := MEMORY_CHUNK_SIZE |}.

(** The loop of [Flush]: [i] is a [uint], [t] a [size_t]; [calls] collects
    what the writer has been asked so far.  A turn takes at least one byte
    off [t] when the blocks are not empty, so [t] turns are enough. *)
Fixpoint Flush_loop (fuel : nat) (d : SaveDumper) (i t : Z)
         (calls : list filter_call) : result (list filter_call) :=
  if negb (t >? 0) then Ok calls
  else
    match fuel with
    | O => Fault Diverges
    | S fuel =>
        let to_write := Z.min MEMORY_CHUNK_SIZE t in
        match blocks d !! Z.to_nat i with
        | None => Fault OutOfBounds
        | Some block =>
            if to_write >? Z.of_nat (length block) then Fault OutOfBounds
            else
              Flush_loop fuel d (to_uint (i + 1)) (to_size_t (t - to_write))
                         (calls ++ [FilterWrite (take (Z.to_nat to_write) block)])
        end
    end.

(** [SaveDumper::Flush].  [GetSize] of saveload_buffer.h is not among the
    sources: the number of bytes it reports is the parameter [size]. *)
Definition Flush (d : SaveDumper) (size : Z) : result (list filter_call) :=
  let* calls := Flush_loop (Z.to_nat size) d 0 size [] in
  Ok (calls ++ [FilterFinish]).

End Chunks.

End Dump.

(* ===================================================================== *)
(** * settings.cpp: the text helpers of the configuration file *)
(* ===================================================================== *)

Module Settings.

Import Ascii.

(** A [const char *] is given by the memory from the pointer to the end of
    its object, the terminator included: [p[i]] is [Net.load p i], a read
    behind the object is out of bounds, and [p + n] is [drop n p].  A [char]
    is its code, from 0 to 255. *)

(** A character literal of the source. *)
Definition chr (c : ascii) : Z := Z.of_N (N_of_ascii c).

(** [(size_t)-1] *)
Definition SIZE_MAX : Z := to_size_t (-1).

(** [strlen] of the C library. *)
Fixpoint strlen (s : list Z) : result Z :=
  match s with
  | [] => Fault OutOfBounds
  | c :: s => if c =? 0 then Ok 0 else let* n := strlen s in Ok (n + 1)
  end.

(** [memcmp(a, b, n) == 0] of the C library: both objects hold [n] bytes. *)
Definition memcmp_equal (a b : list Z) (n : Z) : result bool :=
  if (Z.of_nat (length a) <? n) || (Z.of_nat (length b) <? n)
  then Fault OutOfBounds
  else Ok (bool_decide (take (Z.to_nat n) a = take (Z.to_nat n) b)).

(** ** [LookupOneOfMany] *)

(** "find end of item": the loop that moves [s] from [many] to the next
    bar or NUL; the result is [s - many]. *)
Fixpoint item_end (s : list Z) : result Z :=
  match s with
  | [] => Fault OutOfBounds
  | c :: s =>
      if negb (c =? chr "|") && negb (c =? 0)
      then let* n := item_end s in Ok (n + 1)
      else Ok 0
  end.

(** The [for (;;)] of [LookupOneOfMany].  A turn that goes on moves [many]
    behind a bar, so the length of [many] bounds the number of turns. *)
Fixpoint LookupOneOfMany_loop (fuel : nat) (many one : list Z) (onelen idx : Z)
  : result Z :=
  match fuel with
  | O => Fault Diverges
  | S fuel =>
      let* n := item_end many in
      let s := drop (Z.to_nat n) many in
      let* found :=
        (if n =? onelen then memcmp_equal one many onelen else Ok false) in
      if found then Ok idx
      else
        let* c := Net.load s 0 in
        if c =? 0 then Ok SIZE_MAX
        else LookupOneOfMany_loop fuel (drop 1 s) one onelen (to_size_t (idx + 1))
  end.

Section Library.

(** [strtoul(p, &end, 0)] of the C library: the value and [end - p]. *)
Variable strtoul : list Z -> Z * Z.

(** [SetBit(x, y)] of core/bitmath_func.hpp, which is not among the
    sources. *)
Variable SetBit : Z -> Z -> Z.

(** [LookupOneOfMany] *)
Definition LookupOneOfMany (many one : list Z) (onelen : Z) : result Z :=
  let* onelen := (if onelen =? 0 then strlen one else Ok onelen) in
  let* c := Net.load one 0 in
  if (c >=? chr "0") && (c <=? chr "9") then Ok (to_size_t (fst (strtoul one)))
  else LookupOneOfMany_loop (S (length many)) many one onelen 0.

(** ** [LookupManyOfMany] *)

(** [c] is a blank, a tab or a bar. *)
Definition is_separator (c : Z) : bool :=
  (c =? chr " ") || (c =? 9) || (c =? chr "|").

(** "skip whitespace": the memory from the first character on that is no
    separator. *)
Fixpoint skip_separators (str : list Z) : result (list Z) :=
  match str with
  | [] => Fault OutOfBounds
  | c :: tl => if is_separator c then skip_separators tl else Ok str
  end.

(** The loop that moves [s] from [str] to the end of the word; the result is
    [s - str]. *)
Fixpoint word_end (s : list Z) : result Z :=
  match s with
  | [] => Fault OutOfBounds
  | c :: s =>
      if negb (c =? 0) && negb (is_separator c)
      then let* n := word_end s in Ok (n + 1)
      else Ok 0
  end.

(** The [for (;;)] of [LookupManyOfMany]; a turn that goes on takes at least
    two characters off [str]. *)
Fixpoint LookupManyOfMany_loop (fuel : nat) (many str : list Z) (res : Z)
  : result Z :=
  match fuel with
  | O => Fault Diverges
  | S fuel =>
      let* str := skip_separators str in
      let* c := Net.load str 0 in
      if c =? 0 then Ok res
      else
        let* n := word_end str in
        let s := drop (Z.to_nat n) str in
        let* r := LookupOneOfMany many str n in
        if r =? SIZE_MAX then Ok r
        else
          let res := SetBit res (to_byte r) in
          let* c := Net.load s 0 in
          if c =? 0 then Ok res
          else LookupManyOfMany_loop fuel many (drop 1 s) res
  end.

(** [LookupManyOfMany] *)
Definition LookupManyOfMany (many str : list Z) : result Z :=
  LookupManyOfMany_loop (S (length str)) many str 0.

(** ** [ParseIntList] *)

(** The [while] of [ParseIntList<unsigned long>], the instance that
    [LoadIntList] uses: no clamping takes place.  [items] is the array, [n]
    the number of items read so far. *)
Fixpoint ParseIntList_loop (fuel : nat) (p items : list Z) (n : Z)
         (comma : bool) (maxitems : Z) : result (Z * list Z) :=
  match fuel with
  | O => Fault Diverges
  | S fuel =>
      let* c := Net.load p 0 in
      if c =? 0 then
        if negb (n =? 0) && negb comma then Ok (-1, items) else Ok (n, items)
      else if c =? chr "," then
        if negb comma then Ok (-1, items)
        else ParseIntList_loop fuel (drop 1 p) items n false maxitems
      else if c =? chr " " then
        ParseIntList_loop fuel (drop 1 p) items n comma maxitems
      else if n =? maxitems then Ok (-1, items)
      else
        let '(v, len) := strtoul p in
        if len =? 0 then Ok (-1, items)
        else
          let* items := Net.store items n v in
          ParseIntList_loop fuel (drop (Z.to_nat len) p) items (n + 1) true
                            maxitems
  end.

(** [ParseIntList]: the value returned and the array. *)
Definition ParseIntList (p items : list Z) (maxitems : Z) : result (Z * list Z) :=
  ParseIntList_loop (S (length p)) p items 0 false maxitems.

(** ** [LoadIntList] *)

(** The values of [VarType] (saveload.h, not among the sources) that
    [LoadIntList] tells apart, and the others. *)
Inductive VarType : Type :=
  | SLE_VAR_BL | SLE_VAR_I8 | SLE_VAR_U8
  | SLE_VAR_I16 | SLE_VAR_U16
  | SLE_VAR_I32 | SLE_VAR_U32
  | SLE_VAR_other.

(** [for (i = 0; i != nitems; i++) array[i] = items[i]], the array being
    one of [byte], [uint16] or [uint32]: [conv] is the conversion to the
    type of its elements.  The loop leaves [items] before the fuel is used
    up. *)
Fixpoint LoadIntList_copy (fuel : nat) (conv : Z -> Z) (i nitems : Z)
         (items array : list Z) : result (list Z) :=
  if i =? nitems then Ok array
  else
    match fuel with
    | O => Fault Diverges
    | S fuel =>
        let* v := Net.load items i in
        let* array := Net.store array i (conv v) in
        LoadIntList_copy fuel conv (i + 1) nitems items array
    end.

(** [LoadIntList]: the value returned and the array.  [stack] is what the
    local array [items], of 64 elements, holds when the function is
    entered; a null pointer [str] is [None]. *)
Definition LoadIntList (stack : list Z) (str : option (list Z))
           (array : list Z) (nelems : Z) (type : VarType)
  : result (bool * list Z) :=
  let switch items nitems :=
    let copy conv :=
      let* array :=
        LoadIntList_copy (S (length items)) conv 0 nitems items array in
      Ok (true, array) in
    match type with
    | SLE_VAR_BL | SLE_VAR_I8 | SLE_VAR_U8 => copy to_byte
    | SLE_VAR_I16 | SLE_VAR_U16 => copy to_uint16
    | SLE_VAR_I32 | SLE_VAR_U32 => copy to_uint
    | SLE_VAR_other => Fault AssertionFailed
    end in
  match str with
  | None => switch (replicate 64 0) nelems
  | Some str =>
      let* '(nitems, items) := ParseIntList str stack 64 in
      if negb (nitems =? nelems) then Ok (false, array)
      else switch items nitems
  end.

End Library.

(** ** [MakeOneOfMany] *)

(** What [MakeOneOfMany] does with its buffer: it copies a name into it, or
    it calls [seprintf(buf, last, "%d", orig_id)] of string.cpp, which is not
    among the sources. *)
Inductive made : Type :=
  | Copied (buf : list Z)
  | Printed (orig_id : Z).

(** The [for] that looks for the next bar: the memory behind the bar, or
    nothing when the list ends first. *)
Fixpoint next_item (many : list Z) : result (option (list Z)) :=
  match many with
  | [] => Fault OutOfBounds
  | c :: tl =>
      if negb (c =? chr "|") then
        if c =? 0 then Ok None else next_item tl
      else Ok (Some tl)
  end.

(** "Look for the id'th element": [while (--id >= 0)].  [id] is an [int];
    the decrement is taken in the integers, which is what it does for every
    [id] above [INT_MIN]. *)
Fixpoint MakeOneOfMany_seek (fuel : nat) (many : list Z) (id : Z)
  : result (option (list Z)) :=
  let id := id - 1 in
  if negb (id >=? 0) then Ok (Some many)
  else
    match fuel with
    | O => Fault Diverges
    | S fuel =>
        let* r := next_item many in
        match r with
        | None => Ok None
        | Some many => MakeOneOfMany_seek fuel many id
        end
    end.

(** "copy string until next item or the end of the list": [buf] is the
    array, [i] the place of the write pointer in it and [last] the place of
    the pointer [last]; the result is the array and the write pointer. *)
Fixpoint MakeOneOfMany_copy (many buf : list Z) (i last : Z)
  : result (list Z * Z) :=
  match many with
  | [] => Fault OutOfBounds
  | c :: tl =>
      if negb (c =? 0) && negb (c =? chr "|") && (i <? last) then
        let* buf := Net.store buf i c in
        MakeOneOfMany_copy tl buf (i + 1) last
      else Ok (buf, i)
  end.

(** [MakeOneOfMany], writing from the start of the array [buf]. *)
Definition MakeOneOfMany (buf : list Z) (last : Z) (many : list Z) (id : Z)
  : result made :=
  let orig_id := id in
  let* r := MakeOneOfMany_seek (Z.to_nat id) many id in
  match r with
  | None => Ok (Printed orig_id)
  | Some many =>
      let* '(buf, i) := MakeOneOfMany_copy many buf 0 last in
      let* buf := Net.store buf i 0 in
      Ok (Copied buf)
  end.

(** ** [DecodeHexText] *)

(** [DecodeHexNibble] *)
Definition DecodeHexNibble (c : Z) : Z :=
  if (c >=? chr "0") && (c <=? chr "9") then c - chr "0"
  else if (c >=? chr "A") && (c <=? chr "F") then c + 10 - chr "A"
  else if (c >=? chr "a") && (c <=? chr "f") then c + 10 - chr "a"
  else -1.

(** The [while] of [DecodeHexText] and its [return]: [dest] is the array
    and [i] the place of the write pointer in it.  [dest_size] goes down by
    one each turn. *)
Fixpoint DecodeHexText_loop (fuel : nat) (pos dest : list Z) (i dest_size : Z)
  : result (bool * list Z) :=
  if negb (dest_size >? 0) then
    let* c := Net.load pos 0 in Ok (c =? chr "|", dest)
  else
    match fuel with
    | O => Fault Diverges
    | S fuel =>
        let* c0 := Net.load pos 0 in
        let hi := DecodeHexNibble c0 in
        let* lo :=
          (if hi >=? 0
           then let* c1 := Net.load pos 1 in Ok (DecodeHexNibble c1)
           else Ok (-1)) in
        if lo <? 0 then Ok (false, dest)
        else
          let* dest := Net.store dest i (to_byte (Z.lor (Z.shiftl hi 4) lo)) in
          DecodeHexText_loop fuel (drop 2 pos) dest (i + 1)
                             (to_size_t (dest_size - 1))
    end.

(** [DecodeHexText]: the value returned and the array. *)
Definition DecodeHexText (pos dest : list Z) (dest_size : Z)
  : result (bool * list Z) :=
  DecodeHexText_loop (Z.to_nat dest_size) pos dest 0 dest_size.

End Settings.

(* ===================================================================== *)
(** * Definitions used by the proofs *)
(* ===================================================================== *)

(** The integers [0 .. n-1], for checks that run over a whole range. *)
Definition below (n : nat) : list Z := map Z.of_nat (seq 0 n).

(** What the indicator-bit tests of [ReadGamma] do to a first byte [i],
    checked for one byte; [gamma_head_ok] holds of every byte. *)
Definition gamma_head_ok (i : Z) : bool :=
  let two := HasBit i 7 && (Saveload.clear_mask i 0x80 =? i - 0x80) in
  let three := two && HasBit (i - 0x80) 6
               && (Saveload.clear_mask (i - 0x80) 0x40 =? i - 0xC0) in
  let four := three && HasBit (i - 0xC0) 5
              && (Saveload.clear_mask (i - 0xC0) 0x20 =? i - 0xE0) in
  if i <? 0x80 then negb (HasBit i 7)
  else if i <? 0xC0 then two && negb (HasBit (i - 0x80) 6)
  else if i <? 0xE0 then three && negb (HasBit (i - 0xC0) 5)
  else if i <? 0xF0 then four && negb (HasBit (i - 0xE0) 4)
  else four && HasBit (i - 0xE0) 4.

(** The indicator bits of [WriteGamma] do not overlap the value bits. *)
Definition gamma_lead_ok (x : Z) : bool :=
  (if x <? 64 then Z.lor 0x80 x =? 0x80 + x else true)
  && (if x <? 32 then Z.lor 0xC0 x =? 0xC0 + x else true)
  && (if x <? 16 then Z.lor 0xE0 x =? 0xE0 + x else true).

(** The bounds check of a read of [n] bytes fails: the handler of the packet
    has quit, or the cursor advanced by [n] would pass the size. *)
Definition read_refused (hs : Net.handlers) (p : Net.Packet) (n : Z) : Prop :=
  exists (a : nat) (h : Net.NetworkSocketHandler),
    Net.cs p = Some a /\ hs !! a = Some h
    /\ (Net.has_quit h = true \/ Net.pos p + n > Net.Size p).

(** A table with one live handler, at address 1, and one with a handler
    that has quit; they serve as concrete inputs. *)
Definition one_live_handler : Net.handlers := {[ 1%nat := Net.mkHandler false ]}.
Definition one_quit_handler : Net.handlers := {[ 1%nat := Net.mkHandler true ]}.

(** The write operations of an outgoing packet, as data, and a sequence of
    them run in order. *)
Inductive send_op : Type :=
  | OpBool (data : bool)
  | OpUint8 (data : Z)
  | OpUint16 (data : Z)
  | OpUint32 (data : Z)
  | OpUint64 (data : Z)
  | OpString (data : list Z)
  | OpBytes (data : list Z)
  | OpBinary (data : list Z) (size : Z).

Definition apply_send (p : Net.Packet) (op : send_op) : result Net.Packet :=
  match op with
  | OpBool data => Net.Send_bool p data
  | OpUint8 data => Net.Send_uint8 p data
  | OpUint16 data => Net.Send_uint16 p data
  | OpUint32 data => Net.Send_uint32 p data
  | OpUint64 data => Net.Send_uint64 p data
  | OpString data => Net.Send_string p data
  | OpBytes data => let* '(_, p) := Net.Send_bytes p data in Ok p
  | OpBinary data size => Net.Send_binary p data size
  end.

Fixpoint run_sends (p : Net.Packet) (ops : list send_op) : result Net.Packet :=
  match ops with
  | [] => Ok p
  | op :: ops => let* p := apply_send p op in run_sends p ops
  end.

(** A packet of 65536 bytes, built and finalised, and the length its first
    two bytes then declare, next to its size. *)
Definition oversized_frame : result (Z * Z) :=
  let* p := Net.Packet_to_send 5 70000 in
  let* p := Net.Send_binary p (replicate (Z.to_nat 65533) 0) 65533 in
  let* p := Net.PrepareToSend p in
  let* declared := Net.ReadRawPacketSize p in
  Ok (declared, Net.Size p).

(** ** The send queue *)

(** The bytes of a queued packet that [send] has not yet taken, those of a
    whole queue in order, and all bytes of a packet. *)
Definition unsent (p : Tcp.Packet) : list Z :=
  take (Z.to_nat (Tcp.size p - Tcp.pos p)) (drop (Z.to_nat (Tcp.pos p)) (Tcp.buffer p)).

Definition pending (q : list Tcp.Packet) : list Z := concat (map unsent q).

Definition frame (p : Tcp.Packet) : list Z :=
  take (Z.to_nat (Tcp.size p)) (Tcp.buffer p).

(** [Send_Packets] called [n] times in a row. *)
Fixpoint repeat_Send_Packets (n : nat) (w : Tcp.World) : Tcp.World :=
  match n with
  | O => w
  | S n => repeat_Send_Packets n (snd (Tcp.Send_Packets w))
  end.

(** A write that makes progress or would block: the socket takes at least
    one byte, or none for now.  A write of zero bytes and an error are left
    out. *)
Definition send_progresses (ev : Tcp.send_event) : bool :=
  match ev with
  | Tcp.SendWouldBlock => true
  | Tcp.SendError _ => false
  | Tcp.SendAccept n => 1 <=? n
  end.

Definition accepts (ev : Tcp.send_event) : bool :=
  match ev with
  | Tcp.SendAccept _ => true
  | _ => false
  end.

(** A packet that can be handed to [Send_Packet]: the length field has room
    in its array, the size lies within the array and within [PacketSize]. *)
Definition sendable (p : Tcp.Packet) : Prop :=
  2 <= Tcp.size p <= Z.of_nat (length (Tcp.buffer p))
  /\ Tcp.size p <= UINT16_MAX.

(** A packet in the queue still has bytes to send. *)
Definition queued (p : Tcp.Packet) : Prop :=
  0 <= Tcp.pos p < Tcp.size p
  /\ Tcp.size p <= Z.of_nat (length (Tcp.buffer p))
  /\ Tcp.size p <= UINT16_MAX.

(** [q'] is what is left of the queue [q]: packets are gone from the front
    only, and the packet now at the front is one of [q] with its cursor
    moved on. *)
Definition drained_to (q q' : list Tcp.Packet) : Prop :=
  exists gone : list Tcp.Packet,
    (q' = [] /\ q = gone)
    \/ (exists (p p' : Tcp.Packet) (rest : list Tcp.Packet),
           q = gone ++ p :: rest /\ q' = p' :: rest
           /\ Tcp.buffer p' = Tcp.buffer p /\ Tcp.size p' = Tcp.size p
           /\ Tcp.pos p <= Tcp.pos p').

Definition count_accepts (s : list Tcp.send_event) : nat :=
  length (List.filter accepts s).

(** The state in which [Send_Packets] keeps sending: the socket is there and
    writable, the connection has not quit, every queued packet has bytes left
    and the writes to come make progress or would block. *)
Definition steady (w : Tcp.World) : Prop :=
  Tcp.writable (Tcp.client w) = true
  /\ Tcp.sock (Tcp.client w) <> None
  /\ Tcp.has_quit (Tcp.client w) = false
  /\ Forall queued (Tcp.packet_queue (Tcp.client w))
  /\ Forall (fun ev => send_progresses ev = true) (Tcp.send_script (Tcp.net w)).

(** [Send_Packet] for three packets in a row. *)
Definition enqueue3 (w : Tcp.World) (A B C : Tcp.Packet) : result Tcp.World :=
  let* w := Tcp.Send_Packet w A in
  let* w := Tcp.Send_Packet w B in
  Tcp.Send_Packet w C.

(** A server with one client, connected and writable, nothing queued, and
    the script of the writes of its socket. *)
Definition server_world (script : list Tcp.send_event) : Tcp.World :=
  {| Tcp.client := {| Tcp.sock := Some 3%nat; Tcp.client_id := 7;
                      Tcp.status := 1; Tcp.writable := true;
                      Tcp.has_quit := false; Tcp.packet_queue := [];
                      Tcp.packet_recv := None; Tcp.command_queue := [] |};
     Tcp.globals := {| Tcp._network_server := true; Tcp._networking := true;
                       Tcp._switch_mode := Tcp.SM_NONE;
                       Tcp._switch_mode_errorstr := None |};
     Tcp.net := {| Tcp.wire := []; Tcp.send_script := script;
                   Tcp.recv_script := []; Tcp.closed := false |} |}.

(** Three small packets; the first two bytes are the room for the length. *)
Definition packet_A : Tcp.Packet :=
  {| Tcp.buffer := [0; 0; 1; 10; 11]; Tcp.size := 5; Tcp.pos := 0 |}.
Definition packet_B : Tcp.Packet :=
  {| Tcp.buffer := [0; 0; 2; 20]; Tcp.size := 4; Tcp.pos := 0 |}.
Definition packet_C : Tcp.Packet :=
  {| Tcp.buffer := [0; 0; 3]; Tcp.size := 3; Tcp.pos := 0 |}.

(** Short writes and a socket that blocks now and then: 12 accepting
    writes among 14. *)
Definition slow_script : list Tcp.send_event :=
  [Tcp.SendAccept 2; Tcp.SendWouldBlock; Tcp.SendAccept 1; Tcp.SendAccept 100;
   Tcp.SendAccept 1; Tcp.SendWouldBlock; Tcp.SendAccept 1; Tcp.SendAccept 1;
   Tcp.SendAccept 1; Tcp.SendAccept 1; Tcp.SendAccept 1; Tcp.SendAccept 1;
   Tcp.SendAccept 1; Tcp.SendAccept 1].

(** ** Reading back what was written *)

(** [q] is a received packet that holds the bytes of [p'], the packet [p]
    after a write: its cursor stands where that write began, its size is a
    frame length (16 bits), and its connection has not quit. *)
Definition reads_back (hs : Net.handlers) (p p' q : Net.Packet) : Prop :=
  Net.buffer q = Net.buffer p'
  /\ Net.pos q = Net.Size p
  /\ Net.Size q <= UINT16_MAX
  /\ exists (a : nat) (h : Net.NetworkSocketHandler),
      Net.cs q = Some a /\ hs !! a = Some h /\ Net.has_quit h = false.

(** The handler of the packet is there and has not quit. *)
Definition live (hs : Net.handlers) (p : Net.Packet) : Prop :=
  exists (a : nat) (h : Net.NetworkSocketHandler),
    Net.cs p = Some a /\ hs !! a = Some h /\ Net.has_quit h = false.

(** A text without NUL. *)
Definition nul_free (s : list Z) : Prop := Forall (fun c => c <> 0) s.

(** Printable ASCII. *)
Definition printable (c : Z) : bool := (0x20 <=? c) && (c <=? 0x7E).

(** Modelled from the spec: the sanitiser [str_validate] of string.cpp, which
    is not among the sources.  "All string payloads are passed through a
    string-validation/sanitization step (removing control characters or
    invalid encoding)": the control characters (below 0x20, and 0x7F) are
    removed.  The decoding of multi-byte characters is not modelled; bytes
    from 0x80 on are kept. *)
Definition str_validate_spec (settings : Z) (s : list Z) : list Z :=
  List.filter (fun c => negb ((c <? 0x20) || (c =? 0x7F))) s.

(** The printable ASCII characters, from the space to the tilde. *)
Definition all_printable : list Z := map (fun c => 0x20 + c) (below 95).

(** The byte at offset [i] of the storage is there and is not NUL. *)
Definition nonzero_at (p : Net.Packet) (i : Z) : Prop :=
  i < Net.Size p /\ exists c : Z, Net.load (Net.buffer p) i = Ok c /\ c <> 0.

(* ===================================================================== *)
(** * Further definitions used by the proofs *)
(* ===================================================================== *)

(** A byte. *)
Definition is_byte (b : Z) : Prop := 0 <= b <= 255.

(** ** Gamma values in a row *)

(** The encoding of [v] as the format comment of [WriteGamma] draws it. *)
Definition gamma_bytes (v : Z) : list Z :=
  if v <? 2 ^ 7 then [v]
  else if v <? 2 ^ 14 then [0x80 + v / 2 ^ 8; v mod 2 ^ 8]
  else if v <? 2 ^ 21 then
    [0xC0 + v / 2 ^ 16; (v / 2 ^ 8) mod 2 ^ 8; v mod 2 ^ 8]
  else
    [0xE0 + v / 2 ^ 24; (v / 2 ^ 16) mod 2 ^ 8; (v / 2 ^ 8) mod 2 ^ 8;
     v mod 2 ^ 8].

(** The number of bytes of an encoding, told by its first byte. *)
Definition gamma_width (b0 : Z) : nat :=
  if b0 <? 0x80 then 1 else if b0 <? 0xC0 then 2 else if b0 <? 0xE0 then 3 else 4.

(** A stream ends before the bytes the first byte announces are there. *)
Definition starved (s : list Z) : Prop :=
  s = []
  \/ exists (b0 : Z) (tl : list Z),
      s = b0 :: tl /\ b0 < 0xF0 /\ (length (b0 :: tl) < gamma_width b0)%nat.

(** [WriteGamma] for the values of a list, in order. *)
Fixpoint WriteGammas (d : Saveload.SaveDumper) (vs : list Z)
  : result Saveload.SaveDumper :=
  match vs with
  | [] => Ok d
  | v :: vs => let* d := Saveload.WriteGamma d v in WriteGammas d vs
  end.

(** [ReadGamma] called [n] times in a row. *)
Fixpoint ReadGammas (n : nat) (lb : Saveload.LoadBuffer)
  : result (list Z * Saveload.LoadBuffer) :=
  match n with
  | O => Ok ([], lb)
  | S n =>
      let* '(v, lb) := Saveload.ReadGamma lb in
      let* '(vs, lb) := ReadGammas n lb in
      Ok (v :: vs, lb)
  end.

(** ** The writes of a flush *)

(** The bytes of the [FilterWrite] calls, in order. *)
Fixpoint flushed (calls : list Dump.filter_call) : list Z :=
  match calls with
  | [] => []
  | Dump.FilterWrite bytes :: calls => bytes ++ flushed calls
  | Dump.FilterFinish :: calls => flushed calls
  end.

(** The blocks of a dump all have the size of a chunk. *)
Definition chunked (chunk : Z) (d : Dump.SaveDumper) : Prop :=
  Forall (fun b => Z.of_nat (length b) = chunk) (Dump.blocks d).

(** ** Packets *)

(** The value of bytes read little-endian. *)
Fixpoint le_value (bs : list Z) : Z :=
  match bs with
  | [] => 0
  | b :: bs => b + 256 * le_value bs
  end.

(** The packet refers to a handler that is there. *)
Definition attached (hs : Net.handlers) (p : Net.Packet) : Prop :=
  exists (a : nat) (h : Net.NetworkSocketHandler),
    Net.cs p = Some a /\ hs !! a = Some h.

(** The handler at address [a] is there and has quit. *)
Definition quit_at (hs : Net.handlers) (a : nat) : Prop :=
  exists h : Net.NetworkSocketHandler, hs !! a = Some h /\ Net.has_quit h = true.

(** The number of bytes a write operation asks to append. *)
Definition op_size (op : send_op) : Z :=
  match op with
  | OpBool _ => 1
  | OpUint8 _ => 1
  | OpUint16 _ => 2
  | OpUint32 _ => 4
  | OpUint64 _ => 8
  | OpString data => Net.strlen data + 1
  | OpBytes data => Z.of_nat (length data)
  | OpBinary _ size => size
  end.

(** The bytes of a packet after its header of three bytes. *)
Definition payload (p : Net.Packet) : list Z := drop 3 (Net.buffer p).

(** A caller that sends [data] in as many packets of type [type] as it
    takes, each one filled by [Send_bytes] with what is left of the data. *)
Fixpoint send_in_packets (fuel : nat) (type limit : Z) (data : list Z)
  : result (list Net.Packet) :=
  match data with
  | [] => Ok []
  | _ :: _ =>
      match fuel with
      | O => Fault Diverges
      | S fuel =>
          let* p := Net.Packet_to_send type limit in
          let* '(amount, p) := Net.Send_bytes p data in
          let* ps := send_in_packets fuel type limit (drop (Z.to_nat amount) data) in
          Ok (p :: ps)
      end
  end.

(** [p'] is the packet [p] but for its cursor. *)
Definition same_frame (p p' : Net.Packet) : Prop :=
  Net.buffer p' = Net.buffer p /\ Net.limit p' = Net.limit p
  /\ Net.cs p' = Net.cs p.

(** [p'] is what a read of [n] bytes leaves of [p]: the packet as it was,
    or the same with the cursor [n] bytes further, within the storage. *)
Definition advanced (p p' : Net.Packet) (n : Z) : Prop :=
  same_frame p p'
  /\ (p' = p \/ Net.pos p' = Net.pos p + n)
  /\ Net.pos p' <= Net.Size p'.

(** The sum of a list of integers. *)
Definition list_sum_Z (l : list Z) : Z := fold_right Z.add 0 l.

(** ** The receiving side of a connection *)

(** A receive event that keeps the connection open: the socket would block,
    or it delivers at least one byte. *)
Definition calm (ev : Tcp.recv_event) : bool :=
  match ev with
  | Tcp.RecvWouldBlock => true
  | Tcp.RecvData (_ :: _) => true
  | _ => false
  end.

(** The bytes a script of such events delivers, in order. *)
Fixpoint incoming (script : list Tcp.recv_event) : list Z :=
  match script with
  | Tcp.RecvData bytes :: script => bytes ++ incoming script
  | Tcp.RecvWouldBlock :: script => incoming script
  | _ => []
  end.

(** The number of times a script lets the socket block. *)
Fixpoint would_blocks (script : list Tcp.recv_event) : nat :=
  match script with
  | [] => 0
  | Tcp.RecvWouldBlock :: script => S (would_blocks script)
  | _ :: script => would_blocks script
  end.

(** [Recv_Packet] called until it delivers a packet, [n] times at most. *)
Fixpoint Recv_Packet_until (SEND_MTU : Z) (n : nat) (w : Tcp.World)
  : result (option Tcp.Packet * Tcp.World) :=
  match n with
  | O => Ok (None, w)
  | S n =>
      let* '(p, _, w) := Tcp.Recv_Packet SEND_MTU w in
      match p with
      | Some p => Ok (Some p, w)
      | None => Recv_Packet_until SEND_MTU n w
      end
  end.

(** A packet under reception that holds the first [pos] bytes of the frame
    [f], in an array of [SEND_MTU] bytes, while the script still delivers the
    rest of [f] and then [rest]. *)
Definition receiving (SEND_MTU : Z) (f rest : list Z)
           (p : Tcp.Packet) (script : list Tcp.recv_event) : Prop :=
  0 <= Tcp.pos p <= Z.of_nat (length f)
  /\ Tcp.buffer p
     = take (Z.to_nat (Tcp.pos p)) f
       ++ replicate (Z.to_nat (SEND_MTU - Tcp.pos p)) 0
  /\ incoming script = drop (Z.to_nat (Tcp.pos p)) f ++ rest
  /\ Forall (fun ev => calm ev = true) script.

(** The connection has been given up by [CloseConnection]: a client falls
    back to the menu, a server destroys the socket of its client. *)
Definition given_up (w : Tcp.World) (st : Tcp.NetworkRecvStatus) (w' : Tcp.World)
  : Prop :=
  if negb (Tcp._network_server (Tcp.globals w)) && Tcp._networking (Tcp.globals w)
  then st = Tcp.NETWORK_RECV_STATUS_CONN_LOST
       /\ Tcp._switch_mode (Tcp.globals w') = Tcp.SM_MENU
       /\ Tcp._networking (Tcp.globals w') = false
       /\ Tcp._switch_mode_errorstr (Tcp.globals w')
          = Some "STR_NETWORK_ERR_LOSTCONNECTION"%string
  else st = Tcp.NETWORK_RECV_STATUS_OKAY
       /\ Tcp.sock (Tcp.client w') = None
       /\ Tcp.has_quit (Tcp.client w') = true
       /\ Tcp.writable (Tcp.client w') = false
       /\ Tcp.packet_queue (Tcp.client w') = []
       /\ Tcp.packet_recv (Tcp.client w') = None
       /\ Tcp.closed (Tcp.net w') = true
       /\ Tcp.globals w' = Tcp.globals w.

(** ** Texts of the configuration file *)

Module Cfg.

Import Ascii.

(** The hexadecimal digit of a value below 16, in capitals or not. *)
Definition hex_digit (upper : bool) (v : Z) : Z :=
  if v <? 10 then Settings.chr "0" + v
  else (if upper then Settings.chr "A" else Settings.chr "a") + (v - 10).

(** [text] spells the bytes [bs] with two hexadecimal digits each, the high
    one first, every digit in capitals or not as it likes. *)
Inductive spells : list Z -> list Z -> Prop :=
  | spells_nil : spells [] []
  | spells_cons (u1 u2 : bool) (b : Z) (text bs : list Z) :
      spells text bs ->
      spells (hex_digit u1 (b / 16) :: hex_digit u2 (b mod 16) :: text) (b :: bs).

(** The bytes in capitals throughout, as a configuration file has them. *)
Definition hex_text (bs : list Z) : list Z :=
  flat_map (fun b => [hex_digit true (b / 16); hex_digit true (b mod 16)]) bs.

(** A name of a list of names: no NUL and no bar in it. *)
Definition is_name (s : list Z) : Prop :=
  Forall (fun c => c <> 0 /\ c <> Settings.chr "|") s.

(** The first character of [s], if there is one, is a decimal digit. *)
Definition starts_with_digit (s : list Z) : bool :=
  match s with
  | [] => false
  | c :: _ => (c >=? Settings.chr "0") && (c <=? Settings.chr "9")
  end.

(** The text of a list of names [name :: names]: the names with a bar
    between them, and the terminator. *)
Fixpoint bar_list (name : list Z) (names : list (list Z)) : list Z :=
  name ++ match names with
          | [] => [0]
          | n :: ns => Settings.chr "|" :: bar_list n ns
          end.

(** The place of the first element of [l] that is [x]. *)
Fixpoint first_index (x : list Z) (l : list (list Z)) : option nat :=
  match l with
  | [] => None
  | y :: l => if bool_decide (x = y) then Some 0%nat
              else option_map S (first_index x l)
  end.

(** The places of the words [ws] in the list [all], if each of them is
    there. *)
Fixpoint places (all ws : list (list Z)) : option (list nat) :=
  match ws with
  | [] => Some []
  | w :: ws =>
      match first_index w all, places all ws with
      | Some i, Some l => Some (i :: l)
      | _, _ => None
      end
  end.

(** A word of a text: not empty, without NUL and without separator. *)
Definition is_word (w : list Z) : Prop :=
  w <> [] /\ Forall (fun c => c <> 0 /\ Settings.is_separator c = false) w.

(** The text [str] holds the words [ws] and nothing else: separators may
    come first, one separator or more stand between two words, separators
    may follow the last word, and a NUL ends the text. *)
Inductive spaced : list Z -> list (list Z) -> Prop :=
  | spaced_end (junk : list Z) : spaced (0 :: junk) []
  | spaced_sep (c : Z) (str : list Z) (ws : list (list Z)) :
      Settings.is_separator c = true -> spaced str ws -> spaced (c :: str) ws
  | spaced_last (w junk : list Z) :
      is_word w -> spaced (w ++ 0 :: junk) [w]
  | spaced_word (w : list Z) (c : Z) (str : list Z) (ws : list (list Z)) :
      is_word w -> Settings.is_separator c = true -> spaced str ws ->
      spaced (w ++ c :: str) (w :: ws).

(** Numbers with a comma between them. *)
Fixpoint comma_list (texts : list (list Z)) : list Z :=
  match texts with
  | [] => []
  | [t] => t
  | t :: ts => t ++ Settings.chr "," :: comma_list ts
  end.

(** A [strtoul] for the examples: it reads one decimal digit. *)
Definition one_digit (p : list Z) : Z * Z :=
  match p with
  | c :: _ =>
      if (c >=? Settings.chr "0") && (c <=? Settings.chr "9")
      then (c - Settings.chr "0", 1)
      else (0, 0)
  | [] => (0, 0)
  end.

(** [strtoul] reads the text [t] of the token as the number [v], whatever
    follows the NUL or the comma behind it; a token is not empty and does
    not start with a NUL, a comma or a blank. *)
Definition reads (strtoul : list Z -> Z * Z) (token : list Z * Z) : Prop :=
  (exists (c : Z) (t' : list Z),
      fst token = c :: t' /\ c <> 0 /\ c <> Settings.chr ","
      /\ c <> Settings.chr " ")
  /\ forall (c : Z) (rest : list Z),
      c = 0 \/ c = Settings.chr "," ->
      strtoul (fst token ++ c :: rest) = (snd token, Z.of_nat (length (fst token))).

(** The number of bits of an element of the array that [LoadIntList] is
    given, for the types it takes. *)
Definition element_bits (type : Settings.VarType) : option Z :=
  match type with
  | Settings.SLE_VAR_BL | Settings.SLE_VAR_I8 | Settings.SLE_VAR_U8 => Some 8
  | Settings.SLE_VAR_I16 | Settings.SLE_VAR_U16 => Some 16
  | Settings.SLE_VAR_I32 | Settings.SLE_VAR_U32 => Some 32
  | Settings.SLE_VAR_other => None
  end.

End Cfg.

(* ===================================================================== *)
(** * Facts *)
(* ===================================================================== *)

Import Saveload.

Example WriteGamma_300 :
  WriteGamma (mkSaveDumper []) 300 = Ok (mkSaveDumper [0x81; 0x2C]).
Proof. reflexivity. Qed.

Example ReadGamma_300 :
  ReadGamma (mkLoadBuffer 0 [] [[0x81]; [0x2C; 7]])
  = Ok (300, mkLoadBuffer 3 [7] []).
Proof. reflexivity. Qed.

Lemma forallb_below (P : Z -> bool) (n : nat) :
  forallb P (below n) = true ->
  forall i, 0 <= i < Z.of_nat n -> P i = true.
Proof.
  intros H i Hi.
  rewrite forallb_forall in H. apply H.
  unfold below. apply in_map_iff. exists (Z.to_nat i). split; [lia|].
  apply in_seq. lia.
Qed.

(** ** The bit operations as arithmetic *)

Lemma lor_shiftl_8 (i b : Z) :
  0 <= i -> 0 <= b < 256 -> Z.lor (Z.shiftl i 8) b = i * 256 + b.
Proof.
  intros Hi Hb.
  assert (Hdisj : Z.land (Z.shiftl i 8) b = 0).
  { apply Z.bits_inj'. intros n Hn.
    rewrite Z.land_spec, Z.bits_0, Z.shiftl_spec by lia.
    destruct (Z.ltb_spec n 8) as [Hlt | Hge].
    - rewrite Z.testbit_neg_r by lia. reflexivity.
    - replace (Z.testbit b n) with false; [apply andb_false_r|].
      symmetry. apply Z.bits_above_log2; [lia|].
      destruct (Z.eq_dec b 0) as [-> | Hnz]; [simpl; lia|].
      apply Z.log2_lt_pow2; [lia|].
      apply Z.lt_le_trans with (2 ^ 8); [lia|].
      apply Z.pow_le_mono_r; lia. }
  rewrite <- Z.lxor_lor by exact Hdisj.
  rewrite <- Z.add_nocarry_lxor by exact Hdisj.
  rewrite Z.shiftl_mul_pow2 by lia. reflexivity.
Qed.

Lemma gamma_head_ok_all (i : Z) : 0 <= i < 256 -> gamma_head_ok i = true.
Proof. apply (forallb_below gamma_head_ok 256). vm_compute. reflexivity. Qed.

Lemma gamma_lead_ok_all (x : Z) : 0 <= x < 64 -> gamma_lead_ok x = true.
Proof. apply (forallb_below gamma_lead_ok 64). vm_compute. reflexivity. Qed.

(** ** Reading from a [LoadBuffer] follows the stream *)

Lemma ReadByte_remaining (lb : LoadBuffer) (b : Z) (rest : list Z) :
  remaining lb = b :: rest ->
  exists lb', ReadByte lb = Ok (b, lb') /\ remaining lb' = rest.
Proof.
  unfold remaining, ReadByte. destruct lb as [n bf rd]; simpl.
  destruct bf as [|b0 bf]; simpl.
  - destruct rd as [|[|c0 c] rd]; simpl; try discriminate.
    intros [= -> <-]. unfold FillBuffer; simpl.
    destruct (Z.eqb_spec (Z.pos (Pos.of_succ_nat (length c))) 0) as [E|_]; [lia|].
    simpl. eexists. split; reflexivity.
  - intros [= -> <-]. eexists. split; reflexivity.
Qed.

Lemma shift_in_byte_remaining (i b : Z) (lb : LoadBuffer) (rest : list Z) :
  0 <= i < 2 ^ 24 -> 0 <= b < 256 ->
  remaining lb = b :: rest ->
  exists lb', shift_in_byte i lb = Ok (i * 256 + b, lb') /\ remaining lb' = rest.
Proof.
  intros Hi Hb Hrem.
  destruct (ReadByte_remaining lb b rest Hrem) as (lb' & Hread & Hrest).
  exists lb'. split; [|exact Hrest].
  unfold shift_in_byte. rewrite Hread. simpl.
  rewrite lor_shiftl_8 by lia.
  unfold to_uint, wrap. rewrite Z.mod_small by lia. reflexivity.
Qed.

(** ** The bytes [WriteGamma] produces *)

(** The encoding of [v], in arithmetic form, by the four ranges of the
    format comment of [WriteGamma]. *)
Lemma lead_byte (m x bound : Z) :
  0 <= x < bound -> bound <= 64 ->
  (m = 0x80 /\ bound = 64) \/ (m = 0xC0 /\ bound = 32) \/ (m = 0xE0 /\ bound = 16) ->
  to_byte (Z.lor m x) = m + x.
Proof.
  intros Hx Hb Hm.
  pose proof (gamma_lead_ok_all x ltac:(lia)) as Hok.
  unfold gamma_lead_ok in Hok.
  apply andb_prop in Hok as [Hok H16]. apply andb_prop in Hok as [H64 H32].
  unfold to_byte, wrap.
  destruct Hm as [[-> ->] | [[-> ->] | [-> ->]]].
  - destruct (Z.ltb_spec x 64); [|lia]. apply Z.eqb_eq in H64. rewrite H64.
    apply Z.mod_small. lia.
  - destruct (Z.ltb_spec x 32); [|lia]. apply Z.eqb_eq in H32. rewrite H32.
    apply Z.mod_small. lia.
  - destruct (Z.ltb_spec x 16); [|lia]. apply Z.eqb_eq in H16. rewrite H16.
    apply Z.mod_small. lia.
Qed.

Ltac gamma_cmp :=
  repeat match goal with
  | |- context [?a >=? ?b] =>
      rewrite (Z.geb_leb a b);
      let H := fresh "Hcmp" in
      destruct (Z.leb_spec b a) as [H | H]; [| try (exfalso; lia)];
      try (exfalso; lia)
  | |- context [?a <? ?b] =>
      let H := fresh "Hcmp" in
      destruct (Z.ltb_spec a b) as [H | H]; try (exfalso; lia)
  end.

Lemma WriteGamma_1 (d : SaveDumper) (v : Z) :
  0 <= v < 2 ^ 7 ->
  WriteGamma d v = Ok {| written := written d ++ [v] |}.
Proof.
  intros Hv. unfold WriteGamma.
  change (Z.shiftl 1 7) with 128. change (2 ^ 7) with 128 in Hv.
  gamma_cmp. simpl. unfold WriteByte, to_byte, wrap.
  rewrite Z.mod_small by lia. reflexivity.
Qed.

Lemma WriteGamma_2 (d : SaveDumper) (v : Z) :
  2 ^ 7 <= v < 2 ^ 14 ->
  WriteGamma d v
  = Ok {| written := written d ++ [0x80 + v / 2 ^ 8; v mod 2 ^ 8] |}.
Proof.
  intros Hv. unfold WriteGamma.
  change (Z.shiftl 1 7) with (2 ^ 7). change (Z.shiftl 1 14) with (2 ^ 14).
  gamma_cmp. simpl bind. unfold WriteByte. simpl bind.
  rewrite Z.shiftr_div_pow2 by lia.
  rewrite (lead_byte 0x80 (v / 2 ^ 8) 64);
    [| split; [apply Z.div_pos; lia | apply Z.div_lt_upper_bound; lia] | lia | tauto].
  simpl written. rewrite <- app_assoc. reflexivity.
Qed.

Lemma WriteGamma_3 (d : SaveDumper) (v : Z) :
  2 ^ 14 <= v < 2 ^ 21 ->
  WriteGamma d v
  = Ok {| written := written d
                     ++ [0xC0 + v / 2 ^ 16; (v / 2 ^ 8) mod 2 ^ 8; v mod 2 ^ 8] |}.
Proof.
  intros Hv. unfold WriteGamma.
  change (Z.shiftl 1 7) with (2 ^ 7). change (Z.shiftl 1 14) with (2 ^ 14).
  change (Z.shiftl 1 21) with (2 ^ 21).
  gamma_cmp. simpl bind. unfold WriteByte. simpl bind.
  rewrite !Z.shiftr_div_pow2 by lia.
  rewrite (lead_byte 0xC0 (v / 2 ^ 16) 32);
    [| split; [apply Z.div_pos; lia | apply Z.div_lt_upper_bound; lia] | lia | tauto].
  simpl written. rewrite <- !app_assoc. reflexivity.
Qed.

Lemma WriteGamma_4 (d : SaveDumper) (v : Z) :
  2 ^ 21 <= v < 2 ^ 28 ->
  WriteGamma d v
  = Ok {| written := written d
                     ++ [0xE0 + v / 2 ^ 24; (v / 2 ^ 16) mod 2 ^ 8;
                         (v / 2 ^ 8) mod 2 ^ 8; v mod 2 ^ 8] |}.
Proof.
  intros Hv. unfold WriteGamma.
  change (Z.shiftl 1 7) with (2 ^ 7). change (Z.shiftl 1 14) with (2 ^ 14).
  change (Z.shiftl 1 21) with (2 ^ 21). change (Z.shiftl 1 28) with (2 ^ 28).
  gamma_cmp. simpl bind. unfold WriteByte. simpl bind.
  rewrite !Z.shiftr_div_pow2 by lia.
  rewrite (lead_byte 0xE0 (v / 2 ^ 24) 16);
    [| split; [apply Z.div_pos; lia | apply Z.div_lt_upper_bound; lia] | lia | tauto].
  simpl written. rewrite <- !app_assoc. reflexivity.
Qed.

Lemma WriteGamma_unsupported (d : SaveDumper) (v : Z) :
  2 ^ 28 <= v -> WriteGamma d v = Fault AssertionFailed.
Proof.
  intros Hv. unfold WriteGamma.
  change (Z.shiftl 1 7) with (2 ^ 7). change (Z.shiftl 1 14) with (2 ^ 14).
  change (Z.shiftl 1 21) with (2 ^ 21). change (Z.shiftl 1 28) with (2 ^ 28).
  gamma_cmp. reflexivity.
Qed.

(** ** The indicator bits of the first byte *)

Ltac head_facts i :=
  let Hok := fresh "Hok" in
  pose proof (gamma_head_ok_all i ltac:(lia)) as Hok;
  unfold gamma_head_ok in Hok;
  repeat match type of Hok with
  | context [?a <? ?b] => destruct (Z.ltb_spec a b); try (exfalso; lia)
  end;
  repeat match goal with
  | H : _ && _ = true |- _ => apply andb_prop in H as [? ?]
  | H : negb _ = true |- _ => apply negb_true_iff in H
  | H : (_ =? _) = true |- _ => apply Z.eqb_eq in H
  end.

Lemma head_1 (i : Z) : 0 <= i < 0x80 -> HasBit i 7 = false.
Proof. intros Hi. head_facts i. assumption. Qed.

Lemma head_2 (i : Z) :
  0x80 <= i < 0xC0 ->
  HasBit i 7 = true /\ clear_mask i 0x80 = i - 0x80
  /\ HasBit (i - 0x80) 6 = false.
Proof. intros Hi. head_facts i. auto. Qed.

Lemma head_3 (i : Z) :
  0xC0 <= i < 0xE0 ->
  HasBit i 7 = true /\ clear_mask i 0x80 = i - 0x80
  /\ HasBit (i - 0x80) 6 = true /\ clear_mask (i - 0x80) 0x40 = i - 0xC0
  /\ HasBit (i - 0xC0) 5 = false.
Proof. intros Hi. head_facts i. auto 10. Qed.

Lemma head_4 (i : Z) :
  0xE0 <= i < 0x100 ->
  HasBit i 7 = true /\ clear_mask i 0x80 = i - 0x80
  /\ HasBit (i - 0x80) 6 = true /\ clear_mask (i - 0x80) 0x40 = i - 0xC0
  /\ HasBit (i - 0xC0) 5 = true /\ clear_mask (i - 0xC0) 0x20 = i - 0xE0
  /\ HasBit (i - 0xE0) 4 = negb (i <? 0xF0).
Proof.
  intros Hi. head_facts i.
  - destruct (Z.ltb_spec i 0xF0); [|lia]. simpl. auto 10.
  - destruct (Z.ltb_spec i 0xF0); [lia|]. simpl. auto 10.
Qed.

(** ** Decoding byte by byte *)

Lemma ReadGamma_1 (lb : LoadBuffer) (b0 : Z) (rest : list Z) :
  0 <= b0 < 0x80 ->
  remaining lb = b0 :: rest ->
  exists lb', ReadGamma lb = Ok (b0, lb') /\ remaining lb' = rest.
Proof.
  intros Hb Hrem.
  destruct (ReadByte_remaining lb b0 rest Hrem) as (lb' & Hread & Hrest).
  exists lb'. split; [|exact Hrest].
  unfold ReadGamma. rewrite Hread. simpl bind.
  rewrite head_1 by lia. reflexivity.
Qed.

Lemma ReadGamma_2 (lb : LoadBuffer) (b0 b1 : Z) (rest : list Z) :
  0x80 <= b0 < 0xC0 -> 0 <= b1 < 256 ->
  remaining lb = b0 :: b1 :: rest ->
  exists lb',
    ReadGamma lb = Ok ((b0 - 0x80) * 256 + b1, lb') /\ remaining lb' = rest.
Proof.
  intros H0 H1 Hrem.
  destruct (ReadByte_remaining lb b0 _ Hrem) as (lb0 & Hread & Hrem0).
  destruct (shift_in_byte_remaining (b0 - 0x80) b1 lb0 rest ltac:(lia) H1 Hrem0)
    as (lb1 & Hs1 & Hrem1).
  exists lb1. split; [|exact Hrem1].
  unfold ReadGamma. rewrite Hread. simpl bind.
  destruct (head_2 b0 H0) as (-> & -> & ->). simpl bind. exact Hs1.
Qed.

Lemma ReadGamma_3 (lb : LoadBuffer) (b0 b1 b2 : Z) (rest : list Z) :
  0xC0 <= b0 < 0xE0 -> 0 <= b1 < 256 -> 0 <= b2 < 256 ->
  remaining lb = b0 :: b1 :: b2 :: rest ->
  exists lb',
    ReadGamma lb = Ok (((b0 - 0xC0) * 256 + b1) * 256 + b2, lb')
    /\ remaining lb' = rest.
Proof.
  intros H0 H1 H2 Hrem.
  destruct (ReadByte_remaining lb b0 _ Hrem) as (lb0 & Hread & Hrem0).
  destruct (shift_in_byte_remaining (b0 - 0xC0) b1 lb0 _ ltac:(lia) H1 Hrem0)
    as (lb1 & Hs1 & Hrem1).
  destruct (shift_in_byte_remaining ((b0 - 0xC0) * 256 + b1) b2 lb1 _
              ltac:(lia) H2 Hrem1) as (lb2 & Hs2 & Hrem2).
  exists lb2. split; [|exact Hrem2].
  unfold ReadGamma. rewrite Hread. simpl bind.
  destruct (head_3 b0 H0) as (-> & -> & -> & -> & ->).
  simpl bind. rewrite Hs1. simpl bind. exact Hs2.
Qed.

Lemma ReadGamma_4 (lb : LoadBuffer) (b0 b1 b2 b3 : Z) (rest : list Z) :
  0xE0 <= b0 < 0xF0 -> 0 <= b1 < 256 -> 0 <= b2 < 256 -> 0 <= b3 < 256 ->
  remaining lb = b0 :: b1 :: b2 :: b3 :: rest ->
  exists lb',
    ReadGamma lb
    = Ok ((((b0 - 0xE0) * 256 + b1) * 256 + b2) * 256 + b3, lb')
    /\ remaining lb' = rest.
Proof.
  intros H0 H1 H2 H3 Hrem.
  destruct (ReadByte_remaining lb b0 _ Hrem) as (lb0 & Hread & Hrem0).
  destruct (shift_in_byte_remaining (b0 - 0xE0) b1 lb0 _ ltac:(lia) H1 Hrem0)
    as (lb1 & Hs1 & Hrem1).
  destruct (shift_in_byte_remaining ((b0 - 0xE0) * 256 + b1) b2 lb1 _
              ltac:(lia) H2 Hrem1) as (lb2 & Hs2 & Hrem2).
  destruct (shift_in_byte_remaining (((b0 - 0xE0) * 256 + b1) * 256 + b2) b3 lb2 _
              ltac:(lia) H3 Hrem2) as (lb3 & Hs3 & Hrem3).
  exists lb3. split; [|exact Hrem3].
  unfold ReadGamma. rewrite Hread. simpl bind.
  destruct (head_4 b0 ltac:(lia)) as (-> & -> & -> & -> & -> & -> & ->).
  destruct (Z.ltb_spec b0 0xF0); [|lia]. simpl negb. cbv iota.
  simpl bind. rewrite Hs1. simpl bind. rewrite Hs2. simpl bind. exact Hs3.
Qed.

Lemma ReadGamma_corrupt (lb : LoadBuffer) (b0 : Z) (rest : list Z) :
  0xF0 <= b0 <= 0xFF ->
  remaining lb = b0 :: rest ->
  ReadGamma lb = Fault (SlErrorCorrupt "Unsupported gamma").
Proof.
  intros H0 Hrem.
  destruct (ReadByte_remaining lb b0 _ Hrem) as (lb0 & Hread & Hrem0).
  unfold ReadGamma. rewrite Hread. simpl bind.
  destruct (head_4 b0 ltac:(lia)) as (-> & -> & -> & -> & -> & -> & ->).
  destruct (Z.ltb_spec b0 0xF0); [lia|]. reflexivity.
Qed.

(** ** C2: the gamma round trip *)

(** C2.  Every value [v] with [0 <= v <= 2^28 - 1] is encoded by
    [WriteGamma] into bytes appended to the dump, and [ReadGamma], run on any
    stream that starts with these bytes, returns exactly [v] and leaves the
    rest of the stream; [WriteGamma] of a value of [2^28] or more stops at its
    assertion (the unsupported-value fault); [ReadGamma] on a stream whose
    first byte is in [0xF0 .. 0xFF] stops with the corrupt-stream error. *)
Theorem gamma_round_trip :
  (forall (d : SaveDumper) (v : Z),
      0 <= v <= 2 ^ 28 - 1 ->
      exists bs : list Z,
        WriteGamma d v = Ok {| written := written d ++ bs |}
        /\ forall (lb : LoadBuffer) (rest : list Z),
            remaining lb = bs ++ rest ->
            exists lb', ReadGamma lb = Ok (v, lb') /\ remaining lb' = rest)
  /\ (forall (d : SaveDumper) (v : Z),
         2 ^ 28 <= v -> WriteGamma d v = Fault AssertionFailed)
  /\ (forall (lb : LoadBuffer) (b : Z) (rest : list Z),
         0xF0 <= b <= 0xFF ->
         remaining lb = b :: rest ->
         ReadGamma lb = Fault (SlErrorCorrupt "Unsupported gamma")).
Proof.
  split; [| split].
  - intros d v Hv.
    assert (Hcases : 0 <= v < 2 ^ 7 \/ 2 ^ 7 <= v < 2 ^ 14
                     \/ 2 ^ 14 <= v < 2 ^ 21 \/ 2 ^ 21 <= v < 2 ^ 28) by lia.
    destruct Hcases as [H | [H | [H | H]]].
    + eexists. split; [apply WriteGamma_1; exact H|].
      intros lb rest Hrem. apply ReadGamma_1; [lia | exact Hrem].
    + eexists. split; [apply WriteGamma_2; exact H|].
      intros lb rest Hrem.
      assert (Hq : 0 <= v / 2 ^ 8 < 64)
        by (split; [apply Z.div_pos; lia | apply Z.div_lt_upper_bound; lia]).
      assert (Hr : 0 <= v mod 2 ^ 8 < 256) by (apply Z.mod_pos_bound; lia).
      destruct (ReadGamma_2 lb (0x80 + v / 2 ^ 8) _ rest ltac:(lia) Hr Hrem)
        as (lb' & Hread & Hrest).
      exists lb'. split; [|exact Hrest]. rewrite Hread. do 2 f_equal.
      pose proof (Z.div_mod v (2 ^ 8) ltac:(lia)). lia.
    + eexists. split; [apply WriteGamma_3; exact H|].
      intros lb rest Hrem.
      assert (Hq : 0 <= v / 2 ^ 16 < 32)
        by (split; [apply Z.div_pos; lia | apply Z.div_lt_upper_bound; lia]).
      assert (Hr1 : 0 <= (v / 2 ^ 8) mod 2 ^ 8 < 256) by (apply Z.mod_pos_bound; lia).
      assert (Hr : 0 <= v mod 2 ^ 8 < 256) by (apply Z.mod_pos_bound; lia).
      destruct (ReadGamma_3 lb (0xC0 + v / 2 ^ 16) _ _ rest ltac:(lia) Hr1 Hr Hrem)
        as (lb' & Hread & Hrest).
      exists lb'. split; [|exact Hrest]. rewrite Hread. do 2 f_equal.
      pose proof (Z.div_mod v (2 ^ 8) ltac:(lia)).
      pose proof (Z.div_mod (v / 2 ^ 8) (2 ^ 8) ltac:(lia)).
      assert (v / 2 ^ 8 / 2 ^ 8 = v / 2 ^ 16)
        by (rewrite Z.div_div by lia; reflexivity).
      lia.
    + eexists. split; [apply WriteGamma_4; exact H|].
      intros lb rest Hrem.
      assert (Hq : 0 <= v / 2 ^ 24 < 16)
        by (split; [apply Z.div_pos; lia | apply Z.div_lt_upper_bound; lia]).
      assert (Hr2 : 0 <= (v / 2 ^ 16) mod 2 ^ 8 < 256) by (apply Z.mod_pos_bound; lia).
      assert (Hr1 : 0 <= (v / 2 ^ 8) mod 2 ^ 8 < 256) by (apply Z.mod_pos_bound; lia).
      assert (Hr : 0 <= v mod 2 ^ 8 < 256) by (apply Z.mod_pos_bound; lia).
      destruct (ReadGamma_4 lb (0xE0 + v / 2 ^ 24) _ _ _ rest ltac:(lia) Hr2 Hr1 Hr Hrem)
        as (lb' & Hread & Hrest).
      exists lb'. split; [|exact Hrest]. rewrite Hread. do 2 f_equal.
      pose proof (Z.div_mod v (2 ^ 8) ltac:(lia)).
      pose proof (Z.div_mod (v / 2 ^ 8) (2 ^ 8) ltac:(lia)).
      pose proof (Z.div_mod (v / 2 ^ 16) (2 ^ 8) ltac:(lia)).
      assert (v / 2 ^ 8 / 2 ^ 8 = v / 2 ^ 16)
        by (rewrite Z.div_div by lia; reflexivity).
      assert (v / 2 ^ 16 / 2 ^ 8 = v / 2 ^ 24)
        by (rewrite Z.div_div by lia; reflexivity).
      lia.
  - intros d v Hv. apply WriteGamma_unsupported. exact Hv.
  - intros lb b rest Hb Hrem. eapply ReadGamma_corrupt; eauto.
Qed.

Lemma gamma_round_trip_witness :
  (0 <= 1000000 <= 2 ^ 28 - 1
   /\ exists bs : list Z,
       WriteGamma (mkSaveDumper [7]) 1000000 = Ok {| written := [7] ++ bs |}
       /\ forall (lb : LoadBuffer) (rest : list Z),
           remaining lb = bs ++ rest ->
           exists lb', ReadGamma lb = Ok (1000000, lb') /\ remaining lb' = rest)
  /\ (2 ^ 28 <= 2 ^ 28
      /\ WriteGamma (mkSaveDumper []) (2 ^ 28) = Fault AssertionFailed)
  /\ (0xF0 <= 0xF3 <= 0xFF
      /\ remaining (mkLoadBuffer 0 [] [[0xF3; 1]; [2]]) = [0xF3; 1; 2]
      /\ ReadGamma (mkLoadBuffer 0 [] [[0xF3; 1]; [2]])
         = Fault (SlErrorCorrupt "Unsupported gamma")).
Proof.
  destruct gamma_round_trip as (Hrt & Hbig & Hbad).
  split; [| split].
  - split; [lia|]. apply (Hrt (mkSaveDumper [7]) 1000000). lia.
  - split; [lia|]. apply (Hbig (mkSaveDumper []) (2 ^ 28)). lia.
  - split; [lia|]. split; [reflexivity|].
    apply (Hbad (mkLoadBuffer 0 [] [[0xF3; 1]; [2]]) 0xF3 [1; 2]); [lia | reflexivity].
Defined.

(* ===================================================================== *)
(** * packet.cpp: facts *)
(* ===================================================================== *)

Import Net.

(** ** Wrap-around *)

Lemma wrap_small (w x : Z) : 0 <= x < 2 ^ w -> wrap w x = x.
Proof. intros H. unfold wrap. apply Z.mod_small. exact H. Qed.

Lemma wrap_range (w x : Z) : 0 <= w -> 0 <= wrap w x < 2 ^ w.
Proof. intros Hw. unfold wrap. apply Z.mod_pos_bound. apply Z.pow_pos_nonneg; lia. Qed.

Lemma to_size_t_small (x : Z) : 0 <= x < 2 ^ 64 -> to_size_t x = x.
Proof. apply wrap_small. Qed.

Lemma to_PacketSize_small (x : Z) : 0 <= x <= UINT16_MAX -> to_PacketSize x = x.
Proof. intros H. apply wrap_small. unfold UINT16_MAX in H. lia. Qed.

Lemma Size_nonneg (p : Packet) : 0 <= Size p.
Proof. unfold Size. lia. Qed.

Lemma Size_set_pos (p : Packet) (x : Z) : Size (set_pos p x) = Size p.
Proof. reflexivity. Qed.

(** ** Array accesses *)

Lemma load_lookup (v : list Z) (i : Z) (b : Z) :
  0 <= i -> v !! Z.to_nat i = Some b -> load v i = Ok b.
Proof.
  intros Hi Hl. unfold load.
  destruct (Z.ltb_spec i 0); [lia|]. rewrite Hl. reflexivity.
Qed.

Lemma load_app (pre post : list Z) (b : Z) (i : Z) :
  i = Z.of_nat (length pre) -> load (pre ++ b :: post) i = Ok b.
Proof.
  intros ->. apply load_lookup; [lia|].
  rewrite Nat2Z.id. apply list_lookup_middle. reflexivity.
Qed.

Lemma load_drop (v : list Z) (i j : Z) :
  0 <= i -> 0 <= j ->
  load v (i + j) = load (drop (Z.to_nat i) v) j.
Proof.
  intros Hi Hj. unfold load.
  destruct (Z.ltb_spec (i + j) 0); [lia|].
  destruct (Z.ltb_spec j 0); [lia|].
  rewrite lookup_drop. rewrite Z2Nat.inj_add by lia. reflexivity.
Qed.

Lemma store_app (pre post : list Z) (old x : Z) (i : Z) :
  i = Z.of_nat (length pre) ->
  store (pre ++ old :: post) i x = Ok (pre ++ x :: post).
Proof.
  intros ->. unfold store.
  rewrite length_app. simpl length.
  destruct (Z.leb_spec 0 (Z.of_nat (length pre))); [|lia].
  destruct (Z.ltb_spec (Z.of_nat (length pre))
                       (Z.of_nat (length pre + S (length post)))); [|lia].
  simpl. rewrite Nat2Z.id.
  rewrite insert_app_r_alt by lia.
  replace (length pre - length pre)%nat with 0%nat by lia. reflexivity.
Qed.

(** ** C5: the write guard *)

(** What [CanWriteToPacket] computes, when the sum does not wrap around. *)
Lemma CanWriteToPacket_lt (p : Packet) (n : Z) :
  0 <= n -> Size p + n < 2 ^ 64 ->
  CanWriteToPacket p n = true <-> Size p + n < limit p.
Proof.
  intros Hn Hfit. unfold CanWriteToPacket.
  pose proof (Size_nonneg p).
  rewrite to_size_t_small by lia. apply Z.ltb_lt.
Qed.

(** C5.  A packet built with a limit of four bytes holds its three header
    bytes and has room for one more byte within its limit, yet
    [CanWriteToPacket] denies the write and [Send_uint8] stops at its
    assertion; [Send_bytes] on the same packet writes the byte and brings the
    packet to its limit. *)
Theorem CanWriteToPacket_denies_write_up_to_limit :
  exists p : Packet,
    Packet_to_send 5 4 = Ok p
    /\ Size p = 3 /\ limit p = 4
    /\ Size p + 1 <= limit p
    /\ CanWriteToPacket p 1 = false
    /\ Send_uint8 p 7 = Fault AssertionFailed
    /\ Send_bytes p [7] = Ok (1, set_buffer p [0; 0; 5; 7]).
Proof.
  eexists. split; [reflexivity|]. repeat split.
  unfold Size. simpl. lia.
Qed.

(** ** C6: the frame length *)

Lemma length_resize (v : list Z) (n : Z) :
  0 <= n -> Z.of_nat (length (resize v n)) = n.
Proof.
  intros Hn. unfold resize.
  rewrite length_app, length_take, length_replicate. lia.
Qed.

Lemma resize_prefix (v : list Z) (n : Z) :
  Z.of_nat (length v) <= n ->
  resize v n = v ++ replicate (Z.to_nat n - length v) 0.
Proof.
  intros Hn. unfold resize. rewrite take_ge by lia. reflexivity.
Qed.

Lemma shiftl_8 (b : Z) : Z.shiftl b 8 = 256 * b.
Proof. rewrite Z.shiftl_mul_pow2 by lia. change (2 ^ 8) with 256. lia. Qed.

(** The claim as stated has the cursor at offset 3 after a successful
    [ParsePacketSize]; on a frame of declared length 5 it is at offset 2. *)
Lemma ParsePacketSize_cursor_not_3 :
  exists p' : Packet,
    ParsePacketSize {| pos := 0; buffer := [5; 0]; limit := 100; cs := Some 1%nat |}
    = Ok (true, p')
    /\ Size p' = 5
    /\ pos p' <> 3.
Proof.
  eexists. split; [reflexivity|]. split; [reflexivity|].
  intros H. vm_compute in H. discriminate H.
Qed.

(** C6 (amended).  For an incoming packet whose first two bytes [b0], [b1]
    decode little-endian to [L = b0 + 256 * b1]: [ParsePacketSize] returns
    [true] exactly when [3 <= L <= limit]; it then resizes the storage to
    exactly [L] bytes and sets the read cursor to offset 2, just past the
    length field (the type byte is the next byte to be read); otherwise it
    returns [false] and leaves the packet as it was. *)
Theorem ParsePacketSize_spec (p : Packet) (b0 b1 : Z) (rest : list Z) :
  cs p <> None ->
  buffer p = b0 :: b1 :: rest ->
  0 <= b0 < 256 -> 0 <= b1 < 256 ->
  let L := b0 + 256 * b1 in
  exists (ok : bool) (p' : Packet),
    ParsePacketSize p = Ok (ok, p')
    /\ (ok = true <-> 3 <= L <= limit p)
    /\ (ok = true ->
        Size p' = L /\ pos p' = 2
        /\ buffer p' = resize (buffer p) L
        /\ limit p' = limit p /\ cs p' = cs p)
    /\ (ok = false -> p' = p).
Proof.
  intros Hcs Hbuf H0 H1 L.
  unfold ParsePacketSize.
  rewrite bool_decide_true by exact Hcs. simpl bind.
  rewrite Hbuf. unfold load at 1 2. simpl bind.
  rewrite shiftl_8. rewrite to_size_t_small by lia.
  fold L. unfold sizeof_PacketSize, sizeof_PacketType. change (2 + 1) with 3.
  destruct (Z.ltb_spec L 3) as [Hlt | Hge]; simpl orb.
  - exists false, p. split; [reflexivity|]. split; [split; [discriminate | lia]|].
    split; [discriminate | reflexivity].
  - rewrite Z.gtb_ltb. destruct (Z.ltb_spec (limit p) L) as [Hgt | Hle].
    + exists false, p. split; [reflexivity|]. split; [split; [discriminate | lia]|].
      split; [discriminate | reflexivity].
    + eexists true, _. split; [reflexivity|]. split; [split; [lia | reflexivity]|].
      split; [|discriminate].
      intros _. unfold Size. simpl.
      rewrite length_resize by lia. auto.
Qed.

Lemma ParsePacketSize_spec_witness :
  exists (ok : bool) (p' : Packet),
    ParsePacketSize {| pos := 0; buffer := [5; 1]; limit := 1460; cs := Some 1%nat |}
    = Ok (ok, p')
    /\ (ok = true <-> 3 <= 5 + 256 * 1 <= 1460)
    /\ (ok = true ->
        Size p' = 5 + 256 * 1 /\ pos p' = 2
        /\ buffer p' = resize [5; 1] (5 + 256 * 1)
        /\ limit p' = 1460 /\ cs p' = Some 1%nat)
    /\ (ok = false ->
        p' = {| pos := 0; buffer := [5; 1]; limit := 1460; cs := Some 1%nat |}).
Proof.
  apply (ParsePacketSize_spec
           {| pos := 0; buffer := [5; 1]; limit := 1460; cs := Some 1%nat |}
           5 1 []); [discriminate | reflexivity | lia | lia].
Defined.

(** ** C10: a refused read changes nothing in the packet *)

Lemma CanReadFromPacket_refused (hs : handlers) (p : Packet) (n : Z) (close : bool) :
  0 <= pos p <= UINT16_MAX -> 0 <= n < 2 ^ 63 ->
  read_refused hs p n ->
  exists hs', CanReadFromPacket hs p n close = Ok (false, hs').
Proof.
  intros Hpos Hn (a & h & Hcs & Hh & Hwhy).
  unfold CanReadFromPacket, deref. rewrite Hcs, Hh. simpl bind.
  unfold HasClientQuit. destruct (has_quit h) eqn:Hq.
  - eexists. reflexivity.
  - destruct Hwhy as [Habs | Hover]; [discriminate|].
    unfold UINT16_MAX in Hpos. rewrite to_size_t_small by lia.
    rewrite Z.gtb_ltb. destruct (Z.ltb_spec (Size p) (pos p + n)); [|lia].
    eexists. reflexivity.
Qed.

Ltac refused_read Hpos Href :=
  let hs' := fresh "hs'" in
  let E := fresh "E" in
  match type of Href with
  | read_refused ?hs ?p ?n =>
      destruct (CanReadFromPacket_refused hs p n true Hpos ltac:(lia) Href)
        as (hs' & E);
      exists hs'; cbv beta delta [Recv_bool Recv_uint8 Recv_uint16 Recv_uint32
                                   Recv_uint64 Recv_binary Recv_binary_string];
      rewrite E; reflexivity
  end.

(** C10.  For each of the fixed-width reads ([Recv_bool], [Recv_uint8],
    [Recv_uint16], [Recv_uint32], [Recv_uint64] and the two [Recv_binary]):
    when the bounds check fails, because the owning connection has quit or
    because the cursor advanced by the width would pass the size, the call
    returns the zero value (or the caller's buffer as it was) and the very
    same packet, contents and cursor untouched. *)
Theorem refused_read_leaves_packet (hs : handlers) (p : Packet) :
  0 <= pos p <= UINT16_MAX ->
  (read_refused hs p 1 -> exists hs', Recv_bool hs p = Ok (false, hs', p))
  /\ (read_refused hs p 1 -> exists hs', Recv_uint8 hs p = Ok (0, hs', p))
  /\ (read_refused hs p 2 -> exists hs', Recv_uint16 hs p = Ok (0, hs', p))
  /\ (read_refused hs p 4 -> exists hs', Recv_uint32 hs p = Ok (0, hs', p))
  /\ (read_refused hs p 8 -> exists hs', Recv_uint64 hs p = Ok (0, hs', p))
  /\ (forall (dest : list Z) (size : Z),
         0 <= size < 2 ^ 63 -> read_refused hs p size ->
         exists hs', Recv_binary hs p dest size = Ok (dest, hs', p))
  /\ (forall (out : list Z) (size : Z),
         0 <= size < 2 ^ 63 -> read_refused hs p size ->
         exists hs', Recv_binary_string hs p out size = Ok (out, hs', p)).
Proof.
  intros Hpos.
  split; [intros Href; refused_read Hpos Href|].
  split; [intros Href; refused_read Hpos Href|].
  split; [intros Href; refused_read Hpos Href|].
  split; [intros Href; refused_read Hpos Href|].
  split; [intros Href; refused_read Hpos Href|].
  split; intros buf size Hsize Href; refused_read Hpos Href.
Qed.

Lemma refused_read_leaves_packet_witness :
  let p := {| pos := 6; buffer := [6; 0; 1; 65; 66; 0]; limit := 100;
              cs := Some 1%nat |} in
  0 <= pos p <= UINT16_MAX
  /\ read_refused one_live_handler p 4
  /\ read_refused one_quit_handler (set_pos p 3) 1
  /\ (exists hs', Recv_uint32 one_live_handler p = Ok (0, hs', p))
  /\ (exists hs', Recv_uint8 one_quit_handler (set_pos p 3)
                  = Ok (0, hs', set_pos p 3))
  /\ (exists hs', Recv_binary one_live_handler p [9; 9] 2 = Ok ([9; 9], hs', p)).
Proof.
  intros p.
  assert (Hpos : 0 <= pos p <= UINT16_MAX) by (vm_compute; split; discriminate).
  assert (Hpos3 : 0 <= pos (set_pos p 3) <= UINT16_MAX)
    by (vm_compute; split; discriminate).
  assert (Hover : forall n, 0 < n -> read_refused one_live_handler p n).
  { intros n Hn. exists 1%nat, (mkHandler false).
    split; [reflexivity|]. split; [reflexivity|]. right.
    unfold Size. simpl. lia. }
  assert (Hquit : read_refused one_quit_handler (set_pos p 3) 1).
  { exists 1%nat, (mkHandler true).
    split; [reflexivity|]. split; [reflexivity|]. left. reflexivity. }
  split; [exact Hpos|]. split; [apply Hover; lia|]. split; [exact Hquit|].
  split; [|split].
  - destruct (refused_read_leaves_packet one_live_handler p Hpos)
      as (_ & _ & _ & H32 & _).
    apply H32. apply Hover. lia.
  - destruct (refused_read_leaves_packet one_quit_handler (set_pos p 3) Hpos3)
      as (_ & H8 & _).
    apply H8. exact Hquit.
  - destruct (refused_read_leaves_packet one_live_handler p Hpos)
      as (_ & _ & _ & _ & _ & Hbin & _).
    apply Hbin; [lia|]. apply Hover. lia.
Defined.

(** ** C4: the cursor after [Recv_string] *)

(** C4.  A frame of six bytes whose payload is the text "AB" with its
    terminator as the last byte.  After [ParsePacketSize] and the read of the
    type byte, [Recv_string] into an array with room to spare returns with
    the cursor at 7, one past the size 6 of the storage: the invariant
    [pos <= Size] is broken.  The overload for [std::string] ends at 6 on the
    same packet.  A frame of five bytes whose text "AB" has no terminator
    leaves the cursor of [Recv_string] at 6, one past its size 5. *)
Theorem Recv_string_cursor_passes_size (str_validate : Z -> list Z -> list Z)
        (settings : Z) :
  let p0 := {| pos := 0; buffer := [6; 0; 1; 65; 66; 0]; limit := 100;
               cs := Some 1%nat |} in
  let u0 := {| pos := 0; buffer := [5; 0; 1; 65; 66]; limit := 100;
               cs := Some 1%nat |} in
  (exists (p1 p2 p3 p3' : Packet) (dest out : list Z),
      ParsePacketSize p0 = Ok (true, p1)
      /\ Recv_uint8 one_live_handler p1 = Ok (1, one_live_handler, p2)
      /\ pos p2 = 3 /\ Size p2 = 6
      /\ Recv_string str_validate one_live_handler p2 (replicate 10 0) 10 settings
         = Ok (dest, one_live_handler, p3)
      /\ pos p3 = 7 /\ Size p3 = 6
      /\ Recv_string_std str_validate one_live_handler p2 [] settings
         = Ok (out, one_live_handler, p3')
      /\ pos p3' = 6)
  /\ (exists (u1 u2 u3 : Packet) (dest : list Z),
         ParsePacketSize u0 = Ok (true, u1)
         /\ Recv_uint8 one_live_handler u1 = Ok (1, one_live_handler, u2)
         /\ Recv_string str_validate one_live_handler u2 (replicate 10 0) 10 settings
            = Ok (dest, one_live_handler, u3)
         /\ pos u3 = 6 /\ Size u3 = 5).
Proof.
  cbv zeta. split.
  - do 6 eexists.
    split; [reflexivity|]. split; [reflexivity|].
    split; [reflexivity|]. split; [reflexivity|].
    split; [reflexivity|]. split; [reflexivity|].
    split; [reflexivity|]. split; reflexivity.
  - do 4 eexists.
    split; [reflexivity|]. split; [reflexivity|].
    split; [reflexivity|]. split; reflexivity.
Qed.

(** With the cursor at the end of the packet, the overload for
    [std::string] lets [ttd_strnlen] run with a length bound that has wrapped
    around, on the memory behind the storage. *)
Example Recv_string_std_at_the_end (str_validate : Z -> list Z -> list Z) :
  Recv_string_std str_validate one_live_handler
    {| pos := 6; buffer := [6; 0; 1; 65; 66; 0]; limit := 100; cs := Some 1%nat |}
    [] 0
  = Fault OutOfBounds.
Proof. reflexivity. Qed.

(** ** C8: the length prefix *)

Lemma GB_8 (x s : Z) : 0 <= s -> GB x s 8 = (x / 2 ^ s) mod 256.
Proof.
  intros Hs. unfold GB. change (Z.shiftl 1 8 - 1) with (Z.ones 8).
  rewrite Z.land_ones by lia. rewrite Z.shiftr_div_pow2 by lia. reflexivity.
Qed.

Lemma to_byte_GB (x s : Z) : 0 <= s -> to_byte (GB x s 8) = (x / 2 ^ s) mod 256.
Proof.
  intros Hs. rewrite GB_8 by exact Hs. apply wrap_small.
  change (2 ^ 8) with 256. apply Z.mod_pos_bound. lia.
Qed.

Lemma bind_Ok_inv {A B : Type} (r : result A) (k : A -> result B) (b : B) :
  bind r k = Ok b -> exists a, r = Ok a /\ k a = Ok b.
Proof. destruct r as [a | f]; simpl; [eauto | discriminate]. Qed.

Lemma assert_Ok_inv (c : bool) (u : unit) : assert c = Ok u -> c = true.
Proof. destruct c; [reflexivity | discriminate]. Qed.

Lemma Send_string_loop_grows (data b : list Z) :
  exists more, Send_string_loop b data = b ++ more.
Proof.
  revert b. induction data as [|c data IH]; intros b; simpl.
  - eauto.
  - destruct (c =? 0); [eauto|].
    destruct (IH (b ++ [c])) as (more & ->).
    rewrite <- app_assoc. eauto.
Qed.

(** A successful write appends to the buffer and touches nothing else. *)
Lemma apply_send_grows (p p' : Packet) (op : send_op) :
  apply_send p op = Ok p' ->
  cs p' = cs p /\ exists more, buffer p' = buffer p ++ more.
Proof.
  destruct op; simpl; unfold Send_bool, Send_uint8, Send_uint16, Send_uint32,
    Send_uint64, Send_string, Send_bytes, Send_binary; intros H.
  all: try (apply bind_Ok_inv in H as (u & _ & H)).
  all: try (injection H as <-; simpl; eauto; fail).
  - injection H as <-. simpl. split; [reflexivity|].
    apply Send_string_loop_grows.
  - destruct (size >? Z.of_nat (length data)); [discriminate|].
    injection H as <-. simpl. eauto.
Qed.

Lemma run_sends_grows (ops : list send_op) (p p' : Packet) :
  run_sends p ops = Ok p' ->
  cs p' = cs p /\ exists more, buffer p' = buffer p ++ more.
Proof.
  revert p. induction ops as [|op ops IH]; intros p; simpl.
  - intros [= <-]. split; [reflexivity|]. exists []. rewrite app_nil_r. reflexivity.
  - intros H. apply bind_Ok_inv in H as (p1 & H1 & H).
    apply apply_send_grows in H1 as (Hcs1 & more1 & Hb1).
    apply IH in H as (Hcs & more & Hb).
    split; [congruence|]. exists (more1 ++ more).
    rewrite Hb, Hb1, app_assoc. reflexivity.
Qed.

Lemma Packet_to_send_shape (type limit : Z) (p : Packet) :
  Packet_to_send type limit = Ok p ->
  cs p = None /\ buffer p = [0; 0; type].
Proof.
  unfold Packet_to_send, ResetState, Send_uint16, Send_uint8. intros H.
  apply bind_Ok_inv in H as (p1 & H1 & H).
  apply bind_Ok_inv in H1 as (u1 & _ & H1). injection H1 as <-.
  apply bind_Ok_inv in H as (u2 & _ & H). injection H as <-.
  simpl. split; reflexivity.
Qed.

(** The claim as stated covers every outgoing packet.  A packet with a
    limit of 70000 that holds 65536 bytes declares a length of 0. *)
Lemma PrepareToSend_length_overflows :
  oversized_frame = Ok (0, 65536).
Proof. vm_compute. reflexivity. Qed.

(** A successful write leaves the cursor and the limit alone. *)
Lemma apply_send_frame (p p' : Packet) (op : send_op) :
  apply_send p op = Ok p' -> pos p' = pos p /\ limit p' = limit p.
Proof.
  destruct op; simpl; unfold Send_bool, Send_uint8, Send_uint16, Send_uint32,
    Send_uint64, Send_string, Send_bytes, Send_binary; intros H.
  all: try (apply bind_Ok_inv in H as (u & _ & H)).
  all: try (injection H as <-; simpl; auto; fail).
  destruct (size >? Z.of_nat (length data)); [discriminate|].
  injection H as <-. simpl. auto.
Qed.

Lemma run_sends_frame (ops : list send_op) (p p' : Packet) :
  run_sends p ops = Ok p' -> pos p' = pos p /\ limit p' = limit p.
Proof.
  revert p. induction ops as [|op ops IH]; intros p; simpl.
  - intros [= <-]. auto.
  - intros H. apply bind_Ok_inv in H as (p1 & H1 & H).
    apply apply_send_frame in H1 as (Hp1 & Hl1).
    apply IH in H as (Hp & Hl). split; congruence.
Qed.

Lemma ResetState_shape (q : Packet) (type : Z) (p : Packet) :
  ResetState q type = Ok p ->
  cs p = None /\ buffer p = [0; 0; type] /\ pos p = pos q /\ limit p = limit q.
Proof.
  unfold ResetState, Send_uint16, Send_uint8. intros H.
  apply bind_Ok_inv in H as (p1 & H1 & H).
  apply bind_Ok_inv in H1 as (u1 & _ & H1). injection H1 as <-.
  apply bind_Ok_inv in H as (u2 & _ & H). injection H as <-.
  simpl. auto.
Qed.

(** C8 (amended).  For every outgoing packet built by [ResetState] and any
    sequence of successful [Send_*] calls, whose size fits the 16-bit length
    field ([Size <= 65535]): [PrepareToSend] succeeds, the first two bytes of
    the buffer then decode little-endian to the size of the buffer, the size
    is at least 3, the read cursor is 0, and the bytes after the length
    field are as they were.  [ResetState] is taken on any packet [q]: on the
    empty one of the constructor [Packet(type, limit)], and on a packet that
    is used again, wherever its cursor stands; [ResetState] and the writes
    keep this cursor, and it is [PrepareToSend] that puts it to 0. *)
Theorem PrepareToSend_length_prefix
        (q : Packet) (type : Z) (ops : list send_op) (p0 p : Packet) :
  ResetState q type = Ok p0 ->
  run_sends p0 ops = Ok p ->
  Size p <= UINT16_MAX ->
  pos p = pos q
  /\ (forall limit : Z,
         q = {| pos := 0; buffer := []; limit := limit; cs := None |} ->
         Packet_to_send type limit = Ok p0)
  /\ exists p' : Packet,
      PrepareToSend p = Ok p'
      /\ ReadRawPacketSize p' = Ok (Size p')
      /\ Size p' = Size p
      /\ 3 <= Size p'
      /\ pos p' = 0
      /\ drop 2 (buffer p') = drop 2 (buffer p)
      /\ limit p' = limit q /\ cs p' = None.
Proof.
  intros Hnew Hrun Hfit.
  pose proof Hnew as Hnew'.
  apply ResetState_shape in Hnew as (Hcs0 & Hb0 & Hpos0 & Hlim0).
  pose proof (run_sends_frame ops p0 p Hrun) as (Hpos & Hlim).
  apply run_sends_grows in Hrun as (Hcs & more & Hb).
  split; [congruence|].
  split; [intros limit ->; exact Hnew'|].
  rewrite Hb0 in Hb. simpl in Hb.
  assert (Hsize : Size p = 3 + Z.of_nat (length more)).
  { unfold Size. rewrite Hb. simpl length. lia. }
  unfold UINT16_MAX in Hfit.
  unfold PrepareToSend. rewrite Hcs, Hcs0.
  rewrite bool_decide_true by reflexivity. simpl bind.
  rewrite !to_byte_GB by lia. rewrite Hb.
  rewrite (store_app [] (0 :: type :: more) 0 _ 0) by reflexivity.
  simpl bind. simpl app.
  match goal with
  | |- context [store (?lo :: 0 :: ?post) 1 ?x] =>
      change (lo :: 0 :: post) with ([lo] ++ 0 :: post);
      rewrite (store_app [lo] post 0 x 1) by reflexivity
  end.
  simpl bind. simpl app.
  eexists. split; [reflexivity|].
  unfold ReadRawPacketSize, load, Size. simpl.
  rewrite shiftl_8.
  change (Z.pos (Pos.of_succ_nat (S (S (length more)))))
    with (Z.of_nat (S (S (S (length more))))).
  assert (Hs : Size p = Z.of_nat (S (S (S (length more))))) by lia.
  rewrite <- Hs.
  change (2 ^ 0) with 1. change (2 ^ 8) with 256. rewrite Z.div_1_r.
  assert (Hdec : Size p mod 256 + 256 * (Size p / 256 mod 256) = Size p).
  { rewrite (Z.mod_small (Size p / 256)).
    - pose proof (Z.div_mod (Size p) 256 ltac:(lia)). lia.
    - split; [apply Z.div_pos; lia | apply Z.div_lt_upper_bound; lia]. }
  fold (Size p). rewrite Hdec. rewrite to_size_t_small by lia.
  repeat split; try reflexivity; try lia; congruence.
Qed.

Lemma PrepareToSend_length_prefix_witness :
  let ops := [OpUint32 0x01234567; OpString [65; 66]] in
  let q := {| pos := 7; buffer := [9; 0; 5; 1; 2; 3; 4; 5; 6]; limit := 100;
              cs := Some 1%nat |} in
  let p0 := {| pos := 7; buffer := [0; 0; 5]; limit := 100; cs := None |} in
  let p := {| pos := 7; buffer := [0; 0; 5; 0x67; 0x45; 0x23; 0x01; 65; 66; 0];
              limit := 100; cs := None |} in
  ResetState q 5 = Ok p0
  /\ run_sends p0 ops = Ok p
  /\ Size p <= UINT16_MAX
  /\ PrepareToSend p
     = Ok {| pos := 0; buffer := [10; 0; 5; 0x67; 0x45; 0x23; 0x01; 65; 66; 0];
             limit := 100; cs := None |}
  /\ pos p = pos q
  /\ (forall limit : Z,
         q = {| pos := 0; buffer := []; limit := limit; cs := None |} ->
         Packet_to_send 5 limit = Ok p0)
  /\ exists p' : Packet,
      PrepareToSend p = Ok p'
      /\ ReadRawPacketSize p' = Ok (Size p')
      /\ Size p' = Size p
      /\ 3 <= Size p'
      /\ pos p' = 0
      /\ drop 2 (buffer p') = drop 2 (buffer p)
      /\ limit p' = limit q /\ cs p' = None.
Proof.
  intros ops q p0 p.
  assert (Hfit : Size p <= UINT16_MAX) by (vm_compute; discriminate).
  split; [reflexivity|]. split; [reflexivity|]. split; [exact Hfit|].
  split; [reflexivity|].
  exact (PrepareToSend_length_prefix q 5 ops p0 p eq_refl eq_refl Hfit).
Defined.

(** ** Reading the bytes of the storage in turn *)

Lemma live_deref (hs : handlers) (p : Packet) :
  live hs p -> exists h, deref hs (cs p) = Ok h /\ has_quit h = false.
Proof.
  intros (a & h & Hcs & Hh & Hq). exists h. unfold deref.
  rewrite Hcs, Hh. auto.
Qed.

Lemma CanReadFromPacket_ok (hs : handlers) (p : Packet) (n : Z) (close : bool) :
  live hs p -> 0 <= pos p -> 0 <= n -> pos p + n <= Size p -> Size p < 2 ^ 64 ->
  CanReadFromPacket hs p n close = Ok (true, hs).
Proof.
  intros Hlive Hpos Hn Hfit Hsz.
  destruct (live_deref hs p Hlive) as (h & Hd & Hq).
  unfold CanReadFromPacket. rewrite Hd. simpl bind.
  unfold HasClientQuit. rewrite Hq.
  rewrite to_size_t_small by lia.
  rewrite Z.gtb_ltb. destruct (Z.ltb_spec (Size p) (pos p + n)); [lia|].
  reflexivity.
Qed.

Lemma lookup_appended (base l : list Z) (i : nat) :
  (base ++ l) !! (length base + i)%nat = l !! i.
Proof. rewrite lookup_app_r by lia. f_equal. lia. Qed.

(** [this->buffer[this->pos++]] on the [i]-th of the bytes [l] that follow
    [base] in the storage. *)
Lemma next_byte_appended (q : Packet) (base l : list Z) (i : nat) (b : Z) :
  buffer q = base ++ l ->
  pos q = Z.of_nat (length base) + Z.of_nat i ->
  l !! i = Some b ->
  Size q <= UINT16_MAX ->
  next_byte q = Ok (b, set_pos q (Z.of_nat (length base) + Z.of_nat (S i))).
Proof.
  intros Hb Hpos Hl H16.
  assert (Hi : (i < length l)%nat) by (eapply lookup_lt_Some; eauto).
  assert (Hsize : Size q = Z.of_nat (length base) + Z.of_nat (length l)).
  { unfold Size. rewrite Hb, length_app. lia. }
  unfold next_byte.
  rewrite (load_lookup (buffer q) (pos q) b).
  - simpl bind. rewrite to_PacketSize_small by lia.
    do 3 f_equal. lia.
  - lia.
  - rewrite Hb, Hpos.
    replace (Z.to_nat (Z.of_nat (length base) + Z.of_nat i))
      with (length base + i)%nat by lia.
    rewrite lookup_appended. exact Hl.
Qed.

(** ** Little-endian integers *)

Lemma byte_of (v s : Z) : 0 <= (v / 2 ^ s) mod 256 < 256.
Proof. apply Z.mod_pos_bound. lia. Qed.

(** One more byte added to the bytes read so far. *)
Lemma accumulate_byte (w v s : Z) :
  0 <= v -> 0 <= s -> s + 8 <= w ->
  wrap w (v mod 2 ^ s + wrap w (Z.shiftl (wrap w ((v / 2 ^ s) mod 256)) s))
  = v mod 2 ^ (s + 8).
Proof.
  intros Hv Hs Hw.
  pose proof (byte_of v s) as Hb.
  assert (Hps : 0 < 2 ^ s) by (apply Z.pow_pos_nonneg; lia).
  assert (Hpw : 2 ^ (s + 8) <= 2 ^ w) by (apply Z.pow_le_mono_r; lia).
  assert (H256 : 2 ^ 8 <= 2 ^ w) by (apply Z.pow_le_mono_r; lia).
  change (2 ^ 8) with 256 in H256.
  assert (Hsplit : 2 ^ (s + 8) = 2 ^ s * 256)
    by (rewrite Z.pow_add_r by lia; reflexivity).
  rewrite (wrap_small w ((v / 2 ^ s) mod 256)) by lia.
  rewrite Z.shiftl_mul_pow2 by lia.
  assert (Hterm : 0 <= (v / 2 ^ s) mod 256 * 2 ^ s <= 2 ^ s * 255) by nia.
  pose proof (Z.mod_pos_bound v (2 ^ s) Hps) as Hlow.
  rewrite (wrap_small w ((v / 2 ^ s) mod 256 * 2 ^ s)) by nia.
  rewrite wrap_small by nia.
  rewrite Hsplit. rewrite Z.rem_mul_r by lia. lia.
Qed.

Lemma first_byte (w v : Z) :
  8 <= w -> wrap w ((v / 2 ^ 0) mod 256) = v mod 2 ^ 8.
Proof.
  intros Hw. change (2 ^ 0) with 1. rewrite Z.div_1_r.
  apply wrap_small. pose proof (Z.mod_pos_bound v 256 ltac:(lia)).
  assert (2 ^ 8 <= 2 ^ w) by (apply Z.pow_le_mono_r; lia).
  change (2 ^ 8) with 256 in *. lia.
Qed.

(** [Recv_uint16] adds the second byte without a conversion of the shifted
    value. *)
Lemma accumulate_byte_16 (v : Z) :
  0 <= v ->
  to_uint16 (v mod 2 ^ 8 + Z.shiftl (to_uint16 ((v / 2 ^ 8) mod 256)) 8)
  = v mod 2 ^ 16.
Proof.
  intros Hv. pose proof (byte_of v 8) as Hb.
  unfold to_uint16. rewrite (wrap_small 16 ((v / 2 ^ 8) mod 256)) by lia.
  rewrite Z.shiftl_mul_pow2 by lia.
  pose proof (Z.mod_pos_bound v (2 ^ 8) ltac:(lia)) as Hlow.
  rewrite wrap_small by lia.
  change (2 ^ 16) with (2 ^ 8 * 256). rewrite Z.rem_mul_r by lia. lia.
Qed.

(** ** Reading an integer that lies in the storage *)

Ltac read_next Hb H16 base l i :=
  erewrite (next_byte_appended _ base l i);
  [ simpl bind
  | simpl; exact Hb
  | simpl; lia
  | reflexivity
  | rewrite ?Size_set_pos; exact H16 ].

Ltac same_packet :=
  unfold set_pos; simpl; repeat f_equal; lia.

Lemma Recv_uint8_reads (hs : handlers) (q : Packet) (base post : list Z) (v : Z) :
  live hs q -> buffer q = base ++ v :: post ->
  pos q = Z.of_nat (length base) -> Size q <= UINT16_MAX ->
  0 <= v <= 255 ->
  Recv_uint8 hs q = Ok (v, hs, set_pos q (pos q + 1)).
Proof.
  intros Hlive Hb Hpos H16 Hv.
  assert (Hsz : Size q = Z.of_nat (length base) + Z.of_nat (length (v :: post)))
    by (unfold Size; rewrite Hb, length_app; lia).
  simpl length in Hsz. unfold UINT16_MAX in H16.
  unfold Recv_uint8.
  rewrite CanReadFromPacket_ok by (auto; lia). simpl bind. simpl negb. cbv iota.
  read_next Hb H16 base (v :: post) 0%nat.
  unfold to_byte. rewrite wrap_small by lia.
  do 2 f_equal. same_packet.
Qed.

Lemma Recv_uint16_reads (hs : handlers) (q : Packet) (base post : list Z) (v : Z) :
  live hs q ->
  buffer q = base ++ to_byte (GB v 0 8) :: to_byte (GB v 8 8) :: post ->
  pos q = Z.of_nat (length base) -> Size q <= UINT16_MAX ->
  0 <= v <= 65535 ->
  Recv_uint16 hs q = Ok (v, hs, set_pos q (pos q + 2)).
Proof.
  intros Hlive Hb Hpos H16 Hv.
  assert (Hsz : Size q = Z.of_nat (length base) + 2 + Z.of_nat (length post))
    by (unfold Size; rewrite Hb, length_app; simpl length; lia).
  unfold UINT16_MAX in H16.
  unfold Recv_uint16.
  rewrite CanReadFromPacket_ok by (auto; lia). simpl bind. simpl negb. cbv iota.
  read_next Hb H16 base (to_byte (GB v 0 8) :: to_byte (GB v 8 8) :: post) 0%nat.
  read_next Hb H16 base (to_byte (GB v 0 8) :: to_byte (GB v 8 8) :: post) 1%nat.
  rewrite !to_byte_GB by lia.
  unfold to_uint16 at 2. rewrite first_byte by lia.
  rewrite accumulate_byte_16 by lia.
  rewrite Z.mod_small by lia.
  do 2 f_equal. same_packet.
Qed.

Lemma Recv_uint32_reads (hs : handlers) (q : Packet) (base post : list Z) (v : Z) :
  live hs q ->
  buffer q = base ++ to_byte (GB v 0 8) :: to_byte (GB v 8 8)
                  :: to_byte (GB v 16 8) :: to_byte (GB v 24 8) :: post ->
  pos q = Z.of_nat (length base) -> Size q <= UINT16_MAX ->
  0 <= v <= 2 ^ 32 - 1 ->
  Recv_uint32 hs q = Ok (v, hs, set_pos q (pos q + 4)).
Proof.
  intros Hlive Hb Hpos H16 Hv.
  assert (Hsz : Size q = Z.of_nat (length base) + 4 + Z.of_nat (length post))
    by (unfold Size; rewrite Hb, length_app; simpl length; lia).
  unfold UINT16_MAX in H16.
  unfold Recv_uint32.
  rewrite CanReadFromPacket_ok by (auto; lia). simpl bind. simpl negb. cbv iota.
  match type of Hb with _ = base ++ ?l =>
    read_next Hb H16 base l 0%nat; read_next Hb H16 base l 1%nat;
    read_next Hb H16 base l 2%nat; read_next Hb H16 base l 3%nat
  end.
  rewrite !to_byte_GB by lia. unfold to_uint.
  rewrite first_byte by lia.
  rewrite (accumulate_byte 32 v 8) by lia. change (8 + 8) with 16.
  rewrite (accumulate_byte 32 v 16) by lia. change (16 + 8) with 24.
  rewrite (accumulate_byte 32 v 24) by lia. change (24 + 8) with 32.
  rewrite Z.mod_small by lia.
  do 2 f_equal. same_packet.
Qed.

Lemma Recv_uint64_reads (hs : handlers) (q : Packet) (base post : list Z) (v : Z) :
  live hs q ->
  buffer q = base ++ to_byte (GB v 0 8) :: to_byte (GB v 8 8)
                  :: to_byte (GB v 16 8) :: to_byte (GB v 24 8)
                  :: to_byte (GB v 32 8) :: to_byte (GB v 40 8)
                  :: to_byte (GB v 48 8) :: to_byte (GB v 56 8) :: post ->
  pos q = Z.of_nat (length base) -> Size q <= UINT16_MAX ->
  0 <= v <= 2 ^ 64 - 1 ->
  Recv_uint64 hs q = Ok (v, hs, set_pos q (pos q + 8)).
Proof.
  intros Hlive Hb Hpos H16 Hv.
  assert (Hsz : Size q = Z.of_nat (length base) + 8 + Z.of_nat (length post))
    by (unfold Size; rewrite Hb, length_app; simpl length; lia).
  unfold UINT16_MAX in H16.
  unfold Recv_uint64.
  rewrite CanReadFromPacket_ok by (auto; lia). simpl bind. simpl negb. cbv iota.
  match type of Hb with _ = base ++ ?l =>
    read_next Hb H16 base l 0%nat; read_next Hb H16 base l 1%nat;
    read_next Hb H16 base l 2%nat; read_next Hb H16 base l 3%nat;
    read_next Hb H16 base l 4%nat; read_next Hb H16 base l 5%nat;
    read_next Hb H16 base l 6%nat; read_next Hb H16 base l 7%nat
  end.
  rewrite !to_byte_GB by lia. unfold to_uint64.
  rewrite first_byte by lia.
  rewrite (accumulate_byte 64 v 8) by lia. change (8 + 8) with 16.
  rewrite (accumulate_byte 64 v 16) by lia. change (16 + 8) with 24.
  rewrite (accumulate_byte 64 v 24) by lia. change (24 + 8) with 32.
  rewrite (accumulate_byte 64 v 32) by lia. change (32 + 8) with 40.
  rewrite (accumulate_byte 64 v 40) by lia. change (40 + 8) with 48.
  rewrite (accumulate_byte 64 v 48) by lia. change (48 + 8) with 56.
  rewrite (accumulate_byte 64 v 56) by lia. change (56 + 8) with 64.
  rewrite Z.mod_small by lia.
  do 2 f_equal. same_packet.
Qed.

(** ** Strings *)

Lemma strlen_nul_free (s : list Z) :
  nul_free s -> strlen s = Z.of_nat (length s).
Proof.
  induction 1 as [|c s Hc _ IH]; [reflexivity|].
  simpl strlen. destruct (Z.eqb_spec c 0); [contradiction|].
  rewrite IH. simpl length. lia.
Qed.

Lemma strlen_terminated (s tail : list Z) :
  nul_free s -> strlen (s ++ 0 :: tail) = Z.of_nat (length s).
Proof.
  induction 1 as [|c s Hc _ IH]; [reflexivity|].
  simpl. destruct (Z.eqb_spec c 0); [contradiction|].
  rewrite IH. lia.
Qed.

Lemma Send_string_loop_nul_free (s b : list Z) :
  nul_free s -> Send_string_loop b s = b ++ s ++ [0].
Proof.
  intros Hs. revert b.
  induction Hs as [|c s Hc _ IH]; intros b; [reflexivity|].
  simpl. destruct (Z.eqb_spec c 0); [contradiction|].
  rewrite IH, <- app_assoc. reflexivity.
Qed.

Lemma nul_free_take (s : list Z) (n : nat) : nul_free s -> nul_free (take n s).
Proof. intros H. unfold nul_free. apply Forall_take. exact H. Qed.

(** The copying loop of [Recv_string] on a stretch [t] of the source
    without NUL for which the destination has room beyond: as many turns as
    [t] has bytes, each copying one. *)
Lemma Recv_string_copy_run (p : Packet) (t : list Z) :
  forall (fuel : nat) (st : copy_state) (more written room : list Z),
    nul_free t ->
    drop (Z.to_nat (c_pos st)) (buffer p) = t ++ more ->
    0 <= c_pos st -> c_pos st + Z.of_nat (length t) <= UINT16_MAX ->
    c_dest st = written ++ room ->
    c_off st = Z.of_nat (length written) ->
    (length t <= length room)%nat ->
    Z.of_nat (length t) < c_size st < 2 ^ 64 ->
    Recv_string_copy (length t + fuel) p st
    = Recv_string_copy fuel p
        {| c_size := c_size st - Z.of_nat (length t);
           c_pos := c_pos st + Z.of_nat (length t);
           c_off := c_off st + Z.of_nat (length t);
           c_dest := written ++ t ++ drop (length t) room |}.
Proof.
  induction t as [|x t IH]; intros fuel st more written room Hnf Hsrc Hpos H16
                                   Hdest Hoff Hroom Hsize.
  - simpl. destruct st as [sz ps off dst]. simpl in *.
    rewrite Hdest. f_equal. f_equal; lia.
  - apply Forall_cons in Hnf as (Hx & Hnf).
    simpl length in *.
    destruct room as [|d room]; [simpl in Hroom; lia|].
    assert (Hlen : Z.of_nat (length (buffer p)) >= c_pos st + 1 + Z.of_nat (length t)).
    { apply (f_equal (@length Z)) in Hsrc.
      rewrite length_drop, length_app in Hsrc. simpl in Hsrc. lia. }
    change (S (length t) + fuel)%nat with (S (length t + fuel)).
    cbn [Recv_string_copy].
    rewrite to_size_t_small by lia.
    rewrite Z.gtb_ltb.
    destruct (Z.ltb_spec 0 (c_size st - 1)) as [_ | Habs]; [|lia].
    simpl negb. cbv iota.
    unfold Size.
    destruct (Z.ltb_spec (c_pos st) (Z.of_nat (length (buffer p)))) as [_ | Habs];
      [|lia].
    simpl negb. cbv iota.
    assert (Hload : load (buffer p) (c_pos st) = Ok x).
    { apply load_lookup; [lia|].
      replace (Z.to_nat (c_pos st)) with (Z.to_nat (c_pos st) + 0)%nat by lia.
      rewrite <- lookup_drop, Hsrc. reflexivity. }
    rewrite Hload. simpl bind.
    rewrite Hdest, (store_app written room d x (c_off st)) by exact Hoff.
    simpl bind.
    destruct (Z.eqb_spec x 0) as [Habs | _]; [contradiction|].
    simpl negb. cbv iota.
    unfold UINT16_MAX in H16.
    rewrite to_PacketSize_small by (unfold UINT16_MAX; lia).
    rewrite (IH fuel _ more (written ++ [x]) room); simpl; auto.
    + f_equal. f_equal; try lia.
      rewrite <- !app_assoc. reflexivity.
    + replace (Z.to_nat (c_pos st + 1)) with (Z.to_nat (c_pos st) + 1)%nat by lia.
      rewrite <- drop_drop, Hsrc. reflexivity.
    + lia.
    + unfold UINT16_MAX. lia.
    + rewrite <- app_assoc. reflexivity.
    + rewrite length_app. simpl. lia.
    + simpl in Hroom. lia.
    + lia.
Qed.

(** The skipping loop of [Recv_string] stops at the terminator. *)
Lemma Recv_string_skip_run (p : Packet) (t : list Z) :
  forall (fuel : nat) (at_ : Z) (more : list Z),
    nul_free t ->
    drop (Z.to_nat at_) (buffer p) = t ++ 0 :: more ->
    0 <= at_ -> at_ + Z.of_nat (length t) <= UINT16_MAX ->
    (length t < fuel)%nat ->
    Recv_string_skip fuel p at_ = Ok (at_ + Z.of_nat (length t)).
Proof.
  induction t as [|x t IH]; intros fuel at_ more Hnf Hsrc Hpos H16 Hfuel.
  - destruct fuel as [|fuel]; [simpl in Hfuel; lia|].
    assert (Hlen : Z.of_nat (length (buffer p)) >= at_ + 1).
    { apply (f_equal (@length Z)) in Hsrc.
      rewrite length_drop in Hsrc. simpl in Hsrc. lia. }
    cbn [Recv_string_skip]. unfold Size.
    destruct (Z.ltb_spec at_ (Z.of_nat (length (buffer p)))); [|lia].
    simpl negb. cbv iota.
    rewrite (load_lookup (buffer p) at_ 0); [| lia |].
    + simpl. f_equal. lia.
    + replace (Z.to_nat at_) with (Z.to_nat at_ + 0)%nat by lia.
      rewrite <- lookup_drop, Hsrc. reflexivity.
  - apply Forall_cons in Hnf as (Hx & Hnf). simpl length in *.
    destruct fuel as [|fuel]; [lia|].
    assert (Hlen : Z.of_nat (length (buffer p)) >= at_ + 1).
    { apply (f_equal (@length Z)) in Hsrc.
      rewrite length_drop, length_app in Hsrc. simpl in Hsrc. lia. }
    cbn [Recv_string_skip]. unfold Size.
    destruct (Z.ltb_spec at_ (Z.of_nat (length (buffer p)))); [|lia].
    simpl negb. cbv iota.
    rewrite (load_lookup (buffer p) at_ x); [| lia |].
    + simpl bind. destruct (Z.eqb_spec x 0); [contradiction|].
      simpl negb. cbv iota.
      unfold UINT16_MAX in H16.
      rewrite to_PacketSize_small by (unfold UINT16_MAX; lia).
      rewrite (IH fuel (at_ + 1) more); auto; try (unfold UINT16_MAX; lia).
      * f_equal. lia.
      * replace (Z.to_nat (at_ + 1)) with (Z.to_nat at_ + 1)%nat by lia.
        rewrite <- drop_drop, Hsrc. reflexivity.
    + replace (Z.to_nat at_) with (Z.to_nat at_ + 0)%nat by lia.
      rewrite <- lookup_drop, Hsrc. reflexivity.
Qed.

Lemma Recv_string_skip_end (p : Packet) (fuel : nat) (at_ : Z) :
  Size p <= at_ -> Recv_string_skip (S fuel) p at_ = Ok at_.
Proof.
  intros H. cbn [Recv_string_skip].
  destruct (Z.ltb_spec at_ (Size p)); [lia|]. reflexivity.
Qed.

(** The sanitiser at work on a terminated text in an array. *)
Lemma str_validate_in_place_terminated
      (sv : Z -> list Z -> list Z) (t tail : list Z) (last settings : Z) :
  nul_free t -> Z.of_nat (length t) <= last ->
  str_validate_in_place sv (t ++ 0 :: tail) last settings
  = sv settings t ++ 0 :: drop (S (length (sv settings t))) (t ++ 0 :: tail).
Proof.
  intros Hnf Hlast. unfold str_validate_in_place.
  assert (Htake : take (Z.to_nat (last + 1)) (t ++ 0 :: tail)
                  = t ++ 0 :: take (Z.to_nat (last + 1) - S (length t)) tail).
  { rewrite take_app.
    rewrite take_ge by lia. f_equal.
    replace (Z.to_nat (last + 1) - length t)%nat
      with (S (Z.to_nat (last + 1) - S (length t))) by lia.
    reflexivity. }
  rewrite Htake, strlen_terminated by exact Hnf.
  rewrite Nat2Z.id, take_app_length. reflexivity.
Qed.

Lemma str_validate_in_place_kept
      (sv : Z -> list Z -> list Z) (t tail : list Z) (last settings : Z) :
  nul_free t -> Z.of_nat (length t) <= last ->
  sv settings t = t ->
  str_validate_in_place sv (t ++ 0 :: tail) last settings = t ++ 0 :: tail.
Proof.
  intros Hnf Hlast Hsv.
  rewrite str_validate_in_place_terminated by assumption.
  rewrite Hsv. f_equal. f_equal.
  change (S (length t)) with (1 + length t)%nat.
  rewrite Nat.add_comm, <- drop_drop, drop_app_length. reflexivity.
Qed.

Lemma source_from_cursor (p : Packet) (pre s post : list Z) :
  buffer p = pre ++ s ++ 0 :: post -> pos p = Z.of_nat (length pre) ->
  drop (Z.to_nat (pos p)) (buffer p) = s ++ 0 :: post
  /\ Size p = pos p + Z.of_nat (length s) + 1 + Z.of_nat (length post).
Proof.
  intros Hb Hpos. split.
  - rewrite Hb, Hpos, Nat2Z.id, drop_app_length. reflexivity.
  - unfold Size. rewrite Hb, !length_app. simpl length. lia.
Qed.

(** [Recv_string] into an array of capacity [c] that the text [s] fills or
    overflows ([c <= length s + 1]): the first [c - 1] bytes of [s] and a
    terminator are stored, the sanitiser runs over them, and the cursor ends
    one past the terminator of [s] in the packet. *)
Lemma Recv_string_truncates
      (sv : Z -> list Z -> list Z) (hs : handlers) (p : Packet)
      (pre s post dest : list Z) (c settings : Z) :
  live hs p ->
  buffer p = pre ++ s ++ 0 :: post -> pos p = Z.of_nat (length pre) ->
  Size p <= UINT16_MAX ->
  nul_free s ->
  Z.of_nat (length dest) = c -> 1 <= c <= Z.of_nat (length s) + 1 ->
  Recv_string sv hs p dest c settings
  = Ok (str_validate_in_place sv (take (Z.to_nat (c - 1)) s ++ [0]) (c - 1) settings,
        hs, set_pos p (pos p + Z.of_nat (length s) + 1)).
Proof.
  intros Hlive Hb Hpos H16 Hnf Hdest Hc.
  destruct (source_from_cursor p pre s post Hb Hpos) as (Hsrc & Hsize).
  destruct (live_deref hs p Hlive) as (h & Hd & Hq).
  unfold UINT16_MAX in H16.
  set (k := Z.to_nat (c - 1)).
  assert (Hk : (k <= length s)%nat) by lia.
  assert (Hlt : length (take k s) = k) by (rewrite length_take; lia).
  unfold Recv_string. rewrite Hd. cbn [bind].
  unfold HasClientQuit. rewrite Hq.
  replace (S (length dest)) with (length (take k s) + 2)%nat by lia.
  rewrite (Recv_string_copy_run p (take k s) 2 _ (drop k s ++ 0 :: post) [] dest);
    simpl c_pos; simpl c_size; simpl c_off; simpl c_dest.
  2: apply nul_free_take; exact Hnf.
  2: rewrite Hsrc, app_assoc, take_drop; reflexivity.
  2: lia.
  2: unfold UINT16_MAX; lia.
  2: reflexivity.
  2: reflexivity.
  2: lia.
  2: lia.
  rewrite Hlt.
  cbn [Recv_string_copy]. simpl c_size.
  replace (c - Z.of_nat k - 1) with 0 by lia.
  change (to_size_t 0) with 0. simpl negb. cbv iota. cbn [bind].
  simpl c_size. simpl c_off. simpl c_dest. simpl c_pos.
  change (0 =? 0) with true. simpl orb. cbv iota.
  assert (Hroom : exists d, drop k dest = [d]).
  { destruct (drop k dest) as [|d [|d' r]] eqn:E;
      apply (f_equal (@length Z)) in E; rewrite length_drop in E; simpl in E;
      [lia | eauto | lia]. }
  destruct Hroom as (d & Hroom). rewrite Hroom.
  rewrite (store_app (take k s) [] d 0) by (rewrite Hlt; lia).
  cbn [bind].
  rewrite (Recv_string_skip_run p (drop k s) _ _ post).
  - cbn [bind]. rewrite length_drop.
    rewrite to_PacketSize_small by (unfold UINT16_MAX; lia).
    simpl c_pos. simpl c_dest.
    f_equal. f_equal. unfold set_pos. f_equal. lia.
  - unfold nul_free. apply Forall_drop. exact Hnf.
  - replace (Z.to_nat (pos p + Z.of_nat k)) with (Z.to_nat (pos p) + k)%nat by lia.
    rewrite <- drop_drop, Hsrc.
    rewrite drop_app_le by lia. reflexivity.
  - lia.
  - rewrite length_drop. unfold UINT16_MAX. lia.
  - rewrite length_drop. unfold skip_fuel. lia.
Qed.

(** [Recv_string] into an array with room to spare
    ([c >= length s + 2]): the text and its terminator are stored, and the
    sanitiser runs over them. *)
Lemma Recv_string_fits
      (sv : Z -> list Z -> list Z) (hs : handlers) (p : Packet)
      (pre s post dest : list Z) (c settings : Z) :
  live hs p ->
  buffer p = pre ++ s ++ 0 :: post -> pos p = Z.of_nat (length pre) ->
  Size p <= UINT16_MAX ->
  nul_free s ->
  Z.of_nat (length dest) = c -> Z.of_nat (length s) + 2 <= c < 2 ^ 64 ->
  exists (tail : list Z) (q' : Packet),
    Recv_string sv hs p dest c settings
    = Ok (str_validate_in_place sv (s ++ 0 :: tail) (c - 1) settings, hs, q')
    /\ buffer q' = buffer p
    /\ (post <> [] -> q' = set_pos p (pos p + Z.of_nat (length s) + 1)).
Proof.
  intros Hlive Hb Hpos H16 Hnf Hdest Hc.
  destruct (source_from_cursor p pre s post Hb Hpos) as (Hsrc & Hsize).
  destruct (live_deref hs p Hlive) as (h & Hd & Hq).
  unfold UINT16_MAX in H16.
  unfold Recv_string. rewrite Hd. cbn [bind].
  unfold HasClientQuit. rewrite Hq.
  replace (S (length dest))
    with (length s + S (length dest - length s))%nat by lia.
  rewrite (Recv_string_copy_run p s _ _ (0 :: post) [] dest);
    simpl c_pos; simpl c_size; simpl c_off; simpl c_dest;
    [| exact Hnf | exact Hsrc | lia | unfold UINT16_MAX; lia | reflexivity
     | reflexivity | lia | lia].
  cbn [Recv_string_copy]. simpl c_size. simpl c_pos. simpl c_off. simpl c_dest.
  rewrite to_size_t_small by lia.
  rewrite Z.gtb_ltb.
  destruct (Z.ltb_spec 0 (c - Z.of_nat (length s) - 1)) as [_ | Habs]; [|lia].
  simpl negb. cbv iota.
  destruct (Z.ltb_spec (pos p + Z.of_nat (length s)) (Size p)) as [_ | Habs]; [|lia].
  simpl negb. cbv iota.
  rewrite (load_lookup (buffer p) (pos p + Z.of_nat (length s)) 0); [| lia |].
  2: { replace (Z.to_nat (pos p + Z.of_nat (length s)))
         with (Z.to_nat (pos p) + length s)%nat by lia.
       rewrite <- lookup_drop, Hsrc.
       rewrite list_lookup_middle; reflexivity. }
  cbn [bind].
  assert (Hroom : exists d d2 room, drop (length s) dest = d :: d2 :: room).
  { destruct (drop (length s) dest) as [|d [|d2 r]] eqn:E;
      apply (f_equal (@length Z)) in E; rewrite length_drop in E; simpl in E;
      [lia | lia | eauto]. }
  destruct Hroom as (d & d2 & room & Hroom). rewrite Hroom.
  rewrite (store_app s (d2 :: room) d 0) by lia.
  cbn [bind]. change (0 =? 0) with true. simpl negb. cbv iota. cbn [bind].
  simpl c_size. simpl c_pos. simpl c_off. simpl c_dest.
  destruct (Z.eqb_spec (c - Z.of_nat (length s) - 1) 0) as [Habs | _]; [lia|].
  simpl orb.
  rewrite to_PacketSize_small by (unfold UINT16_MAX; lia).
  destruct (Z.eqb_spec (pos p + Z.of_nat (length s) + 1) (Size p)) as [Eend | Emid].
  - (* the terminator is the last byte of the packet *)
    change (s ++ 0 :: d2 :: room) with (s ++ [0] ++ d2 :: room).
    rewrite app_assoc.
    rewrite (store_app (s ++ [0]) room d2 0)
      by (rewrite length_app; simpl; lia).
    cbn [bind].
    unfold skip_fuel. rewrite Recv_string_skip_end by lia.
    cbn [bind]. simpl c_dest. rewrite <- app_assoc. simpl app.
    eexists (0 :: room), _. split; [reflexivity|].
    split; [reflexivity|].
    intros Hpost. destruct post; [contradiction|].
    simpl length in Hsize. lia.
  - cbn [bind]. simpl c_dest. simpl c_pos.
    eexists (d2 :: room), _. split; [reflexivity|].
    split; [reflexivity|]. intros _. reflexivity.
Qed.

Lemma ttd_strnlen_terminated (s post : list Z) :
  forall maxlen : Z,
    nul_free s -> Z.of_nat (length s) <= maxlen ->
    ttd_strnlen (s ++ 0 :: post) maxlen = Ok (Z.of_nat (length s)).
Proof.
  induction s as [|x s IH]; intros maxlen Hnf Hmax.
  - simpl. destruct (maxlen >? 0); reflexivity.
  - apply Forall_cons in Hnf as (Hx & Hnf). simpl length in Hmax.
    cbn [app ttd_strnlen].
    rewrite Z.gtb_ltb. destruct (Z.ltb_spec 0 maxlen); [|lia].
    simpl negb. cbv iota.
    destruct (Z.eqb_spec x 0); [contradiction|].
    rewrite IH by (auto; lia). cbn [bind]. f_equal. simpl length. lia.
Qed.

(** [Recv_string] into a [std::string]. *)
Lemma Recv_string_std_reads
      (sv : Z -> list Z -> list Z) (hs : handlers) (p : Packet)
      (pre s post out : list Z) (settings : Z) :
  live hs p ->
  buffer p = pre ++ s ++ 0 :: post -> pos p = Z.of_nat (length pre) ->
  Size p <= UINT16_MAX ->
  nul_free s ->
  Recv_string_std sv hs p out settings
  = Ok (sv settings s, hs, set_pos p (pos p + Z.of_nat (length s) + 1)).
Proof.
  intros Hlive Hb Hpos H16 Hnf.
  destruct (source_from_cursor p pre s post Hb Hpos) as (Hsrc & Hsize).
  destruct (live_deref hs p Hlive) as (h & Hd & Hq).
  unfold UINT16_MAX in H16.
  unfold Recv_string_std. rewrite Hd. cbn [bind].
  unfold HasClientQuit. rewrite Hq. rewrite Hsrc.
  rewrite to_size_t_small by lia.
  rewrite ttd_strnlen_terminated by (auto; lia).
  cbn [bind]. rewrite Nat2Z.id, take_app_length.
  unfold to_uint.
  rewrite (wrap_small 32 (Z.of_nat (length s))) by lia.
  rewrite (wrap_small 32 (Z.of_nat (length s) + 1)) by lia.
  rewrite to_PacketSize_small by (unfold UINT16_MAX; lia).
  do 3 f_equal. lia.
Qed.

(** ** What the write operations append *)

Lemma Send_uint8_buffer (p p' : Packet) (v : Z) :
  Send_uint8 p v = Ok p' -> buffer p' = buffer p ++ [v].
Proof.
  unfold Send_uint8. intros H. apply bind_Ok_inv in H as (u & _ & H).
  injection H as <-. reflexivity.
Qed.

Lemma Send_uint16_buffer (p p' : Packet) (v : Z) :
  Send_uint16 p v = Ok p' ->
  buffer p' = buffer p ++ [to_byte (GB v 0 8); to_byte (GB v 8 8)].
Proof.
  unfold Send_uint16. intros H. apply bind_Ok_inv in H as (u & _ & H).
  injection H as <-. reflexivity.
Qed.

Lemma Send_uint32_buffer (p p' : Packet) (v : Z) :
  Send_uint32 p v = Ok p' ->
  buffer p' = buffer p ++ [to_byte (GB v 0 8); to_byte (GB v 8 8);
                           to_byte (GB v 16 8); to_byte (GB v 24 8)].
Proof.
  unfold Send_uint32. intros H. apply bind_Ok_inv in H as (u & _ & H).
  injection H as <-. reflexivity.
Qed.

Lemma Send_uint64_buffer (p p' : Packet) (v : Z) :
  Send_uint64 p v = Ok p' ->
  buffer p' = buffer p ++ [to_byte (GB v 0 8); to_byte (GB v 8 8);
                           to_byte (GB v 16 8); to_byte (GB v 24 8);
                           to_byte (GB v 32 8); to_byte (GB v 40 8);
                           to_byte (GB v 48 8); to_byte (GB v 56 8)].
Proof.
  unfold Send_uint64. intros H. apply bind_Ok_inv in H as (u & _ & H).
  injection H as <-. reflexivity.
Qed.

Lemma Send_string_buffer (p p' : Packet) (s : list Z) :
  nul_free s -> Send_string p s = Ok p' -> buffer p' = buffer p ++ s ++ [0].
Proof.
  unfold Send_string. intros Hnf H. apply bind_Ok_inv in H as (u & _ & H).
  injection H as <-. simpl. apply Send_string_loop_nul_free. exact Hnf.
Qed.

(** What the sanitiser of the spec keeps. *)
Lemma str_validate_spec_printable (settings : Z) (s : list Z) :
  Forall (fun c => printable c = true) s -> str_validate_spec settings s = s.
Proof.
  induction 1 as [|c s Hc _ IH]; [reflexivity|].
  unfold str_validate_spec in *. simpl. rewrite IH.
  unfold printable in Hc. apply andb_prop in Hc as (Hlo & Hhi).
  apply Z.leb_le in Hlo, Hhi.
  destruct (Z.ltb_spec c 32); [lia|].
  destruct (Z.eqb_spec c 127); [lia|]. reflexivity.
Qed.

(** [Recv_string] into an array with room for the whole text and its
    terminator, the text being one the sanitiser leaves unchanged. *)
Lemma Recv_string_whole
      (sv : Z -> list Z -> list Z) (hs : handlers) (p : Packet)
      (pre s post dest : list Z) (c settings : Z) :
  live hs p ->
  buffer p = pre ++ s ++ 0 :: post -> pos p = Z.of_nat (length pre) ->
  Size p <= UINT16_MAX ->
  nul_free s -> sv settings s = s ->
  Z.of_nat (length dest) = c -> Z.of_nat (length s) < c < 2 ^ 64 ->
  exists (tail : list Z) (q' : Packet),
    Recv_string sv hs p dest c settings = Ok (s ++ 0 :: tail, hs, q').
Proof.
  intros Hlive Hb Hpos H16 Hnf Hsv Hdest Hc.
  destruct (Z.eq_dec c (Z.of_nat (length s) + 1)) as [Eexact | Hroom].
  - exists [], (set_pos p (pos p + Z.of_nat (length s) + 1)).
    rewrite (Recv_string_truncates sv hs p pre s post dest c) by (auto; lia).
    replace (Z.to_nat (c - 1)) with (length s) by lia.
    rewrite take_ge by lia.
    rewrite str_validate_in_place_kept by (auto; lia). reflexivity.
  - destruct (Recv_string_fits sv hs p pre s post dest c settings)
      as (tail & q' & Hrecv & _); auto; [lia|].
    exists tail, q'. rewrite Hrecv.
    rewrite str_validate_in_place_kept by (auto; lia). reflexivity.
Qed.

(** ** C1: what was sent is read back *)

(** The claim as stated covers every text without NUL.  The text that
    consists of the control character 0x01 is sent as it is; on the reading
    side [Recv_string] hands its result to the sanitiser, which removes the
    control character: the empty text is returned, by both overloads. *)
Lemma Recv_string_sanitises_control_character :
  let p := {| pos := 0; buffer := [0; 0; 5]; limit := 100; cs := None |} in
  let p' := {| pos := 0; buffer := [0; 0; 5; 1; 0]; limit := 100; cs := None |} in
  let q := {| pos := 3; buffer := [0; 0; 5; 1; 0]; limit := 100;
              cs := Some 1%nat |} in
  nul_free [1]
  /\ Send_string p [1] = Ok p'
  /\ reads_back one_live_handler p p' q
  /\ Recv_string_std str_validate_spec one_live_handler q [] 0
     = Ok ([], one_live_handler, set_pos q 5)
  /\ Recv_string str_validate_spec one_live_handler q [9; 9] 2 0
     = Ok ([0; 0], one_live_handler, set_pos q 5).
Proof.
  cbv zeta. split; [repeat constructor; discriminate|].
  split; [reflexivity|]. split.
  { split; [reflexivity|]. split; [reflexivity|].
    split; [vm_compute; discriminate|].
    exists 1%nat, (mkHandler false). repeat split; reflexivity. }
  split; reflexivity.
Qed.

Lemma reads_back_live (hs : handlers) (p p' q : Packet) :
  reads_back hs p p' q -> live hs q.
Proof. intros (_ & _ & _ & H). exact H. Qed.

(** C1 (amended).  [p'] is the outgoing packet [p] after one write and [q]
    a received packet (a frame, its connection open) that holds the bytes
    of [p'], read from the position where the write began.  Then: a [bool],
    and every value of [uint8], [uint16], [uint32], [uint64] from 0 to the
    maximum of its type, is read back as it was sent; a text without NUL
    that the sanitiser leaves unchanged (the empty text and the texts of
    printable ASCII among them) is read back as it was sent, by
    [Recv_string] into an array with room for the text and its terminator
    and by [Recv_string] into a [std::string]. *)
Theorem Send_Recv_round_trip
        (str_validate : Z -> list Z -> list Z)
        (hs : handlers) (p p' q : Packet) :
  reads_back hs p p' q ->
  (forall b : bool,
      Send_bool p b = Ok p' ->
      Recv_bool hs q = Ok (b, hs, set_pos q (pos q + 1)))
  /\ (forall v : Z,
         0 <= v <= 255 -> Send_uint8 p v = Ok p' ->
         Recv_uint8 hs q = Ok (v, hs, set_pos q (pos q + 1)))
  /\ (forall v : Z,
         0 <= v <= 65535 -> Send_uint16 p v = Ok p' ->
         Recv_uint16 hs q = Ok (v, hs, set_pos q (pos q + 2)))
  /\ (forall v : Z,
         0 <= v <= 2 ^ 32 - 1 -> Send_uint32 p v = Ok p' ->
         Recv_uint32 hs q = Ok (v, hs, set_pos q (pos q + 4)))
  /\ (forall v : Z,
         0 <= v <= 2 ^ 64 - 1 -> Send_uint64 p v = Ok p' ->
         Recv_uint64 hs q = Ok (v, hs, set_pos q (pos q + 8)))
  /\ (forall (v dest : list Z) (c settings : Z),
         nul_free v -> str_validate settings v = v ->
         Send_string p v = Ok p' ->
         Z.of_nat (length dest) = c -> Z.of_nat (length v) < c < 2 ^ 64 ->
         exists (tail : list Z) (q' : Packet),
           Recv_string str_validate hs q dest c settings
           = Ok (v ++ 0 :: tail, hs, q'))
  /\ (forall (v out : list Z) (settings : Z),
         nul_free v -> str_validate settings v = v ->
         Send_string p v = Ok p' ->
         Recv_string_std str_validate hs q out settings
         = Ok (v, hs, set_pos q (pos q + Z.of_nat (length v) + 1))).
Proof.
  intros Hrb. pose proof (reads_back_live _ _ _ _ Hrb) as Hlive.
  destruct Hrb as (Hbuf & Hpos & H16 & _). unfold Size in Hpos.
  split; [| split; [| split; [| split; [| split; [| split]]]]].
  - intros b Hsend. unfold Send_bool in Hsend.
    apply Send_uint8_buffer in Hsend. rewrite Hsend in Hbuf.
    unfold Recv_bool.
    rewrite (Recv_uint8_reads hs q (buffer p) [] (if b then 1 else 0))
      by (auto; destruct b; lia).
    cbn [bind]. destruct b; reflexivity.
  - intros v Hv Hsend. apply Send_uint8_buffer in Hsend. rewrite Hsend in Hbuf.
    apply (Recv_uint8_reads hs q (buffer p) []); auto.
  - intros v Hv Hsend. apply Send_uint16_buffer in Hsend. rewrite Hsend in Hbuf.
    apply (Recv_uint16_reads hs q (buffer p) []); auto.
  - intros v Hv Hsend. apply Send_uint32_buffer in Hsend. rewrite Hsend in Hbuf.
    apply (Recv_uint32_reads hs q (buffer p) []); auto.
  - intros v Hv Hsend. apply Send_uint64_buffer in Hsend. rewrite Hsend in Hbuf.
    apply (Recv_uint64_reads hs q (buffer p) []); auto.
  - intros v dest c settings Hnf Hsv Hsend Hdest Hc.
    apply Send_string_buffer in Hsend; [|exact Hnf]. rewrite Hsend in Hbuf.
    apply (Recv_string_whole str_validate hs q (buffer p) v [] dest c settings);
      auto.
  - intros v out settings Hnf Hsv Hsend.
    apply Send_string_buffer in Hsend; [|exact Hnf]. rewrite Hsend in Hbuf.
    rewrite (Recv_string_std_reads str_validate hs q (buffer p) v [] out)
      by auto.
    rewrite Hsv. reflexivity.
Qed.

Lemma Forall_forallb (f : Z -> bool) (l : list Z) :
  forallb f l = true -> Forall (fun c => f c = true) l.
Proof.
  induction l as [|c l IH]; simpl; intros H; [constructor|].
  apply andb_prop in H as (Hc & Hl). constructor; auto.
Qed.

Lemma printable_nul_free (s : list Z) :
  Forall (fun c => printable c = true) s -> nul_free s.
Proof.
  unfold nul_free. intros H. eapply Forall_impl; [exact H|].
  intros c Hc ->. discriminate Hc.
Qed.

Lemma all_printable_is_printable :
  Forall (fun c => printable c = true) all_printable.
Proof. apply Forall_forallb. reflexivity. Qed.

Lemma Send_Recv_round_trip_witness :
  let p := {| pos := 0; buffer := [0; 0; 5]; limit := 1460; cs := None |} in
  let ptext := set_buffer p (buffer p ++ all_printable ++ [0]) in
  let qtext := {| pos := 3; buffer := buffer ptext; limit := 1460;
                  cs := Some 1%nat |} in
  let pmax := set_buffer p (buffer p ++ replicate 8 255) in
  let qmax := {| pos := 3; buffer := buffer pmax; limit := 1460;
                 cs := Some 1%nat |} in
  (reads_back one_live_handler p ptext qtext
   /\ nul_free all_printable
   /\ str_validate_spec 0 all_printable = all_printable
   /\ Send_string p all_printable = Ok ptext
   /\ Recv_string_std str_validate_spec one_live_handler qtext [] 0
      = Ok (all_printable, one_live_handler,
            set_pos qtext (pos qtext + Z.of_nat (length all_printable) + 1)))
  /\ (reads_back one_live_handler p pmax qmax
      /\ 0 <= 2 ^ 64 - 1 <= 2 ^ 64 - 1
      /\ Send_uint64 p (2 ^ 64 - 1) = Ok pmax
      /\ Recv_uint64 one_live_handler qmax
         = Ok (2 ^ 64 - 1, one_live_handler, set_pos qmax (pos qmax + 8))).
Proof.
  intros p ptext qtext pmax qmax.
  assert (Hlive : exists (a : nat) (h : NetworkSocketHandler),
             Some 1%nat = Some a /\ one_live_handler !! a = Some h
             /\ has_quit h = false)
    by (exists 1%nat, (mkHandler false); repeat split; reflexivity).
  assert (Hrb : reads_back one_live_handler p ptext qtext).
  { split; [reflexivity|]. split; [reflexivity|].
    split; [vm_compute; discriminate | exact Hlive]. }
  assert (Hrb' : reads_back one_live_handler p pmax qmax).
  { split; [reflexivity|]. split; [reflexivity|].
    split; [vm_compute; discriminate | exact Hlive]. }
  assert (Hnf : nul_free all_printable)
    by (apply printable_nul_free, all_printable_is_printable).
  assert (Hsv : str_validate_spec 0 all_printable = all_printable)
    by (apply str_validate_spec_printable, all_printable_is_printable).
  assert (Hsend : Send_string p all_printable = Ok ptext) by reflexivity.
  assert (Hsend' : Send_uint64 p (2 ^ 64 - 1) = Ok pmax) by reflexivity.
  assert (Hmax : 0 <= 2 ^ 64 - 1 <= 2 ^ 64 - 1) by lia.
  split.
  - split; [exact Hrb|]. split; [exact Hnf|]. split; [exact Hsv|].
    split; [exact Hsend|].
    destruct (Send_Recv_round_trip str_validate_spec one_live_handler
                                   p ptext qtext Hrb)
      as (_ & _ & _ & _ & _ & _ & Hstd).
    exact (Hstd all_printable [] 0 Hnf Hsv Hsend).
  - split; [exact Hrb'|]. split; [exact Hmax|]. split; [exact Hsend'|].
    destruct (Send_Recv_round_trip str_validate_spec one_live_handler
                                   p pmax qmax Hrb')
      as (_ & _ & _ & _ & H64 & _).
    exact (H64 (2 ^ 64 - 1) Hmax Hsend').
Defined.

(** ** Fixed-width reads stay inside the storage *)

Lemma CanReadFromPacket_cases (hs : handlers) (p : Packet) (n : Z) (close : bool) :
  (exists (a : nat) (h : NetworkSocketHandler), cs p = Some a /\ hs !! a = Some h) ->
  exists (ok : bool) (hs' : handlers),
    CanReadFromPacket hs p n close = Ok (ok, hs')
    /\ (ok = true -> to_size_t (pos p + n) <= Size p).
Proof.
  intros (a & h & Hcs & Hh). unfold CanReadFromPacket, deref.
  rewrite Hcs, Hh. cbn [bind].
  destruct (HasClientQuit h); [eexists _, _; split; [reflexivity | discriminate]|].
  rewrite Z.gtb_ltb.
  destruct (Z.ltb_spec (Size p) (to_size_t (pos p + n))).
  - eexists _, _. split; [reflexivity | discriminate].
  - eexists _, _. split; [reflexivity | intros _; lia].
Qed.

Lemma next_byte_total (p : Packet) :
  0 <= pos p < Size p ->
  exists (b : Z) (p' : Packet),
    next_byte p = Ok (b, p')
    /\ buffer p' = buffer p /\ 0 <= pos p' <= pos p + 1.
Proof.
  intros Hpos. unfold next_byte, load.
  destruct (Z.ltb_spec (pos p) 0); [lia|].
  destruct (buffer p !! Z.to_nat (pos p)) as [b|] eqn:Hl.
  - cbn [bind]. eexists _, _. split; [reflexivity|]. split; [reflexivity|].
    simpl. unfold to_PacketSize, to_uint16, wrap.
    pose proof (Z.mod_pos_bound (pos p + 1) (2 ^ 16) ltac:(lia)).
    pose proof (Z.mod_le (pos p + 1) (2 ^ 16) ltac:(lia) ltac:(lia)). lia.
  - apply lookup_ge_None in Hl. unfold Size in Hpos. lia.
Qed.

Ltac read_in_bounds p :=
  let b := fresh "b" in
  let p' := fresh "p" in
  let E := fresh "E" in
  let Hb := fresh "Hb" in
  let Hp := fresh "Hp" in
  let Hpos := fresh "Hin" in
  assert (Hpos : 0 <= pos p < Size p) by lia;
  destruct (next_byte_total p Hpos) as (b & p' & E & Hb & Hp);
  rewrite E; cbn [bind];
  assert (Size p' = Size p) by (unfold Size; rewrite Hb; reflexivity).

(** Whatever the cursor and the contents of a packet: the reads of fixed
    width return, they never run into an access outside the storage. *)
Lemma fixed_width_reads_return (hs : handlers) (p : Packet) :
  (exists (a : nat) (h : NetworkSocketHandler), cs p = Some a /\ hs !! a = Some h) ->
  0 <= pos p <= UINT16_MAX ->
  (exists v hs' p', Recv_uint8 hs p = Ok (v, hs', p'))
  /\ (exists v hs' p', Recv_bool hs p = Ok (v, hs', p'))
  /\ (exists v hs' p', Recv_uint16 hs p = Ok (v, hs', p'))
  /\ (exists v hs' p', Recv_uint32 hs p = Ok (v, hs', p'))
  /\ (exists v hs' p', Recv_uint64 hs p = Ok (v, hs', p')).
Proof.
  intros Hcs Hpos. unfold UINT16_MAX in Hpos.
  assert (H8 : exists v hs' p', Recv_uint8 hs p = Ok (v, hs', p')).
  { unfold Recv_uint8.
    destruct (CanReadFromPacket_cases hs p 1 true Hcs) as (ok & hs' & E & Hok).
    rewrite E. cbn [bind]. destruct ok; simpl negb; cbv iota; [|eauto].
    specialize (Hok eq_refl). rewrite to_size_t_small in Hok by lia.
    read_in_bounds p. eauto. }
  split; [exact H8|]. split; [| split; [| split]].
  - destruct H8 as (v & hs' & p' & E). unfold Recv_bool. rewrite E.
    cbn [bind]. eauto.
  - unfold Recv_uint16.
    destruct (CanReadFromPacket_cases hs p 2 true Hcs) as (ok & hs' & E & Hok).
    rewrite E. cbn [bind]. destruct ok; simpl negb; cbv iota; [|eauto].
    specialize (Hok eq_refl). rewrite to_size_t_small in Hok by lia.
    read_in_bounds p. read_in_bounds p0. eauto.
  - unfold Recv_uint32.
    destruct (CanReadFromPacket_cases hs p 4 true Hcs) as (ok & hs' & E & Hok).
    rewrite E. cbn [bind]. destruct ok; simpl negb; cbv iota; [|eauto].
    specialize (Hok eq_refl). rewrite to_size_t_small in Hok by lia.
    read_in_bounds p. read_in_bounds p0.
    read_in_bounds p1. read_in_bounds p2. eauto.
  - unfold Recv_uint64.
    destruct (CanReadFromPacket_cases hs p 8 true Hcs) as (ok & hs' & E & Hok).
    rewrite E. cbn [bind]. destruct ok; simpl negb; cbv iota; [|eauto].
    specialize (Hok eq_refl). rewrite to_size_t_small in Hok by lia.
    read_in_bounds p. read_in_bounds p0.
    read_in_bounds p1. read_in_bounds p2.
    read_in_bounds p3. read_in_bounds p4.
    read_in_bounds p5. read_in_bounds p6. eauto.
Qed.

(** ** The iteration bounds of the loops of [Recv_string] *)

Lemma store_length (v v' : list Z) (i x : Z) :
  store v i x = Ok v' -> length v' = length v /\ 0 <= i < Z.of_nat (length v).
Proof.
  unfold store.
  destruct (Z.leb_spec 0 i); destruct (Z.ltb_spec i (Z.of_nat (length v)));
    simpl; try discriminate.
  intros [= <-]. rewrite length_insert. lia.
Qed.

(** The copying loop is not cut short by its bound: every turn that goes on
    has stored one more byte in the destination. *)
Lemma Recv_string_copy_bound (fuel : nat) :
  forall (p : Packet) (st : copy_state),
    0 <= c_off st ->
    (length (c_dest st) - Z.to_nat (c_off st) < fuel)%nat ->
    Recv_string_copy fuel p st <> Fault Diverges.
Proof.
  induction fuel as [|fuel IH]; intros p st Hoff Hfuel; [lia|].
  cbn [Recv_string_copy].
  destruct (negb (to_size_t (c_size st - 1) >? 0)); [discriminate|].
  destruct (negb (c_pos st <? Size p)); [discriminate|].
  destruct (load (buffer p) (c_pos st)) as [c | f] eqn:Hload; cbn [bind].
  2: { unfold load in Hload. destruct (c_pos st <? 0); [congruence|].
       destruct (buffer p !! Z.to_nat (c_pos st)); congruence. }
  destruct (store (c_dest st) (c_off st) c) as [dest | f] eqn:Hstore; cbn [bind].
  2: { unfold store in Hstore.
       destruct ((0 <=? c_off st) && (c_off st <? Z.of_nat (length (c_dest st))));
         congruence. }
  apply store_length in Hstore as (Hlen & Hin).
  destruct (negb (c =? 0)); [|discriminate].
  apply IH; simpl; lia.
Qed.

Lemma load_in_bounds (v : list Z) (i : Z) :
  0 <= i < Z.of_nat (length v) -> exists c, load v i = Ok c.
Proof.
  intros Hi. unfold load. destruct (Z.ltb_spec i 0); [lia|].
  destruct (v !! Z.to_nat i) as [c|] eqn:Hl; [eauto|].
  apply lookup_ge_None in Hl. lia.
Qed.

(** On a frame (at most 65535 bytes) the skipping loop is not cut short by
    its bound either: it reaches the end of the packet at the latest. *)
Lemma Recv_string_skip_bound (fuel : nat) :
  forall (p : Packet) (at_ : Z),
    Size p <= UINT16_MAX -> 0 <= at_ ->
    (Z.to_nat (Size p - at_) < fuel)%nat ->
    exists stop : Z, Recv_string_skip fuel p at_ = Ok stop.
Proof.
  induction fuel as [|fuel IH]; intros p at_ H16 Hat Hfuel; [lia|].
  cbn [Recv_string_skip].
  destruct (Z.ltb_spec at_ (Size p)) as [Hin | Hout]; simpl negb; cbv iota;
    [|eauto].
  destruct (load_in_bounds (buffer p) at_) as (c & Hload);
    [unfold Size in Hin; lia|].
  rewrite Hload. cbn [bind].
  destruct (negb (c =? 0)); [|eauto].
  unfold UINT16_MAX in H16.
  rewrite to_PacketSize_small by (unfold UINT16_MAX; lia).
  apply IH; [unfold UINT16_MAX; lia | lia | lia].
Qed.

Lemma Recv_string_skip_frame (p : Packet) (at_ : Z) :
  Size p <= UINT16_MAX -> 0 <= at_ ->
  exists stop : Z, Recv_string_skip (skip_fuel p) p at_ = Ok stop.
Proof.
  intros H16 Hat. apply Recv_string_skip_bound; auto.
  unfold skip_fuel. unfold UINT16_MAX in H16. pose proof (Size_nonneg p). lia.
Qed.

(** When the skipping loop does reach its bound, the packet has more than
    65535 bytes and no NUL at any offset the 16-bit cursor can take: the loop
    of the source never leaves, whatever bound the model gives it. *)
Lemma Recv_string_skip_diverges_step (fuel : nat) (p : Packet) (at_ : Z) :
  Recv_string_skip (S fuel) p at_ = Fault Diverges ->
  nonzero_at p at_
  /\ Recv_string_skip fuel p (to_PacketSize (at_ + 1)) = Fault Diverges.
Proof.
  cbn [Recv_string_skip]. unfold nonzero_at.
  destruct (Z.ltb_spec at_ (Size p)) as [Hin | Hout]; simpl negb; cbv iota;
    [|discriminate].
  destruct (load (buffer p) at_) as [c | f] eqn:Hload; cbn [bind].
  - destruct (Z.eqb_spec c 0) as [-> | Hc]; simpl negb; cbv iota; [discriminate|].
    intros H. split; [split; [exact Hin | eauto] | exact H].
  - intros [= ->]. unfold load in Hload. destruct (at_ <? 0); [discriminate|].
    destruct (buffer p !! Z.to_nat at_); discriminate.
Qed.

Lemma Recv_string_skip_diverges_visits (p : Packet) (k : nat) :
  forall (fuel : nat) (at_ : Z),
    0 <= at_ < 2 ^ 16 ->
    Recv_string_skip (k + fuel) p at_ = Fault Diverges ->
    forall j : nat, (j < k)%nat -> nonzero_at p ((at_ + Z.of_nat j) mod 2 ^ 16).
Proof.
  induction k as [|k IH]; intros fuel at_ Hat Hdiv j Hj; [lia|].
  change (S k + fuel)%nat with (S (k + fuel)) in Hdiv.
  apply Recv_string_skip_diverges_step in Hdiv as (Hhere & Hnext).
  destruct j as [|j].
  - rewrite Z.add_0_r, Z.mod_small by lia. exact Hhere.
  - unfold to_PacketSize, to_uint16, wrap in Hnext.
    specialize (IH fuel ((at_ + 1) mod 2 ^ 16)
                   ltac:(apply Z.mod_pos_bound; lia) Hnext j ltac:(lia)).
    rewrite Zplus_mod_idemp_l in IH.
    replace (at_ + Z.of_nat (S j)) with (at_ + 1 + Z.of_nat j) by lia.
    exact IH.
Qed.

Lemma Recv_string_skip_never_leaves (p : Packet) :
  (forall i : Z, 0 <= i < 2 ^ 16 -> nonzero_at p i) ->
  forall (fuel : nat) (at_ : Z),
    0 <= at_ < 2 ^ 16 -> Recv_string_skip fuel p at_ = Fault Diverges.
Proof.
  intros Hall. induction fuel as [|fuel IH]; intros at_ Hat; [reflexivity|].
  cbn [Recv_string_skip].
  destruct (Hall at_ Hat) as (Hin & c & Hload & Hc).
  destruct (Z.ltb_spec at_ (Size p)); [|lia]. simpl negb. cbv iota.
  rewrite Hload. cbn [bind].
  destruct (Z.eqb_spec c 0); [contradiction|]. simpl negb. cbv iota.
  apply IH. unfold to_PacketSize, to_uint16, wrap.
  apply Z.mod_pos_bound. lia.
Qed.

Lemma Recv_string_skip_diverges (p : Packet) (at_ : Z) :
  0 <= at_ <= UINT16_MAX ->
  Recv_string_skip (skip_fuel p) p at_ = Fault Diverges ->
  UINT16_MAX < Size p
  /\ forall fuel : nat, Recv_string_skip fuel p at_ = Fault Diverges.
Proof.
  intros Hat Hdiv. unfold UINT16_MAX in *.
  destruct (Z.le_gt_cases (Size p) 65535) as [Hframe | Hbig].
  - destruct (Recv_string_skip_frame p at_) as (stop & Hstop);
      [unfold UINT16_MAX; lia | lia |].
    rewrite Hstop in Hdiv. discriminate Hdiv.
  - split; [lia|].
    assert (Hfuel : skip_fuel p = (Z.to_nat (2 ^ 16) + 1)%nat).
    { unfold skip_fuel. rewrite Z.min_r by lia. lia. }
    rewrite Hfuel in Hdiv.
    intros fuel. apply Recv_string_skip_never_leaves; [|lia].
    intros i Hi.
    pose proof (Recv_string_skip_diverges_visits
                  p (Z.to_nat (2 ^ 16)) 1 at_ ltac:(lia) Hdiv
                  (Z.to_nat ((i - at_) mod 2 ^ 16))) as Hvisit.
    pose proof (Z.mod_pos_bound (i - at_) (2 ^ 16) ltac:(lia)) as Hj.
    specialize (Hvisit ltac:(lia)).
    rewrite Z2Nat.id in Hvisit by lia.
    rewrite Zplus_mod_idemp_r in Hvisit.
    replace (at_ + (i - at_)) with i in Hvisit by lia.
    rewrite Z.mod_small in Hvisit by lia. exact Hvisit.
Qed.

(** ** C7: a text cut short, and the cursor after it *)

(** C7.  An incoming packet (a frame, its connection open) with the text
    [s] and its terminator at the cursor, and a destination of capacity [c]
    that cannot hold [s] with its terminator ([1 <= c <= length s]).
    [Recv_string] stores the first [c - 1] bytes of [s] and a terminator,
    and hands them to the sanitiser; when the sanitiser leaves them as they
    are, the destination holds exactly these [c - 1] bytes and the NUL.  The
    cursor ends one past the terminator of [s] in the packet: what follows in
    the packet is what remains to be read, and the next read decodes it, be
    it a text (into an array with room for it) or a byte. *)
Theorem Recv_string_truncation_resynchronises
        (str_validate : Z -> list Z -> list Z) (hs : handlers) (p : Packet)
        (pre s post dest : list Z) (c settings : Z) :
  live hs p ->
  buffer p = pre ++ s ++ 0 :: post -> pos p = Z.of_nat (length pre) ->
  Size p <= UINT16_MAX ->
  nul_free s ->
  Z.of_nat (length dest) = c -> 1 <= c <= Z.of_nat (length s) ->
  let copied := take (Z.to_nat (c - 1)) s in
  let q := set_pos p (pos p + Z.of_nat (length s) + 1) in
  Recv_string str_validate hs p dest c settings
  = Ok (str_validate_in_place str_validate (copied ++ [0]) (c - 1) settings, hs, q)
  /\ Z.of_nat (length copied) = c - 1
  /\ (str_validate settings copied = copied ->
      Recv_string str_validate hs p dest c settings = Ok (copied ++ [0], hs, q))
  /\ drop (Z.to_nat (pos q)) (buffer q) = post
  /\ (forall (s2 post2 dest2 : list Z) (c2 : Z),
         post = s2 ++ 0 :: post2 ->
         nul_free s2 -> str_validate settings s2 = s2 ->
         Z.of_nat (length dest2) = c2 -> Z.of_nat (length s2) < c2 < 2 ^ 64 ->
         exists (tail : list Z) (q2 : Packet),
           Recv_string str_validate hs q dest2 c2 settings
           = Ok (s2 ++ 0 :: tail, hs, q2))
  /\ (forall (b : Z) (post2 : list Z),
         post = b :: post2 -> 0 <= b <= 255 ->
         Recv_uint8 hs q = Ok (b, hs, set_pos q (pos q + 1))).
Proof.
  intros Hlive Hb Hpos H16 Hnf Hdest Hc copied q.
  assert (Hrecv : Recv_string str_validate hs p dest c settings
                  = Ok (str_validate_in_place str_validate (copied ++ [0])
                                              (c - 1) settings, hs, q))
    by (apply (Recv_string_truncates str_validate hs p pre s post); auto; lia).
  assert (Hlen : Z.of_nat (length copied) = c - 1)
    by (unfold copied; rewrite length_take; lia).
  assert (Hq : buffer q = (pre ++ s ++ [0]) ++ post
               /\ pos q = Z.of_nat (length (pre ++ s ++ [0]))).
  { unfold q. simpl. rewrite Hb, Hpos, <- !app_assoc, !length_app. simpl.
    split; [reflexivity | lia]. }
  destruct Hq as (Hqb & Hqp).
  assert (Hqlive : live hs q) by exact Hlive.
  split; [exact Hrecv|]. split; [exact Hlen|]. split; [| split; [| split]].
  - intros Hsv. rewrite Hrecv.
    change (copied ++ [0]) with (copied ++ 0 :: []).
    rewrite str_validate_in_place_kept; auto; [| lia].
    unfold copied. apply nul_free_take. exact Hnf.
  - rewrite Hqb, Hqp, Nat2Z.id, drop_app_length. reflexivity.
  - intros s2 post2 dest2 c2 Hpost Hnf2 Hsv2 Hdest2 Hc2.
    apply (Recv_string_whole str_validate hs q (pre ++ s ++ [0]) s2 post2);
      auto.
    rewrite Hqb, Hpost. reflexivity.
  - intros b post2 Hpost Hbyte.
    apply (Recv_uint8_reads hs q (pre ++ s ++ [0]) post2); auto.
    rewrite Hqb, Hpost. reflexivity.
Qed.

(** The example of the text "HELLOWORLD" followed by "NEXT", read into an
    array of four bytes and then into one of ten. *)
Lemma Recv_string_truncation_resynchronises_witness :
  let hello := [72; 69; 76; 76; 79; 87; 79; 82; 76; 68] in
  let next := [78; 69; 88; 84] in
  let p := {| pos := 0; buffer := hello ++ 0 :: next ++ [0]; limit := 1460;
              cs := Some 1%nat |} in
  let q := set_pos p 11 in
  (live one_live_handler p /\ Size p <= UINT16_MAX /\ nul_free hello
   /\ nul_free next /\ 1 <= 4 <= Z.of_nat (length hello))
  /\ Recv_string str_validate_spec one_live_handler p [9; 9; 9; 9] 4 0
     = Ok ([72; 69; 76; 0], one_live_handler, q)
  /\ exists (tail : list Z) (q2 : Packet),
      Recv_string str_validate_spec one_live_handler q (replicate 10 9) 10 0
      = Ok (next ++ 0 :: tail, one_live_handler, q2).
Proof.
  intros hello next p q.
  assert (Hlive : live one_live_handler p)
    by (exists 1%nat, (mkHandler false); repeat split; reflexivity).
  assert (H16 : Size p <= UINT16_MAX) by (vm_compute; discriminate).
  assert (Hnf : nul_free hello) by (repeat constructor; discriminate).
  assert (Hnf2 : nul_free next) by (repeat constructor; discriminate).
  assert (Hc : 1 <= 4 <= Z.of_nat (length hello)) by (simpl; lia).
  destruct (Recv_string_truncation_resynchronises
              str_validate_spec one_live_handler p [] hello (next ++ [0])
              [9; 9; 9; 9] 4 0 Hlive eq_refl eq_refl H16 Hnf eq_refl Hc)
    as (_ & _ & Hcut & _ & Hnext & _).
  split; [auto 10|]. split.
  - exact (Hcut eq_refl).
  - exact (Hnext next [] (replicate 10 9) 10 eq_refl Hnf2 eq_refl eq_refl
                 ltac:(simpl; lia)).
Defined.

(* ===================================================================== *)
(** * tcp.cpp: facts *)
(* ===================================================================== *)

Import Tcp.

(** ** C3: frames with a bad declared length *)

(** C3.  A server whose client sends the two bytes [00 00], a declared frame
    length of 0.  [ParsePacketSize] refuses this length, but [Recv_Packet]
    only compares the length with [SEND_MTU]: it hands the packet to the
    caller and leaves the connection open.  A declared length above
    [SEND_MTU] closes the connection and delivers nothing. *)
Theorem Recv_Packet_delivers_short_frame :
  let c := {| sock := Some 3%nat; client_id := 7; status := 1;
              writable := true; has_quit := false; packet_queue := [];
              packet_recv := None; command_queue := [] |} in
  let g := {| _network_server := true; _networking := true;
              _switch_mode := SM_NONE; _switch_mode_errorstr := None |} in
  let w bytes := {| client := c; globals := g;
                    net := {| wire := []; send_script := [];
                              recv_script := [RecvData bytes];
                              closed := false |} |} in
  (exists (p : Packet) (w' : World),
      Recv_Packet 1460 (w [0; 0]) = Ok (Some p, NETWORK_RECV_STATUS_OKAY, w')
      /\ size p = 0
      /\ has_quit (client w') = false
      /\ sock (client w') = Some 3%nat
      /\ closed (net w') = false)
  /\ (exists p' : Net.Packet,
         Net.ParsePacketSize {| Net.pos := 0; Net.buffer := [0; 0];
                                Net.limit := 1460; Net.cs := Some 1%nat |}
         = Ok (false, p'))
  /\ (exists w' : World,
         Recv_Packet 1460 (w [0xFF; 0xFF])
         = Ok (None, NETWORK_RECV_STATUS_OKAY, w')
         /\ has_quit (client w') = true
         /\ closed (net w') = true).
Proof.
  cbv zeta. split; [| split].
  - do 2 eexists. split; [vm_compute; reflexivity|].
    repeat split; reflexivity.
  - eexists. reflexivity.
  - eexists. split; [vm_compute; reflexivity|]. split; reflexivity.
Qed.

(** ** The iteration bound of the receiving loops *)

Lemma recv_result (n : Network) (len : Z) :
  0 <= len ->
  let '(res, err, got, n') := recv n len in
  res = -1 \/ (res = Z.of_nat (length got) /\ res <= len).
Proof.
  intros Hlen. unfold recv.
  destruct (recv_script n) as [|[| err | | bytes] script]; simpl; auto.
  right. split; [reflexivity|]. rewrite length_take. lia.
Qed.

(** The receiving loops are not cut short by their bound: every turn that
    goes on has brought at least one byte. *)
Lemma recv_loop_bound (fuel : nat) :
  forall (bound : Z) (p : Packet) (n : Network),
    0 <= pos p -> bound <= UINT16_MAX ->
    (Z.to_nat (bound - pos p) <= fuel)%nat ->
    fst (fst (recv_loop fuel bound p n)) <> Stalled.
Proof.
  induction fuel as [|fuel IH]; intros bound p n Hpos H16 Hfuel.
  - simpl. destruct (Z.ltb_spec (pos p) bound); [lia | simpl; discriminate].
  - cbn [recv_loop].
    destruct (Z.ltb_spec (pos p) bound) as [Hlt | Hge]; simpl negb; cbv iota;
      [|simpl; discriminate].
    pose proof (recv_result n (bound - pos p) ltac:(lia)) as Hrecv.
    destruct (recv n (bound - pos p)) as [[[res err] got] n'].
    destruct (Z.eqb_spec res (-1)) as [_ | Hres].
    { destruct (negb (err =? EWOULDBLOCK)); simpl; discriminate. }
    destruct (Z.eqb_spec res 0) as [_ | Hres0]; [simpl; discriminate|].
    destruct Hrecv as [Habs | (Hgot & Hle)]; [contradiction|].
    unfold UINT16_MAX in H16.
    destruct (write_at (buffer p) (pos p) got) as [b | f];
      [|simpl; discriminate].
    apply IH; simpl; rewrite ?to_PacketSize_small by (unfold UINT16_MAX; lia);
      unfold UINT16_MAX; lia.
Qed.

(** ** C9: draining the send queue *)

Lemma length_unsent (p : Packet) :
  queued p -> Z.of_nat (length (unsent p)) = size p - pos p.
Proof.
  intros (Hpos & Hlen & _). unfold unsent.
  rewrite length_take, length_drop. lia.
Qed.

Lemma unsent_advance (p : Packet) (r : Z) :
  0 <= pos p -> 0 <= r <= size p - pos p ->
  unsent {| buffer := buffer p; size := size p; pos := pos p + r |}
  = drop (Z.to_nat r) (unsent p).
Proof.
  intros Hpos Hr. unfold unsent. simpl.
  rewrite skipn_firstn_comm. rewrite drop_drop.
  f_equal; [lia | f_equal; lia].
Qed.

Lemma unsent_prepared (p : Packet) :
  pos p = 0 -> unsent p = frame p.
Proof. intros H. unfold unsent, frame. rewrite H. simpl. f_equal. lia. Qed.

Lemma pending_cons (p : Packet) (q : list Packet) :
  pending (p :: q) = unsent p ++ pending q.
Proof. reflexivity. Qed.

Lemma pending_app (q1 q2 : list Packet) :
  pending (q1 ++ q2) = pending q1 ++ pending q2.
Proof. unfold pending. rewrite map_app, concat_app. reflexivity. Qed.

(** What [send] does on each kind of script entry. *)
Lemma send_blocked (n : Network) (data : list Z) (len : Z) :
  send_script n = [] -> send n data len = (-1, EWOULDBLOCK, n).
Proof. intros H. unfold send. rewrite H. reflexivity. Qed.

Lemma send_would_block (n : Network) (s : list send_event) (data : list Z) (len : Z) :
  send_script n = SendWouldBlock :: s ->
  send n data len
  = (-1, EWOULDBLOCK,
     {| wire := wire n; send_script := s; recv_script := recv_script n;
        closed := closed n |}).
Proof. intros H. unfold send. rewrite H. reflexivity. Qed.

Lemma send_accept (n : Network) (s : list send_event) (k : Z) (data : list Z) (len : Z) :
  send_script n = SendAccept k :: s ->
  1 <= k -> 1 <= len ->
  send n data len
  = (Z.min k len, 0,
     {| wire := wire n ++ take (Z.to_nat (Z.min k len)) data; send_script := s;
        recv_script := recv_script n; closed := closed n |}).
Proof.
  intros H Hk Hlen. unfold send. rewrite H. simpl.
  rewrite Z.max_r by lia. reflexivity.
Qed.

(** The events of a script that accept bytes. *)
Lemma count_accepts_app (s1 s2 : list send_event) :
  length (filter (fun ev => accepts ev = true) (s1 ++ s2))
  = (length (filter (fun ev => accepts ev = true) s1)
     + length (filter (fun ev => accepts ev = true) s2))%nat.
Proof. rewrite filter_app, length_app. reflexivity. Qed.

Lemma count_accepts_split (s1 s2 : list send_event) :
  count_accepts (s1 ++ s2) = (count_accepts s1 + count_accepts s2)%nat.
Proof. unfold count_accepts. rewrite List.filter_app, length_app. reflexivity. Qed.

Lemma drained_to_refl (q : list Packet) : drained_to q q.
Proof.
  exists []. destruct q as [|p rest]; [left; auto|].
  right. exists p, p, rest. repeat split; auto. lia.
Qed.

Lemma drained_to_trans (q q' q'' : list Packet) :
  drained_to q q' -> drained_to q' q'' -> drained_to q q''.
Proof.
  intros [gone [[-> ->] | (p & p' & rest & -> & -> & Hb & Hs & Hp)]]
         [gone2 [[-> E2] | (p2 & p2' & rest2 & E2 & -> & Hb2 & Hs2 & Hp2)]].
  - exists gone. left. auto.
  - destruct gone2; discriminate E2.
  - exists (gone ++ p :: rest). left. auto.
  - destruct gone2 as [|g gone2]; simpl in E2; injection E2 as -> ->.
    + exists gone. right. exists p, p2', rest2.
      repeat split; auto; try congruence. lia.
    + exists (gone ++ p :: gone2). right. exists p2, p2', rest2.
      repeat split; auto. rewrite <- app_assoc. reflexivity.
Qed.

Lemma pending_nil_queue (q : list Packet) :
  Forall queued q -> pending q = [] -> q = [].
Proof.
  intros Hq Hp. destruct q as [|p rest]; [reflexivity|].
  rewrite pending_cons in Hp. apply app_eq_nil in Hp as (Hu & _).
  apply Forall_cons in Hq as (Hqp & _).
  pose proof (length_unsent p Hqp) as Hl. rewrite Hu in Hl. simpl in Hl.
  destruct Hqp as (? & _). lia.
Qed.

(** One run of the loop of [Send_Packets] on a steady network: it never
    takes the way out through [CloseConnection]; the bytes on the wire
    followed by the bytes still queued stay the same; packets leave the queue
    from the front only; every accepting write that was used up has put at
    least one byte on the wire. *)
Lemma Send_Packets_loop_steady (q : list Packet) :
  forall n : Network,
    Forall queued q ->
    Forall (fun ev => send_progresses ev = true) (send_script n) ->
    exists (q' : list Packet) (n' : Network) (used : list send_event),
      Send_Packets_loop q n = (false, q', n')
      /\ wire n' ++ pending q' = wire n ++ pending q
      /\ drained_to q q'
      /\ Forall queued q'
      /\ send_script n = used ++ send_script n'
      /\ (count_accepts used + length (pending q') <= length (pending q))%nat
      /\ (q <> [] -> send_script n <> [] -> used <> []).
Proof.
  induction q as [|p next IH]; intros n Hq Hs.
  - exists [], n, []. simpl. repeat split; auto.
    all: try apply drained_to_refl.
    all: intros H; contradiction.
  - apply Forall_cons in Hq as (Hqp & Hqn).
    pose proof (length_unsent p Hqp) as Hlen.
    destruct Hqp as (Hpos & Hsz & H16).
    simpl Send_Packets_loop. fold (unsent p).
    destruct (send_script n) as [|ev s] eqn:Hscript.
    + (* nothing more to come: the socket would block *)
      rewrite send_blocked by exact Hscript. simpl.
      exists (p :: next), n, []. rewrite Hscript.
      repeat split; auto.
      all: try apply drained_to_refl.
      all: try (apply Forall_cons; repeat split; auto; lia).
      all: try lia.
      all: intros _ H; contradiction.
    + apply Forall_cons in Hs as (Hev & Hs).
      destruct ev as [| err | k]; simpl in Hev; [| discriminate |].
      * (* would block *)
        rewrite (send_would_block n s) by exact Hscript. simpl.
        eexists (p :: next), _, [SendWouldBlock]. simpl.
        repeat split; auto.
        all: try apply drained_to_refl.
        all: try (apply Forall_cons; repeat split; auto; lia).
        all: try (unfold count_accepts; simpl; lia).
        all: intros _ _; discriminate.
      * (* the socket takes [min k len] bytes *)
        apply Z.leb_le in Hev.
        rewrite (send_accept n s k) by (auto; lia).
        set (r := Z.min k (size p - pos p)).
        assert (Hr : 1 <= r <= size p - pos p) by (unfold r; lia).
        cbv iota beta.
        destruct (Z.eqb_spec r (-1)) as [E | _]; [lia|].
        destruct (Z.eqb_spec r 0) as [E | _]; [lia|].
        unfold UINT16_MAX in H16.
        rewrite to_PacketSize_small by (unfold UINT16_MAX; lia).
        set (p' := {| buffer := buffer p; size := size p; pos := pos p + r |}).
        assert (Hun : unsent p' = drop (Z.to_nat r) (unsent p))
          by (apply unsent_advance; lia).
        set (n1 := {| wire := wire n ++ take (Z.to_nat r) (unsent p);
                      send_script := s; recv_script := recv_script n;
                      closed := closed n |}).
        assert (Hwire : wire n1 ++ unsent p' = wire n ++ unsent p).
        { simpl. rewrite Hun, <- app_assoc, take_drop. reflexivity. }
        simpl pos. simpl size.
        destruct (Z.eqb_spec (pos p + r) (size p)) as [Edone | Emore].
        -- (* the packet is sent: on to the next one *)
           destruct (IH n1 Hqn Hs) as (q' & n' & used & Hloop & Hcons & Hdr & Hq'
                                       & Hused & Hcount & _).
           exists q', n', (SendAccept k :: used).
           assert (Hnil : unsent p' = []).
           { rewrite Hun. apply drop_ge. lia. }
           rewrite Hnil, app_nil_r in Hwire.
           split; [exact Hloop|].
           split; [rewrite Hcons, pending_cons, app_assoc, Hwire; reflexivity|].
           split.
           { eapply drained_to_trans; [|exact Hdr].
             destruct next as [|p2 rest].
             - exists [p]. left. auto.
             - exists [p]. right. exists p2, p2, rest. repeat split; auto. lia. }
           split; [exact Hq'|].
           split; [simpl; simpl in Hused; rewrite Hused; reflexivity|].
           split; [| intros _ _; discriminate].
           rewrite pending_cons, length_app.
           change (count_accepts (SendAccept k :: used))
             with (S (count_accepts used)).
           lia.
        -- (* a short write: the loop yields *)
           exists (p' :: next), n1, [SendAccept k].
           split; [reflexivity|].
           split; [rewrite !pending_cons, !app_assoc, Hwire; reflexivity|].
           split.
           { exists []. right. exists p, p', next. repeat split; auto.
             simpl. lia. }
           split.
           { apply Forall_cons. split; [|exact Hqn].
             unfold queued, p'. simpl. unfold UINT16_MAX. lia. }
           split; [reflexivity|].
           split; [| intros _ _; discriminate].
           rewrite !pending_cons, !length_app, Hun, length_drop.
           change (count_accepts [SendAccept k]) with 1%nat. lia.
Qed.

(** One call of [Send_Packets] in a steady world returns [true] and leaves
    the world steady. *)
Lemma Send_Packets_steady (w : World) :
  steady w ->
  exists (w' : World) (used : list send_event),
    Send_Packets w = (true, w')
    /\ steady w'
    /\ wire (net w') ++ pending (packet_queue (client w'))
       = wire (net w) ++ pending (packet_queue (client w))
    /\ drained_to (packet_queue (client w)) (packet_queue (client w'))
    /\ send_script (net w) = used ++ send_script (net w')
    /\ (count_accepts used + length (pending (packet_queue (client w')))
        <= length (pending (packet_queue (client w))))%nat
    /\ (packet_queue (client w) <> [] -> send_script (net w) <> [] -> used <> []).
Proof.
  intros (Hwr & Hsock & Hquit & Hq & Hs).
  destruct (Send_Packets_loop_steady _ (net w) Hq Hs)
    as (q' & n' & used & Hloop & Hcons & Hdr & Hq' & Hused & Hcount & Hprog).
  unfold Send_Packets. rewrite Hwr. simpl negb. cbv iota.
  unfold IsConnected. rewrite bool_decide_true by exact Hsock.
  simpl negb. cbv iota. rewrite Hloop.
  eexists _, used. split; [reflexivity|]. simpl.
  split; [|auto 10].
  unfold steady. simpl. repeat split; auto.
  rewrite Hused in Hs. apply Forall_app in Hs as (_ & Hs). exact Hs.
Qed.

Lemma repeat_Send_Packets_steady (n : nat) :
  forall w : World,
    steady w ->
    steady (repeat_Send_Packets n w)
    /\ wire (net (repeat_Send_Packets n w))
       ++ pending (packet_queue (client (repeat_Send_Packets n w)))
       = wire (net w) ++ pending (packet_queue (client w))
    /\ drained_to (packet_queue (client w))
                  (packet_queue (client (repeat_Send_Packets n w))).
Proof.
  induction n as [|n IH]; intros w Hw; simpl.
  - split; [exact Hw|]. split; [reflexivity | apply drained_to_refl].
  - destruct (Send_Packets_steady w Hw)
      as (w' & used & Hcall & Hw' & Hcons & Hdr & _).
    rewrite Hcall. simpl snd.
    destruct (IH w' Hw') as (Hst & Hcons' & Hdr').
    split; [exact Hst|]. split; [congruence|].
    eapply drained_to_trans; eauto.
Qed.

(** When the script holds at least as many accepting writes as there are
    bytes queued, as many calls as the script has entries empty the queue. *)
Lemma repeat_Send_Packets_drains (m : nat) :
  forall w : World,
    steady w ->
    (length (send_script (net w)) <= m)%nat ->
    (length (pending (packet_queue (client w)))
     <= count_accepts (send_script (net w)))%nat ->
    packet_queue (client (repeat_Send_Packets m w)) = [].
Proof.
  induction m as [|m IH]; intros w Hw Hlen Hacc.
  - simpl. destruct (send_script (net w)) eqn:Hs; [|simpl in Hlen; lia].
    destruct Hw as (_ & _ & _ & Hq & _).
    apply pending_nil_queue; [exact Hq|].
    change (count_accepts []) with 0%nat in Hacc.
    destruct (pending (packet_queue (client w))); [reflexivity | simpl in Hacc; lia].
  - destruct (packet_queue (client w)) as [|p rest] eqn:Hq.
    { (* nothing queued: the queue stays empty *)
      destruct (repeat_Send_Packets_steady (S m) w Hw) as (_ & _ & Hdr).
      rewrite Hq in Hdr.
      destruct Hdr as [gone [[E _] | (p & p' & rest & E & _)]]; [exact E|].
      destruct gone; discriminate E. }
    simpl.
    destruct (Send_Packets_steady w Hw)
      as (w' & used & Hcall & Hw' & Hcons & Hdr & Hused & Hcount & Hprog).
    rewrite Hcall. simpl snd. rewrite Hq in Hcount, Hprog.
    rewrite Hused, count_accepts_split in Hacc.
    apply IH; [exact Hw' | | lia].
    destruct (send_script (net w)) as [|ev s] eqn:Hs.
    + destruct used; [|discriminate Hused]. simpl in Hused.
      rewrite <- Hused. simpl. lia.
    + assert (Hne : used <> []) by (apply Hprog; discriminate).
      rewrite Hused, length_app in Hlen.
      destruct used; [contradiction|]. simpl in Hlen. lia.
Qed.

Lemma PrepareToSend_sendable (p : Packet) :
  sendable p ->
  exists p' : Packet,
    PrepareToSend p = Ok p'
    /\ queued p' /\ pos p' = 0 /\ size p' = size p
    /\ length (buffer p') = length (buffer p)
    /\ drop 2 (buffer p') = drop 2 (buffer p)
    /\ take 2 (buffer p') = [size p mod 256; size p / 256].
Proof.
  intros ((Hlo & Hhi) & H16). unfold UINT16_MAX in H16.
  destruct (buffer p) as [|b0 [|b1 rest]] eqn:Hb; simpl in Hhi; try lia.
  unfold PrepareToSend. rewrite Hb.
  rewrite (store_app [] (b1 :: rest) b0 _ 0) by reflexivity.
  simpl bind. simpl app.
  match goal with
  | |- context [Net.store (?lo :: b1 :: rest) 1 ?x] =>
      change (lo :: b1 :: rest) with ([lo] ++ b1 :: rest);
      rewrite (store_app [lo] rest b1 x 1) by reflexivity
  end.
  simpl bind. simpl app. eexists. split; [reflexivity|].
  rewrite !to_byte_GB by lia.
  change (2 ^ 0) with 1. change (2 ^ 8) with 256. rewrite Z.div_1_r.
  rewrite (Z.mod_small (size p / 256))
    by (split; [apply Z.div_pos; lia | apply Z.div_lt_upper_bound; lia]).
  unfold queued, UINT16_MAX. simpl. repeat split; auto; lia.
Qed.

Lemma repeat_Send_Packets_not_writable (n : nat) (w : World) :
  writable (client w) = false -> repeat_Send_Packets n w = w.
Proof.
  intros Hw. induction n as [|n IH]; simpl; [reflexivity|].
  unfold Send_Packets. rewrite Hw. simpl. exact IH.
Qed.

(** The claim as stated lets a write accept zero bytes.  On a server, a
    first write that accepts nothing makes [Send_Packets] close the
    connection: the queue is given up and, however often [Send_Packets] is
    called and whatever the socket would accept afterwards, no byte of the
    three packets is transmitted. *)
Lemma Send_Packets_zero_byte_write_closes :
  exists w1 : World,
    enqueue3 (server_world [SendAccept 0; SendAccept 5; SendAccept 4; SendAccept 3])
             packet_A packet_B packet_C = Ok w1
    /\ length (packet_queue (client w1)) = 3%nat
    /\ forall n : nat,
        (1 <= n)%nat ->
        wire (net (repeat_Send_Packets n w1)) = []
        /\ packet_queue (client (repeat_Send_Packets n w1)) = []
        /\ has_quit (client (repeat_Send_Packets n w1)) = true.
Proof.
  eexists. split; [reflexivity|]. split; [reflexivity|].
  intros [|n] Hn; [lia|].
  change (repeat_Send_Packets (S n) ?w)
    with (repeat_Send_Packets n (snd (Send_Packets w))).
  rewrite repeat_Send_Packets_not_writable by reflexivity.
  repeat split; reflexivity.
Qed.

(** C9 (amended).  A connection in steady state with an empty queue; the
    packets [A], [B], [C] enqueued in this order with [Send_Packet]; writes
    that each accept at least one byte (and at most what was requested) or
    would block.  After any number [n] of calls of [Send_Packets]: the bytes
    on the wire followed by the bytes still queued are the bytes of [A], [B],
    [C] in this order, so the wire holds a prefix of them; of the queue
    [A; B; C] only packets at the front are gone, and the cursor of the
    packet at the front tells how much of it is on the wire; the connection
    is open.  When the script holds an accepting write for every byte and
    [Send_Packets] is called as often as the script has entries, the queue is
    empty and the wire holds all bytes of [A], [B], [C] in order. *)
Theorem Send_Packets_in_order (w0 : World) (A B C : Packet) (n : nat) :
  steady w0 ->
  packet_queue (client w0) = [] ->
  sendable A -> sendable B -> sendable C ->
  exists (A' B' C' : Packet) (w1 : World),
    PrepareToSend A = Ok A' /\ PrepareToSend B = Ok B' /\ PrepareToSend C = Ok C'
    /\ enqueue3 w0 A B C = Ok w1
    /\ packet_queue (client w1) = [A'; B'; C']
    /\ let w := repeat_Send_Packets n w1 in
       let total := frame A' ++ frame B' ++ frame C' in
       wire (net w) ++ pending (packet_queue (client w)) = wire (net w0) ++ total
       /\ drained_to [A'; B'; C'] (packet_queue (client w))
       /\ has_quit (client w) = false
       /\ ((length total <= count_accepts (send_script (net w0)))%nat ->
           (length (send_script (net w0)) <= n)%nat ->
           packet_queue (client w) = []
           /\ wire (net w) = wire (net w0) ++ total).
Proof.
  intros Hw0 Hq0 HA HB HC.
  destruct (PrepareToSend_sendable A HA) as (A' & HpA & HqA & HposA & _).
  destruct (PrepareToSend_sendable B HB) as (B' & HpB & HqB & HposB & _).
  destruct (PrepareToSend_sendable C HC) as (C' & HpC & HqC & HposC & _).
  exists A', B', C'.
  eexists. split; [exact HpA|]. split; [exact HpB|]. split; [exact HpC|].
  split.
  { unfold enqueue3, Send_Packet. rewrite HpA. simpl bind.
    rewrite HpB. simpl bind. rewrite HpC. simpl bind. reflexivity. }
  simpl packet_queue. rewrite Hq0. simpl app.
  split; [reflexivity|].
  match goal with
  | |- context [repeat_Send_Packets n ?w] => set (w1 := w)
  end.
  assert (Hw1 : steady w1).
  { destruct Hw0 as (Hwr & Hsock & Hquit & _ & Hs).
    unfold steady, w1. simpl. repeat split; auto. }
  assert (Hpend : pending (packet_queue (client w1))
                  = frame A' ++ frame B' ++ frame C').
  { unfold w1. simpl. unfold pending. simpl.
    rewrite !unsent_prepared by assumption. rewrite app_nil_r. reflexivity. }
  destruct (repeat_Send_Packets_steady n w1 Hw1) as (Hst & Hcons & Hdr).
  cbv zeta.
  split; [rewrite Hcons, Hpend; reflexivity|].
  split; [exact Hdr|].
  split; [destruct Hst as (_ & _ & Hquit & _); exact Hquit|].
  intros Hacc Hlen.
  assert (Hempty : packet_queue (client (repeat_Send_Packets n w1)) = []).
  { apply repeat_Send_Packets_drains; [exact Hw1 | exact Hlen |].
    rewrite Hpend. exact Hacc. }
  split; [exact Hempty|].
  rewrite Hempty in Hcons. change (pending []) with (@nil Z) in Hcons.
  rewrite app_nil_r in Hcons. rewrite Hcons, Hpend. reflexivity.
Qed.

Lemma Send_Packets_in_order_witness :
  let w0 := server_world slow_script in
  steady w0
  /\ packet_queue (client w0) = []
  /\ sendable packet_A /\ sendable packet_B /\ sendable packet_C
  /\ exists (A' B' C' : Packet) (w1 : World),
      PrepareToSend packet_A = Ok A' /\ PrepareToSend packet_B = Ok B'
      /\ PrepareToSend packet_C = Ok C'
      /\ enqueue3 w0 packet_A packet_B packet_C = Ok w1
      /\ packet_queue (client w1) = [A'; B'; C']
      /\ let w := repeat_Send_Packets 14 w1 in
         let total := frame A' ++ frame B' ++ frame C' in
         wire (net w) ++ pending (packet_queue (client w)) = wire (net w0) ++ total
         /\ drained_to [A'; B'; C'] (packet_queue (client w))
         /\ has_quit (client w) = false
         /\ ((length total <= count_accepts (send_script (net w0)))%nat ->
             (length (send_script (net w0)) <= 14)%nat ->
             packet_queue (client w) = []
             /\ wire (net w) = wire (net w0) ++ total).
Proof.
  intros w0.
  assert (Hw0 : steady w0).
  { unfold steady, w0. simpl.
    split; [reflexivity|]. split; [discriminate|]. split; [reflexivity|].
    split; [constructor|]. repeat constructor. }
  assert (HA : sendable packet_A) by (unfold sendable, UINT16_MAX; simpl; lia).
  assert (HB : sendable packet_B) by (unfold sendable, UINT16_MAX; simpl; lia).
  assert (HC : sendable packet_C) by (unfold sendable, UINT16_MAX; simpl; lia).
  split; [exact Hw0|]. split; [reflexivity|].
  split; [exact HA|]. split; [exact HB|]. split; [exact HC|].
  exact (Send_Packets_in_order w0 packet_A packet_B packet_C 14
                               Hw0 eq_refl HA HB HC).
Defined.

(** The three packets on the wire, after the fourteen calls. *)
Example slow_script_wire :
  (let* w1 := enqueue3 (server_world slow_script) packet_A packet_B packet_C in
   Ok (wire (net (repeat_Send_Packets 14 w1)),
       packet_queue (client (repeat_Send_Packets 14 w1))))
  = Ok ([5; 0; 1; 10; 11; 4; 0; 2; 20; 3; 0; 3], []).
Proof. vm_compute. reflexivity. Qed.

(* ===================================================================== *)
(** * saveload_buffer.cpp: further facts *)
(* ===================================================================== *)

(** ** The end of the stream *)

Lemma ReadByte_end (lb : LoadBuffer) :
  remaining lb = [] ->
  ReadByte lb = Fault (SlErrorCorrupt "Unexpected end of stream").
Proof.
  unfold remaining, ReadByte. destruct lb as [n bf rd]; simpl.
  destruct bf as [|b bf]; simpl; [|discriminate].
  destruct rd as [|[|c0 c] rd]; simpl; try discriminate; intros _; reflexivity.
Qed.

Lemma shift_in_byte_end (i : Z) (lb : LoadBuffer) :
  remaining lb = [] ->
  shift_in_byte i lb = Fault (SlErrorCorrupt "Unexpected end of stream").
Proof. intros H. unfold shift_in_byte. rewrite ReadByte_end by exact H. reflexivity. Qed.

(** ** The encoding as a list of bytes *)

Lemma WriteGamma_bytes (d : SaveDumper) (v : Z) :
  0 <= v < 2 ^ 28 ->
  WriteGamma d v = Ok {| written := written d ++ gamma_bytes v |}.
Proof.
  intros Hv. unfold gamma_bytes.
  destruct (Z.ltb_spec v (2 ^ 7)); [apply WriteGamma_1; lia|].
  destruct (Z.ltb_spec v (2 ^ 14)); [apply WriteGamma_2; lia|].
  destruct (Z.ltb_spec v (2 ^ 21)); [apply WriteGamma_3; lia|].
  apply WriteGamma_4; lia.
Qed.

Lemma quotient_range (v k hi : Z) :
  0 <= v < 2 ^ k * hi -> 0 <= k -> 0 <= v / 2 ^ k < hi.
Proof.
  intros Hv Hk. assert (0 < 2 ^ k) by (apply Z.pow_pos_nonneg; lia).
  split; [apply Z.div_pos; lia | apply Z.div_lt_upper_bound; lia].
Qed.

Lemma digits_8 (v : Z) : v = v / 2 ^ 8 * 256 + v mod 2 ^ 8.
Proof. pose proof (Z.div_mod v (2 ^ 8) ltac:(lia)). lia. Qed.

Lemma digits_16 (v : Z) :
  v = (v / 2 ^ 16 * 256 + (v / 2 ^ 8) mod 2 ^ 8) * 256 + v mod 2 ^ 8.
Proof.
  pose proof (digits_8 v). pose proof (digits_8 (v / 2 ^ 8)).
  assert (v / 2 ^ 8 / 2 ^ 8 = v / 2 ^ 16)
    by (rewrite Z.div_div by lia; reflexivity).
  lia.
Qed.

Lemma digits_24 (v : Z) :
  v = ((v / 2 ^ 24 * 256 + (v / 2 ^ 16) mod 2 ^ 8) * 256
       + (v / 2 ^ 8) mod 2 ^ 8) * 256 + v mod 2 ^ 8.
Proof.
  pose proof (digits_16 v). pose proof (digits_8 (v / 2 ^ 16)).
  assert (v / 2 ^ 16 / 2 ^ 8 = v / 2 ^ 24)
    by (rewrite Z.div_div by lia; reflexivity).
  lia.
Qed.

Lemma ReadGamma_bytes (lb : LoadBuffer) (v : Z) (rest : list Z) :
  0 <= v < 2 ^ 28 ->
  remaining lb = gamma_bytes v ++ rest ->
  exists lb', ReadGamma lb = Ok (v, lb') /\ remaining lb' = rest.
Proof.
  intros Hv. unfold gamma_bytes.
  assert (Hr0 : 0 <= v mod 2 ^ 8 < 256) by (apply Z.mod_pos_bound; lia).
  assert (Hr1 : 0 <= (v / 2 ^ 8) mod 2 ^ 8 < 256) by (apply Z.mod_pos_bound; lia).
  assert (Hr2 : 0 <= (v / 2 ^ 16) mod 2 ^ 8 < 256) by (apply Z.mod_pos_bound; lia).
  destruct (Z.ltb_spec v (2 ^ 7)); [intros Hrem; apply ReadGamma_1; [lia | exact Hrem]|].
  destruct (Z.ltb_spec v (2 ^ 14)).
  { intros Hrem. pose proof (quotient_range v 8 64 ltac:(lia) ltac:(lia)).
    destruct (ReadGamma_2 lb (0x80 + v / 2 ^ 8) _ rest ltac:(lia) Hr0 Hrem)
      as (lb' & Hread & Hrest).
    exists lb'. split; [|exact Hrest]. rewrite Hread. do 2 f_equal.
    pose proof (digits_8 v). lia. }
  destruct (Z.ltb_spec v (2 ^ 21)).
  { intros Hrem. pose proof (quotient_range v 16 32 ltac:(lia) ltac:(lia)).
    destruct (ReadGamma_3 lb (0xC0 + v / 2 ^ 16) _ _ rest ltac:(lia) Hr1 Hr0 Hrem)
      as (lb' & Hread & Hrest).
    exists lb'. split; [|exact Hrest]. rewrite Hread. do 2 f_equal.
    pose proof (digits_16 v). lia. }
  intros Hrem. pose proof (quotient_range v 24 16 ltac:(lia) ltac:(lia)).
  destruct (ReadGamma_4 lb (0xE0 + v / 2 ^ 24) _ _ _ rest ltac:(lia) Hr2 Hr1 Hr0 Hrem)
    as (lb' & Hread & Hrest).
  exists lb'. split; [|exact Hrest]. rewrite Hread. do 2 f_equal.
  pose proof (digits_24 v). lia.
Qed.

Lemma length_gamma_bytes (v : Z) : (1 <= length (gamma_bytes v) <= 4)%nat.
Proof.
  unfold gamma_bytes.
  destruct (v <? 2 ^ 7); [simpl; lia|].
  destruct (v <? 2 ^ 14); [simpl; lia|].
  destruct (v <? 2 ^ 21); simpl; lia.
Qed.

(** ** Values in a row *)

(** X1.  Values below [2^28] written one after the other with [WriteGamma]
    are read back, in order and in full, by as many calls of [ReadGamma]: an
    encoding tells its own length, so that none of the values needs a
    separator, and the reader is left at the byte that follows the last
    value.  Each value takes from one to four bytes. *)
Theorem gamma_sequence_round_trip (vs : list Z) (d : SaveDumper) :
  Forall (fun v => 0 <= v < 2 ^ 28) vs ->
  exists bs : list Z,
    WriteGammas d vs = Ok {| written := written d ++ bs |}
    /\ (length vs <= length bs <= 4 * length vs)%nat
    /\ forall (lb : LoadBuffer) (rest : list Z),
        remaining lb = bs ++ rest ->
        exists lb', ReadGammas (length vs) lb = Ok (vs, lb')
                    /\ remaining lb' = rest.
Proof.
  intros Hvs. revert d. induction Hvs as [|v vs Hv _ IH]; intros d.
  - exists []. simpl. rewrite app_nil_r. split; [destruct d; reflexivity|].
    split; [lia|]. intros lb rest Hrem. exists lb. split; [reflexivity | exact Hrem].
  - destruct (IH {| written := written d ++ gamma_bytes v |})
      as (bs & Hw & Hlen & Hr).
    exists (gamma_bytes v ++ bs). simpl WriteGammas.
    rewrite WriteGamma_bytes by exact Hv. cbn [bind]. rewrite Hw. simpl written.
    split; [rewrite app_assoc; reflexivity|].
    pose proof (length_gamma_bytes v).
    split; [rewrite length_app; simpl length; lia|].
    intros lb rest Hrem. rewrite <- app_assoc in Hrem.
    destruct (ReadGamma_bytes lb v _ Hv Hrem) as (lb1 & Hread & Hrem1).
    destruct (Hr lb1 rest Hrem1) as (lb2 & Hreads & Hrem2).
    exists lb2. split; [|exact Hrem2].
    simpl ReadGammas. rewrite Hread. cbn [bind]. rewrite Hreads. reflexivity.
Qed.

Lemma gamma_sequence_round_trip_witness :
  let vs := [0; 127; 128; 300; 2 ^ 21; 2 ^ 28 - 1] in
  Forall (fun v => 0 <= v < 2 ^ 28) vs
  /\ exists bs : list Z,
      WriteGammas (mkSaveDumper [7]) vs = Ok {| written := [7] ++ bs |}
      /\ (length vs <= length bs <= 4 * length vs)%nat
      /\ forall (lb : LoadBuffer) (rest : list Z),
          remaining lb = bs ++ rest ->
          exists lb', ReadGammas (length vs) lb = Ok (vs, lb')
                      /\ remaining lb' = rest.
Proof.
  intros vs.
  assert (Hvs : Forall (fun v => 0 <= v < 2 ^ 28) vs)
    by (repeat constructor; lia).
  split; [exact Hvs|].
  exact (gamma_sequence_round_trip vs (mkSaveDumper [7]) Hvs).
Defined.

(** ** Every outcome of [ReadGamma] *)

Lemma gamma_width_cases (b0 : Z) :
  (b0 < 0x80 /\ gamma_width b0 = 1%nat)
  \/ (0x80 <= b0 < 0xC0 /\ gamma_width b0 = 2%nat)
  \/ (0xC0 <= b0 < 0xE0 /\ gamma_width b0 = 3%nat)
  \/ (0xE0 <= b0 /\ gamma_width b0 = 4%nat).
Proof.
  unfold gamma_width.
  destruct (Z.ltb_spec b0 0x80); [left; split; [lia | reflexivity]|].
  destruct (Z.ltb_spec b0 0xC0); [right; left; split; [lia | reflexivity]|].
  destruct (Z.ltb_spec b0 0xE0);
    [right; right; left | right; right; right]; split; solve [lia | reflexivity].
Qed.

Ltac bytes_of H :=
  repeat match type of H with
  | Forall is_byte (_ :: _) =>
      let Hb := fresh "Hbyte" in
      apply Forall_cons in H as (Hb & H); unfold is_byte in Hb
  end.

(** The stream holds all the bytes the first byte announces: the value is
    decoded and exactly these bytes are used up. *)
Lemma ReadGamma_enough (lb : LoadBuffer) (b0 : Z) (tl : list Z) :
  remaining lb = b0 :: tl -> Forall is_byte (b0 :: tl) -> b0 < 0xF0 ->
  (gamma_width b0 <= length (b0 :: tl))%nat ->
  exists (v : Z) (lb' : LoadBuffer) (used : list Z),
    ReadGamma lb = Ok (v, lb')
    /\ b0 :: tl = used ++ remaining lb'
    /\ length used = gamma_width b0
    /\ 0 <= v < 2 ^ (7 * Z.of_nat (gamma_width b0)).
Proof.
  intros Hrem Hbytes Hb0 Hlen.
  destruct (gamma_width_cases b0) as [(Hr & Hw) | [(Hr & Hw) | [(Hr & Hw) | (Hr & Hw)]]];
    rewrite Hw in *; simpl length in Hlen.
  - bytes_of Hbytes.
    destruct (ReadGamma_1 lb b0 tl ltac:(lia) Hrem) as (lb' & Hread & Hrest).
    exists b0, lb', [b0]. rewrite Hrest. repeat split; auto; simpl; lia.
  - destruct tl as [|b1 tl]; [simpl in Hlen; lia|]. bytes_of Hbytes.
    destruct (ReadGamma_2 lb b0 b1 tl ltac:(lia) ltac:(lia) Hrem)
      as (lb' & Hread & Hrest).
    eexists _, lb', [b0; b1]. rewrite Hrest.
    split; [exact Hread|]. repeat split; auto; simpl; lia.
  - destruct tl as [|b1 [|b2 tl]]; try (simpl in Hlen; lia). bytes_of Hbytes.
    destruct (ReadGamma_3 lb b0 b1 b2 tl ltac:(lia) ltac:(lia) ltac:(lia) Hrem)
      as (lb' & Hread & Hrest).
    eexists _, lb', [b0; b1; b2]. rewrite Hrest.
    split; [exact Hread|]. repeat split; auto; simpl; lia.
  - destruct tl as [|b1 [|b2 [|b3 tl]]]; try (simpl in Hlen; lia). bytes_of Hbytes.
    destruct (ReadGamma_4 lb b0 b1 b2 b3 tl ltac:(lia) ltac:(lia) ltac:(lia)
                          ltac:(lia) Hrem) as (lb' & Hread & Hrest).
    eexists _, lb', [b0; b1; b2; b3]. rewrite Hrest.
    split; [exact Hread|]. repeat split; auto; simpl; lia.
Qed.

Lemma ReadGamma_starved (lb : LoadBuffer) :
  Forall is_byte (remaining lb) -> starved (remaining lb) ->
  ReadGamma lb = Fault (SlErrorCorrupt "Unexpected end of stream").
Proof.
  intros Hbytes [Hnil | (b0 & tl & Hrem & Hb0 & Hlen)].
  - unfold ReadGamma. rewrite ReadByte_end by exact Hnil. reflexivity.
  - rewrite Hrem in Hbytes.
    destruct (ReadByte_remaining lb b0 tl Hrem) as (lb0 & Hread & Hrem0).
    unfold ReadGamma. rewrite Hread. cbn [bind].
    destruct (gamma_width_cases b0)
      as [(Hr & Hw) | [(Hr & Hw) | [(Hr & Hw) | (Hr & Hw)]]];
      rewrite Hw in Hlen; simpl length in Hlen; [lia | | |].
    + destruct tl as [|b1 tl]; [|simpl in Hlen; lia].
      destruct (head_2 b0 Hr) as (-> & -> & ->). cbn [bind].
      apply shift_in_byte_end. exact Hrem0.
    + destruct (head_3 b0 Hr) as (-> & -> & -> & -> & ->). cbn [bind].
      destruct tl as [|b1 tl].
      { rewrite shift_in_byte_end by exact Hrem0. reflexivity. }
      destruct tl as [|b2 tl]; [|simpl in Hlen; lia]. bytes_of Hbytes.
      destruct (shift_in_byte_remaining (b0 - 0xC0) b1 lb0 [] ltac:(lia)
                                        ltac:(lia) Hrem0) as (lb1 & Hs1 & Hrem1).
      rewrite Hs1. cbn [bind]. apply shift_in_byte_end. exact Hrem1.
    + destruct (head_4 b0 ltac:(bytes_of Hbytes; lia))
        as (-> & -> & -> & -> & -> & -> & ->).
      destruct (Z.ltb_spec b0 0xF0); [|lia]. simpl negb. cbv iota. cbn [bind].
      destruct tl as [|b1 tl].
      { rewrite shift_in_byte_end by exact Hrem0. reflexivity. }
      bytes_of Hbytes.
      destruct (shift_in_byte_remaining (b0 - 0xE0) b1 lb0 tl ltac:(lia)
                                        ltac:(lia) Hrem0) as (lb1 & Hs1 & Hrem1).
      rewrite Hs1. cbn [bind].
      destruct tl as [|b2 tl].
      { rewrite shift_in_byte_end by exact Hrem1. reflexivity. }
      destruct tl as [|b3 tl]; [|simpl in Hlen; lia]. bytes_of Hbytes.
      destruct (shift_in_byte_remaining ((b0 - 0xE0) * 256 + b1) b2 lb1 []
                                        ltac:(lia) ltac:(lia) Hrem1)
        as (lb2 & Hs2 & Hrem2).
      rewrite Hs2. cbn [bind]. apply shift_in_byte_end. exact Hrem2.
Qed.

(** X2.  On a stream of bytes [ReadGamma] has three outcomes and no other.
    It reports "Unexpected end of stream" exactly when the stream is empty
    or ends before the bytes that the first byte announces are there; it
    reports "Unsupported gamma" exactly when the first byte is [0xF0] or
    more; in every other case it returns a value.  It never reaches
    outside its buffer. *)
Theorem ReadGamma_outcomes (lb : LoadBuffer) :
  Forall is_byte (remaining lb) ->
  (ReadGamma lb = Fault (SlErrorCorrupt "Unexpected end of stream")
   <-> starved (remaining lb))
  /\ (ReadGamma lb = Fault (SlErrorCorrupt "Unsupported gamma")
      <-> exists (b0 : Z) (tl : list Z), remaining lb = b0 :: tl /\ 0xF0 <= b0)
  /\ ((exists (v : Z) (lb' : LoadBuffer), ReadGamma lb = Ok (v, lb'))
      <-> exists (b0 : Z) (tl : list Z),
            remaining lb = b0 :: tl /\ b0 < 0xF0
            /\ (gamma_width b0 <= length (b0 :: tl))%nat).
Proof.
  intros Hbytes.
  assert (Hcases :
    starved (remaining lb)
    \/ (exists b0 tl, remaining lb = b0 :: tl /\ 0xF0 <= b0)
    \/ (exists b0 tl, remaining lb = b0 :: tl /\ b0 < 0xF0
                      /\ (gamma_width b0 <= length (b0 :: tl))%nat)).
  { destruct (remaining lb) as [|b0 tl] eqn:Hrem; [left; left; reflexivity|].
    destruct (Z.le_gt_cases 0xF0 b0); [right; left; eauto|].
    destruct (Nat.le_gt_cases (gamma_width b0) (length (b0 :: tl)));
      [right; right; eauto 6|].
    left. right. exists b0, tl. auto. }
  assert (Hbad : forall b0 tl, remaining lb = b0 :: tl -> 0xF0 <= b0 ->
                 ReadGamma lb = Fault (SlErrorCorrupt "Unsupported gamma")).
  { intros b0 tl Hrem Hb0. rewrite Hrem in Hbytes. bytes_of Hbytes.
    apply (ReadGamma_corrupt lb b0 tl); [lia | exact Hrem]. }
  assert (Hgood : forall b0 tl, remaining lb = b0 :: tl -> b0 < 0xF0 ->
                  (gamma_width b0 <= length (b0 :: tl))%nat ->
                  exists v lb', ReadGamma lb = Ok (v, lb')).
  { intros b0 tl Hrem Hb0 Hlen. rewrite Hrem in Hbytes.
    destruct (ReadGamma_enough lb b0 tl Hrem Hbytes Hb0 Hlen)
      as (v & lb' & used & Hread & _).
    eauto. }
  split; [| split].
  - split; [|apply ReadGamma_starved; exact Hbytes].
    intros Hread.
    destruct Hcases as [H | [(b0 & tl & Hrem & Hb0) | (b0 & tl & Hrem & Hb0 & Hlen)]];
      [exact H | |].
    + rewrite (Hbad b0 tl Hrem Hb0) in Hread. discriminate Hread.
    + destruct (Hgood b0 tl Hrem Hb0 Hlen) as (v & lb' & E).
      rewrite E in Hread. discriminate Hread.
  - split; [|intros (b0 & tl & Hrem & Hb0); eapply Hbad; eauto].
    intros Hread.
    destruct Hcases as [H | [H | (b0 & tl & Hrem & Hb0 & Hlen)]]; [| exact H |].
    + rewrite (ReadGamma_starved lb Hbytes H) in Hread. discriminate Hread.
    + destruct (Hgood b0 tl Hrem Hb0 Hlen) as (v & lb' & E).
      rewrite E in Hread. discriminate Hread.
  - split; [|intros (b0 & tl & Hrem & Hb0 & Hlen); eapply Hgood; eauto].
    intros (v & lb' & Hread).
    destruct Hcases as [H | [(b0 & tl & Hrem & Hb0) | H]]; [| | exact H].
    + rewrite (ReadGamma_starved lb Hbytes H) in Hread. discriminate Hread.
    + rewrite (Hbad b0 tl Hrem Hb0) in Hread. discriminate Hread.
Qed.

Lemma ReadGamma_outcomes_witness :
  let lb := mkLoadBuffer 0 [0xC1] [[0x02]; []; [0x03]] in
  Forall is_byte (remaining lb)
  /\ starved (remaining lb)
  /\ ReadGamma lb = Fault (SlErrorCorrupt "Unexpected end of stream").
Proof.
  intros lb.
  assert (Hbytes : Forall is_byte (remaining lb))
    by (repeat constructor; unfold is_byte; lia).
  assert (Hshort : starved (remaining lb)).
  { right. exists 0xC1, [0x02]. split; [reflexivity|].
    split; [lia | vm_compute; lia]. }
  split; [exact Hbytes|]. split; [exact Hshort|].
  destruct (ReadGamma_outcomes lb Hbytes) as ((_ & H) & _).
  exact (H Hshort).
Defined.

(** X3.  A value that [ReadGamma] returns from a stream of bytes is below
    [2^28], and below [2^(7 k)] when [k] bytes were used up; [WriteGamma]
    accepts it and writes it in no more bytes than were read.  The bytes read
    need not be the ones [WriteGamma] writes: the decoder also takes the
    longer forms of a small value. *)
Theorem ReadGamma_value_reencodes (lb lb' : LoadBuffer) (v : Z) :
  Forall is_byte (remaining lb) ->
  ReadGamma lb = Ok (v, lb') ->
  exists used : list Z,
    remaining lb = used ++ remaining lb'
    /\ (1 <= length used <= 4)%nat
    /\ 0 <= v < 2 ^ (7 * Z.of_nat (length used))
    /\ v < 2 ^ 28
    /\ (forall d : SaveDumper,
           WriteGamma d v = Ok {| written := written d ++ gamma_bytes v |})
    /\ (length (gamma_bytes v) <= length used)%nat.
Proof.
  intros Hbytes Hread.
  destruct (remaining lb) as [|b0 tl] eqn:Hrem.
  { unfold ReadGamma in Hread. rewrite ReadByte_end in Hread by exact Hrem.
    discriminate Hread. }
  destruct (Z.le_gt_cases 0xF0 b0) as [Hbad | Hb0].
  { pose proof Hbytes as Hb. bytes_of Hb.
    rewrite (ReadGamma_corrupt lb b0 tl) in Hread by (auto; lia).
    discriminate Hread. }
  destruct (Nat.le_gt_cases (gamma_width b0) (length (b0 :: tl))) as [Hlen | Hshort].
  2: { rewrite ReadGamma_starved in Hread; [discriminate Hread | |].
       - rewrite Hrem. exact Hbytes.
       - rewrite Hrem. right. exists b0, tl. auto. }
  destruct (ReadGamma_enough lb b0 tl Hrem Hbytes Hb0 Hlen)
    as (v' & lb1 & used & Hread' & Hused & Hwidth & Hv).
  rewrite Hread' in Hread. injection Hread as -> ->.
  exists used. rewrite Hwidth.
  assert (Hw : (1 <= gamma_width b0 <= 4)%nat).
  { destruct (gamma_width_cases b0) as [(_ & ->) | [(_ & ->) | [(_ & ->) | (_ & ->)]]];
      lia. }
  assert (Hv28 : v < 2 ^ 28).
  { apply Z.lt_le_trans with (2 ^ (7 * Z.of_nat (gamma_width b0))); [lia|].
    apply Z.pow_le_mono_r; lia. }
  split; [exact Hused|]. split; [exact Hw|]. split; [exact Hv|].
  split; [exact Hv28|].
  split; [intros d; apply WriteGamma_bytes; lia|].
  unfold gamma_bytes.
  destruct (gamma_width_cases b0)
    as [(_ & Hk) | [(_ & Hk) | [(_ & Hk) | (_ & Hk)]]]; rewrite Hk in *;
    repeat match goal with
    | |- context [?a <? ?b] => destruct (Z.ltb_spec a b); simpl length; try lia
    end.
Qed.

Lemma ReadGamma_value_reencodes_witness :
  let lb := mkLoadBuffer 0 [0x80; 0x05; 9] [] in
  let lb' := mkLoadBuffer 0 [9] [] in
  Forall is_byte (remaining lb)
  /\ ReadGamma lb = Ok (5, lb')
  /\ gamma_bytes 5 = [5]
  /\ exists used : list Z,
      remaining lb = used ++ remaining lb'
      /\ (1 <= length used <= 4)%nat
      /\ 0 <= 5 < 2 ^ (7 * Z.of_nat (length used))
      /\ 5 < 2 ^ 28
      /\ (forall d : SaveDumper,
             WriteGamma d 5 = Ok {| written := written d ++ gamma_bytes 5 |})
      /\ (length (gamma_bytes 5) <= length used)%nat.
Proof.
  intros lb lb'.
  assert (Hbytes : Forall is_byte (remaining lb))
    by (repeat constructor; unfold is_byte; lia).
  split; [exact Hbytes|]. split; [reflexivity|]. split; [reflexivity|].
  exact (ReadGamma_value_reencodes lb lb' 5 Hbytes eq_refl).
Defined.

(** ** Flushing the blocks of a dump *)

Lemma Flush_loop_run (chunk : Z) (d : Dump.SaveDumper) (fuel : nat) :
  forall (i : nat) (t : Z) (calls : list Dump.filter_call),
    0 < chunk -> chunked chunk d ->
    0 <= t < 2 ^ 64 ->
    t <= chunk * Z.of_nat (length (Dump.blocks d) - i) ->
    Z.of_nat (length (Dump.blocks d)) < 2 ^ 32 ->
    (Z.to_nat t <= fuel)%nat ->
    exists chunks : list (list Z),
      Dump.Flush_loop chunk fuel d (Z.of_nat i) t calls
      = Ok (calls ++ map Dump.FilterWrite chunks)
      /\ concat chunks = take (Z.to_nat t) (concat (drop i (Dump.blocks d)))
      /\ Forall (fun c => 0 < Z.of_nat (length c) <= chunk) chunks
      /\ Z.of_nat (length chunks) = (t + chunk - 1) / chunk.
Proof.
  induction fuel as [|fuel IH]; intros i t calls Hchunk Hd Ht Hroom H32 Hfuel.
  - assert (t = 0) by lia. subst t. exists []. simpl.
    rewrite app_nil_r. split; [reflexivity|]. split; [reflexivity|].
    split; [constructor|]. symmetry. apply Z.div_small. lia.
  - cbn [Dump.Flush_loop]. rewrite Z.gtb_ltb.
    destruct (Z.ltb_spec 0 t) as [Hpos | Hzero]; simpl negb; cbv iota.
    2: { assert (t = 0) by lia. subst t. exists []. simpl.
         rewrite app_nil_r. split; [reflexivity|]. split; [reflexivity|].
         split; [constructor|]. symmetry. apply Z.div_small. lia. }
    assert (Hi : (i < length (Dump.blocks d))%nat) by nia.
    rewrite Nat2Z.id.
    destruct (lookup_lt_is_Some_2 (Dump.blocks d) i Hi) as (block & Hblock).
    rewrite Hblock.
    assert (Hlen : Z.of_nat (length block) = chunk).
    { unfold chunked in Hd. rewrite Forall_lookup in Hd. eapply Hd; eauto. }
    rewrite Z.gtb_ltb.
    destruct (Z.ltb_spec (Z.of_nat (length block)) (Z.min chunk t)); [lia|].
    rewrite to_size_t_small by lia.
    unfold to_uint. rewrite wrap_small by lia.
    replace (Z.of_nat i + 1) with (Z.of_nat (S i)) by lia.
    assert (Hdrop : drop i (Dump.blocks d) = block :: drop (S i) (Dump.blocks d)).
    { apply drop_S. exact Hblock. }
    destruct (IH (S i) (t - Z.min chunk t)
                 (calls ++ [Dump.FilterWrite (take (Z.to_nat (Z.min chunk t)) block)]))
      as (chunks & Hrun & Hcat & Hall & Hcount); auto; try lia; try nia.
    exists (take (Z.to_nat (Z.min chunk t)) block :: chunks).
    rewrite Hrun. split; [rewrite <- app_assoc; reflexivity|].
    split; [| split].
    + simpl concat. rewrite Hcat, Hdrop. simpl concat.
      destruct (Z.le_gt_cases t chunk) as [Hle | Hgt].
      * rewrite Z.min_r by lia. replace (t - t) with 0 by lia.
        simpl take. rewrite app_nil_r.
        rewrite take_app_le by lia. reflexivity.
      * rewrite Z.min_l by lia.
        rewrite (take_ge block) by lia.
        rewrite take_app_ge by lia. f_equal. f_equal. lia.
    + constructor; [|exact Hall]. rewrite length_take. lia.
    + simpl length. rewrite Nat2Z.inj_succ, Hcount.
      destruct (Z.le_gt_cases t chunk) as [Hle | Hgt].
      * rewrite Z.min_r by lia. replace (t - t + chunk - 1) with (chunk - 1) by lia.
        rewrite Z.div_small by lia.
        replace (t + chunk - 1) with ((t - 1) + 1 * chunk) by lia.
        rewrite Z.div_add by lia. rewrite Z.div_small by lia. lia.
      * rewrite Z.min_l by lia.
        replace (t + chunk - 1) with ((t - chunk + chunk - 1) + 1 * chunk) by lia.
        rewrite Z.div_add by lia. lia.
Qed.

(** X4.  [Flush] on a dump whose blocks all have the size of a chunk, for a
    size that the blocks cover: the writer is handed, block by block and in
    order, exactly the first [size] bytes of the dump, in as many writes as
    it takes chunks to cover them, none of them empty and none longer than a
    chunk; then it is told to finish.  A size of 0 leads to no write at
    all.  [AllocBuffer] adds a block of this size after the ones that are
    there, so that a dump it has built meets the condition. *)
Theorem Flush_writes_dump (chunk : Z) (d : Dump.SaveDumper) (size : Z) :
  0 < chunk -> chunked chunk d ->
  0 <= size < 2 ^ 64 ->
  size <= chunk * Z.of_nat (length (Dump.blocks d)) ->
  Z.of_nat (length (Dump.blocks d)) < 2 ^ 32 ->
  exists chunks : list (list Z),
    Dump.Flush chunk d size
    = Ok (map Dump.FilterWrite chunks ++ [Dump.FilterFinish])
    /\ concat chunks = take (Z.to_nat size) (concat (Dump.blocks d))
    /\ Forall (fun c => 0 < Z.of_nat (length c) <= chunk) chunks
    /\ Z.of_nat (length chunks) = (size + chunk - 1) / chunk
    /\ (size = 0 -> chunks = [])
    /\ chunked chunk (Dump.AllocBuffer chunk d)
    /\ take (length (Dump.blocks d)) (Dump.blocks (Dump.AllocBuffer chunk d))
       = Dump.blocks d.
Proof.
  intros Hchunk Hd Hsize Hroom H32.
  destruct (Flush_loop_run chunk d (Z.to_nat size) 0 size [])
    as (chunks & Hrun & Hcat & Hall & Hcount); auto; try lia.
  exists chunks. unfold Dump.Flush.
  change 0 with (Z.of_nat 0) at 1. rewrite Hrun. cbn [bind]. simpl app.
  split; [reflexivity|]. split; [exact Hcat|]. split; [exact Hall|].
  split; [exact Hcount|].
  split.
  { intros ->. rewrite Z.div_small in Hcount by lia.
    destruct chunks; [reflexivity | simpl in Hcount; lia]. }
  split.
  - unfold chunked, Dump.AllocBuffer. cbn [Dump.blocks].
    apply Forall_app. split; [exact Hd|].
    constructor; [|constructor]. rewrite length_replicate. lia.
  - unfold Dump.AllocBuffer. cbn [Dump.blocks].
    rewrite take_app_length. reflexivity.
Qed.

Lemma Flush_writes_dump_witness :
  let d := Dump.AllocBuffer 4 (Dump.AllocBuffer 4 (Dump.mkSaveDumper [[1; 2; 3; 4]] 4 4)) in
  0 < 4 /\ chunked 4 d /\ 0 <= 9 < 2 ^ 64
  /\ 9 <= 4 * Z.of_nat (length (Dump.blocks d))
  /\ Z.of_nat (length (Dump.blocks d)) < 2 ^ 32
  /\ exists chunks : list (list Z),
      Dump.Flush 4 d 9 = Ok (map Dump.FilterWrite chunks ++ [Dump.FilterFinish])
      /\ concat chunks = take (Z.to_nat 9) (concat (Dump.blocks d))
      /\ Forall (fun c => 0 < Z.of_nat (length c) <= 4) chunks
      /\ Z.of_nat (length chunks) = (9 + 4 - 1) / 4
      /\ (9 = 0 -> chunks = [])
      /\ chunked 4 (Dump.AllocBuffer 4 d)
      /\ take (length (Dump.blocks d)) (Dump.blocks (Dump.AllocBuffer 4 d))
         = Dump.blocks d.
Proof.
  intros d.
  assert (Hd : chunked 4 d) by (repeat constructor).
  assert (H4 : 0 < 4) by lia.
  assert (H9 : 0 <= 9 < 2 ^ 64) by lia.
  assert (Hroom : 9 <= 4 * Z.of_nat (length (Dump.blocks d))) by (simpl; lia).
  assert (H32 : Z.of_nat (length (Dump.blocks d)) < 2 ^ 32) by (simpl; lia).
  split; [exact H4|]. split; [exact Hd|]. split; [exact H9|].
  split; [exact Hroom|]. split; [exact H32|].
  exact (Flush_writes_dump 4 d 9 H4 Hd H9 Hroom H32).
Defined.

(* ===================================================================== *)
(** * packet.cpp: further facts *)
(* ===================================================================== *)

Section PacketFacts.

Import Net.

(** ** Integers are read little-endian *)

Ltac digits :=
  rewrite ?to_byte_GB by lia;
  change (2 ^ 0) with 1; change (2 ^ 8) with 256; change (2 ^ 16) with 65536;
  change (2 ^ 24) with 16777216; change (2 ^ 32) with 4294967296;
  change (2 ^ 40) with 1099511627776; change (2 ^ 48) with 281474976710656;
  change (2 ^ 56) with 72057594037927936;
  repeat (apply (f_equal2 cons); [Z.to_euclidean_division_equations; lia|]).

Lemma Recv_uint8_at (hs : handlers) (p : Packet) (pre post : list Z) (b0 : Z) :
  live hs p -> buffer p = pre ++ b0 :: post ->
  pos p = Z.of_nat (length pre) -> Size p <= UINT16_MAX -> is_byte b0 ->
  Recv_uint8 hs p = Ok (b0, hs, set_pos p (pos p + 1)).
Proof.
  intros Hlive Hb Hpos H16 H0. unfold is_byte in H0.
  apply (Recv_uint8_reads hs p pre post); auto.
Qed.

Lemma Recv_uint16_at (hs : handlers) (p : Packet) (pre post : list Z) (b0 b1 : Z) :
  live hs p -> buffer p = pre ++ b0 :: b1 :: post ->
  pos p = Z.of_nat (length pre) -> Size p <= UINT16_MAX ->
  is_byte b0 -> is_byte b1 ->
  Recv_uint16 hs p = Ok (le_value [b0; b1], hs, set_pos p (pos p + 2)).
Proof.
  intros Hlive Hb Hpos H16 H0 H1. unfold is_byte in *.
  apply (Recv_uint16_reads hs p pre post); auto; [|simpl; lia].
  rewrite Hb. simpl le_value. f_equal. digits. reflexivity.
Qed.

Lemma Recv_uint32_at (hs : handlers) (p : Packet) (pre post : list Z)
      (b0 b1 b2 b3 : Z) :
  live hs p -> buffer p = pre ++ b0 :: b1 :: b2 :: b3 :: post ->
  pos p = Z.of_nat (length pre) -> Size p <= UINT16_MAX ->
  is_byte b0 -> is_byte b1 -> is_byte b2 -> is_byte b3 ->
  Recv_uint32 hs p = Ok (le_value [b0; b1; b2; b3], hs, set_pos p (pos p + 4)).
Proof.
  intros Hlive Hb Hpos H16 H0 H1 H2 H3. unfold is_byte in *.
  apply (Recv_uint32_reads hs p pre post); auto; [|simpl; lia].
  rewrite Hb. simpl le_value. f_equal. digits. reflexivity.
Qed.

Lemma Recv_uint64_at (hs : handlers) (p : Packet) (pre post : list Z)
      (b0 b1 b2 b3 b4 b5 b6 b7 : Z) :
  live hs p ->
  buffer p = pre ++ b0 :: b1 :: b2 :: b3 :: b4 :: b5 :: b6 :: b7 :: post ->
  pos p = Z.of_nat (length pre) -> Size p <= UINT16_MAX ->
  is_byte b0 -> is_byte b1 -> is_byte b2 -> is_byte b3 ->
  is_byte b4 -> is_byte b5 -> is_byte b6 -> is_byte b7 ->
  Recv_uint64 hs p
  = Ok (le_value [b0; b1; b2; b3; b4; b5; b6; b7], hs, set_pos p (pos p + 8)).
Proof.
  intros Hlive Hb Hpos H16 H0 H1 H2 H3 H4 H5 H6 H7. unfold is_byte in *.
  apply (Recv_uint64_reads hs p pre post); auto; [|simpl; lia].
  rewrite Hb. simpl le_value. f_equal. digits. reflexivity.
Qed.

(** X5.  The reads of fixed width return the little-endian value of the
    bytes at the cursor, whatever wrote them, and move the cursor past them:
    one byte for [Recv_uint8], two for [Recv_uint16], four for [Recv_uint32],
    eight for [Recv_uint64].  Two reads of 16 bits in a row give the low and
    the high half of what one read of 32 bits gives at the same place. *)
Theorem Recv_uint_little_endian (hs : handlers) (p : Packet) (pre : list Z) :
  live hs p -> pos p = Z.of_nat (length pre) -> Size p <= UINT16_MAX ->
  (forall bs post : list Z,
      buffer p = pre ++ bs ++ post -> Forall is_byte bs ->
      (length bs = 1%nat ->
       Recv_uint8 hs p = Ok (le_value bs, hs, set_pos p (pos p + 1)))
      /\ (length bs = 2%nat ->
          Recv_uint16 hs p = Ok (le_value bs, hs, set_pos p (pos p + 2)))
      /\ (length bs = 4%nat ->
          Recv_uint32 hs p = Ok (le_value bs, hs, set_pos p (pos p + 4)))
      /\ (length bs = 8%nat ->
          Recv_uint64 hs p = Ok (le_value bs, hs, set_pos p (pos p + 8))))
  /\ (forall lo hi post : list Z,
         buffer p = pre ++ lo ++ hi ++ post ->
         Forall is_byte lo -> Forall is_byte hi ->
         length lo = 2%nat -> length hi = 2%nat ->
         exists p1 : Packet,
           Recv_uint16 hs p = Ok (le_value lo, hs, p1)
           /\ Recv_uint16 hs p1 = Ok (le_value hi, hs, set_pos p (pos p + 4))
           /\ Recv_uint32 hs p
              = Ok (le_value lo + 2 ^ 16 * le_value hi, hs, set_pos p (pos p + 4))).
Proof.
  intros Hlive Hpos H16. split.
  - intros bs post Hb Hbytes. repeat split; intros Hlen.
    + destruct bs as [|b0 [|]]; try discriminate Hlen. bytes_of Hbytes.
      simpl le_value. rewrite Z.add_0_r.
      apply (Recv_uint8_at hs p pre post); auto.
    + destruct bs as [|b0 [|b1 [|]]]; try discriminate Hlen. bytes_of Hbytes.
      apply (Recv_uint16_at hs p pre post); auto.
    + destruct bs as [|b0 [|b1 [|b2 [|b3 [|]]]]]; try discriminate Hlen.
      bytes_of Hbytes. apply (Recv_uint32_at hs p pre post); auto.
    + destruct bs as [|b0 [|b1 [|b2 [|b3 [|b4 [|b5 [|b6 [|b7 [|]]]]]]]]];
        try discriminate Hlen.
      bytes_of Hbytes. apply (Recv_uint64_at hs p pre post); auto.
  - intros lo hi post Hb Hlo Hhi Hl Hh.
    destruct lo as [|b0 [|b1 [|]]]; try discriminate Hl.
    destruct hi as [|b2 [|b3 [|]]]; try discriminate Hh.
    bytes_of Hlo. bytes_of Hhi.
    exists (set_pos p (pos p + 2)).
    split; [apply (Recv_uint16_at hs p pre (b2 :: b3 :: post)); auto|].
    split.
    + assert (Hlive1 : live hs (set_pos p (pos p + 2))).
      { destruct Hlive as (a & h & Hcs & Hh' & Hq). exists a, h. auto. }
      rewrite (Recv_uint16_at hs (set_pos p (pos p + 2)) (pre ++ [b0; b1]) post b2 b3
                              Hlive1).
      * do 2 f_equal. unfold set_pos. simpl.
        apply (f_equal (fun x => mkPacket x (buffer p) (limit p) (cs p))). lia.
      * simpl. rewrite Hb, <- app_assoc. reflexivity.
      * simpl. rewrite length_app. simpl length. lia.
      * exact H16.
      * exact Hbyte1.
      * exact Hbyte2.
    + rewrite (Recv_uint32_at hs p pre post b0 b1 b2 b3); auto.
      replace (le_value [b0; b1] + 2 ^ 16 * le_value [b2; b3])
        with (le_value [b0; b1; b2; b3]) by (simpl le_value; lia).
      reflexivity.
Qed.

Lemma Recv_uint_little_endian_witness :
  let p := {| pos := 3; buffer := [9; 0; 1; 0x67; 0x45; 0x23; 0x01; 7; 7];
              limit := 100; cs := Some 1%nat |} in
  live one_live_handler p /\ pos p = Z.of_nat (length [9; 0; 1])
  /\ Size p <= UINT16_MAX
  /\ Recv_uint32 one_live_handler p
     = Ok (le_value [0x67; 0x45; 0x23; 0x01], one_live_handler, set_pos p (pos p + 4))
  /\ le_value [0x67; 0x45; 0x23; 0x01] = 0x01234567.
Proof.
  intros p.
  assert (Hlive : live one_live_handler p)
    by (exists 1%nat, (mkHandler false); repeat split; reflexivity).
  assert (H16 : Size p <= UINT16_MAX) by (vm_compute; discriminate).
  split; [exact Hlive|]. split; [reflexivity|]. split; [exact H16|].
  split; [|reflexivity].
  destruct (Recv_uint_little_endian one_live_handler p [9; 0; 1] Hlive eq_refl H16)
    as (Hread & _).
  destruct (Hread [0x67; 0x45; 0x23; 0x01] [7; 7] eq_refl) as (_ & _ & H32 & _).
  - repeat constructor; unfold is_byte; lia.
  - exact (H32 eq_refl).
Defined.

(** ** Reads stay inside the packet *)

Lemma next_byte_step (p : Packet) :
  0 <= pos p < Size p -> Size p <= UINT16_MAX ->
  exists b : Z, next_byte p = Ok (b, set_pos p (pos p + 1)).
Proof.
  intros Hpos H16. unfold next_byte.
  destruct (load_in_bounds (buffer p) (pos p)) as (b & Hload);
    [unfold Size in Hpos; lia|].
  rewrite Hload. cbn [bind]. exists b. unfold UINT16_MAX in H16.
  rewrite to_PacketSize_small by (unfold UINT16_MAX; lia). reflexivity.
Qed.

Lemma advanced_refl (p : Packet) (n : Z) : pos p <= Size p -> advanced p p n.
Proof. intros H. repeat split; auto. Qed.

Lemma advanced_by (p : Packet) (x n : Z) :
  x = pos p + n -> x <= Size p -> advanced p (set_pos p x) n.
Proof. intros -> H. repeat split; auto. Qed.

Lemma advanced_to (p p' : Packet) (n : Z) :
  buffer p' = buffer p -> limit p' = limit p -> cs p' = cs p ->
  pos p' = pos p + n -> pos p + n <= Size p -> advanced p p' n.
Proof.
  intros Hb Hl Hc Hp Hs. repeat split; auto.
  unfold Size in *. rewrite Hb, Hp. exact Hs.
Qed.

Ltac take_byte H16 :=
  match goal with
  | |- context [next_byte ?q] =>
      let b := fresh "b" in
      let E := fresh "E" in
      destruct (next_byte_step q) as (b & E);
      [ rewrite ?Size_set_pos; simpl pos; lia
      | rewrite ?Size_set_pos; exact H16
      | rewrite E; cbn [bind] ]
  end.

Ltac checked_read hs p n Hatt :=
  let ok := fresh "ok" in
  let hs' := fresh "hs'" in
  let E := fresh "E" in
  let Hok := fresh "Hok" in
  destruct (CanReadFromPacket_cases hs p n true Hatt) as (ok & hs' & E & Hok);
  rewrite E; cbn [bind]; destruct ok; simpl negb; cbv iota;
  [ specialize (Hok eq_refl); rewrite to_size_t_small in Hok by lia | ].

Ltac read_done :=
  eexists _, _, _; split; [reflexivity|];
  repeat match goal with
  | |- _ /\ _ => split
  | |- 0 <= wrap _ _ => apply wrap_range; lia
  | |- wrap _ _ < _ => apply wrap_range; lia
  | |- 0 <= to_byte _ => apply wrap_range; lia
  | |- to_byte _ < _ => apply wrap_range; lia
  | |- 0 <= to_uint16 _ => apply wrap_range; lia
  | |- to_uint16 _ < _ => apply wrap_range; lia
  | |- 0 <= to_uint _ => apply wrap_range; lia
  | |- to_uint _ < _ => apply wrap_range; lia
  | |- 0 <= to_uint64 _ => apply wrap_range; lia
  | |- to_uint64 _ < _ => apply wrap_range; lia
  | |- advanced ?p ?p _ => apply advanced_refl; lia
  | |- advanced _ _ _ =>
      apply advanced_to;
      [reflexivity | reflexivity | reflexivity | simpl; lia | lia]
  | |- 0 <= 0 => lia
  | |- 0 < _ => lia
  end.

(** X6.  On a frame (at most 65535 bytes) whose cursor lies within the
    storage, every read of fixed width returns: none of them reaches outside
    the storage, whatever the contents and wherever the cursor stands.  The
    value is within the range of its type; the packet is left as it was or
    with the cursor moved on by the width of the read, still within the
    storage; contents, limit and handler of the packet are not touched. *)
Theorem fixed_width_reads_stay_in_bounds (hs : handlers) (p : Packet) :
  attached hs p -> 0 <= pos p <= Size p -> Size p <= UINT16_MAX ->
  (exists v hs' p', Recv_uint8 hs p = Ok (v, hs', p')
                    /\ 0 <= v < 2 ^ 8 /\ advanced p p' 1)
  /\ (exists v hs' p', Recv_bool hs p = Ok (v, hs', p') /\ advanced p p' 1)
  /\ (exists v hs' p', Recv_uint16 hs p = Ok (v, hs', p')
                       /\ 0 <= v < 2 ^ 16 /\ advanced p p' 2)
  /\ (exists v hs' p', Recv_uint32 hs p = Ok (v, hs', p')
                       /\ 0 <= v < 2 ^ 32 /\ advanced p p' 4)
  /\ (exists v hs' p', Recv_uint64 hs p = Ok (v, hs', p')
                       /\ 0 <= v < 2 ^ 64 /\ advanced p p' 8)
  /\ (forall (dest : list Z) (size : Z),
         0 <= size <= Z.of_nat (length dest) -> size < 2 ^ 63 ->
         exists dest' hs' p',
           Recv_binary hs p dest size = Ok (dest', hs', p')
           /\ length dest' = length dest /\ advanced p p' size)
  /\ (forall (out : list Z) (size : Z),
         0 <= size < 2 ^ 63 ->
         exists out' hs' p',
           Recv_binary_string hs p out size = Ok (out', hs', p')
           /\ advanced p p' size).
Proof.
  intros Hatt Hpos H16. pose proof H16 as H16'. unfold UINT16_MAX in H16'.
  assert (H8 : exists v hs' p', Recv_uint8 hs p = Ok (v, hs', p')
                                /\ 0 <= v < 2 ^ 8 /\ advanced p p' 1).
  { unfold Recv_uint8. checked_read hs p 1 Hatt; [take_byte H16|]; read_done. }
  split; [exact H8|]. split; [| split; [| split; [| split; [| split]]]].
  - destruct H8 as (v & hs' & p' & E & _ & Hadv). unfold Recv_bool.
    rewrite E. cbn [bind]. eexists _, _, _. split; [reflexivity | exact Hadv].
  - unfold Recv_uint16. checked_read hs p 2 Hatt; [do 2 take_byte H16|]; read_done.
  - unfold Recv_uint32. checked_read hs p 4 Hatt; [do 4 take_byte H16|]; read_done.
  - unfold Recv_uint64. checked_read hs p 8 Hatt; [do 8 take_byte H16|]; read_done.
  - intros dest size Hsize Hbig. unfold Recv_binary.
    checked_read hs p size Hatt.
    + rewrite !Z.gtb_ltb.
      destruct (Z.ltb_spec (Z.of_nat (length dest)) size); [lia|].
      destruct (Z.ltb_spec (Size p) (pos p + size)); [lia|]. simpl orb. cbv iota.
      eexists _, _, _. split; [reflexivity|]. split.
      * rewrite length_app, length_take, length_drop, length_drop.
        unfold Size in *. lia.
      * rewrite (to_PacketSize_small size) by (unfold UINT16_MAX; lia).
        rewrite to_PacketSize_small by (unfold UINT16_MAX; lia).
        apply advanced_by; lia.
    + eexists _, _, _. split; [reflexivity|]. split; [reflexivity|].
      apply advanced_refl. lia.
  - intros out size Hsize. unfold Recv_binary_string.
    checked_read hs p size Hatt.
    + rewrite Z.gtb_ltb.
      destruct (Z.ltb_spec (Size p) (pos p + size)); [lia|].
      eexists _, _, _. split; [reflexivity|].
      rewrite (to_PacketSize_small size) by (unfold UINT16_MAX; lia).
      rewrite to_PacketSize_small by (unfold UINT16_MAX; lia).
      apply advanced_by; lia.
    + eexists _, _, _. split; [reflexivity|]. apply advanced_refl. lia.
Qed.

Lemma fixed_width_reads_stay_in_bounds_witness :
  let p := {| pos := 4; buffer := [6; 0; 1; 65; 66; 0]; limit := 100;
              cs := Some 1%nat |} in
  attached one_live_handler p /\ 0 <= pos p <= Size p /\ Size p <= UINT16_MAX
  /\ (exists v hs' p', Recv_uint16 one_live_handler p = Ok (v, hs', p')
                       /\ 0 <= v < 2 ^ 16 /\ advanced p p' 2)
  /\ (exists v hs' p', Recv_uint32 one_live_handler p = Ok (v, hs', p')
                       /\ 0 <= v < 2 ^ 32 /\ advanced p p' 4).
Proof.
  intros p.
  assert (Hatt : attached one_live_handler p)
    by (exists 1%nat, (mkHandler false); split; reflexivity).
  assert (Hpos : 0 <= pos p <= Size p) by (vm_compute; split; discriminate).
  assert (H16 : Size p <= UINT16_MAX) by (vm_compute; discriminate).
  split; [exact Hatt|]. split; [exact Hpos|]. split; [exact H16|].
  destruct (fixed_width_reads_stay_in_bounds one_live_handler p Hatt Hpos H16)
    as (_ & _ & Hr16 & Hr32 & _).
  split; [exact Hr16 | exact Hr32].
Defined.

(** ** A read past the end closes the connection for good *)

Lemma quit_refuses (hs : handlers) (q : Packet) (a : nat) (n : Z) (close : bool) :
  cs q = Some a -> quit_at hs a ->
  CanReadFromPacket hs q n close = Ok (false, hs).
Proof.
  intros Hcs (h & Hh & Hq). unfold CanReadFromPacket, deref.
  rewrite Hcs, Hh. cbn [bind]. unfold HasClientQuit. rewrite Hq. reflexivity.
Qed.

Lemma overrun_refused (hs : handlers) (p : Packet) (a : nat)
      (h : NetworkSocketHandler) (n : Z) :
  cs p = Some a -> hs !! a = Some h -> has_quit h = false ->
  0 <= pos p <= UINT16_MAX -> 0 <= n < 2 ^ 63 -> Size p < pos p + n ->
  CanReadFromPacket hs p n true = Ok (false, <[a := CloseConnection h]> hs).
Proof.
  intros Hcs Hh Hq Hpos Hn Hover. unfold UINT16_MAX in Hpos.
  unfold CanReadFromPacket, deref. rewrite Hcs, Hh. cbn [bind].
  unfold HasClientQuit. rewrite Hq. rewrite to_size_t_small by lia.
  rewrite Z.gtb_ltb. destruct (Z.ltb_spec (Size p) (pos p + n)); [|lia].
  reflexivity.
Qed.

(** X7.  A read of fixed width that would take the cursor past the size
    returns the zero value, leaves the packet as it was and closes the
    connection of the packet.  From then on every read on every packet of
    this connection, the reads of strings included, returns at once: the
    zero value or the caller's buffer untouched, the packet and the handlers
    as they were. *)
Theorem overrun_closes_connection
        (str_validate : Z -> list Z -> list Z)
        (hs : handlers) (p : Packet) (a : nat) (h : NetworkSocketHandler) :
  cs p = Some a -> hs !! a = Some h -> has_quit h = false ->
  0 <= pos p <= UINT16_MAX ->
  let closed := <[a := CloseConnection h]> hs in
  (Size p < pos p + 1 ->
   Recv_uint8 hs p = Ok (0, closed, p) /\ Recv_bool hs p = Ok (false, closed, p))
  /\ (Size p < pos p + 2 -> Recv_uint16 hs p = Ok (0, closed, p))
  /\ (Size p < pos p + 4 -> Recv_uint32 hs p = Ok (0, closed, p))
  /\ (Size p < pos p + 8 -> Recv_uint64 hs p = Ok (0, closed, p))
  /\ (forall (dest : list Z) (size : Z),
         0 <= size < 2 ^ 63 -> Size p < pos p + size ->
         Recv_binary hs p dest size = Ok (dest, closed, p)
         /\ Recv_binary_string hs p dest size = Ok (dest, closed, p))
  /\ quit_at closed a
  /\ (forall (hs' : handlers) (q : Packet),
         quit_at hs' a -> cs q = Some a ->
         Recv_uint8 hs' q = Ok (0, hs', q)
         /\ Recv_bool hs' q = Ok (false, hs', q)
         /\ Recv_uint16 hs' q = Ok (0, hs', q)
         /\ Recv_uint32 hs' q = Ok (0, hs', q)
         /\ Recv_uint64 hs' q = Ok (0, hs', q)
         /\ (forall (dest : list Z) (size : Z),
                Recv_binary hs' q dest size = Ok (dest, hs', q)
                /\ Recv_binary_string hs' q dest size = Ok (dest, hs', q))
         /\ (forall (dest : list Z) (size settings : Z),
                Recv_string str_validate hs' q dest size settings
                = Ok (dest, hs', q))
         /\ (forall (out : list Z) (settings : Z),
                Recv_string_std str_validate hs' q out settings
                = Ok (out, hs', q))).
Proof.
  intros Hcs Hh Hq Hpos closed.
  pose proof (fun n => overrun_refused hs p a h n Hcs Hh Hq Hpos) as Hover.
  fold closed in Hover.
  split; [| split; [| split; [| split; [| split; [| split]]]]].
  - intros H. unfold Recv_bool, Recv_uint8.
    rewrite (Hover 1) by lia. split; reflexivity.
  - intros H. unfold Recv_uint16. rewrite (Hover 2) by lia. reflexivity.
  - intros H. unfold Recv_uint32. rewrite (Hover 4) by lia. reflexivity.
  - intros H. unfold Recv_uint64. rewrite (Hover 8) by lia. reflexivity.
  - intros dest size Hsize H. unfold Recv_binary, Recv_binary_string.
    rewrite (Hover size) by lia. split; reflexivity.
  - exists (CloseConnection h). split; [apply lookup_insert_eq | reflexivity].
  - intros hs' q Hquit Hq'.
    pose proof (fun n => quit_refuses hs' q a n true Hq' Hquit) as Hno.
    unfold Recv_bool, Recv_uint8, Recv_uint16, Recv_uint32, Recv_uint64,
      Recv_binary, Recv_binary_string.
    rewrite !Hno. cbn [bind]. simpl negb. cbv iota.
    repeat split; try reflexivity.
    + rewrite Hno. reflexivity.
    + rewrite Hno. reflexivity.
    + destruct Hquit as (h' & Hh' & Hq''). unfold Recv_string, deref.
      rewrite Hq', Hh'. cbn [bind]. unfold HasClientQuit. rewrite Hq''. reflexivity.
    + destruct Hquit as (h' & Hh' & Hq''). unfold Recv_string_std, deref.
      rewrite Hq', Hh'. cbn [bind]. unfold HasClientQuit. rewrite Hq''. reflexivity.
Qed.

Lemma overrun_closes_connection_witness :
  let p := {| pos := 5; buffer := [6; 0; 1; 65; 66; 0]; limit := 100;
              cs := Some 1%nat |} in
  let q := {| pos := 2; buffer := [3; 0; 9]; limit := 100; cs := Some 1%nat |} in
  cs p = Some 1%nat /\ one_live_handler !! 1%nat = Some (mkHandler false)
  /\ 0 <= pos p <= UINT16_MAX /\ Size p < pos p + 2
  /\ Recv_uint16 one_live_handler p
     = Ok (0, <[1%nat := CloseConnection (mkHandler false)]> one_live_handler, p)
  /\ Recv_uint8 (<[1%nat := CloseConnection (mkHandler false)]> one_live_handler) q
     = Ok (0, <[1%nat := CloseConnection (mkHandler false)]> one_live_handler, q).
Proof.
  intros p q.
  assert (Hpos : 0 <= pos p <= UINT16_MAX) by (vm_compute; split; discriminate).
  assert (Hover : Size p < pos p + 2) by (vm_compute; reflexivity).
  split; [reflexivity|]. split; [reflexivity|]. split; [exact Hpos|].
  split; [exact Hover|].
  destruct (overrun_closes_connection str_validate_spec one_live_handler p 1%nat
              (mkHandler false) eq_refl eq_refl eq_refl Hpos)
    as (_ & H16 & _ & _ & _ & Hquit & Hafter).
  split; [exact (H16 Hover)|].
  destruct (Hafter _ q Hquit eq_refl) as (H8 & _). exact H8.
Defined.

(** ** Writes stay within the limit *)

Lemma Send_string_loop_length (data b : list Z) :
  Z.of_nat (length (Send_string_loop b data))
  = Z.of_nat (length b) + strlen data + 1.
Proof.
  revert b. induction data as [|c data IH]; intros b; simpl.
  - rewrite length_app. simpl. lia.
  - destruct (c =? 0); [rewrite length_app; simpl; lia|].
    rewrite IH, length_app. simpl. lia.
Qed.

Lemma strlen_nonneg (data : list Z) : 0 <= strlen data.
Proof. induction data as [|c data IH]; simpl; [lia|]. destruct (c =? 0); lia. Qed.

Lemma asserted_write (p : Packet) (n : Z) (u : unit) :
  assert (CanWriteToPacket p n) = Ok u ->
  Size p <= limit p -> limit p < 2 ^ 63 -> 0 <= n < 2 ^ 63 ->
  Size p + n < limit p.
Proof.
  intros H Hsz Hlim Hn. apply assert_Ok_inv in H.
  apply CanWriteToPacket_lt in H; [exact H | lia |].
  pose proof (Size_nonneg p). lia.
Qed.

(** One write: the packet grows at its end, by no more than was asked,
    and stays within its limit. *)
Lemma apply_send_within_limit (p p' : Packet) (op : send_op) :
  apply_send p op = Ok p' ->
  Size p <= limit p -> limit p < 2 ^ 63 -> 0 <= op_size op < 2 ^ 63 ->
  limit p' = limit p /\ pos p' = pos p /\ cs p' = cs p
  /\ (exists more, buffer p' = buffer p ++ more)
  /\ Size p <= Size p' <= Size p + op_size op
  /\ Size p' <= limit p.
Proof.
  intros H Hsz Hlim Hop. pose proof (Size_nonneg p) as Hnn.
  destruct op as [b | v | v | v | v | data | data | data size]; simpl in H, Hop;
    unfold Send_bool, Send_uint8, Send_uint16, Send_uint32, Send_uint64,
      Send_string, Send_bytes, Send_binary in H.
  1-6: apply bind_Ok_inv in H as (u & Hass & H); injection H as <-;
       apply asserted_write in Hass;
       rewrite ?to_size_t_small in * by lia; try lia.
  1-5: unfold Size in *; simpl; rewrite length_app; simpl length;
       repeat split; eauto; lia.
  - unfold Size in *. simpl.
    pose proof (Send_string_loop_length data (buffer p)) as Hlen.
    repeat split; try lia. apply Send_string_loop_grows.
  - injection H as <-. unfold Size in *. simpl.
    rewrite to_size_t_small by lia.
    rewrite length_app, length_take.
    repeat split; eauto; lia.
  - apply bind_Ok_inv in H as (u & Hass & H).
    apply asserted_write in Hass; try lia.
    rewrite Z.gtb_ltb in H.
    destruct (Z.ltb_spec (Z.of_nat (length data)) size); [discriminate H|].
    injection H as <-. unfold Size in *. simpl.
    rewrite length_app, length_take.
    repeat split; eauto; lia.
Qed.

Lemma run_sends_within_limit (ops : list send_op) :
  forall p p' : Packet,
    run_sends p ops = Ok p' ->
    Size p <= limit p -> limit p < 2 ^ 63 ->
    Forall (fun op => 0 <= op_size op < 2 ^ 63) ops ->
    limit p' = limit p /\ pos p' = pos p /\ cs p' = cs p
    /\ (exists more, buffer p' = buffer p ++ more)
    /\ Size p <= Size p' <= Size p + list_sum_Z (map op_size ops)
    /\ Size p' <= limit p.
Proof.
  induction ops as [|op ops IH]; intros p p' Hrun Hsz Hlim Hops; simpl in Hrun.
  - injection Hrun as <-. simpl. repeat split; try lia.
    exists []. rewrite app_nil_r. reflexivity.
  - apply bind_Ok_inv in Hrun as (p1 & H1 & Hrun).
    apply Forall_cons in Hops as (Hop & Hops).
    destruct (apply_send_within_limit p p1 op H1 Hsz Hlim Hop)
      as (Hl1 & Hp1 & Hc1 & (m1 & Hb1) & Hs1 & Hle1).
    destruct (IH p1 p' Hrun) as (Hl & Hp & Hc & (m & Hb) & Hs & Hle);
      try (rewrite ?Hl1; auto; lia).
    simpl. repeat split; try congruence; try lia.
    exists (m1 ++ m). rewrite Hb, Hb1, app_assoc. reflexivity.
Qed.

Lemma Packet_to_send_new (type lim : Z) (p0 : Packet) :
  Packet_to_send type lim = Ok p0 -> 0 <= lim < 2 ^ 63 ->
  3 < lim /\ p0 = {| pos := 0; buffer := [0; 0; type]; limit := lim; cs := None |}.
Proof.
  intros H Hlim. unfold Packet_to_send, ResetState in H.
  apply bind_Ok_inv in H as (p1 & H1 & H). unfold Send_uint16 in H1.
  apply bind_Ok_inv in H1 as (u1 & _ & H1). injection H1 as <-.
  unfold Send_uint8 in H. apply bind_Ok_inv in H as (u2 & A2 & H).
  injection H as <-. apply assert_Ok_inv in A2.
  apply CanWriteToPacket_lt in A2; [| lia | unfold Size; simpl; lia].
  unfold Size in A2. simpl in A2. split; [lia | reflexivity].
Qed.

Ltac can_write :=
  match goal with
  | |- context [CanWriteToPacket ?q ?n] =>
      let H := fresh in
      assert (H : CanWriteToPacket q n = true)
        by (apply CanWriteToPacket_lt; unfold Size; simpl; lia);
      rewrite H; clear H
  end.

Lemma Packet_to_send_ok (type lim : Z) :
  3 < lim < 2 ^ 63 ->
  Packet_to_send type lim
  = Ok {| pos := 0; buffer := [0; 0; type]; limit := lim; cs := None |}.
Proof.
  intros H3. unfold Packet_to_send, ResetState, Send_uint16.
  can_write. cbn [bind assert]. unfold Send_uint8. can_write. reflexivity.
Qed.

(** X8.  An outgoing packet can be built exactly when its limit is above
    the three bytes of its header.  Whatever is then written to it with
    [Send_bool], [Send_uint8] ... [Send_uint64], [Send_string], [Send_bytes]
    and [Send_binary], as long as the calls return: the size of the packet
    never passes the limit and grows by no more than was asked; the first
    three bytes stay the room for the length and the type; limit, cursor and
    handler stay as the constructor set them. *)
Theorem sends_keep_limit (type lim : Z) :
  0 <= lim < 2 ^ 63 ->
  ((exists p0 : Packet, Packet_to_send type lim = Ok p0) <-> 3 < lim)
  /\ forall (ops : list send_op) (p0 p : Packet),
      Packet_to_send type lim = Ok p0 ->
      Forall (fun op => 0 <= op_size op < 2 ^ 63) ops ->
      run_sends p0 ops = Ok p ->
      3 <= Size p <= lim
      /\ Size p <= 3 + list_sum_Z (map op_size ops)
      /\ take 3 (buffer p) = [0; 0; type]
      /\ limit p = lim /\ pos p = 0 /\ cs p = None.
Proof.
  intros Hlim.
  pose proof (fun p0 H => Packet_to_send_new type lim p0 H Hlim) as Hnew.
  split.
  - split; [intros (p0 & H0); apply (Hnew p0 H0)|].
    intros H3. eexists. apply Packet_to_send_ok. lia.
  - intros ops p0 p H0 Hops Hrun.
    destruct (Hnew p0 H0) as (H3 & ->).
    destruct (run_sends_within_limit ops _ p Hrun)
      as (Hl & Hp & Hc & (more & Hb) & Hs & Hle); simpl; auto;
      try (unfold Size; simpl; lia).
    simpl in *. change (Size {| pos := 0; buffer := [0; 0; type];
                               limit := lim; cs := None |}) with 3 in *.
    repeat split; auto; try lia.
    rewrite Hb. reflexivity.
Qed.

Lemma sends_keep_limit_witness :
  let ops := [OpUint32 0x01234567; OpString [65; 66]; OpBytes [1; 2; 3; 4; 5]] in
  0 <= 12 < 2 ^ 63
  /\ Forall (fun op => 0 <= op_size op < 2 ^ 63) ops
  /\ exists p0 p : Packet,
      Packet_to_send 5 12 = Ok p0 /\ run_sends p0 ops = Ok p
      /\ buffer p = [0; 0; 5; 0x67; 0x45; 0x23; 0x01; 65; 66; 0; 1; 2]
      /\ 3 <= Size p <= 12
      /\ Size p <= 3 + list_sum_Z (map op_size ops)
      /\ take 3 (buffer p) = [0; 0; 5]
      /\ limit p = 12 /\ pos p = 0 /\ cs p = None.
Proof.
  intros ops.
  assert (Hlim : 0 <= 12 < 2 ^ 63) by lia.
  assert (Hops : Forall (fun op => 0 <= op_size op < 2 ^ 63) ops)
    by (repeat constructor; simpl; lia).
  split; [exact Hlim|]. split; [exact Hops|].
  eexists _, _. split; [reflexivity|]. split; [reflexivity|].
  split; [reflexivity|].
  destruct (sends_keep_limit 5 12 Hlim) as (_ & H).
  exact (H ops _ _ eq_refl Hops eq_refl).
Defined.

(** ** Binary data and strings *)

(** X9.  What [Send_binary] or [Send_bytes] has appended to a packet is read
    back by the two [Recv_binary] from a received packet that holds the same
    bytes: the bytes that were sent, as many as were sent; the cursor moves
    past them, and the rest of the caller's array is left as it was. *)
Theorem Send_Recv_binary_round_trip
        (hs : handlers) (p p' q : Packet) (data : list Z) :
  reads_back hs p p' q ->
  (forall (size : Z) (dest out : list Z),
      Send_binary p data size = Ok p' ->
      0 <= size <= Z.of_nat (length dest) ->
      Recv_binary hs q dest size
      = Ok (take (Z.to_nat size) data ++ drop (Z.to_nat size) dest, hs,
            set_pos q (pos q + size))
      /\ Recv_binary_string hs q out size
         = Ok (take (Z.to_nat size) data, hs, set_pos q (pos q + size)))
  /\ (forall (amount : Z) (out : list Z),
         Send_bytes p data = Ok (amount, p') ->
         0 <= amount <= Z.of_nat (length data)
         /\ Recv_binary_string hs q out amount
            = Ok (take (Z.to_nat amount) data, hs, set_pos q (pos q + amount))).
Proof.
  intros Hrb. pose proof (reads_back_live _ _ _ _ Hrb) as Hlive.
  destruct Hrb as (Hbuf & Hpos & H16 & _).
  pose proof H16 as H16'. unfold UINT16_MAX in H16'.
  pose proof (Size_nonneg p) as Hnn.
  assert (Hread : forall n : Z,
             0 <= n <= Z.of_nat (length data) ->
             buffer p' = buffer p ++ take (Z.to_nat n) data ->
             (forall out, Recv_binary_string hs q out n
                          = Ok (take (Z.to_nat n) data, hs, set_pos q (pos q + n)))
             /\ (forall dest, n <= Z.of_nat (length dest) ->
                    Recv_binary hs q dest n
                    = Ok (take (Z.to_nat n) data ++ drop (Z.to_nat n) dest, hs,
                          set_pos q (pos q + n)))).
  { intros n Hn Hb'.
    assert (Hsz : Size q = Size p + n).
    { unfold Size. rewrite Hbuf, Hb', length_app, length_take. lia. }
    assert (Hsrc : take (Z.to_nat n) (drop (Z.to_nat (pos q)) (buffer q))
                   = take (Z.to_nat n) data).
    { rewrite Hbuf, Hb', Hpos. unfold Size. rewrite Nat2Z.id, drop_app_length.
      rewrite take_take, Nat.min_id. reflexivity. }
    assert (Hok : CanReadFromPacket hs q n true = Ok (true, hs))
      by (apply CanReadFromPacket_ok; auto; lia).
    assert (Hcur : to_PacketSize (pos q + to_PacketSize n) = pos q + n).
    { rewrite (to_PacketSize_small n) by (unfold UINT16_MAX; lia).
      apply to_PacketSize_small. unfold UINT16_MAX. lia. }
    split.
    - intros out. unfold Recv_binary_string. rewrite Hok. cbn [bind].
      simpl negb. cbv iota. rewrite Z.gtb_ltb.
      destruct (Z.ltb_spec (Size q) (pos q + n)); [lia|].
      rewrite Hsrc, Hcur. reflexivity.
    - intros dest Hdest. unfold Recv_binary. rewrite Hok. cbn [bind].
      simpl negb. cbv iota. rewrite !Z.gtb_ltb.
      destruct (Z.ltb_spec (Z.of_nat (length dest)) n); [lia|].
      destruct (Z.ltb_spec (Size q) (pos q + n)); [lia|]. simpl orb. cbv iota.
      rewrite Hsrc, Hcur. reflexivity. }
  split.
  - intros size dest out Hsend Hsize. unfold Send_binary in Hsend.
    apply bind_Ok_inv in Hsend as (u & _ & Hsend). rewrite Z.gtb_ltb in Hsend.
    destruct (Z.ltb_spec (Z.of_nat (length data)) size); [discriminate Hsend|].
    injection Hsend as <-.
    destruct (Hread size ltac:(lia) eq_refl) as (Hstr & Harr).
    split; [apply Harr; lia | apply Hstr].
  - intros amount out Hsend. unfold Send_bytes in Hsend.
    injection Hsend as <- <-.
    pose proof (wrap_range 64 (limit p - Size p) ltac:(lia)) as Hw.
    fold (to_size_t (limit p - Size p)) in Hw.
    split; [lia|].
    destruct (Hread (Z.min (Z.of_nat (length data)) (to_size_t (limit p - Size p)))
                    ltac:(lia) eq_refl) as (Hstr & _).
    apply Hstr.
Qed.

Lemma Send_Recv_binary_round_trip_witness :
  let p := {| pos := 0; buffer := [0; 0; 5]; limit := 7; cs := None |} in
  let p' := set_buffer p [0; 0; 5; 1; 2; 3; 4] in
  let q := {| pos := 3; buffer := buffer p'; limit := 100; cs := Some 1%nat |} in
  reads_back one_live_handler p p' q
  /\ Send_bytes p [1; 2; 3; 4; 5; 6] = Ok (4, p')
  /\ 0 <= 4 <= Z.of_nat (length [1; 2; 3; 4; 5; 6])
  /\ Recv_binary_string one_live_handler q [] 4
     = Ok (take (Z.to_nat 4) [1; 2; 3; 4; 5; 6], one_live_handler,
           set_pos q (pos q + 4)).
Proof.
  intros p p' q.
  assert (Hrb : reads_back one_live_handler p p' q).
  { split; [reflexivity|]. split; [reflexivity|].
    split; [vm_compute; discriminate|].
    exists 1%nat, (mkHandler false). repeat split; reflexivity. }
  split; [exact Hrb|]. split; [reflexivity|].
  destruct (Send_Recv_binary_round_trip one_live_handler p p' q [1; 2; 3; 4; 5; 6] Hrb)
    as (_ & Hbytes).
  exact (Hbytes 4 [] eq_refl).
Defined.

Lemma Send_string_loop_terminated (s t : list Z) :
  nul_free s -> forall b, Send_string_loop b (s ++ 0 :: t) = b ++ s ++ [0].
Proof.
  induction 1 as [|c s Hc _ IH]; intros b; [reflexivity|].
  simpl. destruct (Z.eqb_spec c 0); [contradiction|].
  rewrite IH, <- app_assoc. reflexivity.
Qed.

(** X10.  [Send_string] sends a text up to its first NUL: what follows a
    NUL inside the text is not sent.  The text and one terminator are
    appended when they fit below the limit together; otherwise the call
    stops at its assertion and nothing is written. *)
Theorem Send_string_stops_at_NUL (p : Packet) (s t : list Z) :
  nul_free s -> Size p + Z.of_nat (length s) + 1 < 2 ^ 64 ->
  Send_string p (s ++ 0 :: t) = Send_string p s
  /\ (Size p + Z.of_nat (length s) + 1 < limit p ->
      Send_string p s = Ok (set_buffer p (buffer p ++ s ++ [0])))
  /\ (limit p <= Size p + Z.of_nat (length s) + 1 ->
      Send_string p s = Fault AssertionFailed).
Proof.
  intros Hnf Hfit. pose proof (Size_nonneg p) as Hnn.
  unfold Send_string.
  rewrite strlen_terminated, Send_string_loop_terminated by exact Hnf.
  rewrite strlen_nul_free, Send_string_loop_nul_free by exact Hnf.
  split; [reflexivity|].
  rewrite to_size_t_small by lia.
  unfold CanWriteToPacket.
  replace (Size p + (Z.of_nat (length s) + 1))
    with (Size p + Z.of_nat (length s) + 1) by lia.
  rewrite to_size_t_small by lia.
  split; intros H.
  - destruct (Z.ltb_spec (Size p + Z.of_nat (length s) + 1) (limit p)); [|lia].
    reflexivity.
  - destruct (Z.ltb_spec (Size p + Z.of_nat (length s) + 1) (limit p)); [lia|].
    reflexivity.
Qed.

Lemma Send_string_stops_at_NUL_witness :
  let p := {| pos := 0; buffer := [0; 0; 5]; limit := 100; cs := None |} in
  nul_free [72; 73] /\ Size p + Z.of_nat (length [72; 73]) + 1 < 2 ^ 64
  /\ Send_string p ([72; 73] ++ 0 :: [74; 75]) = Send_string p [72; 73]
  /\ Send_string p ([72; 73] ++ 0 :: [74; 75])
     = Ok (set_buffer p [0; 0; 5; 72; 73; 0]).
Proof.
  intros p.
  assert (Hnf : nul_free [72; 73]) by (repeat constructor; discriminate).
  assert (Hfit : Size p + Z.of_nat (length [72; 73]) + 1 < 2 ^ 64)
    by (vm_compute; reflexivity).
  split; [exact Hnf|]. split; [exact Hfit|].
  destruct (Send_string_stops_at_NUL p [72; 73] [74; 75] Hnf Hfit) as (Hsame & _).
  split; [exact Hsame | reflexivity].
Defined.

(** ** From the sender to the receiver *)

Lemma PrepareToSend_header (p : Packet) (b0 b1 : Z) (rest : list Z) :
  cs p = None -> buffer p = b0 :: b1 :: rest -> Size p <= UINT16_MAX ->
  PrepareToSend p
  = Ok {| pos := 0; buffer := Size p mod 256 :: Size p / 256 :: rest;
          limit := limit p; cs := None |}.
Proof.
  intros Hcs Hb H16. unfold UINT16_MAX in H16. pose proof (Size_nonneg p).
  unfold PrepareToSend. rewrite Hcs.
  rewrite bool_decide_true by reflexivity. cbn [bind assert].
  rewrite !to_byte_GB by lia. rewrite Hb.
  rewrite (store_app [] (b1 :: rest) b0 _ 0) by reflexivity.
  cbn [bind]. simpl app.
  match goal with
  | |- context [store (?lo :: b1 :: rest) 1 ?x] =>
      change (lo :: b1 :: rest) with ([lo] ++ b1 :: rest);
      rewrite (store_app [lo] rest b1 x 1) by reflexivity
  end.
  cbn [bind]. simpl app.
  change (2 ^ 0) with 1. change (2 ^ 8) with 256. rewrite Z.div_1_r.
  rewrite (Z.mod_small (Size p / 256))
    by (split; [apply Z.div_pos; lia | apply Z.div_lt_upper_bound; lia]).
  reflexivity.
Qed.

(** X11.  A packet built by the constructor and any writes that return,
    with a limit of at most 65535, is finalised by [PrepareToSend].  A
    receiver whose limit is not below the size of the packet accepts its
    first two bytes in [ParsePacketSize], gives the storage the size of the
    packet and puts the cursor behind the length.  Once the bytes of the
    packet are in this storage, wherever the transfer of the bytes has left
    the cursor, [PrepareToRead] puts the cursor behind the length again;
    [GetPacketType] then returns the type the sender gave, [Recv_uint8] reads
    the same type as the first field and leaves the cursor at the payload,
    which is the sender's. *)
Theorem finished_frame_is_accepted
        (type lim rlim : Z) (ops : list send_op) (p0 p : Packet)
        (hs : handlers) (a : nat) (h : NetworkSocketHandler) :
  Packet_to_send type lim = Ok p0 ->
  Forall (fun op => 0 <= op_size op < 2 ^ 63) ops ->
  run_sends p0 ops = Ok p ->
  0 <= lim <= UINT16_MAX -> is_byte type ->
  hs !! a = Some h -> has_quit h = false ->
  Size p <= rlim ->
  exists p' r r1 : Packet,
    PrepareToSend p = Ok p'
    /\ Packet_for_socket (Some a) rlim 2 = Ok r
    /\ ParsePacketSize (set_buffer r (take 2 (buffer p'))) = Ok (true, r1)
    /\ Size r1 = Size p /\ pos r1 = 2
    /\ forall k : Z,
        let r2 := PrepareToRead (set_pos (set_buffer r1 (buffer p')) k) in
        pos r2 = 2
        /\ GetPacketType r2 = Ok type
        /\ Recv_uint8 hs r2 = Ok (type, hs, set_pos r2 3)
        /\ payload r2 = payload p.
Proof.
  intros H0 Hops Hrun Hlim Htype Hh Hq Hr. unfold UINT16_MAX in Hlim.
  destruct (Packet_to_send_new type lim p0 H0 ltac:(lia)) as (H3 & ->).
  destruct (run_sends_within_limit ops _ p Hrun)
    as (Hl & Hp & Hc & (more & Hb) & Hs & Hle); simpl; auto;
    try (unfold Size; simpl; lia).
  simpl in Hl, Hp, Hc, Hb, Hle.
  change (Size {| pos := 0; buffer := [0; 0; type]; limit := lim; cs := None |})
    with 3 in Hs.
  assert (H16 : Size p <= UINT16_MAX) by (unfold UINT16_MAX; lia).
  rewrite (PrepareToSend_header p 0 0 (type :: more) Hc Hb H16).
  assert (Hlo : 0 <= Size p mod 256 < 256) by (apply Z.mod_pos_bound; lia).
  assert (Hhi : 0 <= Size p / 256 < 256)
    by (split; [apply Z.div_pos; lia | apply Z.div_lt_upper_bound; lia]).
  assert (Hdec : Size p mod 256 + 256 * (Size p / 256) = Size p)
    by (pose proof (Z.div_mod (Size p) 256 ltac:(lia)); lia).
  eexists _, _, _. split; [reflexivity|].
  split; [reflexivity|]. cbn [buffer].
  split.
  { unfold ParsePacketSize, set_buffer. cbn [cs pos buffer limit take].
    rewrite bool_decide_true by discriminate. cbn [bind assert].
    unfold load. simpl lookup.
    change (0 <? 0) with false. change (1 <? 0) with false. cbn [bind].
    rewrite shiftl_8, Hdec.
    rewrite to_size_t_small by lia.
    unfold sizeof_PacketSize, sizeof_PacketType.
    destruct (Z.ltb_spec (Size p) (2 + 1)); [lia|].
    rewrite Z.gtb_ltb. destruct (Z.ltb_spec rlim (Size p)); [lia|].
    reflexivity. }
  split; [unfold Size at 1; simpl buffer; apply length_resize; lia|].
  split; [reflexivity|].
  intros k. cbv zeta.
  set (r2 := PrepareToRead _).
  assert (Hb2 : buffer r2 = [Size p mod 256; Size p / 256] ++ type :: more)
    by reflexivity.
  assert (Hs2 : Size r2 = Size p).
  { unfold Size. rewrite Hb2, Hb. simpl. reflexivity. }
  split; [reflexivity|].
  split; [| split].
  - unfold GetPacketType. rewrite Hs2. unfold sizeof_PacketSize, sizeof_PacketType.
    rewrite Z.geb_leb. destruct (Z.leb_spec (2 + 1) (Size p)); [|lia].
    cbn [bind assert]. rewrite Hb2. reflexivity.
  - unfold is_byte in Htype.
    rewrite (Recv_uint8_reads hs r2 [Size p mod 256; Size p / 256] more type);
      auto; try lia.
    + exists a, h. repeat split; auto.
  - unfold payload. rewrite Hb2, Hb. reflexivity.
Qed.

Lemma finished_frame_is_accepted_witness :
  let ops := [OpUint16 0x1234; OpString [72; 73]] in
  let p0 := {| pos := 0; buffer := [0; 0; 5]; limit := 100; cs := None |} in
  let p := {| pos := 0; buffer := [0; 0; 5; 0x34; 0x12; 72; 73; 0];
              limit := 100; cs := None |} in
  Packet_to_send 5 100 = Ok p0
  /\ Forall (fun op => 0 <= op_size op < 2 ^ 63) ops
  /\ run_sends p0 ops = Ok p
  /\ 0 <= 100 <= UINT16_MAX /\ is_byte 5
  /\ one_live_handler !! 1%nat = Some (mkHandler false)
  /\ Size p <= 1460
  /\ PrepareToRead {| pos := 8; buffer := [8; 0; 5; 0x34; 0x12; 72; 73; 0];
                      limit := 1460; cs := Some 1%nat |}
     = {| pos := 2; buffer := [8; 0; 5; 0x34; 0x12; 72; 73; 0];
          limit := 1460; cs := Some 1%nat |}
  /\ exists p' r r1 : Packet,
      PrepareToSend p = Ok p'
      /\ Packet_for_socket (Some 1%nat) 1460 2 = Ok r
      /\ ParsePacketSize (set_buffer r (take 2 (buffer p'))) = Ok (true, r1)
      /\ Size r1 = Size p /\ pos r1 = 2
      /\ forall k : Z,
          let r2 := PrepareToRead (set_pos (set_buffer r1 (buffer p')) k) in
          pos r2 = 2
          /\ GetPacketType r2 = Ok 5
          /\ Recv_uint8 one_live_handler r2
             = Ok (5, one_live_handler, set_pos r2 3)
          /\ payload r2 = payload p.
Proof.
  intros ops p0 p.
  assert (Hops : Forall (fun op => 0 <= op_size op < 2 ^ 63) ops)
    by (repeat constructor; simpl; lia).
  assert (Hlim : 0 <= 100 <= UINT16_MAX) by (unfold UINT16_MAX; lia).
  assert (Htype : is_byte 5) by (unfold is_byte; lia).
  assert (Hr : Size p <= 1460) by (vm_compute; discriminate).
  split; [reflexivity|]. split; [exact Hops|]. split; [reflexivity|].
  split; [exact Hlim|]. split; [exact Htype|]. split; [reflexivity|].
  split; [exact Hr|]. split; [reflexivity|].
  exact (finished_frame_is_accepted 5 100 1460 ops p0 p one_live_handler 1%nat
           (mkHandler false) eq_refl Hops eq_refl Hlim Htype eq_refl eq_refl Hr).
Defined.

(** ** Strings read into a [std::string] *)

(** [ttd_strnlen] within the memory it is given: it stops at the first NUL
    or at its bound. *)
Lemma ttd_strnlen_bounded (str : list Z) :
  forall maxlen : Z,
    0 <= maxlen <= Z.of_nat (length str) ->
    exists n : Z,
      ttd_strnlen str maxlen = Ok n
      /\ 0 <= n <= maxlen
      /\ nul_free (take (Z.to_nat n) str)
      /\ (n = maxlen \/ str !! Z.to_nat n = Some 0).
Proof.
  induction str as [|c str IH]; intros maxlen Hmax; simpl length in Hmax.
  - assert (maxlen = 0) by lia. subst maxlen. exists 0.
    split; [reflexivity|]. split; [lia|]. split; [constructor|]. left. reflexivity.
  - cbn [ttd_strnlen]. rewrite Z.gtb_ltb.
    destruct (Z.ltb_spec 0 maxlen) as [Hpos | Hzero]; simpl negb; cbv iota.
    2: { exists 0. split; [reflexivity|]. split; [lia|].
         split; [constructor|]. left. lia. }
    destruct (Z.eqb_spec c 0) as [-> | Hc].
    { exists 0. split; [reflexivity|]. split; [lia|].
      split; [constructor|]. right. reflexivity. }
    destruct (IH (maxlen - 1)) as (n & Hn & Hrange & Hnf & Hstop); [lia|].
    rewrite Hn. cbn [bind]. exists (n + 1).
    replace (Z.to_nat (n + 1)) with (S (Z.to_nat n)) by lia.
    split; [reflexivity|]. split; [lia|]. split.
    + simpl. constructor; assumption.
    + destruct Hstop as [-> | Hstop]; [left; lia | right; exact Hstop].
Qed.

(** X12.  [Recv_string] into a [std::string] on a frame whose cursor stands
    before the end: the text handed to the sanitiser is the bytes from the
    cursor up to the first NUL, or up to the byte before the last one of the
    packet when no NUL comes earlier; the cursor ends one byte after this
    text and within the storage; contents, limit and handler are left alone.
    The last byte of a packet is never part of a text: it counts as the
    terminator whatever it holds.  With the cursor at the very end of the
    packet the bound of the scan wraps around and the scan leaves the
    storage. *)
Theorem Recv_string_std_within_frame
        (str_validate : Z -> list Z -> list Z)
        (hs : handlers) (p : Packet) (out : list Z) (settings : Z) :
  live hs p -> Size p <= UINT16_MAX ->
  (0 <= pos p < Size p ->
   exists (text rest : list Z) (p' : Packet),
     Recv_string_std str_validate hs p out settings
     = Ok (str_validate settings text, hs, p')
     /\ drop (Z.to_nat (pos p)) (buffer p) = text ++ rest
     /\ nul_free text
     /\ (exists c : Z, rest = [c] \/ exists more, rest = 0 :: more)
     /\ same_frame p p'
     /\ pos p' = pos p + Z.of_nat (length text) + 1
     /\ pos p' <= Size p')
  /\ (pos p = Size p ->
      Recv_string_std str_validate hs p out settings = Fault OutOfBounds).
Proof.
  intros Hlive H16. pose proof H16 as H16'. unfold UINT16_MAX in H16'.
  destruct (live_deref hs p Hlive) as (h & Hd & Hq).
  pose proof (Size_nonneg p) as Hnn.
  split.
  - intros Hpos.
    set (src := drop (Z.to_nat (pos p)) (buffer p)).
    assert (Hlen : Z.of_nat (length src) = Size p - pos p).
    { unfold src, Size. rewrite length_drop. unfold Size in Hpos. lia. }
    destruct (ttd_strnlen_bounded src (Size p - pos p - 1) ltac:(lia))
      as (n & Hn & Hrange & Hnf & Hstop).
    unfold Recv_string_std. rewrite Hd. cbn [bind].
    unfold HasClientQuit. rewrite Hq. fold src.
    rewrite to_size_t_small by lia. rewrite Hn. cbn [bind].
    exists (take (Z.to_nat n) src), (drop (Z.to_nat n) src). eexists.
    split; [reflexivity|].
    split; [rewrite take_drop; reflexivity|].
    split; [exact Hnf|].
    assert (Htl : Z.of_nat (length (take (Z.to_nat n) src)) = n)
      by (rewrite length_take; lia).
    split.
    { destruct Hstop as [-> | Hstop].
      - destruct (drop (Z.to_nat (Size p - pos p - 1)) src) as [|c [|c' l]] eqn:E;
          apply (f_equal (@length Z)) in E; rewrite length_drop in E;
          simpl in E; try lia.
        exists c. left. reflexivity.
      - exists 0. right. exists (drop (S (Z.to_nat n)) src).
        apply drop_S. exact Hstop. }
    unfold to_uint. rewrite (wrap_small 32 n) by lia.
    rewrite (wrap_small 32 (n + 1)) by lia.
    rewrite to_PacketSize_small by (unfold UINT16_MAX; lia).
    split; [repeat split|]. rewrite Htl. simpl. split; [lia|].
    rewrite Size_set_pos. lia.
  - intros Hend. unfold Recv_string_std. rewrite Hd. cbn [bind].
    unfold HasClientQuit. rewrite Hq.
    rewrite drop_ge by (unfold Size in Hend; lia).
    replace (Size p - pos p - 1) with (-1) by lia.
    reflexivity.
Qed.

Lemma Recv_string_std_within_frame_witness :
  let p := {| pos := 3; buffer := [5; 0; 1; 65; 66]; limit := 100;
              cs := Some 1%nat |} in
  live one_live_handler p /\ Size p <= UINT16_MAX /\ 0 <= pos p < Size p
  /\ Recv_string_std str_validate_spec one_live_handler p [] 0
     = Ok ([65], one_live_handler, set_pos p 5)
  /\ exists (text rest : list Z) (p' : Packet),
      Recv_string_std str_validate_spec one_live_handler p [] 0
      = Ok (str_validate_spec 0 text, one_live_handler, p')
      /\ drop (Z.to_nat (pos p)) (buffer p) = text ++ rest
      /\ nul_free text
      /\ (exists c : Z, rest = [c] \/ exists more, rest = 0 :: more)
      /\ same_frame p p'
      /\ pos p' = pos p + Z.of_nat (length text) + 1
      /\ pos p' <= Size p'.
Proof.
  intros p.
  assert (Hlive : live one_live_handler p)
    by (exists 1%nat, (mkHandler false); repeat split; reflexivity).
  assert (H16 : Size p <= UINT16_MAX) by (vm_compute; discriminate).
  assert (Hpos : 0 <= pos p < Size p) by (vm_compute; split; [discriminate | reflexivity]).
  split; [exact Hlive|]. split; [exact H16|]. split; [exact Hpos|].
  split; [reflexivity|].
  destruct (Recv_string_std_within_frame str_validate_spec one_live_handler p [] 0
              Hlive H16) as (Hin & _).
  exact (Hin Hpos).
Defined.

(** ** Data sent in pieces *)

Lemma send_in_packets_run (type lim : Z) (fuel : nat) :
  forall data : list Z,
    3 < lim < 2 ^ 63 -> (length data <= fuel)%nat ->
    exists ps : list Packet,
      send_in_packets fuel type lim data = Ok ps
      /\ concat (map payload ps) = data
      /\ Forall (fun p => take 3 (buffer p) = [0; 0; type]
                          /\ 3 < Size p <= lim /\ limit p = lim) ps
      /\ Z.of_nat (length ps)
         = (Z.of_nat (length data) + (lim - 3) - 1) / (lim - 3).
Proof.
  induction fuel as [|fuel IH]; intros data Hlim Hfuel.
  - destruct data; [|simpl in Hfuel; lia]. exists []. simpl.
    repeat split; auto. symmetry. apply Z.div_small. lia.
  - destruct data as [|c data].
    { exists []. simpl. repeat split; auto. symmetry. apply Z.div_small. lia. }
    set (whole := c :: data) in *.
    assert (Hlen : 1 <= Z.of_nat (length whole)) by (unfold whole; simpl; lia).
    set (amount := Z.min (Z.of_nat (length whole)) (lim - 3)).
    assert (Hamount : 1 <= amount <= Z.of_nat (length whole)) by (unfold amount; lia).
    destruct (IH (drop (Z.to_nat amount) whole) Hlim)
      as (ps & Hrun & Hcat & Hall & Hcount).
    { rewrite length_drop. lia. }
    exists ({| pos := 0; buffer := [0; 0; type] ++ take (Z.to_nat amount) whole;
               limit := lim; cs := None |} :: ps).
    split.
    { unfold whole at 1. cbn [send_in_packets]. fold whole.
      rewrite Packet_to_send_ok by exact Hlim. cbn [bind].
      unfold Send_bytes. cbn [bind limit buffer].
      change (Size {| pos := 0; buffer := [0; 0; type]; limit := lim; cs := None |})
        with 3.
      rewrite to_size_t_small by lia. fold amount. rewrite Hrun. reflexivity. }
    split; [| split].
    + simpl. unfold payload at 1. simpl. rewrite Hcat. apply take_drop.
    + constructor; [|exact Hall]. simpl.
      split; [reflexivity|]. unfold Size. simpl.
      rewrite length_take. split; [|reflexivity]. unfold amount. lia.
    + match goal with
      | |- context [length (?x :: ps)] =>
          change (length (x :: ps)) with (S (length ps))
      end.
      rewrite Nat2Z.inj_succ, Hcount, length_drop.
      replace (Z.of_nat (length whole - Z.to_nat amount))
        with (Z.of_nat (length whole) - amount) by lia.
      destruct (Z.le_gt_cases (Z.of_nat (length whole)) (lim - 3)) as [Hle | Hgt].
      * unfold amount. rewrite Z.min_l by lia.
        replace (Z.of_nat (length whole) - Z.of_nat (length whole) + (lim - 3) - 1)
          with (lim - 3 - 1) by lia.
        rewrite Z.div_small by lia.
        replace (Z.of_nat (length whole) + (lim - 3) - 1)
          with ((Z.of_nat (length whole) - 1) + 1 * (lim - 3)) by lia.
        rewrite Z.div_add by lia. rewrite Z.div_small by lia. lia.
      * unfold amount. rewrite Z.min_r by lia.
        replace (Z.of_nat (length whole) + (lim - 3) - 1)
          with ((Z.of_nat (length whole) - (lim - 3) + (lim - 3) - 1)
                + 1 * (lim - 3)) by lia.
        rewrite Z.div_add by lia. lia.
Qed.

(** X13.  [Send_bytes] never stops at an assertion: it appends as much of
    the data as the limit leaves room for and returns that number.  A caller
    that keeps making packets of one type and hands each the rest of the data
    gets the data across in order and in full: the payloads of the packets,
    one after the other, are the data; every packet holds at least one byte
    of it and none passes the limit; the number of packets is the length of
    the data divided by the room of a packet, rounded up. *)
Theorem Send_bytes_splits_data (type lim : Z) (data : list Z) :
  3 < lim < 2 ^ 63 ->
  exists ps : list Packet,
    send_in_packets (length data) type lim data = Ok ps
    /\ concat (map payload ps) = data
    /\ Forall (fun p => take 3 (buffer p) = [0; 0; type]
                        /\ 3 < Size p <= lim /\ limit p = lim) ps
    /\ Z.of_nat (length ps)
       = (Z.of_nat (length data) + (lim - 3) - 1) / (lim - 3).
Proof. intros Hlim. apply send_in_packets_run; [exact Hlim | lia]. Qed.

Lemma Send_bytes_splits_data_witness :
  3 < 7 < 2 ^ 63
  /\ send_in_packets 10 9 7 [1; 2; 3; 4; 5; 6; 7; 8; 9; 10]
     = Ok [ {| pos := 0; buffer := [0; 0; 9; 1; 2; 3; 4]; limit := 7; cs := None |};
            {| pos := 0; buffer := [0; 0; 9; 5; 6; 7; 8]; limit := 7; cs := None |};
            {| pos := 0; buffer := [0; 0; 9; 9; 10]; limit := 7; cs := None |} ]
  /\ exists ps : list Packet,
      send_in_packets (length [1; 2; 3; 4; 5; 6; 7; 8; 9; 10]) 9 7
                      [1; 2; 3; 4; 5; 6; 7; 8; 9; 10] = Ok ps
      /\ concat (map payload ps) = [1; 2; 3; 4; 5; 6; 7; 8; 9; 10]
      /\ Forall (fun p => take 3 (buffer p) = [0; 0; 9]
                          /\ 3 < Size p <= 7 /\ limit p = 7) ps
      /\ Z.of_nat (length ps)
         = (Z.of_nat (length [1; 2; 3; 4; 5; 6; 7; 8; 9; 10]) + (7 - 3) - 1) / (7 - 3).
Proof.
  assert (Hlim : 3 < 7 < 2 ^ 63) by lia.
  split; [exact Hlim|]. split; [reflexivity|].
  exact (Send_bytes_splits_data 9 7 [1; 2; 3; 4; 5; 6; 7; 8; 9; 10] Hlim).
Defined.

End PacketFacts.

(* ===================================================================== *)
(** * tcp.cpp: further facts *)
(* ===================================================================== *)

(** ** A frame that arrives in pieces *)

Lemma write_at_next (f : list Z) (p r m : nat) :
  (p + r <= length f)%nat -> (length f <= m)%nat ->
  write_at (take p f ++ replicate (m - p) 0) (Z.of_nat p) (take r (drop p f))
  = Ok (take (p + r) f ++ replicate (m - (p + r)) 0).
Proof.
  intros Hpr Hm. unfold write_at. rewrite Nat2Z.id.
  assert (Hlen : length (take p f) = p) by (rewrite length_take; lia).
  assert (Hgot : length (take r (drop p f)) = r)
    by (rewrite length_take, length_drop; lia).
  destruct (Nat.leb_spec (p + length (take r (drop p f)))
                         (length (take p f ++ replicate (m - p) 0)))
    as [_ | Hover];
    [|rewrite length_app, length_replicate, Hlen, Hgot in Hover; lia].
  f_equal.
  rewrite take_app_length' by (symmetry; exact Hlen).
  rewrite Hgot, drop_app_add' by (symmetry; exact Hlen).
  rewrite drop_replicate, app_assoc, take_take_drop.
  f_equal. f_equal. lia.
Qed.

Lemma incoming_split (bytes tail f rest : list Z) (p r : nat) :
  bytes ++ tail = drop p f ++ rest ->
  (r <= length bytes)%nat -> (p + r <= length f)%nat ->
  take r bytes = take r (drop p f)
  /\ drop r bytes ++ tail = drop (p + r) f ++ rest.
Proof.
  intros H Hr Hpr. split.
  - apply (f_equal (take r)) in H.
    rewrite !take_app_le in H by (rewrite ?length_drop; lia). exact H.
  - apply (f_equal (drop r)) in H.
    rewrite !drop_app_le in H by (rewrite ?length_drop; lia).
    rewrite drop_drop in H. exact H.
Qed.

(** One run of a receiving loop of [Recv_Packet] on a calm script: the loop
    fills the packet up to its bound, or the socket blocks first; the bytes
    go where they belong and nothing of the script is lost. *)
Lemma recv_loop_receiving (MTU : Z) (f rest : list Z) (fuel : nat) :
  forall (bound : Z) (p : Packet) (n : Network),
    receiving MTU f rest p (recv_script n) ->
    pos p <= bound <= Z.of_nat (length f) ->
    Z.of_nat (length f) <= MTU <= UINT16_MAX ->
    (Z.to_nat (bound - pos p) <= fuel)%nat ->
    exists (exit : loop_exit) (p' : Packet) (n' : Network),
      recv_loop fuel bound p n = (exit, p', n')
      /\ receiving MTU f rest p' (recv_script n')
      /\ size p' = size p /\ pos p <= pos p'
      /\ wire n' = wire n /\ send_script n' = send_script n
      /\ closed n' = closed n
      /\ ((exit = Filled /\ pos p' = bound
           /\ (would_blocks (recv_script n') <= would_blocks (recv_script n))%nat)
          \/ (exit = Yield /\ pos p' < bound
              /\ (would_blocks (recv_script n') < would_blocks (recv_script n))%nat)).
Proof.
  induction fuel as [|fuel IH]; intros bound p n Hrecv Hbound Hmtu Hfuel.
  - assert (pos p = bound) by lia.
    simpl. destruct (Z.ltb_spec (pos p) bound); [lia|]. simpl.
    exists Filled, p, n. split; [reflexivity|]. split; [exact Hrecv|].
    split; [reflexivity|]. split; [lia|]. split; [reflexivity|].
    split; [reflexivity|]. split; [reflexivity|]. left.
    split; [reflexivity|]. split; [assumption | lia].
  - cbn [recv_loop].
    destruct (Z.ltb_spec (pos p) bound) as [Hlt | Hge]; simpl negb; cbv iota.
    2: { exists Filled, p, n. split; [reflexivity|]. split; [exact Hrecv|].
         split; [reflexivity|]. split; [lia|]. split; [reflexivity|].
         split; [reflexivity|]. split; [reflexivity|]. left.
         split; [reflexivity|]. split; lia. }
    destruct Hrecv as (Hpos & Hbuf & Hin & Hcalm).
    unfold UINT16_MAX in Hmtu.
    assert (Hmore : (Z.to_nat (pos p) < length f)%nat) by lia.
    unfold recv.
    destruct (recv_script n) as [|ev script] eqn:Hscript.
    { exfalso. simpl in Hin. symmetry in Hin. apply app_eq_nil in Hin as (Hd & _).
      apply (f_equal (@length Z)) in Hd. rewrite length_drop in Hd. simpl in Hd. lia. }
    apply Forall_cons in Hcalm as (Hev & Hcalm).
    destruct ev as [| err | | bytes]; try discriminate Hev.
    + (* the socket would block *)
      simpl. eexists Yield, p, _. split; [reflexivity|]. simpl.
      split; [repeat split; auto; lia|].
      split; [reflexivity|]. split; [lia|]. split; [reflexivity|].
      split; [reflexivity|]. split; [reflexivity|]. right.
      split; [reflexivity|]. split; lia.
    + (* some bytes arrive *)
      destruct bytes as [|c bytes]; [discriminate Hev|].
      set (chunk := c :: bytes) in *.
      set (got := take (Z.to_nat (bound - pos p)) chunk).
      assert (Hchunk : (1 <= length chunk)%nat) by (unfold chunk; simpl; lia).
      assert (Hgot : 1 <= Z.of_nat (length got) <= bound - pos p)
        by (unfold got; rewrite length_take; lia).
      destruct (Z.eqb_spec (Z.of_nat (length got)) (-1)); [lia|].
      destruct (Z.eqb_spec (Z.of_nat (length got)) 0); [lia|].
      simpl in Hin. fold chunk in Hin.
      destruct (incoming_split chunk (incoming script) f rest
                  (Z.to_nat (pos p)) (length got) Hin)
        as (Htake & Hdrop); [unfold got; rewrite length_take; lia | lia |].
      assert (Hgot' : got = take (length got) (drop (Z.to_nat (pos p)) f)).
      { rewrite <- Htake. unfold got. rewrite length_take.
        destruct (Nat.le_gt_cases (Z.to_nat (bound - pos p)) (length chunk)).
        - rewrite Nat.min_l by lia. reflexivity.
        - rewrite Nat.min_r by lia. rewrite !take_ge by lia. reflexivity. }
      set (script' := match drop (Z.to_nat (bound - pos p)) chunk with
                      | [] => script
                      | _ :: _ => RecvData (drop (Z.to_nat (bound - pos p)) chunk) :: script
                      end).
      assert (Hleft : drop (length got) chunk = drop (Z.to_nat (bound - pos p)) chunk).
      { unfold got. rewrite length_take.
        destruct (Nat.le_gt_cases (Z.to_nat (bound - pos p)) (length chunk)).
        - f_equal. lia.
        - rewrite Nat.min_r by lia. rewrite !drop_ge by lia. reflexivity. }
      assert (Hin' : incoming script'
                     = drop (Z.to_nat (pos p) + length got) f ++ rest).
      { rewrite <- Hdrop, Hleft. unfold script'.
        destruct (drop (Z.to_nat (bound - pos p)) chunk); reflexivity. }
      assert (Hcalm' : Forall (fun ev => calm ev = true) script').
      { unfold script'. destruct (drop (Z.to_nat (bound - pos p)) chunk);
          [exact Hcalm | constructor; [reflexivity | exact Hcalm]]. }
      assert (Hwb : would_blocks script' = would_blocks script).
      { unfold script'. destruct (drop (Z.to_nat (bound - pos p)) chunk); reflexivity. }
      assert (Hwrite : write_at (buffer p) (pos p) got
                       = Ok (take (Z.to_nat (pos p) + length got) f
                             ++ replicate (Z.to_nat MTU
                                           - (Z.to_nat (pos p) + length got)) 0)).
      { rewrite Hbuf.
        replace (pos p) with (Z.of_nat (Z.to_nat (pos p))) at 3 by lia.
        replace (Z.to_nat (MTU - pos p)) with (Z.to_nat MTU - Z.to_nat (pos p))%nat
          by lia.
        rewrite Hgot' at 1. apply write_at_next; lia. }
      rewrite Hwrite.
      set (pk := {| buffer := take (Z.to_nat (pos p) + length got) f
                              ++ replicate (Z.to_nat MTU
                                            - (Z.to_nat (pos p) + length got)) 0;
                    size := size p;
                    pos := Net.to_PacketSize (pos p + Z.of_nat (length got)) |}).
      set (nw := {| wire := wire n; send_script := send_script n;
                    recv_script := script'; closed := closed n |}).
      assert (Hpos1 : pos pk = pos p + Z.of_nat (length got)).
      { unfold pk. simpl. apply to_PacketSize_small. unfold UINT16_MAX. lia. }
      assert (Hrecv1 : receiving MTU f rest pk (recv_script nw)).
      { unfold receiving. rewrite Hpos1. simpl recv_script.
        split; [lia|]. split; [| split; [| exact Hcalm']].
        - unfold pk. simpl buffer.
          f_equal; [f_equal; lia | f_equal; lia].
        - rewrite Hin'. f_equal. f_equal. lia. }
      destruct (IH bound pk nw Hrecv1) as (exit & p' & n' & Hrun & Hrecv' & Hsize
                                           & Hmono & Hwire & Hsend & Hclosed & Hexit);
        [lia | unfold UINT16_MAX; lia | lia |].
      exists exit, p', n'. split; [exact Hrun|].
      split; [exact Hrecv'|]. split; [exact Hsize|]. split; [lia|].
      split; [exact Hwire|]. split; [exact Hsend|]. split; [exact Hclosed|].
      simpl recv_script in Hexit. rewrite Hwb in Hexit. simpl would_blocks.
      exact Hexit.
Qed.

(** The second loop of [Recv_Packet], which reads the frame up to its
    length, and what [Recv_Packet] does with its outcome. *)
Lemma Recv_Packet_body (MTU : Z) (f rest : list Z) (w : World) (p : Packet)
      (n : Network) :
  receiving MTU f rest p (recv_script n) ->
  2 <= pos p -> size p = Z.of_nat (length f) ->
  Z.of_nat (length f) <= MTU <= UINT16_MAX ->
  exists (p' : Packet) (n' : Network),
    wire n' = wire n /\ send_script n' = send_script n /\ closed n' = closed n
    /\ ((recv_loop (Z.to_nat (size p)) (size p) p n = (Filled, p', n')
         /\ PrepareToRead p'
            = {| buffer := f ++ replicate (Z.to_nat MTU - length f) 0;
                 size := Z.of_nat (length f); pos := 2 |}
         /\ incoming (recv_script n') = rest
         /\ Forall (fun ev => calm ev = true) (recv_script n'))
        \/ (recv_loop (Z.to_nat (size p)) (size p) p n = (Yield, p', n')
            /\ receiving MTU f rest p' (recv_script n')
            /\ 2 <= pos p' /\ size p' = Z.of_nat (length f)
            /\ (would_blocks (recv_script n') < would_blocks (recv_script n))%nat)).
Proof.
  intros Hrecv Hpos Hsize Hmtu.
  pose proof Hrecv as (Hrange & _).
  destruct (recv_loop_receiving MTU f rest (Z.to_nat (size p)) (size p) p n Hrecv)
    as (exit & p' & n' & Hrun & Hrecv' & Hsize' & Hmono & Hwire & Hsend & Hclosed
        & Hexit); [lia | exact Hmtu | lia |].
  exists p', n'. split; [exact Hwire|]. split; [exact Hsend|]. split; [exact Hclosed|].
  destruct Hexit as [(-> & Hfull & _) | (-> & Hless & Hwb)].
  - left. split; [exact Hrun|].
    destruct Hrecv' as (_ & Hbuf & Hin & Hcalm).
    rewrite Hfull, Hsize in Hbuf, Hin. rewrite Nat2Z.id in Hbuf, Hin.
    rewrite take_ge in Hbuf by lia. rewrite drop_ge in Hin by lia.
    split; [| split; [exact Hin | exact Hcalm]].
    unfold PrepareToRead. rewrite Hbuf, Hsize', Hsize.
    replace (Z.to_nat (MTU - Z.of_nat (length f)))
      with (Z.to_nat MTU - length f)%nat by lia.
    reflexivity.
  - right. split; [exact Hrun|]. split; [exact Hrecv'|].
    split; [lia|]. split; [congruence | exact Hwb].
Qed.

(** One call of [Recv_Packet] while a frame is arriving: the frame is
    delivered, or the socket has blocked and the part received is kept. *)
Lemma Recv_Packet_step (MTU : Z) (f rest body : list Z) (b0 b1 : Z)
      (w : World) (p0 : Packet) :
  f = b0 :: b1 :: body -> is_byte b0 -> is_byte b1 ->
  b0 + 256 * b1 = Z.of_nat (length f) ->
  Z.of_nat (length f) <= MTU <= UINT16_MAX ->
  IsConnected (client w) = true ->
  (packet_recv (client w) = None /\ p0 = new_Packet MTU)
  \/ packet_recv (client w) = Some p0 ->
  receiving MTU f rest p0 (recv_script (net w)) ->
  (2 <= pos p0 -> size p0 = Z.of_nat (length f)) ->
  exists n' : Network,
    wire n' = wire (net w) /\ send_script n' = send_script (net w)
    /\ closed n' = closed (net w)
    /\ ((Recv_Packet MTU w
         = Ok (Some {| buffer := f ++ replicate (Z.to_nat MTU - length f) 0;
                       size := Z.of_nat (length f); pos := 2 |},
               NETWORK_RECV_STATUS_OKAY,
               {| client := set_recv (client w) None; globals := globals w;
                  net := n' |})
         /\ incoming (recv_script n') = rest
         /\ Forall (fun ev => calm ev = true) (recv_script n'))
        \/ (exists p1 : Packet,
               Recv_Packet MTU w
               = Ok (None, NETWORK_RECV_STATUS_OKAY,
                     {| client := set_recv (client w) (Some p1);
                        globals := globals w; net := n' |})
               /\ receiving MTU f rest p1 (recv_script n')
               /\ (2 <= pos p1 -> size p1 = Z.of_nat (length f))
               /\ (would_blocks (recv_script n')
                   < would_blocks (recv_script (net w)))%nat)).
Proof.
  intros Hf H0 H1 Hdecl Hmtu Hconn Hp0 Hrecv Hsize0.
  assert (HL : 2 <= Z.of_nat (length f)) by (rewrite Hf; simpl; lia).
  unfold is_byte in H0, H1. pose proof Hmtu as Hmtu'. unfold UINT16_MAX in Hmtu'.
  remember (Recv_Packet MTU w) as R eqn:HR.
  unfold Recv_Packet in HR. rewrite Hconn in HR. simpl negb in HR. cbv iota in HR.
  replace (match packet_recv (client w) with
           | Some p => p
           | None => new_Packet MTU
           end) with p0 in HR
    by (destruct Hp0 as [(-> & ->) | ->]; reflexivity).
  unfold Net.sizeof_PacketSize in HR.
  assert (Hbody : forall (p : Packet) (n : Network),
             receiving MTU f rest p (recv_script n) ->
             2 <= pos p -> size p = Z.of_nat (length f) ->
             wire n = wire (net w) -> send_script n = send_script (net w) ->
             closed n = closed (net w) ->
             (would_blocks (recv_script n) <= would_blocks (recv_script (net w)))%nat ->
             exists n' : Network,
               wire n' = wire (net w) /\ send_script n' = send_script (net w)
               /\ closed n' = closed (net w)
               /\ ((match recv_loop (Z.to_nat (size p)) (size p) p n with
                    | (Filled, p, n) =>
                        Ok (Some (PrepareToRead p), NETWORK_RECV_STATUS_OKAY,
                            {| client := set_recv (client w) None;
                               globals := globals w; net := n |})
                    | (Overrun, _, _) => Fault OutOfBounds
                    | (exit, p, n) => Ok (Recv_Packet_leave w exit p n)
                    end
                    = Ok (Some {| buffer := f ++ replicate (Z.to_nat MTU - length f) 0;
                                  size := Z.of_nat (length f); pos := 2 |},
                          NETWORK_RECV_STATUS_OKAY,
                          {| client := set_recv (client w) None;
                             globals := globals w; net := n' |})
                    /\ incoming (recv_script n') = rest
                    /\ Forall (fun ev => calm ev = true) (recv_script n'))
                   \/ (exists p1 : Packet,
                          match recv_loop (Z.to_nat (size p)) (size p) p n with
                          | (Filled, p, n) =>
                              Ok (Some (PrepareToRead p), NETWORK_RECV_STATUS_OKAY,
                                  {| client := set_recv (client w) None;
                                     globals := globals w; net := n |})
                          | (Overrun, _, _) => Fault OutOfBounds
                          | (exit, p, n) => Ok (Recv_Packet_leave w exit p n)
                          end
                          = Ok (None, NETWORK_RECV_STATUS_OKAY,
                                {| client := set_recv (client w) (Some p1);
                                   globals := globals w; net := n' |})
                          /\ receiving MTU f rest p1 (recv_script n')
                          /\ (2 <= pos p1 -> size p1 = Z.of_nat (length f))
                          /\ (would_blocks (recv_script n')
                              < would_blocks (recv_script (net w)))%nat))).
  { intros p n Hr Hp Hs Hw Hss Hc Hwb.
    destruct (Recv_Packet_body MTU f rest w p n Hr Hp Hs Hmtu)
      as (p' & n' & Hw' & Hss' & Hc' & [(Hrun & Hfin & Hin & Hcalm)
                                        | (Hrun & Hr' & Hp' & Hs' & Hwb')]).
    - exists n'. split; [congruence|]. split; [congruence|]. split; [congruence|].
      left. rewrite Hrun, Hfin. auto.
    - exists n'. split; [congruence|]. split; [congruence|]. split; [congruence|].
      right. exists p'. rewrite Hrun. simpl.
      split; [reflexivity|]. split; [exact Hr'|]. split; [auto | lia]. }
  destruct (Z.ltb_spec (pos p0) 2) as [Hhead | Hpast].
  - (* the length has not arrived yet *)
    pose proof Hrecv as (Hrange & _).
    destruct (recv_loop_receiving MTU f rest (Z.to_nat 2) 2 p0 (net w) Hrecv)
      as (exit & p' & n' & Hrun & Hrecv' & Hsize' & Hmono & Hwire & Hsend & Hclosed
          & Hexit); [lia | exact Hmtu | lia |].
    rewrite Hrun in HR.
    destruct Hexit as [(-> & Hfull & Hwb) | (-> & Hless & Hwb)].
    + destruct Hrecv' as (Hr1 & Hbuf & Hin & Hcalm).
      assert (Hb' : buffer p'
                    = b0 :: b1 :: replicate (Z.to_nat (MTU - 2)) 0).
      { rewrite Hbuf, Hfull, Hf. reflexivity. }
      assert (Hraw : ReadRawPacketSize p'
                     = Ok {| buffer := buffer p'; size := Z.of_nat (length f);
                             pos := pos p' |}).
      { unfold ReadRawPacketSize. rewrite Hb'. unfold Net.load. simpl lookup.
        change (0 <? 0) with false. change (1 <? 0) with false. cbn [bind].
        rewrite shiftl_8, Hdecl.
        rewrite to_PacketSize_small by (unfold UINT16_MAX; lia). reflexivity. }
      rewrite Hraw in HR. cbn [bind size] in HR. rewrite Z.gtb_ltb in HR.
      destruct (Z.ltb_spec MTU (Z.of_nat (length f))); [lia|]. cbn [bind] in HR.
      rewrite HR.
      apply (Hbody {| buffer := buffer p'; size := Z.of_nat (length f);
                      pos := pos p' |} n'); simpl; auto; try lia.
      repeat split; simpl; auto; lia.
    + exists n'. split; [exact Hwire|]. split; [exact Hsend|].
      split; [exact Hclosed|]. right. exists p'. rewrite HR. cbn [bind]. simpl.
      split; [reflexivity|]. split; [exact Hrecv'|]. split; [lia | exact Hwb].
  - (* the length is known: the call goes on with the body *)
    cbn [bind] in HR. rewrite HR. apply Hbody; auto; lia.
Qed.

Lemma Recv_Packet_until_receiving (MTU : Z) (f rest body : list Z) (b0 b1 : Z)
      (n : nat) :
  forall (w : World) (p0 : Packet),
    f = b0 :: b1 :: body -> is_byte b0 -> is_byte b1 ->
    b0 + 256 * b1 = Z.of_nat (length f) ->
    Z.of_nat (length f) <= MTU <= UINT16_MAX ->
    IsConnected (client w) = true ->
    (packet_recv (client w) = None /\ p0 = new_Packet MTU)
    \/ packet_recv (client w) = Some p0 ->
    receiving MTU f rest p0 (recv_script (net w)) ->
    (2 <= pos p0 -> size p0 = Z.of_nat (length f)) ->
    (would_blocks (recv_script (net w)) < n)%nat ->
    exists n' : Network,
      Recv_Packet_until MTU n w
      = Ok (Some {| buffer := f ++ replicate (Z.to_nat MTU - length f) 0;
                    size := Z.of_nat (length f); pos := 2 |},
            {| client := set_recv (client w) None; globals := globals w;
               net := n' |})
      /\ incoming (recv_script n') = rest
      /\ Forall (fun ev => calm ev = true) (recv_script n')
      /\ wire n' = wire (net w) /\ send_script n' = send_script (net w)
      /\ closed n' = closed (net w).
Proof.
  induction n as [|n IH]; intros w p0 Hf H0 H1 Hdecl Hmtu Hconn Hp0 Hrecv Hsize Hwb;
    [lia|].
  destruct (Recv_Packet_step MTU f rest body b0 b1 w p0 Hf H0 H1 Hdecl Hmtu Hconn
                             Hp0 Hrecv Hsize)
    as (n' & Hwire & Hsend & Hclosed
        & [(Hcall & Hin & Hcalm) | (p1 & Hcall & Hrecv1 & Hsize1 & Hwb1)]).
  - exists n'. cbn [Recv_Packet_until]. rewrite Hcall. cbn [bind]. auto 10.
  - cbn [Recv_Packet_until]. rewrite Hcall. cbn [bind].
    destruct (IH {| client := set_recv (client w) (Some p1); globals := globals w;
                    net := n' |} p1 Hf H0 H1 Hdecl Hmtu)
      as (n'' & Hrun & Hin & Hcalm & Hwire' & Hsend' & Hclosed');
      simpl; auto; try lia.
    exists n''. split; [exact Hrun|]. simpl in *.
    split; [exact Hin|]. split; [exact Hcalm|].
    split; [congruence|]. split; congruence.
Qed.

(** X14.  A frame [f] whose first two bytes declare its own length, at most
    [SEND_MTU], reaches a connected socket in pieces of any size, the socket
    blocking in between as often as it likes.  [Recv_Packet], called once
    more than the socket blocks, delivers a packet on one of these calls and
    returns [NULL] with the status OKAY on the calls before.  The packet is
    always the same, however the bytes were cut: its array starts with the
    bytes of [f], its size is the length of [f], its cursor stands behind the
    length field.  The bytes that follow the frame are still to be received,
    no packet is left under construction, and the connection is as it was. *)
Theorem Recv_Packet_reassembles (SEND_MTU : Z) (w : World)
        (f rest body : list Z) (b0 b1 : Z) (n : nat) :
  IsConnected (client w) = true ->
  packet_recv (client w) = None ->
  Forall (fun ev => calm ev = true) (recv_script (net w)) ->
  incoming (recv_script (net w)) = f ++ rest ->
  f = b0 :: b1 :: body -> is_byte b0 -> is_byte b1 ->
  b0 + 256 * b1 = Z.of_nat (length f) ->
  Z.of_nat (length f) <= SEND_MTU <= UINT16_MAX ->
  (would_blocks (recv_script (net w)) < n)%nat ->
  exists w' : World,
    Recv_Packet_until SEND_MTU n w
    = Ok (Some {| buffer := f ++ replicate (Z.to_nat SEND_MTU - length f) 0;
                  size := Z.of_nat (length f); pos := 2 |}, w')
    /\ incoming (recv_script (net w')) = rest
    /\ client w' = client w /\ globals w' = globals w
    /\ wire (net w') = wire (net w) /\ closed (net w') = closed (net w).
Proof.
  intros Hconn Hnone Hcalm Hin Hf H0 H1 Hdecl Hmtu Hwb.
  destruct (Recv_Packet_until_receiving SEND_MTU f rest body b0 b1 n w
              (new_Packet SEND_MTU) Hf H0 H1 Hdecl Hmtu Hconn)
    as (n' & Hrun & Hin' & _ & Hwire & _ & Hclosed); auto.
  - unfold receiving, new_Packet. simpl.
    split; [lia|]. split; [rewrite Z.sub_0_r; reflexivity|].
    split; [exact Hin | exact Hcalm].
  - simpl. lia.
  - eexists. split; [exact Hrun|]. simpl.
    split; [exact Hin'|]. split; [| auto].
    destruct (client w); simpl in Hnone; subst; reflexivity.
Qed.

Lemma Recv_Packet_reassembles_witness :
  let script := [RecvData [5]; RecvWouldBlock; RecvData [0; 1]; RecvWouldBlock;
                 RecvData [10; 11; 3; 0; 9]] in
  let w := {| client := client (server_world []); globals := globals (server_world []);
              net := {| wire := []; send_script := []; recv_script := script;
                        closed := false |} |} in
  let f := [5; 0; 1; 10; 11] in
  IsConnected (client w) = true
  /\ packet_recv (client w) = None
  /\ Forall (fun ev => calm ev = true) (recv_script (net w))
  /\ incoming (recv_script (net w)) = f ++ [3; 0; 9]
  /\ is_byte 5 /\ is_byte 0
  /\ 5 + 256 * 0 = Z.of_nat (length f)
  /\ Z.of_nat (length f) <= 8 <= UINT16_MAX
  /\ (would_blocks (recv_script (net w)) < 3)%nat
  /\ exists w' : World,
      Recv_Packet_until 8 3 w
      = Ok (Some {| buffer := f ++ replicate (Z.to_nat 8 - length f) 0;
                    size := Z.of_nat (length f); pos := 2 |}, w')
      /\ incoming (recv_script (net w')) = [3; 0; 9]
      /\ client w' = client w /\ globals w' = globals w
      /\ wire (net w') = wire (net w) /\ closed (net w') = closed (net w).
Proof.
  intros script w f.
  assert (Hcalm : Forall (fun ev => calm ev = true) (recv_script (net w)))
    by (repeat constructor).
  assert (H5 : is_byte 5) by (unfold is_byte; lia).
  assert (H0 : is_byte 0) by (unfold is_byte; lia).
  assert (Hmtu : Z.of_nat (length f) <= 8 <= UINT16_MAX)
    by (unfold UINT16_MAX; simpl; lia).
  assert (Hwb : (would_blocks (recv_script (net w)) < 3)%nat) by (simpl; lia).
  split; [reflexivity|]. split; [reflexivity|]. split; [exact Hcalm|].
  split; [reflexivity|]. split; [exact H5|]. split; [exact H0|].
  split; [reflexivity|]. split; [exact Hmtu|]. split; [exact Hwb|].
  exact (Recv_Packet_reassembles 8 w f [3; 0; 9] [1; 10; 11] 5 0 3
           eq_refl eq_refl Hcalm eq_refl eq_refl H5 H0 eq_refl Hmtu Hwb).
Defined.

(** ** Giving up a connection *)

Lemma CloseConnection_given_up (w : World) (a : nat) :
  sock (client w) = Some a ->
  given_up w (fst (CloseConnection w)) (snd (CloseConnection w)).
Proof.
  intros Hsock. unfold given_up, CloseConnection.
  destruct (negb (_network_server (globals w)) && _networking (globals w)); simpl.
  - auto.
  - rewrite Hsock. repeat split; reflexivity.
Qed.

Ltac given_up_now a Hsock :=
  match goal with
  | |- context [CloseConnection ?w1] =>
      let Hup := fresh "Hup" in
      let st := fresh "st" in
      let w' := fresh "w'" in
      pose proof (CloseConnection_given_up w1 a Hsock) as Hup;
      destruct (CloseConnection w1) as [st w'];
      exists st, w'; split; [reflexivity | exact Hup]
  end.

(** X15.  [Recv_Packet] on a connected socket that starts a new packet gives
    the connection up and returns [NULL] when the peer has closed, when the
    socket reports an error other than would-block, and when the first two
    bytes declare a frame of more than [SEND_MTU] bytes; of such a frame it
    takes the two bytes of the length and no more.  A client that gives up
    falls back to the menu with the status CONN_LOST and the error text of
    the lost connection; a server answers OKAY and destroys the socket of its
    client, queue and packet under construction included.  On a socket that
    has been destroyed [Send_Packets] and [Recv_Packet] do nothing at all. *)
Theorem Recv_Packet_gives_up (SEND_MTU : Z) (w : World) (script : list recv_event) :
  IsConnected (client w) = true -> packet_recv (client w) = None ->
  2 <= SEND_MTU ->
  (recv_script (net w) = RecvClosed :: script ->
   exists st w', Recv_Packet SEND_MTU w = Ok (None, st, w') /\ given_up w st w')
  /\ (forall err : Z,
         err <> EWOULDBLOCK -> recv_script (net w) = RecvError err :: script ->
         exists st w', Recv_Packet SEND_MTU w = Ok (None, st, w')
                       /\ given_up w st w')
  /\ (forall (b0 b1 : Z) (tail : list Z),
         is_byte b0 -> is_byte b1 -> SEND_MTU < b0 + 256 * b1 ->
         recv_script (net w) = RecvData (b0 :: b1 :: tail) :: script ->
         exists st w', Recv_Packet SEND_MTU w = Ok (None, st, w')
                       /\ given_up w st w'
                       /\ incoming (recv_script (net w')) = tail ++ incoming script)
  /\ (forall w0 : World,
         Send_Packets (destroy w0) = (false, destroy w0)
         /\ Recv_Packet SEND_MTU (destroy w0)
            = Ok (None, NETWORK_RECV_STATUS_OKAY, destroy w0)
         /\ IsPacketQueueEmpty (client (destroy w0)) = true
         /\ destroy (destroy w0) = destroy w0).
Proof.
  intros Hconn Hnone Hmtu.
  assert (Hsock : exists a, sock (client w) = Some a).
  { unfold IsConnected in Hconn. destruct (sock (client w)) as [a|]; [eauto|].
    rewrite bool_decide_false in Hconn by auto. discriminate Hconn. }
  destruct Hsock as (a & Hsock).
  assert (Hstart : forall ev,
             recv_script (net w) = ev :: script ->
             ev = RecvClosed \/ (exists err, ev = RecvError err /\ err <> EWOULDBLOCK) ->
             exists st w', Recv_Packet SEND_MTU w = Ok (None, st, w')
                           /\ given_up w st w').
  { intros ev Hs Hev. unfold Recv_Packet. rewrite Hconn, Hnone. simpl negb. cbv iota.
    unfold new_Packet at 1. cbn [pos]. unfold Net.sizeof_PacketSize.
    change (0 <? 2) with true. cbv iota. change (Z.to_nat 2) with 2%nat.
    cbn [recv_loop]. unfold new_Packet at 1. cbn [pos].
    change (0 <? 2) with true. simpl negb. cbv iota.
    unfold recv. rewrite Hs.
    destruct Hev as [-> | (err & -> & Herr)].
    - simpl. cbn [bind]. given_up_now a Hsock.
    - change (-1 =? -1) with true. cbv iota.
      destruct (Z.eqb_spec err EWOULDBLOCK); [contradiction|]. simpl negb. cbv iota.
      cbn [bind]. unfold Recv_Packet_leave. given_up_now a Hsock. }
  split; [intros Hs; apply (Hstart RecvClosed Hs); auto|].
  split; [intros err Herr Hs; apply (Hstart (RecvError err) Hs); eauto|].
  split.
  - intros b0 b1 tail H0 H1 Hbig Hs. unfold is_byte in H0, H1.
    set (n1 := {| wire := wire (net w); send_script := send_script (net w);
                  recv_script := match tail with
                                 | [] => script
                                 | _ :: _ => RecvData tail :: script
                                 end;
                  closed := closed (net w) |}).
    set (p1 := {| buffer := b0 :: b1 :: drop 2 (replicate (Z.to_nat SEND_MTU) 0);
                  size := 0; pos := 2 |}).
    assert (Hwrite : write_at (replicate (Z.to_nat SEND_MTU) 0) 0 [b0; b1]
                     = Ok (b0 :: b1 :: drop 2 (replicate (Z.to_nat SEND_MTU) 0))).
    { unfold write_at. change (Z.to_nat 0) with 0%nat.
      destruct (Nat.leb_spec (0 + length [b0; b1])
                             (length (replicate (Z.to_nat SEND_MTU) (0 : Z))))
        as [_ | Hover]; [reflexivity|].
      rewrite length_replicate in Hover. simpl in Hover. lia. }
    assert (Hloop : recv_loop 2 2 (new_Packet SEND_MTU) (net w) = (Filled, p1, n1)).
    { cbn [recv_loop]. unfold new_Packet at 1. cbn [pos].
      change (0 <? 2) with true. simpl negb. cbv iota.
      unfold recv. rewrite Hs. change (2 - 0) with 2.
      change (take (Z.to_nat 2) (b0 :: b1 :: tail)) with [b0; b1].
      change (drop (Z.to_nat 2) (b0 :: b1 :: tail)) with tail.
      simpl length. change (Z.of_nat 2) with 2.
      change (2 =? -1) with false. change (2 =? 0) with false. cbv iota.
      unfold new_Packet. cbn [pos buffer size].
      change (take (Z.to_nat (2 - 0)) (b0 :: b1 :: tail)) with [b0; b1].
      rewrite Hwrite.
      change (Net.to_PacketSize (0 + 2)) with 2.
      change (2 <? 2) with false. simpl negb. cbv iota. reflexivity. }
    assert (Hraw : ReadRawPacketSize p1
                   = Ok {| buffer := buffer p1; size := b0 + 256 * b1; pos := 2 |}).
    { unfold ReadRawPacketSize, p1. cbn [buffer pos].
      unfold Net.load. simpl lookup.
      change (0 <? 0) with false. change (1 <? 0) with false. cbn [bind].
      rewrite shiftl_8. rewrite to_PacketSize_small by (unfold UINT16_MAX; lia).
      reflexivity. }
    unfold Recv_Packet. rewrite Hconn, Hnone. simpl negb. cbv iota.
    unfold new_Packet at 1. cbn [pos]. unfold Net.sizeof_PacketSize.
    change (0 <? 2) with true. cbv iota. change (Z.to_nat 2) with 2%nat.
    rewrite Hloop, Hraw. cbn [bind size]. rewrite Z.gtb_ltb.
    destruct (Z.ltb_spec SEND_MTU (b0 + 256 * b1)); [|lia]. cbn [bind].
    unfold Recv_Packet_leave.
    pose proof (CloseConnection_given_up
                  {| client := set_recv (client w)
                                 (Some {| buffer := buffer p1; size := b0 + 256 * b1;
                                          pos := 2 |});
                     globals := globals w; net := n1 |} a Hsock) as Hup.
    unfold CloseConnection in *. cbn [globals] in *.
    destruct (negb (_network_server (globals w)) && _networking (globals w)) eqn:Hmode.
    + eexists _, _. split; [reflexivity|]. split; [exact Hup|].
      simpl. destruct tail; reflexivity.
    + eexists _, _. split; [reflexivity|]. split; [exact Hup|].
      simpl. destruct tail; reflexivity.
  - intros w0. unfold Send_Packets, Recv_Packet, IsConnected, IsPacketQueueEmpty.
    simpl. repeat split; reflexivity.
Qed.

Lemma Recv_Packet_gives_up_witness :
  let w := {| client := client (server_world []); globals := globals (server_world []);
              net := {| wire := []; send_script := [];
                        recv_script := [RecvData [0xFF; 0xFF; 1; 2]];
                        closed := false |} |} in
  IsConnected (client w) = true /\ packet_recv (client w) = None /\ 2 <= 1460
  /\ is_byte 0xFF /\ 1460 < 0xFF + 256 * 0xFF
  /\ exists st w', Recv_Packet 1460 w = Ok (None, st, w')
                   /\ given_up w st w'
                   /\ incoming (recv_script (net w')) = [1; 2] ++ incoming [].
Proof.
  intros w.
  assert (Hmtu : 2 <= 1460) by lia.
  assert (Hbyte : is_byte 0xFF) by (unfold is_byte; lia).
  assert (Hbig : 1460 < 0xFF + 256 * 0xFF) by lia.
  split; [reflexivity|]. split; [reflexivity|]. split; [exact Hmtu|].
  split; [exact Hbyte|]. split; [exact Hbig|].
  destruct (Recv_Packet_gives_up 1460 w [] eq_refl eq_refl Hmtu)
    as (_ & _ & Hover & _).
  exact (Hover 0xFF 0xFF [1; 2] Hbyte Hbyte Hbig eq_refl).
Defined.

(** ** Sending, whatever the socket does *)

Lemma drained_to_cons (p : Packet) (q q' : list Packet) :
  drained_to q q' -> drained_to (p :: q) q'.
Proof.
  intros [gone [[-> ->] | (p1 & p1' & rest & -> & -> & Hb & Hs & Hp)]].
  - exists (p :: gone). left. auto.
  - exists (p :: gone). right. exists p1, p1', rest. repeat split; auto.
Qed.

(** One run of the loop of [Send_Packets], on any script: what reaches the
    wire is the front part of the bytes pending, and the queue that is left
    holds the rest. *)
Lemma Send_Packets_loop_prefix (q : list Packet) :
  forall n : Network,
    Forall queued q ->
    exists (close : bool) (q' : list Packet) (n' : Network) (sent : list Z),
      Send_Packets_loop q n = (close, q', n')
      /\ wire n' = wire n ++ sent
      /\ pending q = sent ++ pending q'
      /\ Forall queued q'
      /\ drained_to q q'
      /\ recv_script n' = recv_script n /\ closed n' = closed n.
Proof.
  induction q as [|p next IH]; intros n Hq.
  - exists false, [], n, []. simpl. rewrite app_nil_r.
    repeat split; auto. apply drained_to_refl.
  - apply Forall_cons in Hq as (Hp & Hnext).
    pose proof Hp as ((Hpos & Hlt) & Hlen & H16). unfold UINT16_MAX in H16.
    pose proof (length_unsent p Hp) as Hun.
    assert (Hstay : forall (close : bool) (n' : Network),
               wire n' = wire n -> recv_script n' = recv_script n ->
               closed n' = closed n ->
               exists (close0 : bool) (q' : list Packet) (n0 : Network) (sent : list Z),
                 (close, p :: next, n') = (close0, q', n0)
                 /\ wire n0 = wire n ++ sent
                 /\ pending (p :: next) = sent ++ pending q'
                 /\ Forall queued q'
                 /\ drained_to (p :: next) q'
                 /\ recv_script n0 = recv_script n /\ closed n0 = closed n).
    { intros close n' Hw Hr Hc. exists close, (p :: next), n', [].
      rewrite app_nil_r. repeat split; auto. apply drained_to_refl. }
    cbn [Send_Packets_loop]. fold (unsent p). unfold send.
    destruct (send_script n) as [|ev script] eqn:Hscript.
    { change (-1 =? -1) with true. cbv iota.
      change (negb (EWOULDBLOCK =? EWOULDBLOCK)) with false. cbv iota.
      apply Hstay; reflexivity. }
    destruct ev as [| err | k].
    + change (-1 =? -1) with true. cbv iota.
      change (negb (EWOULDBLOCK =? EWOULDBLOCK)) with false. cbv iota.
      apply Hstay; reflexivity.
    + change (-1 =? -1) with true. cbv iota.
      destruct (negb (err =? EWOULDBLOCK)); apply Hstay; reflexivity.
    + set (res := Z.max 0 (Z.min k (size p - pos p))).
      assert (Hres : 0 <= res <= size p - pos p) by (unfold res; lia).
      destruct (Z.eqb_spec res (-1)); [lia|].
      destruct (Z.eqb_spec res 0) as [Hzero | Hsome].
      { apply Hstay; simpl; auto. rewrite Hzero. simpl. apply app_nil_r. }
      cbn [pos size buffer].
      rewrite to_PacketSize_small by (unfold UINT16_MAX; lia).
      set (n1 := {| wire := wire n ++ take (Z.to_nat res) (unsent p);
                    send_script := script; recv_script := recv_script n;
                    closed := closed n |}).
      destruct (Z.eqb_spec (pos p + res) (size p)) as [Hdone | Hpart].
      * destruct (IH n1 Hnext) as (close & q' & n' & sent & Hrun & Hw & Hpend & Hq'
                                   & Hdr & Hr & Hc).
        exists close, q', n', (unsent p ++ sent). split; [exact Hrun|].
        split.
        { rewrite Hw. unfold n1. simpl wire. rewrite take_ge by lia.
          rewrite app_assoc. reflexivity. }
        split; [rewrite pending_cons, Hpend, app_assoc; reflexivity|].
        split; [exact Hq'|]. split; [apply drained_to_cons; exact Hdr|].
        split; [rewrite Hr | rewrite Hc]; reflexivity.
      * set (p1 := {| buffer := buffer p; size := size p; pos := pos p + res |}).
        exists false, (p1 :: next), n1, (take (Z.to_nat res) (unsent p)).
        split; [reflexivity|]. split; [reflexivity|].
        split.
        { rewrite !pending_cons. unfold p1. rewrite unsent_advance by lia.
          rewrite app_assoc, take_drop. reflexivity. }
        split.
        { constructor; [|exact Hnext]. unfold queued, p1, UINT16_MAX. simpl.
          repeat split; lia. }
        split; [|split; reflexivity].
        exists []. right. exists p, p1, next. unfold p1. simpl.
        repeat split; auto. lia.
Qed.

(** X25.  A client that has been sent a length of more than [SEND_MTU]
    gives the connection up with the status CONN_LOST, but keeps its socket
    and the packet under reception, with the length it has read.  When
    [Recv_Packet] is called on it once more and the bytes that follow the
    length are more than the array of the packet has left, the call asks
    [recv] for the declared number of bytes and [recv] writes behind the end
    of the array. *)
Theorem Recv_Packet_overruns_array
        (SEND_MTU : Z) (w : World) (b0 b1 : Z) (tail : list Z)
        (script : list recv_event) :
  IsConnected (client w) = true -> packet_recv (client w) = None ->
  _network_server (globals w) = false -> _networking (globals w) = true ->
  2 <= SEND_MTU -> is_byte b0 -> is_byte b1 -> SEND_MTU < b0 + 256 * b1 ->
  recv_script (net w) = RecvData (b0 :: b1 :: tail) :: script ->
  SEND_MTU - 2 < Z.of_nat (length tail) ->
  exists (w1 : World) (p : Packet),
    Recv_Packet SEND_MTU w = Ok (None, NETWORK_RECV_STATUS_CONN_LOST, w1)
    /\ IsConnected (client w1) = true
    /\ packet_recv (client w1) = Some p
    /\ pos p = 2 /\ size p = b0 + 256 * b1
    /\ Z.of_nat (length (buffer p)) = SEND_MTU
    /\ incoming (recv_script (net w1)) = tail ++ incoming script
    /\ Recv_Packet SEND_MTU w1 = Fault OutOfBounds.
Proof.
  intros Hconn Hnone Hserver Hnet Hmtu H0 H1 Hbig Hs Hmany.
  unfold is_byte in H0, H1.
  destruct tail as [|t tail']; [simpl in Hmany; lia|].
  set (tail := t :: tail') in *.
  set (n1 := {| wire := wire (net w); send_script := send_script (net w);
                recv_script := RecvData tail :: script;
                closed := closed (net w) |}).
  set (b := b0 :: b1 :: drop 2 (replicate (Z.to_nat SEND_MTU) 0)).
  set (p1 := {| buffer := b; size := 0; pos := 2 |}).
  set (p2 := {| buffer := b; size := b0 + 256 * b1; pos := 2 |}).
  assert (Hlen : Z.of_nat (length b) = SEND_MTU).
  { unfold b. simpl length. rewrite length_drop, length_replicate. lia. }
  assert (Hwrite : write_at (replicate (Z.to_nat SEND_MTU) 0) 0 [b0; b1] = Ok b).
  { unfold write_at. change (Z.to_nat 0) with 0%nat.
    destruct (Nat.leb_spec (0 + length [b0; b1])
                           (length (replicate (Z.to_nat SEND_MTU) (0 : Z))))
      as [_ | Hover]; [reflexivity|].
    rewrite length_replicate in Hover. simpl in Hover. lia. }
  assert (Hloop : recv_loop 2 2 (new_Packet SEND_MTU) (net w) = (Filled, p1, n1)).
  { cbn [recv_loop]. unfold new_Packet at 1. cbn [pos].
    change (0 <? 2) with true. simpl negb. cbv iota.
    unfold recv. rewrite Hs.
    change (take (Z.to_nat (2 - 0)) (b0 :: b1 :: tail)) with [b0; b1].
    change (drop (Z.to_nat (2 - 0)) (b0 :: b1 :: tail)) with tail.
    simpl length. change (Z.of_nat 2) with 2.
    change (2 =? -1) with false. change (2 =? 0) with false. cbv iota.
    unfold new_Packet. cbn [pos buffer size].
    change (take (Z.to_nat (2 - 0)) (b0 :: b1 :: tail)) with [b0; b1].
    change (drop (Z.to_nat (2 - 0)) (b0 :: b1 :: tail)) with tail.
    rewrite Hwrite.
    change (Net.to_PacketSize (0 + 2)) with 2.
    change (2 <? 2) with false. simpl negb. cbv iota. reflexivity. }
  assert (Hraw : ReadRawPacketSize p1 = Ok p2).
  { unfold ReadRawPacketSize, p1, p2, b. cbn [buffer pos].
    unfold Net.load. simpl lookup.
    change (0 <? 0) with false. change (1 <? 0) with false. cbn [bind].
    rewrite shiftl_8. rewrite to_PacketSize_small by (unfold UINT16_MAX; lia).
    reflexivity. }
  set (w1 := {| client := set_recv (client w) (Some p2);
                globals := {| _network_server := _network_server (globals w);
                              _networking := false;
                              _switch_mode := SM_MENU;
                              _switch_mode_errorstr :=
                                Some "STR_NETWORK_ERR_LOSTCONNECTION"%string |};
                net := n1 |}).
  exists w1, p2.
  split.
  { unfold Recv_Packet. rewrite Hconn, Hnone. simpl negb. cbv iota.
    unfold new_Packet at 1. cbn [pos]. unfold Net.sizeof_PacketSize.
    change (0 <? 2) with true. cbv iota. change (Z.to_nat 2) with 2%nat.
    rewrite Hloop, Hraw. cbn [bind]. unfold p2 at 1. cbn [size].
    rewrite Z.gtb_ltb.
    destruct (Z.ltb_spec SEND_MTU (b0 + 256 * b1)); [|lia]. cbn [bind].
    unfold Recv_Packet_leave, CloseConnection. cbn [globals].
    assert (Hmode : negb (_network_server (globals w)) && _networking (globals w)
                    = true) by (rewrite Hserver, Hnet; reflexivity).
    rewrite Hmode. reflexivity. }
  split; [exact Hconn|].
  split; [reflexivity|]. split; [reflexivity|]. split; [reflexivity|].
  split; [exact Hlen|]. split; [reflexivity|].
  unfold Recv_Packet.
  change (IsConnected (client w1)) with (IsConnected (client w)).
  rewrite Hconn. simpl negb. cbv iota.
  change (packet_recv (client w1)) with (Some p2). cbv iota.
  change (pos p2 <? Net.sizeof_PacketSize) with false. cbv iota. cbn [bind].
  change (size p2) with (b0 + 256 * b1).
  destruct (Z.to_nat (b0 + 256 * b1)) as [|fuel] eqn:Hfuel; [lia|].
  cbn [recv_loop]. change (pos p2) with 2.
  destruct (Z.ltb_spec 2 (b0 + 256 * b1)); [|lia]. simpl negb. cbv iota.
  unfold recv. change (recv_script (net w1)) with (RecvData tail :: script).
  cbv iota.
  set (got := take (Z.to_nat (b0 + 256 * b1 - 2)) tail).
  assert (Hgot : SEND_MTU - 2 < Z.of_nat (length got)).
  { unfold got. rewrite length_take. lia. }
  destruct (Z.eqb_spec (Z.of_nat (length got)) (-1)); [lia|].
  destruct (Z.eqb_spec (Z.of_nat (length got)) 0); [lia|].
  change (buffer p2) with b. unfold write_at.
  destruct (Nat.leb_spec (Z.to_nat 2 + length got) (length b)) as [Hfits|_];
    [lia | reflexivity].
Qed.

Lemma Recv_Packet_overruns_array_witness :
  let w := {| client := client (server_world []);
              globals := {| _network_server := false; _networking := true;
                            _switch_mode := SM_NONE;
                            _switch_mode_errorstr := None |};
              net := {| wire := []; send_script := [];
                        recv_script := [RecvData [9; 0; 1; 2; 3; 4; 5]];
                        closed := false |} |} in
  exists (w1 : World) (p : Packet),
    Recv_Packet 6 w = Ok (None, NETWORK_RECV_STATUS_CONN_LOST, w1)
    /\ IsConnected (client w1) = true
    /\ packet_recv (client w1) = Some p
    /\ pos p = 2 /\ size p = 9 + 256 * 0
    /\ Z.of_nat (length (buffer p)) = 6
    /\ incoming (recv_script (net w1)) = [1; 2; 3; 4; 5] ++ incoming []
    /\ Recv_Packet 6 w1 = Fault OutOfBounds.
Proof.
  intros w.
  apply (Recv_Packet_overruns_array 6 w 9 0 [1; 2; 3; 4; 5] []);
    try reflexivity; unfold is_byte; simpl; lia.
Defined.

(** X16.  Whatever the socket does on the writes of [Send_Packets] (it
    accepts some bytes or none, blocks, or fails): the bytes that reach the
    wire in one call are the front part of the bytes pending in the queue, in
    their order; no byte is sent twice, none is left out in between and none
    is made up.  When the call returns [true], the queue that is left holds
    exactly the bytes that follow, and only packets at the front of the queue
    are gone. *)
Theorem Send_Packets_sends_a_prefix (w : World) :
  Forall queued (packet_queue (client w)) ->
  exists sent left : list Z,
    wire (net (snd (Send_Packets w))) = wire (net w) ++ sent
    /\ pending (packet_queue (client w)) = sent ++ left
    /\ (fst (Send_Packets w) = true ->
        pending (packet_queue (client (snd (Send_Packets w)))) = left
        /\ drained_to (packet_queue (client w))
                      (packet_queue (client (snd (Send_Packets w))))
        /\ Forall queued (packet_queue (client (snd (Send_Packets w))))).
Proof.
  intros Hq. unfold Send_Packets.
  destruct (negb (writable (client w))).
  { exists [], (pending (packet_queue (client w))). simpl. rewrite app_nil_r.
    split; [reflexivity|]. split; [reflexivity|]. discriminate. }
  destruct (negb (IsConnected (client w))).
  { exists [], (pending (packet_queue (client w))). simpl. rewrite app_nil_r.
    split; [reflexivity|]. split; [reflexivity|]. discriminate. }
  destruct (Send_Packets_loop_prefix _ (net w) Hq)
    as (close & q' & n' & sent & Hrun & Hw & Hpend & Hq' & Hdr & _).
  rewrite Hrun. exists sent, (pending q').
  destruct close.
  - split; [|split; [exact Hpend | discriminate]].
    simpl. unfold CloseConnection. simpl.
    destruct (negb (_network_server (globals w)) && _networking (globals w));
      simpl; exact Hw.
  - simpl. split; [exact Hw|]. split; [exact Hpend|]. intros _. auto.
Qed.

Lemma Send_Packets_sends_a_prefix_witness :
  let w := {| client := set_queue (client (server_world []))
                          [packet_A; packet_B; packet_C];
              globals := globals (server_world []);
              net := {| wire := []; send_script := [SendAccept 7; SendError 104];
                        recv_script := []; closed := false |} |} in
  Forall queued (packet_queue (client w))
  /\ Send_Packets w = (false, destroy (snd (Send_Packets w)))
  /\ wire (net (snd (Send_Packets w))) = [0; 0; 1; 10; 11]
  /\ exists sent left : list Z,
      wire (net (snd (Send_Packets w))) = wire (net w) ++ sent
      /\ pending (packet_queue (client w)) = sent ++ left
      /\ (fst (Send_Packets w) = true ->
          pending (packet_queue (client (snd (Send_Packets w)))) = left
          /\ drained_to (packet_queue (client w))
                        (packet_queue (client (snd (Send_Packets w))))
          /\ Forall queued (packet_queue (client (snd (Send_Packets w))))).
Proof.
  intros w.
  assert (Hq : Forall queued (packet_queue (client w))).
  { repeat constructor; unfold UINT16_MAX; simpl; lia. }
  split; [exact Hq|]. split; [reflexivity|]. split; [reflexivity|].
  exact (Send_Packets_sends_a_prefix w Hq).
Defined.

(* ===================================================================== *)
(** * Facts: the text helpers of settings.cpp *)
(* ===================================================================== *)

Section SettingsFacts.

Import Ascii.
Import Settings.
Import Cfg.

(** ** Hexadecimal text *)

Lemma DecodeHexNibble_hex_digit (u : bool) (v : Z) :
  0 <= v < 16 -> DecodeHexNibble (hex_digit u v) = v.
Proof.
  intros Hv.
  assert (Hcases : v = 0 \/ v = 1 \/ v = 2 \/ v = 3 \/ v = 4 \/ v = 5 \/ v = 6
                   \/ v = 7 \/ v = 8 \/ v = 9 \/ v = 10 \/ v = 11 \/ v = 12
                   \/ v = 13 \/ v = 14 \/ v = 15) by lia.
  repeat (destruct Hcases as [-> | Hcases]; [destruct u; reflexivity|]).
  subst v. destruct u; reflexivity.
Qed.

Lemma DecodeHexNibble_digit (c : Z) :
  0 <= DecodeHexNibble c ->
  0 <= DecodeHexNibble c < 16
  /\ exists u : bool, c = hex_digit u (DecodeHexNibble c).
Proof.
  unfold DecodeHexNibble, hex_digit.
  change (chr "0") with 48. change (chr "9") with 57.
  change (chr "A") with 65. change (chr "F") with 70.
  change (chr "a") with 97. change (chr "f") with 102.
  destruct (Z.geb_spec c 48), (Z.leb_spec c 57); simpl andb; cbv iota.
  1: { intros _. split; [lia|]. exists true.
       destruct (Z.ltb_spec (c - 48) 10); lia. }
  all: destruct (Z.geb_spec c 65), (Z.leb_spec c 70); simpl andb; cbv iota.
  all: try (intros _; split; [lia|]; exists true;
            destruct (Z.ltb_spec (c + 10 - 65) 10); lia).
  all: destruct (Z.geb_spec c 97), (Z.leb_spec c 102); simpl andb; cbv iota.
  all: try (intros _; split; [lia|]; exists false;
            destruct (Z.ltb_spec (c + 10 - 97) 10); lia).
  all: lia.
Qed.

Lemma nibbles_byte (b : Z) :
  0 <= b <= 255 -> to_byte (Z.lor (Z.shiftl (b / 16) 4) (b mod 16)) = b.
Proof.
  intros Hb.
  assert (Hlor : Z.lor (Z.shiftl (b / 16) 4) (b mod 16) = b).
  { apply Z.bits_inj'. intros n Hn.
    rewrite Z.lor_spec.
    destruct (Z.ltb_spec n 4).
    - rewrite Z.shiftl_spec_low by lia. simpl orb.
      change 16 with (2 ^ 4). rewrite Z.mod_pow2_bits_low by lia. reflexivity.
    - rewrite Z.shiftl_spec by lia.
      change 16 with (2 ^ 4). rewrite Z.mod_pow2_bits_high by lia.
      rewrite orb_false_r. rewrite Z.div_pow2_bits by lia.
      f_equal. lia. }
  rewrite Hlor. apply wrap_small. lia.
Qed.

Lemma DecodeHexText_loop_spells (text bs : list Z) :
  spells text bs ->
  forall (fuel : nat) (c : Z) (rest done todo : list Z),
    Forall is_byte bs -> length todo = length bs ->
    (length bs <= fuel)%nat -> Z.of_nat (length bs) < 2 ^ 64 ->
    DecodeHexText_loop fuel (text ++ c :: rest) (done ++ todo)
                       (Z.of_nat (length done)) (Z.of_nat (length bs))
    = Ok (c =? chr "|", done ++ bs).
Proof.
  induction 1 as [|u1 u2 b text bs Hsp IH];
    intros fuel c rest done todo Hbytes Htodo Hfuel Hsmall.
  - destruct todo; [|discriminate Htodo].
    destruct fuel; reflexivity.
  - destruct todo as [|t todo]; [discriminate Htodo|].
    destruct fuel as [|fuel]; [simpl in Hfuel; lia|].
    apply Forall_cons in Hbytes. destruct Hbytes as [Hb Hbytes].
    unfold is_byte in Hb.
    assert (Hhi : 0 <= b / 16 < 16) by (Z.to_euclidean_division_equations; lia).
    assert (Hlo : 0 <= b mod 16 < 16) by (Z.to_euclidean_division_equations; lia).
    cbn [DecodeHexText_loop].
    destruct (Z.gtb_spec (Z.of_nat (length (b :: bs))) 0) as [_|Hle];
      [|simpl length in Hle; lia].
    simpl negb. cbv iota.
    change ((hex_digit u1 (b / 16) :: hex_digit u2 (b mod 16) :: text) ++ c :: rest)
      with (hex_digit u1 (b / 16) :: hex_digit u2 (b mod 16) :: text ++ c :: rest).
    change (Net.load (hex_digit u1 (b / 16) :: hex_digit u2 (b mod 16)
                        :: text ++ c :: rest) 0)
      with (Ok (A := Z) (hex_digit u1 (b / 16))).
    cbn [bind]. rewrite (DecodeHexNibble_hex_digit u1) by exact Hhi.
    destruct (Z.geb_spec (b / 16) 0) as [_|]; [|lia].
    change (Net.load (hex_digit u1 (b / 16) :: hex_digit u2 (b mod 16)
                        :: text ++ c :: rest) 1)
      with (Ok (A := Z) (hex_digit u2 (b mod 16))).
    cbn [bind]. rewrite (DecodeHexNibble_hex_digit u2) by exact Hlo.
    destruct (Z.ltb_spec (b mod 16) 0) as [|_]; [lia|].
    rewrite nibbles_byte by lia.
    rewrite (store_app done todo t b) by reflexivity. cbn [bind].
    change (drop 2 (hex_digit u1 (b / 16) :: hex_digit u2 (b mod 16)
                      :: text ++ c :: rest))
      with (text ++ c :: rest).
    replace (to_size_t (Z.of_nat (length (b :: bs)) - 1))
      with (Z.of_nat (length bs))
      by (rewrite to_size_t_small; simpl length in *; lia).
    replace (done ++ b :: todo) with ((done ++ [b]) ++ todo)
      by (rewrite <- app_assoc; reflexivity).
    replace (Z.of_nat (length done) + 1) with (Z.of_nat (length (done ++ [b])))
      by (rewrite length_app; simpl; lia).
    rewrite IH.
    + rewrite <- app_assoc. reflexivity.
    + exact Hbytes.
    + simpl in Htodo. lia.
    + simpl in Hfuel. lia.
    + simpl length in Hsmall. lia.
Qed.

Lemma spells_length (text bs : list Z) :
  spells text bs -> length text = (2 * length bs)%nat.
Proof. induction 1; simpl; lia. Qed.

Lemma spells_hex_text (bs : list Z) : spells (hex_text bs) bs.
Proof.
  induction bs as [|b bs IH]; [constructor|].
  unfold hex_text. simpl. constructor. exact IH.
Qed.

Lemma byte_of_nibbles (hi lo : Z) :
  0 <= hi < 16 -> 0 <= lo < 16 ->
  let b := to_byte (Z.lor (Z.shiftl hi 4) lo) in
  0 <= b <= 255 /\ b / 16 = hi /\ b mod 16 = lo.
Proof.
  intros Hhi Hlo.
  pose proof (nibbles_byte (16 * hi + lo) ltac:(lia)) as Hb.
  replace ((16 * hi + lo) / 16) with hi in Hb
    by (Z.to_euclidean_division_equations; lia).
  replace ((16 * hi + lo) mod 16) with lo in Hb
    by (Z.to_euclidean_division_equations; lia).
  simpl. rewrite Hb.
  split; [lia|]. split; Z.to_euclidean_division_equations; lia.
Qed.

Lemma DecodeHexNibble_NUL : DecodeHexNibble 0 = -1.
Proof. reflexivity. Qed.

Lemma DecodeHexText_loop_terminated (n : nat) :
  forall s junk done todo : list Z,
    length todo = n -> Z.of_nat n < 2 ^ 64 ->
    exists (ok : bool) (dest' : list Z),
      DecodeHexText_loop n (s ++ 0 :: junk) (done ++ todo)
                         (Z.of_nat (length done)) (Z.of_nat n)
      = Ok (ok, dest')
      /\ length dest' = length (done ++ todo)
      /\ (ok = true ->
          exists text bs rest : list Z,
            s = text ++ chr "|" :: rest /\ spells text bs
            /\ Forall is_byte bs /\ length bs = n /\ dest' = done ++ bs).
Proof.
  induction n as [|n IH]; intros s junk done todo Htodo Hsmall.
  - destruct todo; [|discriminate Htodo].
    destruct s as [|a s].
    + exists false, (done ++ []). split; [reflexivity|].
      split; [reflexivity | discriminate].
    + exists (a =? chr "|"), (done ++ []). split; [reflexivity|].
      split; [reflexivity|]. intros Ha. apply Z.eqb_eq in Ha. subst a.
      exists [], [], s. repeat split; constructor.
  - destruct todo as [|t todo]; [discriminate Htodo|].
    injection Htodo as Htodo.
    cbn [DecodeHexText_loop].
    destruct (Z.gtb_spec (Z.of_nat (S n)) 0) as [_|Hle]; [|lia].
    simpl negb. cbv iota.
    assert (Hfalse : forall r : result (bool * list Z),
               r = Ok (false, done ++ t :: todo) ->
               exists (ok : bool) (dest' : list Z),
                 r = Ok (ok, dest')
                 /\ length dest' = length (done ++ t :: todo)
                 /\ (ok = true ->
                     exists text bs rest : list Z,
                       s = text ++ chr "|" :: rest /\ spells text bs
                       /\ Forall is_byte bs /\ length bs = S n
                       /\ dest' = done ++ bs)).
    { intros r ->. exists false, (done ++ t :: todo).
      split; [reflexivity|]. split; [reflexivity | discriminate]. }
    destruct s as [|a [|b s]].
    + apply Hfalse. reflexivity.
    + apply Hfalse.
      change (Net.load ([a] ++ 0 :: junk) 0) with (Ok (A := Z) a). cbn [bind].
      destruct (DecodeHexNibble a >=? 0); [|reflexivity].
      change (Net.load ([a] ++ 0 :: junk) 1) with (Ok (A := Z) 0). cbn [bind].
      rewrite DecodeHexNibble_NUL. reflexivity.
    + change (Net.load ((a :: b :: s) ++ 0 :: junk) 0) with (Ok (A := Z) a).
      cbn [bind].
      destruct (Z.geb_spec (DecodeHexNibble a) 0) as [Ha|Ha];
        [|apply Hfalse; reflexivity].
      change (Net.load ((a :: b :: s) ++ 0 :: junk) 1) with (Ok (A := Z) b).
      cbn [bind].
      destruct (Z.ltb_spec (DecodeHexNibble b) 0) as [Hb|Hb];
        [apply Hfalse; reflexivity|].
      destruct (DecodeHexNibble_digit a ltac:(lia)) as (Hra & ua & Hua).
      destruct (DecodeHexNibble_digit b ltac:(lia)) as (Hrb & ub & Hub).
      destruct (byte_of_nibbles _ _ Hra Hrb) as (Hbyte & Hdiv & Hmod).
      set (byte := to_byte (Z.lor (Z.shiftl (DecodeHexNibble a) 4)
                                  (DecodeHexNibble b))) in *.
      rewrite (store_app done todo t byte) by reflexivity. cbn [bind].
      change (drop 2 ((a :: b :: s) ++ 0 :: junk)) with (s ++ 0 :: junk).
      replace (to_size_t (Z.of_nat (S n) - 1)) with (Z.of_nat n)
        by (rewrite to_size_t_small; lia).
      replace (done ++ byte :: todo) with ((done ++ [byte]) ++ todo)
        by (rewrite <- app_assoc; reflexivity).
      replace (Z.of_nat (length done) + 1)
        with (Z.of_nat (length (done ++ [byte])))
        by (rewrite length_app; simpl; lia).
      destruct (IH s junk (done ++ [byte]) todo Htodo ltac:(lia))
        as (ok & dest' & Hrun & Hlen & Hok).
      exists ok, dest'. split; [exact Hrun|].
      split.
      { rewrite Hlen. rewrite !length_app. simpl. lia. }
      intros Htrue. destruct (Hok Htrue) as (text & bs & rest & -> & Hsp & Hbs & Hn & ->).
      exists (a :: b :: text), (byte :: bs), rest.
      split; [reflexivity|].
      split.
      { pose proof (spells_cons ua ub byte text bs Hsp) as Hcons.
        rewrite Hdiv, Hmod in Hcons. rewrite <- Hua, <- Hub in Hcons.
        exact Hcons. }
      split; [constructor; [exact Hbyte | exact Hbs]|].
      split; [simpl; lia|].
      rewrite <- app_assoc. reflexivity.
Qed.

Lemma DecodeHexText_spells (text bs dest rest : list Z) (c : Z) :
  spells text bs -> Forall is_byte bs -> length dest = length bs ->
  Z.of_nat (length bs) < 2 ^ 64 ->
  DecodeHexText (text ++ c :: rest) dest (Z.of_nat (length bs))
  = Ok (c =? chr "|", bs).
Proof.
  intros Hsp Hbs Hlen Hsmall. unfold DecodeHexText. rewrite Nat2Z.id.
  apply (DecodeHexText_loop_spells text bs Hsp (length bs) c rest [] dest);
    auto.
Qed.

(** X17.  [DecodeHexText] reads back bytes that are spelled with two
    hexadecimal digits each, capitals or not: it returns [true] exactly when
    a bar follows the digits, and the array holds the bytes.  The two fields
    in front of the file name of a NewGRF item (the id and the checksum,
    each followed by a bar) are read one after the other by [DecodeHexText]
    at the start and [DecodeHexText] behind the first field and its bar; what
    is left behind the second bar is the file name. *)
Theorem DecodeHexText_reads_hex
        (text bs dest text2 bs2 dest2 name : list Z) (c : Z) :
  spells text bs -> Forall is_byte bs -> length dest = length bs ->
  spells text2 bs2 -> Forall is_byte bs2 -> length dest2 = length bs2 ->
  Z.of_nat (length bs) < 2 ^ 64 -> Z.of_nat (length bs2) < 2 ^ 64 ->
  DecodeHexText (text ++ c :: name) dest (Z.of_nat (length bs))
  = Ok (bool_decide (c = chr "|"), bs)
  /\ DecodeHexText (hex_text bs ++ chr "|" :: name) dest (Z.of_nat (length bs))
     = Ok (true, bs)
  /\ let item := text ++ chr "|" :: text2 ++ chr "|" :: name in
     let item2 := drop (1 + 2 * length bs) item in
     DecodeHexText item dest (Z.of_nat (length bs)) = Ok (true, bs)
     /\ DecodeHexText item2 dest2 (Z.of_nat (length bs2)) = Ok (true, bs2)
     /\ drop (1 + 2 * length bs2) item2 = name.
Proof.
  intros Hsp Hbs Hlen Hsp2 Hbs2 Hlen2 Hsmall Hsmall2.
  split.
  { rewrite (DecodeHexText_spells text bs dest name c) by assumption.
    f_equal. f_equal. destruct (Z.eqb_spec c (chr "|")) as [->|Hne].
    - rewrite bool_decide_true; reflexivity.
    - rewrite bool_decide_false; [reflexivity | exact Hne]. }
  split.
  { apply (DecodeHexText_spells (hex_text bs) bs dest name (chr "|"));
      auto using spells_hex_text. }
  intros item item2.
  assert (Hitem2 : item2 = text2 ++ chr "|" :: name).
  { unfold item2, item.
    replace (1 + 2 * length bs)%nat with (length (text ++ [chr "|"]))
      by (rewrite length_app, (spells_length text bs Hsp); simpl; lia).
    replace (text ++ chr "|" :: text2 ++ chr "|" :: name)
      with ((text ++ [chr "|"]) ++ text2 ++ chr "|" :: name)
      by (rewrite <- app_assoc; reflexivity).
    apply drop_app_length. }
  split.
  { apply (DecodeHexText_spells text bs dest _ (chr "|")); assumption. }
  split.
  { rewrite Hitem2.
    apply (DecodeHexText_spells text2 bs2 dest2 name (chr "|")); assumption. }
  rewrite Hitem2.
  replace (1 + 2 * length bs2)%nat with (length (text2 ++ [chr "|"]))
    by (rewrite length_app, (spells_length text2 bs2 Hsp2); simpl; lia).
  replace (text2 ++ chr "|" :: name) with ((text2 ++ [chr "|"]) ++ name)
    by (rewrite <- app_assoc; reflexivity).
  apply drop_app_length.
Qed.

Lemma DecodeHexText_reads_hex_witness :
  let id := [0x4D; 0x47; 0x08; 0xFF] in
  let md5 := [0xDE; 0xAD; 0xBE; 0xEF] in
  let id_text := [chr "4"; chr "D"; chr "4"; chr "7"; chr "0"; chr "8";
                  chr "f"; chr "F"] in
  let name := [chr "a"; chr "."; chr "g"; chr "r"; chr "f"; 0] in
  hex_text id = [chr "4"; chr "D"; chr "4"; chr "7"; chr "0"; chr "8";
                 chr "F"; chr "F"]
  /\ DecodeHexText (id_text ++ chr "|" :: name) [0; 0; 0; 0] 4 = Ok (true, id)
  /\ DecodeHexText (id_text ++ chr "/" :: name) [0; 0; 0; 0] 4 = Ok (false, id)
  /\ DecodeHexText (drop 9 (id_text ++ chr "|" :: hex_text md5 ++ chr "|" :: name))
                   [1; 2; 3; 4] 4
     = Ok (true, md5).
Proof.
  intros id md5 id_text name.
  assert (Hsp : spells id_text id).
  { apply (spells_cons true true 0x4D). apply (spells_cons true true 0x47).
    apply (spells_cons true true 0x08). apply (spells_cons false true 0xFF).
    constructor. }
  assert (Hid : Forall is_byte id) by (repeat constructor; unfold is_byte; lia).
  assert (Hmd : Forall is_byte md5) by (repeat constructor; unfold is_byte; lia).
  assert (Hs : Z.of_nat 4 < 2 ^ 64) by lia.
  split; [reflexivity|].
  destruct (DecodeHexText_reads_hex id_text id [0; 0; 0; 0]
              (hex_text md5) md5 [1; 2; 3; 4] name (chr "|")
              Hsp Hid eq_refl (spells_hex_text md5) Hmd eq_refl Hs Hs)
    as (H1 & _ & H3).
  destruct H3 as (_ & H4 & _).
  split; [exact H1|].
  split.
  { exact (proj1 (DecodeHexText_reads_hex id_text id [0; 0; 0; 0]
              (hex_text md5) md5 [1; 2; 3; 4] name (chr "/")
              Hsp Hid eq_refl (spells_hex_text md5) Hmd eq_refl Hs Hs)). }
  exact H4.
Defined.

(** X18.  On a text that ends in a NUL [DecodeHexText] always returns: it
    reads no character behind the NUL, whatever the text holds and however
    short it is, and it writes inside the array only.  It returns [true]
    only for a text that starts with two hexadecimal digits for every byte
    of the array, followed by a bar; the array then holds the bytes that
    the digits spell. *)
Theorem DecodeHexText_accepts_only_hex (s junk dest : list Z) :
  Z.of_nat (length dest) < 2 ^ 64 ->
  exists (ok : bool) (dest' : list Z),
    DecodeHexText (s ++ 0 :: junk) dest (Z.of_nat (length dest)) = Ok (ok, dest')
    /\ length dest' = length dest
    /\ (ok = true ->
        exists text bs rest : list Z,
          s = text ++ chr "|" :: rest /\ spells text bs
          /\ Forall is_byte bs /\ length bs = length dest /\ dest' = bs)
    /\ ((exists text bs rest : list Z,
            s = text ++ chr "|" :: rest /\ spells text bs
            /\ Forall is_byte bs /\ length bs = length dest) ->
        ok = true).
Proof.
  intros Hsmall.
  destruct (DecodeHexText_loop_terminated (length dest) s junk [] dest
              eq_refl Hsmall) as (ok & dest' & Hrun & Hlen & Hok).
  exists ok, dest'. unfold DecodeHexText. rewrite Nat2Z.id.
  split; [exact Hrun|]. split; [exact Hlen|]. split; [exact Hok|].
  intros (text & bs & rest & -> & Hsp & Hbs & Hn).
  pose proof (DecodeHexText_loop_spells text bs Hsp (length dest) (chr "|")
                (rest ++ 0 :: junk) [] dest Hbs (eq_sym Hn) ltac:(lia)
                ltac:(lia)) as Hrun'.
  rewrite Hn in Hrun'.
  replace ((text ++ chr "|" :: rest) ++ 0 :: junk)
    with (text ++ chr "|" :: rest ++ 0 :: junk) in Hrun
    by (rewrite <- app_assoc; reflexivity).
  simpl app in Hrun, Hrun'. simpl length in Hrun, Hrun'.
  rewrite Hrun' in Hrun. injection Hrun as <- _. reflexivity.
Qed.

Lemma DecodeHexText_accepts_only_hex_witness :
  Z.of_nat (length [7; 7]) < 2 ^ 64
  /\ DecodeHexText ([chr "1"; chr "2"; chr "3"] ++ 0 :: []) [7; 7] 2
     = Ok (false, [0x12; 7])
  /\ exists (ok : bool) (dest' : list Z),
      DecodeHexText ([chr "1"; chr "2"; chr "3"] ++ 0 :: []) [7; 7]
                    (Z.of_nat (length [7; 7])) = Ok (ok, dest')
      /\ length dest' = length [7; 7]
      /\ (ok = true ->
          exists text bs rest : list Z,
            [chr "1"; chr "2"; chr "3"] = text ++ chr "|" :: rest
            /\ spells text bs
            /\ Forall is_byte bs /\ length bs = length [7; 7] /\ dest' = bs)
      /\ ((exists text bs rest : list Z,
              [chr "1"; chr "2"; chr "3"] = text ++ chr "|" :: rest
              /\ spells text bs
              /\ Forall is_byte bs /\ length bs = length [7; 7]) ->
          ok = true).
Proof.
  assert (Hs : Z.of_nat (length [7; 7]) < 2 ^ 64) by (simpl; lia).
  split; [exact Hs|]. split; [reflexivity|].
  exact (DecodeHexText_accepts_only_hex [chr "1"; chr "2"; chr "3"] [] [7; 7] Hs).
Defined.

(** ** Lists of names *)

Lemma item_end_name (name rest : list Z) (c : Z) :
  is_name name -> c = 0 \/ c = chr "|" ->
  item_end (name ++ c :: rest) = Ok (Z.of_nat (length name)).
Proof.
  intros Hname Hc. induction Hname as [|a name [Ha0 Hab] _ IH].
  - simpl. destruct Hc as [-> | ->]; reflexivity.
  - cbn [app item_end].
    destruct (Z.eqb_spec a (chr "|")); [contradiction|].
    destruct (Z.eqb_spec a 0); [contradiction|].
    simpl andb. cbv iota. rewrite IH. cbn [bind]. f_equal.
    simpl length. lia.
Qed.

Lemma memcmp_equal_names (w tail name rest : list Z) :
  length w = length name ->
  memcmp_equal (w ++ tail) (name ++ rest) (Z.of_nat (length w))
  = Ok (bool_decide (w = name)).
Proof.
  intros Hlen. unfold memcmp_equal. rewrite !length_app.
  destruct (Z.ltb_spec (Z.of_nat (length w + length tail)) (Z.of_nat (length w)));
    [lia|].
  destruct (Z.ltb_spec (Z.of_nat (length name + length rest))
                       (Z.of_nat (length w))); [lia|].
  simpl orb. cbv iota. rewrite Nat2Z.id.
  rewrite take_app_length. rewrite Hlen. rewrite take_app_length.
  reflexivity.
Qed.

Lemma LookupOneOfMany_loop_first (w tail junk : list Z) (names : list (list Z)) :
  forall (name : list Z) (fuel : nat) (idx : Z),
    is_name name -> Forall is_name names ->
    (length names < fuel)%nat ->
    0 <= idx -> idx + Z.of_nat (length names) < 2 ^ 64 - 1 ->
    LookupOneOfMany_loop fuel (bar_list name names ++ junk) (w ++ tail)
                         (Z.of_nat (length w)) idx
    = Ok (match first_index w (name :: names) with
          | Some i => idx + Z.of_nat i
          | None => SIZE_MAX
          end).
Proof.
  induction names as [|n ns IH]; intros name fuel idx Hname Hnames Hfuel Hidx Hmax;
    (destruct fuel as [|fuel]; [simpl in Hfuel; lia|]).
  - cbn [LookupOneOfMany_loop].
    change (bar_list name []) with (name ++ [0]).
    rewrite <- app_assoc. cbn [app].
    rewrite item_end_name by auto. cbn [bind]. rewrite Nat2Z.id.
    rewrite drop_app_length.
    assert (Hfound : (if Z.of_nat (length name) =? Z.of_nat (length w)
                      then memcmp_equal (w ++ tail) (name ++ 0 :: junk)
                                        (Z.of_nat (length w))
                      else Ok false) = Ok (bool_decide (w = name))).
    { destruct (Z.eqb_spec (Z.of_nat (length name)) (Z.of_nat (length w))) as [E|E].
      - apply memcmp_equal_names. lia.
      - rewrite bool_decide_false; [reflexivity|]. intros ->. lia. }
    rewrite Hfound. cbn [bind first_index].
    destruct (bool_decide (w = name)).
    + f_equal. simpl. lia.
    + reflexivity.
  - cbn [LookupOneOfMany_loop].
    change (bar_list name (n :: ns)) with (name ++ chr "|" :: bar_list n ns).
    rewrite <- app_assoc. cbn [app].
    rewrite item_end_name by auto. cbn [bind]. rewrite Nat2Z.id.
    rewrite drop_app_length.
    assert (Hfound : (if Z.of_nat (length name) =? Z.of_nat (length w)
                      then memcmp_equal (w ++ tail)
                             (name ++ chr "|" :: bar_list n ns ++ junk)
                             (Z.of_nat (length w))
                      else Ok false) = Ok (bool_decide (w = name))).
    { destruct (Z.eqb_spec (Z.of_nat (length name)) (Z.of_nat (length w))) as [E|E].
      - apply memcmp_equal_names. lia.
      - rewrite bool_decide_false; [reflexivity|]. intros ->. lia. }
    rewrite Hfound. cbn [bind].
    change (first_index w (name :: n :: ns))
      with (if bool_decide (w = name) then Some 0%nat
            else option_map S (first_index w (n :: ns))).
    destruct (bool_decide (w = name)).
    + f_equal. simpl. lia.
    + change (Net.load (chr "|" :: bar_list n ns ++ junk) 0)
        with (Ok (A := Z) (chr "|")).
      cbn [bind]. change (chr "|" =? 0) with false. cbv iota.
      change (drop 1 (chr "|" :: bar_list n ns ++ junk))
        with (bar_list n ns ++ junk).
      apply Forall_cons in Hnames. destruct Hnames as [Hn Hns].
      simpl length in Hmax, Hfuel.
      rewrite to_size_t_small by lia.
      rewrite (IH n fuel (idx + 1)) by (auto; lia).
      destruct (first_index w (n :: ns)) as [i|]; simpl option_map; cbv iota.
      * f_equal. lia.
      * reflexivity.
Qed.

Lemma strlen_name (w tail : list Z) :
  nul_free w -> strlen (w ++ 0 :: tail) = Ok (Z.of_nat (length w)).
Proof.
  intros Hw. induction Hw as [|a w Ha _ IH]; [reflexivity|].
  cbn [app strlen]. destruct (Z.eqb_spec a 0); [contradiction|].
  rewrite IH. cbn [bind]. f_equal. simpl length. lia.
Qed.

Lemma first_index_spec (w : list Z) (l : list (list Z)) :
  match first_index w l with
  | Some i => l !! i = Some w /\ forall j, (j < i)%nat -> l !! j <> Some w
  | None => ~ In w l
  end.
Proof.
  induction l as [|y l IH]; simpl; [auto|].
  destruct (decide (w = y)) as [->|Hne].
  - rewrite bool_decide_true by reflexivity. split; [reflexivity|]. lia.
  - rewrite bool_decide_false by exact Hne.
    destruct (first_index w l) as [i|]; simpl.
    + destruct IH as [Hi Hbefore]. split; [exact Hi|].
      intros [|j] Hj; simpl; [congruence|]. apply Hbefore. lia.
    + intros [E | Hin]; [congruence | contradiction].
Qed.

Lemma length_bar_list (name : list Z) (names : list (list Z)) :
  (length names < length (bar_list name names))%nat.
Proof.
  revert name. induction names as [|n ns IH]; intros name.
  - simpl. rewrite length_app. simpl. lia.
  - simpl. rewrite length_app. simpl. specialize (IH n). lia.
Qed.

Lemma load_head (c : Z) (l : list Z) : Net.load (c :: l) 0 = Ok c.
Proof. reflexivity. Qed.

Lemma head_not_digit (w tail : list Z) (c : Z) :
  starts_with_digit w = false -> Net.load (w ++ 0 :: tail) 0 = Ok c ->
  (c >=? chr "0") && (c <=? chr "9") = false.
Proof.
  destruct w as [|a w]; simpl app; rewrite load_head; intros Hd [= <-].
  - reflexivity.
  - exact Hd.
Qed.

Lemma LookupOneOfMany_run
      (strtoul : list Z -> Z * Z)
      (name : list Z) (names : list (list Z)) (junk w tail : list Z) :
  is_name name -> Forall is_name names -> nul_free w ->
  Z.of_nat (length names) < 2 ^ 64 - 1 ->
  let many := bar_list name names ++ junk in
  starts_with_digit w = false ->
  LookupOneOfMany strtoul many (w ++ 0 :: tail) 0
  = Ok (match first_index w (name :: names) with
        | Some i => 0 + Z.of_nat i
        | None => SIZE_MAX
        end)
  /\ (w <> [] ->
      forall tail' : list Z,
        LookupOneOfMany strtoul many (w ++ tail') (Z.of_nat (length w))
        = Ok (match first_index w (name :: names) with
              | Some i => 0 + Z.of_nat i
              | None => SIZE_MAX
              end)).
Proof.
  intros Hname Hnames Hw Hmax many.
  intros Hd. split.
  - unfold LookupOneOfMany. change (0 =? 0) with true. cbv iota.
    rewrite strlen_name by exact Hw. cbn [bind].
    destruct (Net.load (w ++ 0 :: tail) 0) as [c|] eqn:Hc;
      [|destruct w; discriminate Hc].
    cbn [bind]. rewrite (head_not_digit w tail c Hd Hc).
    apply LookupOneOfMany_loop_first; auto; try lia.
    unfold many. rewrite length_app.
    pose proof (length_bar_list name names). lia.
  - intros Hne tail'. unfold LookupOneOfMany.
    destruct w as [|a w']; [contradiction|].
    destruct (Z.eqb_spec (Z.of_nat (length (a :: w'))) 0) as [E|_];
      [simpl in E; lia|].
    cbn [bind]. change (Net.load ((a :: w') ++ tail') 0) with (Ok (A := Z) a).
    cbn [bind]. simpl in Hd. rewrite Hd.
    apply LookupOneOfMany_loop_first; auto; try lia.
    unfold many. rewrite length_app.
    pose proof (length_bar_list name names). lia.
Qed.

(** X19.  [LookupOneOfMany] on a list of names with bars between them, for
    a word that does not start with a decimal digit: it returns the place of
    the first name of the list that is the word, counted from 0, and
    [(size_t)-1] when no name of the list is the word; a name that only
    starts with the word, or with which the word only starts, does not count.
    The word is taken up to its NUL, or for as many characters as the caller
    says.  A word that starts with a digit is not looked up at all: the
    result is what [strtoul] makes of it. *)
Theorem LookupOneOfMany_finds_first
        (strtoul : list Z -> Z * Z)
        (name : list Z) (names : list (list Z)) (junk w tail : list Z) :
  is_name name -> Forall is_name names -> nul_free w ->
  Z.of_nat (length names) < 2 ^ 64 - 1 ->
  let many := bar_list name names ++ junk in
  (starts_with_digit w = false ->
   (forall i : nat,
       (name :: names) !! i = Some w ->
       (forall j : nat, (j < i)%nat -> (name :: names) !! j <> Some w) ->
       LookupOneOfMany strtoul many (w ++ 0 :: tail) 0 = Ok (Z.of_nat i)
       /\ (w <> [] ->
           forall tail' : list Z,
             LookupOneOfMany strtoul many (w ++ tail') (Z.of_nat (length w))
             = Ok (Z.of_nat i)))
   /\ (~ In w (name :: names) ->
       LookupOneOfMany strtoul many (w ++ 0 :: tail) 0 = Ok SIZE_MAX
       /\ (w <> [] ->
           forall tail' : list Z,
             LookupOneOfMany strtoul many (w ++ tail') (Z.of_nat (length w))
             = Ok SIZE_MAX)))
  /\ (starts_with_digit w = true ->
      LookupOneOfMany strtoul many (w ++ 0 :: tail) 0
      = Ok (to_size_t (fst (strtoul (w ++ 0 :: tail))))).
Proof.
  intros Hname Hnames Hw Hmax many.
  pose proof (LookupOneOfMany_run strtoul name names junk w tail
                Hname Hnames Hw Hmax) as Hrun. fold many in Hrun.
  split.
  - intros Hd. destruct (Hrun Hd) as [Hnul Hlen].
    pose proof (first_index_spec w (name :: names)) as Hfirst.
    split.
    + intros i Hi Hbefore.
      destruct (first_index w (name :: names)) as [k|].
      * destruct Hfirst as [Hk Hkb].
        assert (k = i).
        { destruct (Nat.lt_trichotomy k i) as [Hlt | [E | Hgt]]; [|exact E|].
          - exfalso. exact (Hbefore k Hlt Hk).
          - exfalso. exact (Hkb i Hgt Hi). }
        subst k. split; [exact Hnul | exact Hlen].
      * exfalso. apply Hfirst. apply (list_elem_of_In (name :: names) w).
        apply (list_elem_of_lookup_2 _ i). exact Hi.
    + intros Hnot.
      destruct (first_index w (name :: names)) as [k|].
      * destruct Hfirst as [Hk _]. exfalso. apply Hnot.
        apply (list_elem_of_In (name :: names) w).
        apply (list_elem_of_lookup_2 _ k). exact Hk.
      * split; [exact Hnul | exact Hlen].
  - intros Hd. unfold LookupOneOfMany. change (0 =? 0) with true. cbv iota.
    rewrite strlen_name by exact Hw. cbn [bind].
    destruct w as [|a w']; [discriminate Hd|].
    change (Net.load ((a :: w') ++ 0 :: tail) 0) with (Ok (A := Z) a).
    cbn [bind]. simpl in Hd. rewrite Hd. reflexivity.
Qed.

Lemma LookupOneOfMany_finds_first_witness :
  let strtoul := fun _ : list Z => (0, 0) in
  let off := [chr "o"; chr "f"; chr "f"] in
  let on := [chr "o"; chr "n"] in
  let many := bar_list off [on; off] ++ [] in
  many = [chr "o"; chr "f"; chr "f"; chr "|"; chr "o"; chr "n"; chr "|";
          chr "o"; chr "f"; chr "f"; 0]
  /\ LookupOneOfMany strtoul many (on ++ 0 :: []) 0 = Ok 1
  /\ LookupOneOfMany strtoul many (off ++ 0 :: []) 0 = Ok 0
  /\ LookupOneOfMany strtoul many ([chr "o"] ++ 0 :: []) 0 = Ok SIZE_MAX
  /\ LookupOneOfMany strtoul many (on ++ [chr " "; chr "x"; 0]) (Z.of_nat 2) = Ok 1.
Proof.
  intros strtoul off on many.
  assert (Hoff : is_name off) by (repeat constructor; discriminate).
  assert (Hon : is_name on) by (repeat constructor; discriminate).
  assert (Hnames : Forall is_name [on; off]) by (repeat constructor; discriminate).
  assert (Hmax : Z.of_nat (length [on; off]) < 2 ^ 64 - 1) by (simpl; lia).
  assert (Hw : forall w, is_name w -> nul_free w).
  { intros w H. unfold nul_free. eapply Forall_impl; [exact H|].
    intros c [Hc _]. exact Hc. }
  split; [reflexivity|].
  destruct (LookupOneOfMany_finds_first strtoul off [on; off] [] on []
              Hoff Hnames (Hw on Hon) Hmax) as [Hlook _].
  destruct (Hlook eq_refl) as [Hfound _].
  assert (Hbefore : forall j : nat, (j < 1)%nat -> (off :: [on; off]) !! j <> Some on).
  { intros [|j] Hj; [discriminate | lia]. }
  destruct (Hfound 1%nat eq_refl Hbefore) as [H1 H1'].
  split; [exact H1|].
  split; [reflexivity|]. split; [reflexivity|].
  apply H1'. discriminate.
Defined.

(** ** [MakeOneOfMany] *)

Lemma next_item_name (name rest : list Z) :
  is_name name ->
  next_item (name ++ chr "|" :: rest) = Ok (Some rest)
  /\ next_item (name ++ 0 :: rest) = Ok None.
Proof.
  intros Hname. induction Hname as [|a name [Ha0 Hab] _ IH].
  - split; reflexivity.
  - cbn [app next_item].
    destruct (Z.eqb_spec a (chr "|")); [contradiction|].
    destruct (Z.eqb_spec a 0); [contradiction|].
    simpl negb. cbv iota. exact IH.
Qed.

Lemma MakeOneOfMany_seek_names (junk : list Z) (k : nat) :
  forall (name : list Z) (names : list (list Z)) (fuel : nat),
    is_name name -> Forall is_name names -> (k <= fuel)%nat ->
    MakeOneOfMany_seek fuel (bar_list name names ++ junk) (Z.of_nat k)
    = Ok (match drop k (name :: names) with
          | [] => None
          | n :: ns => Some (bar_list n ns ++ junk)
          end).
Proof.
  induction k as [|k IH]; intros name names fuel Hname Hnames Hfuel.
  - destruct fuel; reflexivity.
  - destruct fuel as [|fuel]; [lia|].
    cbn [MakeOneOfMany_seek].
    destruct (Z.geb_spec (Z.of_nat (S k) - 1) 0) as [_|]; [|lia].
    simpl negb. cbv iota.
    destruct names as [|n ns].
    + change (bar_list name []) with (name ++ [0]).
      rewrite <- app_assoc. cbn [app].
      rewrite (proj2 (next_item_name name junk Hname)). cbn [bind].
      destruct k; reflexivity.
    + change (bar_list name (n :: ns)) with (name ++ chr "|" :: bar_list n ns).
      rewrite <- app_assoc. cbn [app].
      rewrite (proj1 (next_item_name name (bar_list n ns ++ junk) Hname)).
      cbn [bind].
      apply Forall_cons in Hnames. destruct Hnames as [Hn Hns].
      replace (Z.of_nat (S k) - 1) with (Z.of_nat k) by lia.
      rewrite (IH n ns fuel) by (auto; lia). reflexivity.
Qed.

Lemma MakeOneOfMany_copy_name (name : list Z) :
  forall (rest pre old : list Z) (c last : Z),
    is_name name -> c = 0 \/ c = chr "|" ->
    Z.of_nat (length pre) <= last <= Z.of_nat (length (pre ++ old)) ->
    let k := Nat.min (length name) (Z.to_nat (last - Z.of_nat (length pre))) in
    MakeOneOfMany_copy (name ++ c :: rest) (pre ++ old)
                       (Z.of_nat (length pre)) last
    = Ok (pre ++ take k name ++ drop k old, Z.of_nat (length pre) + Z.of_nat k).
Proof.
  induction name as [|a name IH]; intros rest pre old c last Hname Hc Hlast k.
  - cbn [app MakeOneOfMany_copy].
    assert (Hstop : negb (c =? 0) && negb (c =? chr "|") = false)
      by (destruct Hc as [-> | ->]; reflexivity).
    rewrite Hstop. simpl andb. cbv iota. unfold k. simpl. rewrite drop_0.
    f_equal. f_equal. lia.
  - apply Forall_cons in Hname. destruct Hname as [[Ha0 Hab] Hname].
    cbn [app MakeOneOfMany_copy].
    destruct (Z.eqb_spec a 0); [contradiction|].
    destruct (Z.eqb_spec a (chr "|")); [contradiction|].
    simpl negb. simpl andb.
    destruct (Z.ltb_spec (Z.of_nat (length pre)) last) as [Hlt|Hge].
    + destruct old as [|o old].
      { rewrite app_nil_r in Hlast. lia. }
      rewrite (store_app pre old o a) by reflexivity. cbn [bind].
      replace (pre ++ a :: old) with ((pre ++ [a]) ++ old)
        by (rewrite <- app_assoc; reflexivity).
      replace (Z.of_nat (length pre) + 1) with (Z.of_nat (length (pre ++ [a])))
        by (rewrite length_app; simpl; lia).
      rewrite (IH rest (pre ++ [a]) old c last Hname Hc).
      2: { rewrite !length_app in *. simpl in *. lia. }
      assert (Hk : k = S (Nat.min (length name)
                            (Z.to_nat (last - Z.of_nat (length (pre ++ [a])))))).
      { unfold k. rewrite length_app. simpl length. lia. }
      rewrite Hk. cbn [take drop]. rewrite <- app_assoc. cbn [app].
      f_equal. f_equal. rewrite length_app. simpl. lia.
    + assert (Hk : k = 0%nat) by (unfold k; lia).
      rewrite Hk. simpl. rewrite drop_0. f_equal. f_equal. lia.
Qed.

Lemma bar_list_split (name : list Z) (names : list (list Z)) :
  exists (c : Z) (rest : list Z),
    bar_list name names = name ++ c :: rest /\ (c = 0 \/ c = chr "|").
Proof.
  destruct names as [|n ns]; simpl.
  - exists 0, []. auto.
  - exists (chr "|"), (bar_list n ns). auto.
Qed.

Lemma MakeOneOfMany_copied (nm : list Z) (ns : list (list Z))
      (junk buf : list Z) (last : Z) :
  is_name nm -> 0 <= last < Z.of_nat (length buf) ->
  let k := Nat.min (length nm) (Z.to_nat last) in
  (let* '(b, i) := MakeOneOfMany_copy (bar_list nm ns ++ junk) buf 0 last in
   let* b := Net.store b i 0 in
   Ok (Copied b))
  = Ok (Copied (take k nm ++ 0 :: drop (S k) buf)).
Proof.
  intros Hnm Hlast k.
  destruct (bar_list_split nm ns) as (c & rest & -> & Hc).
  rewrite <- app_assoc. cbn [app].
  pose proof (MakeOneOfMany_copy_name nm (rest ++ junk) [] buf c last Hnm Hc)
    as Hcopy.
  cbn [app length] in Hcopy. change (Z.of_nat 0) with 0 in Hcopy.
  rewrite Z.sub_0_r in Hcopy. fold k in Hcopy.
  rewrite Hcopy by lia. cbn [bind].
  assert (Hk : (k < length buf)%nat) by (unfold k; lia).
  destruct (drop k buf) as [|o tl] eqn:Hdrop.
  { apply (f_equal (@length Z)) in Hdrop. rewrite length_drop in Hdrop.
    simpl in Hdrop. lia. }
  assert (Htl : drop (S k) buf = tl).
  { replace (S k) with (k + 1)%nat by lia. rewrite <- drop_drop, Hdrop.
    reflexivity. }
  rewrite Htl.
  rewrite (store_app (take k nm) tl o 0).
  - reflexivity.
  - rewrite length_take. unfold k. lia.
Qed.

(** X20.  [MakeOneOfMany] on a list of names with bars between them and a
    buffer in which [last] lies: for an id that counts a name of the list,
    from 0, the buffer gets this name and a NUL, cut short to what fits
    before [last], and nothing behind the NUL is touched; a negative id is
    taken for 0.  For an id behind the list the id is printed as a number
    instead.  A name that fits, that does not start with a digit and that
    does not come earlier in the list is found again at its id by
    [LookupOneOfMany] in what [MakeOneOfMany] has written. *)
Theorem MakeOneOfMany_names
        (strtoul : list Z -> Z * Z)
        (name : list Z) (names : list (list Z)) (junk buf : list Z)
        (last id : Z) :
  is_name name -> Forall is_name names ->
  0 <= last < Z.of_nat (length buf) ->
  - 2 ^ 31 < id < 2 ^ 31 ->
  Z.of_nat (length names) < 2 ^ 64 - 1 ->
  let many := bar_list name names ++ junk in
  (forall nm : list Z,
      (name :: names) !! Z.to_nat id = Some nm ->
      let k := Nat.min (length nm) (Z.to_nat last) in
      MakeOneOfMany buf last many id
      = Ok (Copied (take k nm ++ 0 :: drop (S k) buf)))
  /\ (Z.of_nat (length (name :: names)) <= id ->
      MakeOneOfMany buf last many id = Ok (Printed id))
  /\ (forall nm : list Z,
         0 <= id -> (name :: names) !! Z.to_nat id = Some nm ->
         (forall j : nat, (j < Z.to_nat id)%nat -> (name :: names) !! j <> Some nm) ->
         Z.of_nat (length nm) <= last -> starts_with_digit nm = false ->
         exists buf' : list Z,
           MakeOneOfMany buf last many id = Ok (Copied buf')
           /\ LookupOneOfMany strtoul many buf' 0 = Ok id).
Proof.
  intros Hname Hnames Hlast Hid Hmax many.
  assert (Hall : Forall is_name (name :: names)) by (constructor; assumption).
  assert (Hseek : MakeOneOfMany_seek (Z.to_nat id) many id
                  = Ok (match drop (Z.to_nat id) (name :: names) with
                        | [] => None
                        | n :: ns => Some (bar_list n ns ++ junk)
                        end)).
  { destruct (Z.ltb_spec id 0) as [Hneg|Hpos].
    - replace (Z.to_nat id) with 0%nat by lia. cbn [MakeOneOfMany_seek drop].
      destruct (Z.geb_spec (id - 1) 0); [lia|]. reflexivity.
    - rewrite <- (Z2Nat.id id) at 2 by lia.
      apply MakeOneOfMany_seek_names; auto. }
  assert (Hcopied : forall nm : list Z,
             (name :: names) !! Z.to_nat id = Some nm ->
             MakeOneOfMany buf last many id
             = Ok (Copied (take (Nat.min (length nm) (Z.to_nat last)) nm
                           ++ 0 :: drop (S (Nat.min (length nm) (Z.to_nat last)))
                                        buf))).
  { intros nm Hnm. unfold MakeOneOfMany. rewrite Hseek. cbn [bind].
    rewrite (drop_S _ _ _ Hnm).
    apply MakeOneOfMany_copied; [|exact Hlast].
    exact (Forall_lookup_1 _ _ _ _ Hall Hnm). }
  split; [exact Hcopied|].
  split.
  - intros Hbehind. unfold MakeOneOfMany. rewrite Hseek. cbn [bind].
    rewrite drop_ge by lia. reflexivity.
  - intros nm Hpos Hnm Hbefore Hfits Hdigit.
    eexists. split; [apply (Hcopied nm Hnm)|].
    replace (Nat.min (length nm) (Z.to_nat last)) with (length nm) by lia.
    rewrite firstn_all.
    assert (Hnmname : is_name nm).
    { exact (Forall_lookup_1 _ _ _ _ Hall Hnm). }
    assert (Hnf : nul_free nm).
    { unfold nul_free. eapply Forall_impl; [exact Hnmname|].
      intros c [Hc _]. exact Hc. }
    destruct (LookupOneOfMany_run strtoul name names junk nm
                (drop (S (length nm)) buf) Hname Hnames Hnf Hmax Hdigit)
      as [Hrun _].
    fold many in Hrun. rewrite Hrun.
    pose proof (first_index_spec nm (name :: names)) as Hfirst.
    destruct (first_index nm (name :: names)) as [i|].
    + destruct Hfirst as [Hi Hib].
      assert (i = Z.to_nat id).
      { destruct (Nat.lt_trichotomy i (Z.to_nat id)) as [Hlt | [E | Hgt]];
          [|exact E|].
        - exfalso. exact (Hbefore i Hlt Hi).
        - exfalso. exact (Hib (Z.to_nat id) Hgt Hnm). }
      subst i. f_equal. lia.
    + exfalso. apply Hfirst. apply (list_elem_of_In (name :: names) nm).
      apply (list_elem_of_lookup_2 _ (Z.to_nat id)). exact Hnm.
Qed.

Lemma MakeOneOfMany_names_witness :
  let strtoul := fun _ : list Z => (0, 0) in
  let off := [chr "o"; chr "f"; chr "f"] in
  let on := [chr "o"; chr "n"] in
  let many := bar_list off [on] ++ [] in
  let buf := [7; 7; 7; 7; 7] in
  MakeOneOfMany buf 4 many 1 = Ok (Copied [chr "o"; chr "n"; 0; 7; 7])
  /\ MakeOneOfMany buf 4 many (-1) = Ok (Copied [chr "o"; chr "f"; chr "f"; 0; 7])
  /\ MakeOneOfMany buf 2 many 0 = Ok (Copied [chr "o"; chr "f"; 0; 7; 7])
  /\ MakeOneOfMany buf 4 many 2 = Ok (Printed 2)
  /\ exists buf' : list Z,
      MakeOneOfMany buf 4 many 1 = Ok (Copied buf')
      /\ LookupOneOfMany strtoul many buf' 0 = Ok 1.
Proof.
  intros strtoul off on many buf.
  assert (Hoff : is_name off) by (repeat constructor; discriminate).
  assert (Hnames : Forall is_name [on]) by (repeat constructor; discriminate).
  assert (Hlast : 0 <= 4 < Z.of_nat (length buf)) by (simpl; lia).
  assert (Hid : - 2 ^ 31 < 1 < 2 ^ 31) by lia.
  assert (Hmax : Z.of_nat (length [on]) < 2 ^ 64 - 1) by (simpl; lia).
  destruct (MakeOneOfMany_names strtoul off [on] [] buf 4 1
              Hoff Hnames Hlast Hid Hmax) as (Hcopy & _ & Hback).
  split; [exact (Hcopy on eq_refl)|].
  split; [reflexivity|]. split; [reflexivity|]. split; [reflexivity|].
  apply (Hback on); [lia | reflexivity | | simpl; lia | reflexivity].
  intros [|j] Hj; [discriminate | simpl in Hj; lia].
Defined.

(** ** [LookupManyOfMany] *)

Lemma separator_not_NUL (c : Z) : is_separator c = true -> c <> 0.
Proof. intros H ->. discriminate H. Qed.

Lemma skip_separators_word (w rest : list Z) :
  is_word w -> skip_separators (w ++ rest) = Ok (w ++ rest).
Proof.
  intros [Hne Hw]. destruct w as [|a w]; [contradiction|].
  apply Forall_cons in Hw. destruct Hw as [[_ Ha] _].
  cbn [app skip_separators]. rewrite Ha. reflexivity.
Qed.

Lemma word_end_word (w rest : list Z) (c : Z) :
  Forall (fun c => c <> 0 /\ is_separator c = false) w ->
  c = 0 \/ is_separator c = true ->
  word_end (w ++ c :: rest) = Ok (Z.of_nat (length w)).
Proof.
  intros Hw Hc. induction Hw as [|a w [Ha0 Has] _ IH].
  - cbn [app word_end]. destruct Hc as [-> | Hc]; [reflexivity|].
    rewrite Hc. rewrite andb_false_r. reflexivity.
  - cbn [app word_end]. destruct (Z.eqb_spec a 0); [contradiction|].
    rewrite Has. simpl andb. cbv iota. rewrite IH. cbn [bind].
    f_equal. simpl length. lia.
Qed.

Lemma word_nul_free (w : list Z) : is_word w -> nul_free w.
Proof.
  intros [_ Hw]. unfold nul_free. eapply Forall_impl; [exact Hw|].
  intros c [Hc _]. exact Hc.
Qed.

Lemma first_index_bound (w : list Z) (l : list (list Z)) (i : nat) :
  first_index w l = Some i -> (i < length l)%nat.
Proof.
  intros Hi. pose proof (first_index_spec w l) as H. rewrite Hi in H.
  destruct H as [H _]. apply lookup_lt_Some in H. exact H.
Qed.

Lemma LookupManyOfMany_loop_spaced
      (strtoul : list Z -> Z * Z) (SetBit : Z -> Z -> Z)
      (name : list Z) (names : list (list Z)) (junk : list Z) :
  is_name name -> Forall is_name names ->
  Z.of_nat (length names) < 2 ^ 64 - 1 ->
  forall (str : list Z) (ws : list (list Z)),
    spaced str ws ->
    Forall (fun w => starts_with_digit w = false) ws ->
    forall (fuel : nat) (res : Z),
      (length str <= fuel)%nat ->
      LookupManyOfMany_loop strtoul SetBit fuel (bar_list name names ++ junk)
                            str res
      = Ok (match places (name :: names) ws with
            | Some ids =>
                fold_left (fun r i => SetBit r (to_byte (Z.of_nat i))) ids res
            | None => SIZE_MAX
            end).
Proof.
  intros Hname Hnames Hmax str ws Hsp.
  assert (Hone : forall (w : list Z) (c : Z) (rest : list Z),
             is_word w -> starts_with_digit w = false ->
             LookupOneOfMany strtoul (bar_list name names ++ junk)
                             (w ++ c :: rest) (Z.of_nat (length w))
             = Ok (match first_index w (name :: names) with
                   | Some i => Z.of_nat i
                   | None => SIZE_MAX
                   end)).
  { intros w c rest Hw Hd.
    destruct (LookupOneOfMany_run strtoul name names junk w []
                Hname Hnames (word_nul_free w Hw) Hmax Hd) as [_ Hrun].
    rewrite (Hrun (proj1 Hw) (c :: rest)).
    destruct (first_index w (name :: names)); reflexivity. }
  assert (Hbelow : forall (w : list Z) (i : nat),
             first_index w (name :: names) = Some i ->
             (Z.of_nat i =? SIZE_MAX) = false).
  { intros w i Hi. apply first_index_bound in Hi. simpl length in Hi.
    apply Z.eqb_neq. change SIZE_MAX with (2 ^ 64 - 1). lia. }
  induction Hsp as [junk' | c str ws Hc Hsp IH | w junk' Hw
                    | w c str ws Hw Hc Hsp IH];
    intros Hdigits fuel res Hfuel;
    (destruct fuel as [|fuel]; [simpl in Hfuel; try rewrite length_app in Hfuel;
                                simpl in Hfuel; lia|]).
  - reflexivity.
  - rewrite <- (IH Hdigits (S fuel) res) by (simpl in Hfuel; lia).
    cbn [LookupManyOfMany_loop skip_separators]. rewrite Hc. reflexivity.
  - apply Forall_cons in Hdigits. destruct Hdigits as [Hd _].
    cbn [LookupManyOfMany_loop].
    rewrite skip_separators_word by exact Hw. cbn [bind].
    pose proof Hw as [Hne Hchars].
    destruct w as [|a w']; [contradiction|].
    pose proof Hchars as Hchars'.
    apply Forall_cons in Hchars'. destruct Hchars' as [[Ha0 _] _].
    change (Net.load ((a :: w') ++ 0 :: junk') 0) with (Ok (A := Z) a).
    cbn [bind]. destruct (Z.eqb_spec a 0); [contradiction|].
    rewrite (word_end_word (a :: w') junk' 0 Hchars) by auto. cbn [bind].
    rewrite Nat2Z.id. rewrite drop_app_length.
    rewrite (Hone (a :: w') 0 junk' Hw Hd). cbn [bind places].
    destruct (first_index (a :: w') (name :: names)) as [i|] eqn:Hi.
    + rewrite (Hbelow _ i Hi). reflexivity.
    + reflexivity.
  - apply Forall_cons in Hdigits. destruct Hdigits as [Hd Hdigits].
    cbn [LookupManyOfMany_loop].
    rewrite skip_separators_word by exact Hw. cbn [bind].
    pose proof Hw as [Hne Hchars].
    destruct w as [|a w']; [contradiction|].
    pose proof Hchars as Hchars'.
    apply Forall_cons in Hchars'. destruct Hchars' as [[Ha0 _] _].
    change (Net.load ((a :: w') ++ c :: str) 0) with (Ok (A := Z) a).
    cbn [bind]. destruct (Z.eqb_spec a 0); [contradiction|].
    rewrite (word_end_word (a :: w') str c Hchars) by auto. cbn [bind].
    rewrite Nat2Z.id. rewrite drop_app_length.
    rewrite (Hone (a :: w') c str Hw Hd). cbn [bind places].
    destruct (first_index (a :: w') (name :: names)) as [i|] eqn:Hi.
    + rewrite (Hbelow _ i Hi). rewrite load_head. cbn [bind].
      destruct (Z.eqb_spec c 0) as [E|_];
        [exfalso; exact (separator_not_NUL c Hc E)|].
      change (drop 1 (c :: str)) with str.
      rewrite (IH Hdigits fuel) by (rewrite length_app in Hfuel; simpl in Hfuel; lia).
      destruct (places (name :: names) ws); reflexivity.
    + reflexivity.
Qed.

Lemma places_Some (all ws : list (list Z)) (ids : list nat) :
  places all ws = Some ids -> Forall2 (fun w i => all !! i = Some w) ws ids.
Proof.
  revert ids. induction ws as [|w ws IH]; intros ids; simpl.
  - intros [= <-]. constructor.
  - pose proof (first_index_spec w all) as Hfirst.
    destruct (first_index w all) as [i|]; [|discriminate].
    destruct (places all ws) as [l|]; [|discriminate].
    intros [= <-]. constructor; [exact (proj1 Hfirst) | apply IH; reflexivity].
Qed.

Lemma places_None (all ws : list (list Z)) :
  places all ws = None -> Exists (fun w => ~ In w all) ws.
Proof.
  induction ws as [|w ws IH]; simpl; [discriminate|].
  pose proof (first_index_spec w all) as Hfirst.
  destruct (first_index w all) as [i|].
  - destruct (places all ws) as [l|]; [discriminate|].
    intros _. apply Exists_cons_tl. apply IH. reflexivity.
  - intros _. apply Exists_cons_hd. exact Hfirst.
Qed.

(** X21.  [LookupManyOfMany] on a text of words, with blanks, tabs and bars
    in any number before, between and behind them, none of the words
    starting with a digit: when every word is a name of the list, the result
    is 0 with [SetBit] applied for the place of each word in turn, the place
    being the one [LookupOneOfMany] gives (the first of that name, cut to
    eight bits); when a word is no name of the list, the result is
    [(size_t)-1], whatever the other words are.  A text without words gives
    0. *)
Theorem LookupManyOfMany_sets_places
        (strtoul : list Z -> Z * Z) (SetBit : Z -> Z -> Z)
        (name : list Z) (names : list (list Z)) (junk str : list Z)
        (ws : list (list Z)) :
  is_name name -> Forall is_name names ->
  Z.of_nat (length names) < 2 ^ 64 - 1 ->
  spaced str ws -> Forall (fun w => starts_with_digit w = false) ws ->
  let many := bar_list name names ++ junk in
  (forall ids : list nat,
      places (name :: names) ws = Some ids ->
      LookupManyOfMany strtoul SetBit many str
      = Ok (fold_left (fun r i => SetBit r (to_byte (Z.of_nat i))) ids 0)
      /\ Forall2 (fun w i => (name :: names) !! i = Some w) ws ids)
  /\ (places (name :: names) ws = None ->
      LookupManyOfMany strtoul SetBit many str = Ok SIZE_MAX
      /\ Exists (fun w => ~ In w (name :: names)) ws)
  /\ (ws = [] -> LookupManyOfMany strtoul SetBit many str = Ok 0).
Proof.
  intros Hname Hnames Hmax Hsp Hdigits many.
  pose proof (LookupManyOfMany_loop_spaced strtoul SetBit name names junk
                Hname Hnames Hmax str ws Hsp Hdigits (S (length str)) 0
                ltac:(lia)) as Hrun.
  fold many in Hrun. unfold LookupManyOfMany.
  split; [|split].
  - intros ids Hids. rewrite Hids in Hrun.
    split; [exact Hrun | exact (places_Some _ _ _ Hids)].
  - intros Hnone. rewrite Hnone in Hrun.
    split; [exact Hrun | exact (places_None _ _ Hnone)].
  - intros ->. exact Hrun.
Qed.

Lemma LookupManyOfMany_sets_places_witness :
  let strtoul := fun _ : list Z => (0, 0) in
  let SetBit := fun x y : Z => Z.lor x (Z.shiftl 1 y) in
  let many := bar_list [chr "a"] [[chr "b"; chr "b"]; [chr "c"]] ++ [] in
  let str := [chr " "; chr "c"; chr "|"; 9; chr "a"; chr " "; 0] in
  LookupManyOfMany strtoul SetBit many str = Ok 5
  /\ LookupManyOfMany strtoul SetBit many [chr "c"; chr " "; chr "b"; 0]
     = Ok SIZE_MAX.
Proof.
  intros strtoul SetBit many str.
  assert (Hname : is_name [chr "a"]) by (repeat constructor; discriminate).
  assert (Hnames : Forall is_name [[chr "b"; chr "b"]; [chr "c"]])
    by (repeat constructor; discriminate).
  assert (Hmax : Z.of_nat (length [[chr "b"; chr "b"]; [chr "c"]]) < 2 ^ 64 - 1)
    by (simpl; lia).
  assert (Hword : forall c : Z,
             c <> 0 -> is_separator c = false -> is_word [c]).
  { intros c H0 Hs. split; [discriminate|]. repeat constructor; assumption. }
  assert (Hsp : spaced str [[chr "c"]; [chr "a"]]).
  { apply spaced_sep; [reflexivity|].
    apply (spaced_word [chr "c"] (chr "|"));
      [apply Hword; [discriminate | reflexivity] | reflexivity|].
    apply spaced_sep; [reflexivity|].
    apply (spaced_word [chr "a"] (chr " "));
      [apply Hword; [discriminate | reflexivity] | reflexivity|].
    apply spaced_end. }
  assert (Hdigits : Forall (fun w => starts_with_digit w = false)
                           [[chr "c"]; [chr "a"]]) by (repeat constructor).
  destruct (LookupManyOfMany_sets_places strtoul SetBit [chr "a"]
              [[chr "b"; chr "b"]; [chr "c"]] [] str [[chr "c"]; [chr "a"]]
              Hname Hnames Hmax Hsp Hdigits) as (Hall & _ & _).
  split; [exact (proj1 (Hall [2%nat; 0%nat] eq_refl))|].
  reflexivity.
Defined.

(** ** [ParseIntList] *)

Lemma strlen_cons (p : list Z) (L : Z) :
  strlen p = Ok L ->
  exists (c : Z) (tl : list Z),
    p = c :: tl /\ 0 <= L
    /\ (c = 0 /\ L = 0 \/ c <> 0 /\ strlen tl = Ok (L - 1) /\ 1 <= L).
Proof.
  revert L. induction p as [|c tl IH]; intros L; cbn [strlen]; [discriminate|].
  destruct (Z.eqb_spec c 0) as [->|Hc].
  - intros [= <-]. exists 0, tl. split; [reflexivity|]. split; [lia|]. left. auto.
  - destruct (strlen tl) as [n|] eqn:Htl; [|discriminate].
    cbn [bind]. intros [= <-]. exists c, tl. split; [reflexivity|].
    destruct (IH n eq_refl) as (c' & tl' & Htl' & Hn & Hrest).
    split; [lia|]. right. split; [exact Hc|]. split; [|lia].
    rewrite Htl. f_equal. lia.
Qed.

Lemma strlen_drop (k : nat) :
  forall (p : list Z) (L : Z),
    strlen p = Ok L -> Z.of_nat k <= L ->
    strlen (drop k p) = Ok (L - Z.of_nat k).
Proof.
  induction k as [|k IH]; intros p L Hp Hk.
  - rewrite drop_0, Hp. f_equal. lia.
  - destruct (strlen_cons p L Hp) as (c & tl & -> & HL & [[-> ->] | (Hc & Htl & H1)]);
      [lia|].
    cbn [drop]. rewrite (IH tl (L - 1) Htl) by lia. f_equal. lia.
Qed.

Lemma ParseIntList_loop_returns
      (strtoul : list Z -> Z * Z) (maxitems : Z) :
  (forall (q : list Z) (M : Z),
      strlen q = Ok M -> 0 <= snd (strtoul q) <= M) ->
  forall (fuel : nat) (p items : list Z) (n : Z) (comma : bool) (L : Z),
    strlen p = Ok L -> (Z.to_nat L < fuel)%nat ->
    0 <= n <= maxitems -> maxitems <= Z.of_nat (length items) ->
    exists (r : Z) (items' : list Z),
      ParseIntList_loop strtoul fuel p items n comma maxitems = Ok (r, items')
      /\ (r = -1 \/ n <= r <= maxitems)
      /\ length items' = length items
      /\ drop (Z.to_nat maxitems) items' = drop (Z.to_nat maxitems) items.
Proof.
  intros Hstr. induction fuel as [|fuel IH];
    intros p items n comma L Hp Hfuel Hn Hmax; [lia|].
  destruct (strlen_cons p L Hp) as (c & tl & -> & HL & Hcases).
  cbn [ParseIntList_loop]. rewrite load_head. cbn [bind].
  destruct Hcases as [[-> ->] | (Hc & Htl & H1)].
  - change (0 =? 0) with true. cbv iota.
    destruct (negb (n =? 0) && negb comma).
    + exists (-1), items. auto.
    + exists n, items. split; [reflexivity|]. split; [right; lia|]. auto.
  - destruct (Z.eqb_spec c 0) as [|_]; [contradiction|].
    change (drop 1 (c :: tl)) with tl.
    destruct (c =? chr ",").
    { destruct (negb comma).
      - exists (-1), items. auto.
      - apply (IH tl items n false (L - 1)); auto; lia. }
    destruct (c =? chr " ").
    { apply (IH tl items n comma (L - 1)); auto; lia. }
    destruct (Z.eqb_spec n maxitems) as [|Hlt].
    { exists (-1), items. auto. }
    pose proof (Hstr (c :: tl) L Hp) as Hlen.
    destruct (strtoul (c :: tl)) as [v len]. cbn [snd] in Hlen.
    destruct (Z.eqb_spec len 0) as [|Hpos].
    { exists (-1), items. auto. }
    unfold Net.store.
    destruct (Z.leb_spec 0 n); [|lia].
    destruct (Z.ltb_spec n (Z.of_nat (length items))); [|lia].
    simpl andb. cbv iota. cbn [bind].
    destruct (IH (drop (Z.to_nat len) (c :: tl)) (<[Z.to_nat n := v]> items)
                 (n + 1) true (L - len)) as (r & items' & Hrun & Hr & Hlen' & Hdrop).
    + rewrite <- (Z2Nat.id len) at 2 by lia. apply strlen_drop; [exact Hp | lia].
    + lia.
    + lia.
    + rewrite length_insert. lia.
    + exists r, items'. split; [exact Hrun|].
      split; [destruct Hr; [left; assumption | right; lia]|].
      split; [rewrite Hlen', length_insert; reflexivity|].
      rewrite Hdrop. apply drop_insert_lt. lia.
Qed.

Lemma strlen_length (p : list Z) (L : Z) :
  strlen p = Ok L -> (Z.to_nat L < length p)%nat.
Proof.
  revert L. induction p as [|c tl IH]; intros L Hp; [discriminate Hp|].
  destruct (strlen_cons (c :: tl) L Hp) as (c' & tl' & [= <- <-] & HL & Hc).
  destruct Hc as [[_ ->] | (_ & Htl & H1)]; [simpl; lia|].
  specialize (IH _ Htl). simpl. lia.
Qed.

(** X22.  [ParseIntList] on a text that ends in a NUL, with a [strtoul] that
    stays within the text: the call always returns, it reads nothing behind
    the NUL, and what it returns is -1 or a number of items from 0 to
    [maxitems].  The array keeps its length and is left as it was from
    [maxitems] on: no item is written outside the room the caller gave. *)
Theorem ParseIntList_stays_in_bounds
        (strtoul : list Z -> Z * Z) (p items : list Z) (maxitems L : Z) :
  (forall (q : list Z) (M : Z),
      strlen q = Ok M -> 0 <= snd (strtoul q) <= M) ->
  strlen p = Ok L ->
  0 <= maxitems <= Z.of_nat (length items) ->
  exists (r : Z) (items' : list Z),
    ParseIntList strtoul p items maxitems = Ok (r, items')
    /\ (r = -1 \/ 0 <= r <= maxitems)
    /\ length items' = length items
    /\ drop (Z.to_nat maxitems) items' = drop (Z.to_nat maxitems) items.
Proof.
  intros Hstr Hp Hmax. unfold ParseIntList.
  apply (ParseIntList_loop_returns strtoul maxitems Hstr (S (length p)) p items
           0 false L Hp).
  - pose proof (strlen_length p L Hp). lia.
  - lia.
  - lia.
Qed.

Lemma one_digit_within (q : list Z) (M : Z) :
  strlen q = Ok M -> 0 <= snd (one_digit q) <= M.
Proof.
  intros Hq. destruct (strlen_cons q M Hq) as (c & tl & -> & HM & Hc).
  unfold one_digit.
  destruct ((c >=? chr "0") && (c <=? chr "9")) eqn:Hd; cbn [snd]; [|lia].
  destruct Hc as [[-> _] | (_ & _ & H1)]; [discriminate Hd | lia].
Qed.

Lemma ParseIntList_stays_in_bounds_witness :
  let p := [chr "1"; chr ","; chr " "; chr "2"; chr ","; chr "3"; 0] in
  ParseIntList one_digit p [7; 7; 7] 2 = Ok (-1, [1; 2; 7])
  /\ exists (r : Z) (items' : list Z),
      ParseIntList one_digit p [7; 7; 7] 2 = Ok (r, items')
      /\ (r = -1 \/ 0 <= r <= 2)
      /\ length items' = length [7; 7; 7]
      /\ drop (Z.to_nat 2) items' = drop (Z.to_nat 2) [7; 7; 7].
Proof.
  intros p. split; [reflexivity|].
  apply (ParseIntList_stays_in_bounds one_digit p [7; 7; 7] 2 6
           one_digit_within eq_refl).
  simpl. lia.
Defined.

Lemma ParseIntList_loop_number
      (strtoul : list Z -> Z * Z) (token : list Z * Z)
      (fuel : nat) (c : Z) (rest items : list Z) (n : Z) (comma : bool)
      (maxitems : Z) :
  reads strtoul token -> c = 0 \/ c = chr "," ->
  ParseIntList_loop strtoul (S fuel) (fst token ++ c :: rest) items n comma
                    maxitems
  = if n =? maxitems then Ok (-1, items)
    else
      let* items := Net.store items n (snd token) in
      ParseIntList_loop strtoul fuel (c :: rest) items (n + 1) true maxitems.
Proof.
  intros [(a & t' & Ht & Ha0 & Hac & Hab) Hreads] Hc.
  cbn [ParseIntList_loop]. rewrite (Hreads c rest Hc).
  rewrite Ht. cbn [app]. rewrite load_head. cbn [bind].
  destruct (Z.eqb_spec a 0); [contradiction|].
  destruct (Z.eqb_spec a (chr ",")); [contradiction|].
  destruct (Z.eqb_spec a (chr " ")); [contradiction|].
  destruct (n =? maxitems); [reflexivity|].
  destruct (Z.eqb_spec (Z.of_nat (length (a :: t'))) 0) as [E|_];
    [simpl in E; lia|].
  rewrite Nat2Z.id.
  change (a :: t' ++ c :: rest) with ((a :: t') ++ c :: rest).
  rewrite drop_app_length. reflexivity.
Qed.

Lemma ParseIntList_loop_tokens
      (strtoul : list Z -> Z * Z) (maxitems c : Z) (rest : list Z)
      (K : Z -> list Z -> result (Z * list Z)) :
  c = 0 \/ c = chr "," ->
  (forall (f : nat) (n' : Z) (items' : list Z),
      (length (c :: rest) < f)%nat -> 1 <= n' ->
      ParseIntList_loop strtoul f (c :: rest) items' n' true maxitems
      = K n' items') ->
  forall (tokens : list (list Z * Z)),
    tokens <> [] -> Forall (reads strtoul) tokens ->
    forall (fuel : nat) (done todo : list Z),
      (length (comma_list (map fst tokens) ++ c :: rest) < fuel)%nat ->
      Z.of_nat (length done) <= maxitems <= Z.of_nat (length (done ++ todo)) ->
      ParseIntList_loop strtoul fuel (comma_list (map fst tokens) ++ c :: rest)
                        (done ++ todo) (Z.of_nat (length done)) false maxitems
      = if Z.of_nat (length done + length tokens) <=? maxitems
        then K (Z.of_nat (length done + length tokens))
               (done ++ map snd tokens ++ drop (length tokens) todo)
        else
          let k := (Z.to_nat maxitems - length done)%nat in
          Ok (-1, done ++ map snd (take k tokens) ++ drop k todo).
Proof.
  intros Hc HK tokens. induction tokens as [|token tokens IH]; [contradiction|].
  intros _ Hreads fuel done todo Hfuel Hmax.
  apply Forall_cons in Hreads. destruct Hreads as [Hread Hreads].
  destruct fuel as [|fuel]; [lia|].
  assert (Htlen : (1 <= length (fst token))%nat).
  { destruct Hread as [(a & t' & -> & _) _]. simpl. lia. }
  assert (Hstore : Z.of_nat (length done) <> maxitems ->
                   exists (o : Z) (todo' : list Z),
                     todo = o :: todo'
                     /\ Net.store (done ++ todo) (Z.of_nat (length done)) (snd token)
                        = Ok ((done ++ [snd token]) ++ todo')).
  { intros Hne. destruct todo as [|o todo'].
    - rewrite app_nil_r in Hmax. lia.
    - exists o, todo'. split; [reflexivity|].
      rewrite (store_app done todo' o (snd token)) by reflexivity.
      rewrite <- app_assoc. reflexivity. }
  destruct tokens as [|token2 tokens].
  - cbn [map comma_list] in *.
    rewrite (ParseIntList_loop_number strtoul token fuel c rest) by assumption.
    destruct (Z.eqb_spec (Z.of_nat (length done)) maxitems) as [E|Hne].
    + destruct (Z.leb_spec (Z.of_nat (length done + length [token])) maxitems)
        as [Hle|_]; [simpl in Hle; lia|].
      cbv zeta. replace (Z.to_nat maxitems - length done)%nat with 0%nat by lia.
      reflexivity.
    + destruct (Hstore Hne) as (o & todo' & -> & ->). cbn [bind].
      destruct (Z.leb_spec (Z.of_nat (length done + length [token])) maxitems)
        as [_|Hgt]; [|simpl in Hgt; lia].
      rewrite HK.
      * rewrite <- app_assoc. simpl. f_equal. lia.
      * rewrite length_app in Hfuel. simpl in *. lia.
      * lia.
  - change (comma_list (map fst (token :: token2 :: tokens)))
      with (fst token ++ chr "," :: comma_list (map fst (token2 :: tokens)))
      in *.
    rewrite <- app_assoc in *. cbn [app] in *.
    rewrite (ParseIntList_loop_number strtoul token fuel (chr ",")) by auto.
    destruct (Z.eqb_spec (Z.of_nat (length done)) maxitems) as [E|Hne].
    + destruct (Z.leb_spec
                  (Z.of_nat (length done + length (token :: token2 :: tokens)))
                  maxitems) as [Hle|_]; [simpl in Hle; lia|].
      cbv zeta. replace (Z.to_nat maxitems - length done)%nat with 0%nat by lia.
      reflexivity.
    + destruct (Hstore Hne) as (o & todo' & -> & ->). cbn [bind].
      destruct fuel as [|fuel];
        [rewrite length_app in Hfuel; simpl in Hfuel; lia|].
      cbn [ParseIntList_loop]. rewrite load_head. cbn [bind].
      change (chr "," =? 0) with false. change (chr "," =? chr ",") with true.
      simpl negb. cbv iota.
      change (drop 1 (chr "," :: comma_list (map fst (token2 :: tokens))
                        ++ c :: rest))
        with (comma_list (map fst (token2 :: tokens)) ++ c :: rest).
      replace (Z.of_nat (length done) + 1)
        with (Z.of_nat (length (done ++ [snd token])))
        by (rewrite length_app; simpl; lia).
      rewrite (IH ltac:(discriminate) Hreads fuel (done ++ [snd token]) todo').
      * rewrite !length_app. simpl length.
        replace (length done + 1 + S (length tokens))%nat
          with (length done + S (S (length tokens)))%nat by lia.
        destruct (Z.leb_spec (Z.of_nat (length done + S (S (length tokens))))
                             maxitems) as [Hle|Hgt].
        -- rewrite <- app_assoc. reflexivity.
        -- cbv zeta.
           replace (Z.to_nat maxitems - length done)%nat
             with (S (Z.to_nat maxitems - (length done + 1)))%nat by lia.
           rewrite <- app_assoc. reflexivity.
      * rewrite length_app in Hfuel. cbn [length] in Hfuel. lia.
      * rewrite !length_app in *. cbn [length] in *. lia.
Qed.

Lemma ParseIntList_tokens
      (strtoul : list Z -> Z * Z) (maxitems c : Z) (rest : list Z)
      (K : Z -> list Z -> result (Z * list Z))
      (tokens : list (list Z * Z)) (items : list Z) :
  c = 0 \/ c = chr "," ->
  (forall (f : nat) (n' : Z) (items' : list Z),
      (length (c :: rest) < f)%nat -> 1 <= n' ->
      ParseIntList_loop strtoul f (c :: rest) items' n' true maxitems
      = K n' items') ->
  tokens <> [] -> Forall (reads strtoul) tokens ->
  0 <= maxitems <= Z.of_nat (length items) ->
  ParseIntList strtoul (comma_list (map fst tokens) ++ c :: rest) items maxitems
  = if Z.of_nat (length tokens) <=? maxitems
    then K (Z.of_nat (length tokens))
           (map snd tokens ++ drop (length tokens) items)
    else Ok (-1, map snd (take (Z.to_nat maxitems) tokens)
                 ++ drop (Z.to_nat maxitems) items).
Proof.
  intros Hc HK Hne Hreads Hmax. unfold ParseIntList.
  pose proof (ParseIntList_loop_tokens strtoul maxitems c rest K Hc HK tokens
                Hne Hreads
                (S (length (comma_list (map fst tokens) ++ c :: rest)))
                [] items ltac:(lia) ltac:(simpl; lia)) as Hrun.
  cbn [app length] in Hrun. change (Z.of_nat 0) with 0 in Hrun.
  rewrite Hrun. cbn [Nat.add]. rewrite Nat.sub_0_r. reflexivity.
Qed.


Lemma one_digit_reads (d : Z) :
  0 <= d <= 9 -> reads one_digit ([chr "0" + d], d).
Proof.
  intros Hd. split.
  - exists (chr "0" + d), []. change (chr "0") with 48.
    change (chr ",") with 44. change (chr " ") with 32.
    split; [reflexivity|]. lia.
  - intros c rest _. cbn [fst snd app one_digit length].
    change (chr "0") with 48. change (chr "9") with 57.
    destruct (Z.geb_spec (48 + d) 48); [|lia].
    destruct (Z.leb_spec (48 + d) 57); [|lia].
    simpl. f_equal. lia.
Qed.


(** ** [LoadIntList] *)

Lemma LoadIntList_copy_run (conv : Z -> Z) (items : list Z) (k : nat) :
  forall (fuel : nat) (done todo : list Z),
    (k <= fuel)%nat -> (length done + k <= length items)%nat ->
    (k <= length todo)%nat ->
    LoadIntList_copy fuel conv (Z.of_nat (length done))
                     (Z.of_nat (length done + k)) items (done ++ todo)
    = Ok (done ++ map conv (take k (drop (length done) items)) ++ drop k todo).
Proof.
  induction k as [|k IH]; intros fuel done todo Hfuel Hitems Htodo.
  - rewrite Nat.add_0_r.
    destruct fuel; cbn [LoadIntList_copy]; rewrite Z.eqb_refl; reflexivity.
  - destruct fuel as [|fuel]; [lia|]. cbn [LoadIntList_copy].
    destruct (Z.eqb_spec (Z.of_nat (length done)) (Z.of_nat (length done + S k)));
      [lia|].
    destruct (drop (length done) items) as [|v tl] eqn:Hdrop.
    { apply (f_equal (@length Z)) in Hdrop. rewrite length_drop in Hdrop.
      simpl in Hdrop. lia. }
    assert (Hv : items !! length done = Some v).
    { rewrite <- (Nat.add_0_r (length done)), <- lookup_drop, Hdrop. reflexivity. }
    rewrite (load_lookup items (Z.of_nat (length done)) v)
      by (try rewrite Nat2Z.id; auto; lia).
    cbn [bind]. destruct todo as [|o todo]; [simpl in Htodo; lia|].
    rewrite (store_app done todo o (conv v)) by reflexivity. cbn [bind].
    replace (done ++ conv v :: todo) with ((done ++ [conv v]) ++ todo)
      by (rewrite <- app_assoc; reflexivity).
    replace (Z.of_nat (length done) + 1) with (Z.of_nat (length (done ++ [conv v])))
      by (rewrite length_app; simpl; lia).
    replace (length done + S k)%nat with (length (done ++ [conv v]) + k)%nat
      by (rewrite length_app; simpl; lia).
    rewrite IH.
    + rewrite <- app_assoc. cbn [app take map drop].
      replace (drop (length (done ++ [conv v])) items) with tl; [reflexivity|].
      rewrite length_app. simpl length.
      rewrite <- drop_drop, Hdrop. reflexivity.
    + lia.
    + rewrite length_app. simpl. lia.
    + simpl in Htodo. lia.
Qed.

Lemma LoadIntList_copy_leaves (conv : Z -> Z) (items : list Z) (nitems : Z)
      (k : nat) :
  forall (fuel : nat) (i : Z) (array : list Z),
    (k < fuel)%nat -> 0 <= i -> i + Z.of_nat k = Z.of_nat (length items) ->
    nitems < 0 \/ Z.of_nat (length items) < nitems ->
    LoadIntList_copy fuel conv i nitems items array = Fault OutOfBounds.
Proof.
  induction k as [|k IH]; intros fuel i array Hfuel Hi Hk Hn;
    (destruct fuel as [|fuel]; [lia|]); cbn [LoadIntList_copy];
    (destruct (Z.eqb_spec i nitems); [lia|]).
  - unfold Net.load. destruct (Z.ltb_spec i 0); [reflexivity|].
    rewrite lookup_ge_None_2 by lia. reflexivity.
  - destruct (Net.load items i) as [v|f] eqn:Hload.
    + cbn [bind]. destruct (Net.store array i (conv v)) as [array'|f] eqn:Hstore.
      * cbn [bind]. apply IH; lia.
      * cbn [bind]. unfold Net.store in Hstore.
        destruct ((0 <=? i) && (i <? Z.of_nat (length array)));
          [discriminate Hstore | injection Hstore as <-; reflexivity].
    + cbn [bind]. unfold Net.load in Hload.
      destruct (i <? 0); [injection Hload as <-; reflexivity|].
      destruct (items !! Z.to_nat i);
        [discriminate Hload | injection Hload as <-; reflexivity].
Qed.

Lemma ParseIntList_numbers
      (strtoul : list Z -> Z * Z) (tokens : list (list Z * Z))
      (items junk : list Z) (maxitems : Z) :
  Forall (reads strtoul) tokens ->
  0 <= maxitems <= Z.of_nat (length items) ->
  ParseIntList strtoul (comma_list (map fst tokens) ++ 0 :: junk) items maxitems
  = if Z.of_nat (length tokens) <=? maxitems
    then Ok (Z.of_nat (length tokens),
             map snd tokens ++ drop (length tokens) items)
    else Ok (-1, map snd (take (Z.to_nat maxitems) tokens)
                 ++ drop (Z.to_nat maxitems) items).
Proof.
  intros Hreads Hmax. destruct tokens as [|token tokens].
  - destruct (Z.leb_spec (Z.of_nat (length (@nil (list Z * Z)))) maxitems)
      as [_|H]; [reflexivity | simpl in H; lia].
  - apply (ParseIntList_tokens strtoul maxitems 0 junk
             (fun n' items' => Ok (n', items')) (token :: tokens) items);
      [left; reflexivity | | discriminate | exact Hreads | exact Hmax].
    intros f n' items' Hf Hn'. destruct f as [|f]; [lia|].
    cbn [ParseIntList_loop]. rewrite load_head. cbn [bind].
    change (0 =? 0) with true. cbv iota. rewrite andb_false_r. reflexivity.
Qed.

Lemma element_bits_copy
      (strtoul : list Z -> Z * Z) (stack : list Z) (str : option (list Z))
      (array : list Z) (nelems : Z) (type : VarType) (bits : Z) :
  element_bits type = Some bits ->
  LoadIntList strtoul stack str array nelems type
  = match str with
    | None =>
        let* array :=
          LoadIntList_copy (S (length (replicate 64 0))) (wrap bits) 0 nelems
                           (replicate 64 0) array in
        Ok (true, array)
    | Some str =>
        let* '(nitems, items) := ParseIntList strtoul str stack 64 in
        if negb (nitems =? nelems) then Ok (false, array)
        else
          let* array :=
            LoadIntList_copy (S (length items)) (wrap bits) 0 nitems items
                             array in
          Ok (true, array)
    end.
Proof.
  intros Hbits. unfold LoadIntList.
  destruct type; simpl in Hbits; try discriminate Hbits;
    injection Hbits as <-; reflexivity.
Qed.

(** X24.  [LoadIntList] on numbers with one comma between them, for an array
    of bytes, of [uint16] or of [uint32]: when there are exactly [nelems]
    numbers, 64 at most, it returns [true] and the first [nelems] elements of
    the array hold the values, each one cut to the width of an element, the
    rest of the array being left alone; with any other count of numbers it
    returns [false] and leaves the array alone.  Without a text ([str] is
    null) the first [nelems] elements are set to 0, as long as [nelems] is 64
    at most; with more than 64 the copy leaves the 64 local items. *)
Theorem LoadIntList_loads
        (strtoul : list Z -> Z * Z) (tokens : list (list Z * Z))
        (stack junk array : list Z) (nelems : Z) (type : VarType) (bits : Z) :
  Forall (reads strtoul) tokens -> length stack = 64%nat ->
  0 <= nelems <= Z.of_nat (length array) ->
  element_bits type = Some bits ->
  let str := comma_list (map fst tokens) ++ 0 :: junk in
  (Z.of_nat (length tokens) = nelems -> nelems <= 64 ->
   LoadIntList strtoul stack (Some str) array nelems type
   = Ok (true, map (fun token => wrap bits (snd token)) tokens
               ++ drop (length tokens) array))
  /\ (Z.of_nat (length tokens) <> nelems \/ 64 < nelems ->
      LoadIntList strtoul stack (Some str) array nelems type = Ok (false, array))
  /\ (nelems <= 64 ->
      LoadIntList strtoul stack None array nelems type
      = Ok (true, replicate (Z.to_nat nelems) 0 ++ drop (Z.to_nat nelems) array))
  /\ (64 < nelems ->
      LoadIntList strtoul stack None array nelems type = Fault OutOfBounds).
Proof.
  intros Hreads Hstack Hnelems Hbits str.
  assert (Hparse : ParseIntList strtoul str stack 64
                   = if Z.of_nat (length tokens) <=? 64
                     then Ok (Z.of_nat (length tokens),
                              map snd tokens ++ drop (length tokens) stack)
                     else Ok (-1, map snd (take (Z.to_nat 64) tokens)
                                  ++ drop (Z.to_nat 64) stack)).
  { apply ParseIntList_numbers; [exact Hreads | lia]. }
  split; [|split; [|split]].
  - intros Hcount H64.
    rewrite (element_bits_copy strtoul stack (Some str) array nelems type bits Hbits).
    rewrite Hparse.
    destruct (Z.leb_spec (Z.of_nat (length tokens)) 64) as [_|]; [|lia].
    cbn [bind]. rewrite <- Hcount. rewrite Z.eqb_refl. simpl negb. cbv iota.
    pose proof (LoadIntList_copy_run (wrap bits)
                  (map snd tokens ++ drop (length tokens) stack)
                  (length tokens)
                  (S (length (map snd tokens ++ drop (length tokens) stack)))
                  [] array) as Hrun.
    cbn [app length Nat.add] in Hrun. change (Z.of_nat 0) with 0 in Hrun.
    rewrite drop_0 in Hrun.
    rewrite Hrun.
    + cbn [bind]. f_equal. f_equal.
      rewrite take_app_length' by (rewrite length_map; reflexivity).
      rewrite map_map. reflexivity.
    + rewrite length_app, length_map. lia.
    + rewrite length_app, length_map. lia.
    + lia.
  - intros Hcount.
    rewrite (element_bits_copy strtoul stack (Some str) array nelems type bits Hbits).
    rewrite Hparse.
    destruct (Z.leb_spec (Z.of_nat (length tokens)) 64) as [Hle|Hgt]; cbn [bind].
    + destruct (Z.eqb_spec (Z.of_nat (length tokens)) nelems) as [E|_];
        [lia | reflexivity].
    + destruct (Z.eqb_spec (-1) nelems) as [E|_]; [lia | reflexivity].
  - intros H64.
    rewrite (element_bits_copy strtoul stack None array nelems type bits Hbits).
    pose proof (LoadIntList_copy_run (wrap bits) (replicate 64 0)
                  (Z.to_nat nelems) (S (length (replicate 64 (0 : Z))))
                  [] array) as Hrun.
    cbn [app length Nat.add] in Hrun. change (Z.of_nat 0) with 0 in Hrun.
    rewrite drop_0 in Hrun. rewrite Z2Nat.id in Hrun by lia.
    rewrite Hrun.
    + cbn [bind]. f_equal. f_equal. f_equal.
      rewrite take_replicate. rewrite Nat.min_l by lia.
      assert (Hz : forall k : nat, map (wrap bits) (replicate k 0) = replicate k 0).
      { intros k. induction k as [|k IHk]; [reflexivity|].
        cbn [replicate map]. rewrite IHk. reflexivity. }
      apply Hz.
    + rewrite length_replicate. lia.
    + rewrite length_replicate. lia.
    + lia.
  - intros H64.
    rewrite (element_bits_copy strtoul stack None array nelems type bits Hbits).
    rewrite (LoadIntList_copy_leaves (wrap bits) (replicate 64 0) nelems 64);
      [reflexivity | | lia | | ];
      rewrite ?length_replicate; lia.
Qed.

Lemma LoadIntList_loads_witness :
  let tokens := [([chr "0" + 4], 4); ([chr "0" + 0], 0); ([chr "0" + 9], 9)] in
  let stack := replicate 64 0xAA in
  let str := comma_list (map fst tokens) ++ 0 :: [] in
  LoadIntList one_digit stack (Some str) [7; 7; 7; 7] 3 SLE_VAR_U8
  = Ok (true, [4; 0; 9; 7])
  /\ LoadIntList one_digit stack (Some str) [7; 7; 7; 7] 4 SLE_VAR_U8
     = Ok (false, [7; 7; 7; 7])
  /\ LoadIntList one_digit stack None [7; 7; 7; 7] 3 SLE_VAR_U8
     = Ok (true, [0; 0; 0; 7]).
Proof.
  intros tokens stack str.
  assert (Hreads : Forall (reads one_digit) tokens).
  { repeat constructor; apply one_digit_reads; lia. }
  assert (H3 : 0 <= 3 <= Z.of_nat (length [7; 7; 7; 7])) by (simpl; lia).
  assert (H4 : 0 <= 4 <= Z.of_nat (length [7; 7; 7; 7])) by (simpl; lia).
  destruct (LoadIntList_loads one_digit tokens stack [] [7; 7; 7; 7] 3
              SLE_VAR_U8 8 Hreads eq_refl H3 eq_refl) as (Hload & _ & Hnull & _).
  destruct (LoadIntList_loads one_digit tokens stack [] [7; 7; 7; 7] 4
              SLE_VAR_U8 8 Hreads eq_refl H4 eq_refl) as (_ & Hfalse & _).
  split; [exact (Hload eq_refl ltac:(lia))|].
  split; [apply Hfalse; left; simpl; lia|].
  exact (Hnull ltac:(lia)).
Defined.

End SettingsFacts.
